(* ===== verification/_CoqProject ===== *)
-Q . S2P
Prelude.v
CMonad.v
KHeap.v
CircularBuffer.v
KernelApi.v
DeviceSpec.v
CharDriver.v
DriverRep.v
DriverRefinement.v
DriverProperties.v
DriverConcurrent.v
Libc.v
FileDev.v
DriverDevice.v
Process.v
TcpConnection.v
TcpReceive.v
TcpSend.v
ReceiveSafety.v
TcpProperties.v
SList.v
Queue.v
QueueShape.v
QueueSpec.v
QueueLoops.v
TailQ.v
StailQ.v
ListQ.v
SListQ.v
QueueDebug.v
ConnectionManager.v
ServerSpec.v
HandleMessage.v
Session.v
PlainFile.v
TimerVariant.v
SavePacket.v
ManagerLife.v
ServerProperties.v
TimerProperties.v
EndToEnd.v
ThreadFrame.v
ThreadMemory.v
ServerThreads.v
Answers.v
ThreadSafety.v
ServerEvents.v
AtomicServer.v
AtomicRefinement.v
Shutdown.v
ShutdownContexts.v
ShutdownEnds.v
ThreadProperties.v
TimerThreads.v
TimerInvariant.v
TimerSteps.v
TimerRefines.v
TcpServer.v
TcpServerProperties.v
ServerMain.v
ServerLife.v
ServerMainProperties.v
ServerRun.v
ServerRefines.v
Progress.v
WholeSystem.v
SystemCalls.v
Threading.v
Writer.v
Autotest.v
