(* ===== verification/Prelude.v ===== *)
(** * The AESD character driver and socket server

    The repository has two programs that work together and three small ones. The kernel
    module [src/aesd-char-driver] provides the device [/dev/aesdchar], which keeps the last
    ten newline-terminated commands written to it. The server [src/server] accepts
    connections on port 9000; a thread for each client receives lines, writes each to the
    device (or performs a seek for a line [AESDCHAR_IOCSEEKTO:x,y]) and sends the
    device's contents back. [src/finder-app/writer.c] and [src/examples] stand alone.

    This development translates their C code into executable definitions and proves what
    each part promises, up to one theorem about everything at once ([system_refines_atomic]).
    All code below is named relative to [src/].

    ** How code is modelled

    C functions are computations of the monad [M] of [CMonad] over a record of the
    state they touch: [M S A] returns a value and a new state, or a [fault]. A fault is
    anything the C code must not do or from which it does not return: an access outside a
    live object, a wrong [free], an unlock of a free mutex, a failed [assert], an input call
    that waits for ever, [exit]. [wp m Q s] says that [m] does not fault from [s] and
    ends in [Q]: the theorems about code that touches memory are memory safety and
    functional correctness at once. [wlp] is its partial form, used for the steps of
    concurrent systems only.

    Integers are [Z] with the wrap-around of their C type written out ([u8], [u32], [u64],
    [i32], [i64] below; LP64). Memory is a finite map from addresses to byte lists
    ([KHeap]); pointers are NULL, the kernel's [ZERO_SIZE_PTR] or an address. Allocation may
    fail and may return any fresh address. [owns] describes a heap by exactly the objects
    in it, so that a leak or a double free falsifies a theorem's conclusion.

    What is not code of the repository is a type class of operations, with a second class
    of the laws the code relies on: [Kernel] (kmalloc, copy_from_user, mutexes, the
    device registry, ...), [Libc] (malloc), [Sockets] (what [send] does), [Stdio] (how
    [fprintf] cuts text into [write] calls), [Pthreads], [NetSetup] (getaddrinfo, socket,
    bind, accept, ...), [Disk] (what a file system refuses), [Timers], [Host], [ProcSys],
    [ThreadSys], [WriterSys]. Each law is documented
    behaviour, and each has a concrete instance on which the theorems are evaluated:
    the witness of a theorem is named after it.

    ** The parts

    - [CircularBuffer]: [aesd-char-driver/aesd-circular-buffer.c] and its header. A
      buffer stands for the list of its entries from oldest to newest ([contents]);
      [cb_wf] is its invariant. Insertion refines [push], the search for a file position and
      the position of an entry are equal to list functions and inverse to each other.
    - [KernelApi], [CharDriver]: [aesd-char-driver/main.c]. Every file operation and the
      module's start and end are computations over the [world]: kernel heap, user memory,
      open files, registry, the device.
    - [DeviceSpec]: the abstract device, a list of commands and the bytes written since the
      last newline ([dstate], [d_write], [d_read], [d_seek]).
    - [DriverRep], [DriverRefinement], [DriverProperties]: the representation [dev_rep] of an
      abstract device by the driver's memory, and that every operation refines the abstract
      one on every path, errors included, leaks nothing and releases the lock;
      [driver_trace_refines] says so for sequences of operations on several files.
    - [DriverConcurrent]: processes that call the driver at the same time, each call in steps,
      around and inside the mutex. The steps carry events: calls, their execution, the results that
      are returned, and what processes store to their memory. [driver_linearizable]: a device that
      performs each call at one moment makes the same events.
      The mutex is what that needs ([mutex_strict]); and it is why the server's model, in
      [DriverDevice], makes a system call on the device one step.
    - [Libc], [FileDev], [Process]: what the server needs of its surroundings. [FileDev]
      is the interface between the halves: the system calls the server makes on the device,
      with laws stated over [DeviceSpec]. [spec_dev] is the abstract device as an
      instance; [DriverDevice] makes the driver itself one, and proves the laws for it.
    - [TcpConnection], [TcpReceive], [TcpSend], [TcpProperties]:
      [server/src/tcp_connection.c].
    - [SList]: the SLIST macros of [server/src/queue.h], over any element type with a
      link field.
    - [Queue], [QueueShape], [QueueSpec], [QueueLoops], [TailQ], [StailQ], [ListQ], [SListQ]: the
      four families of [queue.h]. [Queue] is the memory of heads and link fields that they
      share, with links addressed by [slot]s as the C code takes [&elm->next]; [QueueShape]
      the chains and back pointers in it; [QueueSpec] the specification [q_step] on
      a map from heads to lists, and the interface [Family] and [Implements] through which a
      family's lemmas about one macro become a theorem about any sequence of operations on any
      number of lists; [QueueLoops] the loops whose bodies unlink elements. Each family is
      one file: its macros, their lemmas, its [.._refines]. [QueueDebug] has the checks of a kernel
      with [INVARIANTS], which never panic in permitted use, catch a second removal, and accept
      exactly the well-formed lists, but also some tail queues with a wrong [tqh_last]; and the
      static initialisers.
    - [ConnectionManager]: [server/src/connection_manager.c]. [thread_routine] is
      a machine, [thread_step], with a program counter for the places between which other
      threads may run; so is [connection_manager_destroy] ([destroy_step]).
    - [ServerSpec], [HandleMessage], [Session], [ManagerLife], [ServerProperties]: the answers
      a client is promised ([serve], [serve_all]), and that a thread run alone gives
      them; registration, shutdown and the error paths of the manager.
    - [EndToEnd]: [server_over_driver], a client's session with the server on top of the
      driver, from the lines sent to the kernel's memory and back to the answers.
    - [ThreadFrame], [ServerThreads], [ThreadProperties]: any number of threads, interleaved
      step by step with arriving bytes, new clients and the shutdown flag. [sys_inv] is the
      invariant of the reachable states; from it follow mutual exclusion and that each
      message is handled and answered atomically. What it needs of the file is [FileTable], a
      class of [FileDev] that the device and the plain file both are, so these theorems hold of
      both builds. [Answers] follows an answer that is sent in several steps.
    - [ReceiveSafety], [ThreadMemory], [ThreadSafety]: the heap's part of that invariant,
      [mem_inv], and that no step of any thread does anything wrong: it returns, waits, or
      ends the process in the ways of [may_fault].
    - [Shutdown]: [connection_manager_destroy] interleaved with the threads, step by step; the
      invariant [shut_inv] says who is joined and freed so far. [ShutdownContexts]: which contexts
      are left at the end, those that no thread was created for.
    - [ShutdownEnds]: that this ends. [shut_measure] is what the threads and main have still to
      do once the flag is set; every step of theirs makes it smaller, and where no step is
      left main is through or joins a thread whose client is silent.
    - [PlainFile], [TimerVariant], [TimerProperties]: the build without
      [USE_AESD_CHAR_DEVICE]. [file_dev] is a file on a disk as an instance of [FileDev], so that
      the threads are the same definitions; the timer, its callback [thread_timer] and the
      manager's creation and destruction with it are added. A line overwrites the beginning
      of such a file ([file_serve]), the timestamps go to its end.
    - [TimerThreads], [TimerInvariant], [TimerSteps], [TimerRefines]: that build with all that
      runs in it. [timed_step] interleaves threads, clients, main and callbacks; while a callback has the
      mutex, the threads' invariants are kept for the [calm] state, which has it free.
      [timed_server_refines]: the file and the answers are those of one sequence of lines and
      timestamps.
    - [TcpServer], [TcpServerProperties]: [server/src/tcp_server.c]; [SavePacket] its function
      that nothing calls.
    - [ServerMain], [ServerMainProperties]: [server/src/main.c], whose loop is a machine
      interrupted by signals and arriving clients. [main_trans] is the whole process: main,
      the signal handler, the threads and the network. With "-d" [daemonize] opens up to three descriptors
      that stay open ([base_fds] of [ServerRun]).
    - [ServerEvents]: what can be seen of the server from outside, the trace: what arrives on each
      socket ([SE_Arrive]), which line of which client is handled when ([SE_Line]), and that the system
      drops the unread input of a socket that is closed ([SE_Discard]). The transitions of [main_trans]
      carry these events. [history] is the lines of a trace, [handled] those of one socket, [arrived]
      its input.
    - [ServerLife], [ServerRun]: the process from its start to its exit. [tight] says that
      whatever the process has is in the hands of a thread or of main, [life] is the invariant
      of [main_trans] at each place of main, along a run [small_run] and its trace;
      [server_lifetime] says that nothing goes wrong on the way and nothing is left at the end.
    - [AtomicServer], [AtomicRefinement], [ServerRefines]: what the clients see. The [atomic]
      server has no threads: it receives a line and serves it in one step. [serves] relates a
      state of the concurrent server to one of the atomic server, and every step of main, of a
      thread and of the network is a step of the atomic server with the same events: the server is
      linearizable, with the order of the trace. [atomic_accounts]: no line that arrived is
      lost, changed or handled twice.
    - [Progress]: while nothing arrives the threads come to rest after a number of steps known in
      advance, and then every line is answered. With the refinement this is total
      correctness of the concurrent server.
    - [WholeSystem]: the refinement for the server on top of the driver, from [aesd_init_module] on an
      empty kernel to [aesd_cleanup_module] after the server's exit.
    - [SystemCalls], [Threading], [Writer], [Autotest]: [examples/systemcalls/systemcalls.c],
      [examples/threading/threading.c], [finder-app/writer.c], [examples/autotest-validate]. [open]
      and [dup] return the lowest free descriptor here as in [ServerMain] ([lowest_free] below).

    ** Loops and fuel

    A loop that is not structural takes fuel, and running out is the fault [OutOfFuel], so
    every [wp] theorem shows that the fuel is enough. The search of the circular buffer
    has ten rounds, one per slot; the sum for an entry's position has 256, the range of its
    [uint8_t] counter; a loop along a list has the number of objects in the store, and the
    destruction of the manager three steps for each context and three more;
    receiving has one round per event waiting on the socket. Sending a file and a thread's
    whole run have no bound known in advance: their theorems give a number of rounds that
    is enough, for every larger one too.

    ** Bounds and assumptions

    The contents of the device must stay below 2^31 bytes where a position is an [int]
    (commands are at most [KMALLOC_MAX_SIZE] long, so they do), and a message below 2^30
    bytes, because the receive buffer's size is an [int] that doubles. The theorems on whole
    sessions assume a network that takes what is sent ([net_reliable]) and enough memory, and
    those on the whole process that threads can be created and that clients use IPv4, and the
    refinement of the atomic server that less waits on a socket than the longest command
    ([lines_small]: the device may refuse a longer line);
    the error paths without these assumptions have theorems of their own. Threads interleave
    at the places of [thread_pc]: between two of them a thread touches only what belongs to
    it, or the device inside the mutex. Weak memory is not modelled; the flag
    [close_connections] is read as it was last written.

    ** What is not modelled

    Of [queue.h] the C++ CLASS heads and the tracing macros, which are empty without
    [QUEUE_MACRO_DEBUG]; the destruction of the manager interleaved with timer callbacks, beyond
    its race with one ([timer_outlives_manager]); log output, except that the arguments of a log call
    are read, and the locks of the C library, which the [syslog] of the signal handler may find
    taken; scripts and makefiles. *)

From Stdlib Require Export Ascii ZArith Lia.
From stdpp Require Export base numbers list gmap strings.

(** ** Characters and strings

    A C [char] is an [ascii] (eight bits, all 256 values); a buffer is a list. *)

Abbreviation char := Ascii.ascii.
Abbreviation bytes := (list Ascii.ascii).

Definition str (s : string) : bytes := String.list_ascii_of_string s.
Definition NL : char := Ascii.ascii_of_nat 10.
Definition NUL : char := Ascii.ascii_of_nat 0.
Definition char_code (c : char) : Z := Z.of_N (Ascii.N_of_ascii c).

Lemma char_code_range c : (0 <= char_code c < 256)%Z.
Proof. unfold char_code. pose proof (N_ascii_bounded c). lia. Qed.

(** A character is not in a list, by computation. *)
Lemma not_elem_of_list_b (c : char) (l : bytes) :
  forallb (fun c' => negb (bool_decide (c' = c))) l = true -> c ∉ l.
Proof.
  rewrite forallb_forall. intros H Hin. apply list_elem_of_In, H in Hin. by rewrite bool_decide_true in Hin.
Qed.

#[global] Instance char_inhabited : Inhabited char := populate NUL.

(** ** Fixed-width integers (LP64: [size_t] and [unsigned long] have 64 bits) *)

Declare Scope cint_scope.
Delimit Scope cint_scope with cint.

Definition wrapu (w z : Z) : Z := z mod 2 ^ w.
Definition wraps (w z : Z) : Z := (z + 2 ^ (w - 1)) mod 2 ^ w - 2 ^ (w - 1).
Definition u8 (z : Z) : Z := wrapu 8 z.
Definition u32 (z : Z) : Z := wrapu 32 z.
Definition u64 (z : Z) : Z := wrapu 64 z.
Definition i32 (z : Z) : Z := wraps 32 z.
Definition i64 (z : Z) : Z := wraps 64 z.

#[global] Arguments wrapu : simpl never.
#[global] Arguments wraps : simpl never.
#[global] Arguments u8 : simpl never.
#[global] Arguments u32 : simpl never.
#[global] Arguments u64 : simpl never.
#[global] Arguments i32 : simpl never.
#[global] Arguments i64 : simpl never.

(** [a +u64 b] is the C sum of two [size_t]; likewise for the other operators. *)
Notation "a +u64 b" := (u64 (a + b)) (at level 50, left associativity) : cint_scope.
Notation "a -u64 b" := (u64 (a - b)) (at level 50, left associativity) : cint_scope.

Lemma wrapu_small w z : (0 <= z < 2 ^ w)%Z -> wrapu w z = z.
Proof. intros. apply Z.mod_small. lia. Qed.

Lemma wrapu_range w z : (0 <= w)%Z -> (0 <= wrapu w z < 2 ^ w)%Z.
Proof. intros. apply Z.mod_pos_bound. apply Z.pow_pos_nonneg; lia. Qed.

Lemma wraps_small w z :
  (0 < w)%Z -> (- 2 ^ (w - 1) <= z < 2 ^ (w - 1))%Z -> wraps w z = z.
Proof.
  intros Hw Hz. unfold wraps.
  assert (2 ^ w = 2 * 2 ^ (w - 1))%Z as E.
  { rewrite <- Z.pow_succ_r by lia. f_equal. lia. }
  rewrite Z.mod_small; lia.
Qed.

Lemma u8_small z : (0 <= z < 256)%Z -> u8 z = z.
Proof. intros. apply wrapu_small. lia. Qed.
Lemma u32_small z : (0 <= z < 2 ^ 32)%Z -> u32 z = z.
Proof. apply wrapu_small. Qed.
Lemma u64_small z : (0 <= z < 2 ^ 64)%Z -> u64 z = z.
Proof. apply wrapu_small. Qed.
Lemma i32_small z : (- 2 ^ 31 <= z < 2 ^ 31)%Z -> i32 z = z.
Proof. intros. apply wraps_small; lia. Qed.
Lemma i64_small z : (- 2 ^ 63 <= z < 2 ^ 63)%Z -> i64 z = z.
Proof. intros. apply wraps_small; lia. Qed.

Lemma u32_range z : (0 <= u32 z < 2 ^ 32)%Z.
Proof. apply wrapu_range. lia. Qed.

(** ** Lengths and sums over lists *)

Definition zlen {A} (l : list A) : Z := Z.of_nat (length l).

Lemma zlen_nil {A} : zlen (@nil A) = 0%Z.
Proof. reflexivity. Qed.
Lemma zlen_cons {A} (x : A) l : zlen (x :: l) = (1 + zlen l)%Z.
Proof. unfold zlen. simpl. lia. Qed.
Lemma zlen_app {A} (l k : list A) : zlen (l ++ k) = (zlen l + zlen k)%Z.
Proof. unfold zlen. rewrite length_app. lia. Qed.
Lemma zlen_nonneg {A} (l : list A) : (0 <= zlen l)%Z.
Proof. unfold zlen. lia. Qed.
Lemma zlen_pos {A} (l : list A) : l <> [] -> (0 < zlen l)%Z.
Proof. destruct l; [done|]. rewrite zlen_cons. pose proof (zlen_nonneg l). lia. Qed.
Lemma zlen_to_nat {A} (l : list A) : Z.to_nat (zlen l) = length l.
Proof. unfold zlen. lia. Qed.
Lemma zlen_0_nil {A} (l : list A) : zlen l = 0%Z -> l = [].
Proof. destruct l; [done|]. rewrite zlen_cons. pose proof (zlen_nonneg l). lia. Qed.

Lemma zlen_inj {A B} (l : list A) (k : list B) : zlen l = zlen k -> length l = length k.
Proof. unfold zlen. lia. Qed.

Definition zsum (l : list Z) : Z := foldr Z.add 0%Z l.

Lemma zsum_nil : zsum [] = 0%Z.
Proof. reflexivity. Qed.
Lemma zsum_cons x l : zsum (x :: l) = (x + zsum l)%Z.
Proof. reflexivity. Qed.
Lemma zsum_app l k : zsum (l ++ k) = (zsum l + zsum k)%Z.
Proof. induction l as [|x l IH]; [done|]. rewrite <- app_comm_cons, !zsum_cons, IH. lia. Qed.
Lemma zsum_nonneg l : Forall (fun x => 0 <= x)%Z l -> (0 <= zsum l)%Z.
Proof. induction 1; rewrite ?zsum_nil, ?zsum_cons; lia. Qed.
Lemma zsum_concat (ls : list bytes) : zsum (zlen <$> ls) = zlen (concat ls).
Proof.
  induction ls as [|l ls IH]; [reflexivity|].
  rewrite fmap_cons, zsum_cons, IH. simpl. by rewrite zlen_app.
Qed.

Create Rewrite HintDb zlen.
#[export] Hint Rewrite @zlen_nil @zlen_cons @zlen_app zsum_nil zsum_cons zsum_app : zlen.

(** The last [n] elements of a list: what a bounded history keeps. *)
Definition lastn {A} (n : nat) (l : list A) : list A := drop (length l - n) l.

Lemma lastn_all {A} n (l : list A) : length l <= n -> lastn n l = l.
Proof. intros. unfold lastn. replace (length l - n) with 0 by lia. done. Qed.
Lemma length_lastn {A} n (l : list A) : length (lastn n l) = min n (length l).
Proof. unfold lastn. rewrite length_drop. lia. Qed.
Lemma lastn_app_one {A} n (l : list A) x :
  length l = S n -> lastn (S n) (l ++ [x]) = drop 1 l ++ [x].
Proof.
  intros H. unfold lastn. rewrite length_app, H. simpl length.
  replace (S n + 1 - S n) with 1 by lia.
  rewrite drop_app_le; [done|lia].
Qed.
Lemma lastn_app_lastn {A} n (l k : list A) : lastn n (lastn n l ++ k) = lastn n (l ++ k).
Proof.
  unfold lastn at 1 3. rewrite !length_app, length_lastn. unfold lastn.
  destruct (decide (length l <= n)).
  - replace (length l - n) with 0 by lia. rewrite drop_0. f_equal. lia.
  - rewrite drop_app, drop_drop, length_drop, drop_app.
    f_equal; f_equal; lia.
Qed.

(** A list is empty or has a last element. *)
Lemma lastn_cases {A} (l : list A) : l = [] \/ exists k x, l = k ++ [x].
Proof. destruct l as [|x l] using rev_ind; [by left|]. right. by exists l, x. Qed.

Lemma take_min_length {A} n (l : list A) : take (min n (length l)) l = take n l.
Proof. destruct (decide (n <= length l)); [by rewrite Nat.min_l|]. rewrite Nat.min_r, !take_ge; done || lia. Qed.

Lemma Forall2_zip {A B} (P : A -> B -> Prop) l k :
  Forall2 P l k -> Forall (fun xy => P (fst xy) (snd xy)) (zip l k).
Proof. induction 1; constructor; done. Qed.

Lemma concat_perm {A} (l k : list (list A)) : l ≡ₚ k -> concat l ≡ₚ concat k.
Proof.
  induction 1; simpl; [done|by f_equiv| |by etrans].
  apply Permutation_app_swap_app.
Qed.

(** Deleting one key, then the others. *)
Lemma lookup_delete_list `{Countable K} {A} (m : gmap K A) (k : K) ks i :
  (if decide (i ∈ ks) then None else delete k m !! i) =
  (if decide (i ∈ k :: ks) then None else m !! i).
Proof.
  destruct (decide (i = k)) as [->|Hne].
  - rewrite lookup_delete_eq, (decide_True (P := k ∈ k :: ks)) by left. by case_decide.
  - rewrite lookup_delete_ne by done. apply decide_ext. rewrite elem_of_cons. naive_solver.
Qed.

(** ** The lowest natural number that is not in a set: the descriptor that POSIX gives out next *)

Fixpoint free_from (n : nat) (i : Z) (s : gset Z) : Z :=
  match n with
  | O => i
  | S n => if decide (i ∈ s) then free_from n (i + 1) s else i
  end.
Definition lowest_free (s : gset Z) : Z := free_from (size s) 0 s.

Lemma free_from_spec n i (s : gset Z) :
  (0 <= i)%Z -> (size s <= n + Z.to_nat i)%nat -> (forall j, (0 <= j < i)%Z -> j ∈ s) ->
  (0 <= free_from n i s)%Z /\ (free_from n i s ∉ s) /\ forall j, (0 <= j < free_from n i s)%Z -> j ∈ s.
Proof.
  revert i. induction n as [|n IH]; intros i Hi Hn Hb; simpl.
  - split; [done|]. split; [|done]. intros Hin.
    assert (list_to_set (seqZ 0 (i + 1)) ⊆ s) as Hsub.
    { intros j Hj. rewrite elem_of_list_to_set, elem_of_seqZ in Hj. destruct (decide (j = i)) as [->|]; [done|]. apply Hb. lia. }
    apply subseteq_size in Hsub. rewrite size_list_to_set, length_seqZ in Hsub; [lia|apply NoDup_seqZ].
  - case_decide as E; [|done]. apply IH; [lia|lia|]. intros j Hj. destruct (decide (j = i)) as [->|]; [done|]. apply Hb. lia.
Qed.
Lemma lowest_free_spec (s : gset Z) :
  (0 <= lowest_free s)%Z /\ (lowest_free s ∉ s) /\ forall j, (0 <= j < lowest_free s)%Z -> j ∈ s.
Proof. apply free_from_spec; [done|lia|lia]. Qed.
Lemma lowest_free_std (s : gset Z) : 0%Z ∈ s -> 1%Z ∈ s -> 2%Z ∈ s -> (2 < lowest_free s)%Z.
Proof.
  intros H0 H1 H2. destruct (lowest_free_spec s) as (Hp & Hn & _).
  destruct (decide (lowest_free s = 0)%Z); [congruence|]. destruct (decide (lowest_free s = 1)%Z); [congruence|].
  destruct (decide (lowest_free s = 2)%Z); [congruence|]. lia.
Qed.

(** ** Tactics of the development *)

(** [zlen_simp] computes lengths and sums, then calls [lia]. *)
Ltac zlen_simp := autorewrite with zlen in *; try lia.

(** [unwrap] removes the wrap-around of every [u8], [u32], [u64], [i32], [i64]
    in the goal whose argument [lia] can bound. *)
Ltac unwrap :=
  repeat match goal with
  | |- context [u8 ?z] => rewrite (u8_small z) by lia
  | |- context [u32 ?z] => rewrite (u32_small z) by lia
  | |- context [u64 ?z] => rewrite (u64_small z) by lia
  | |- context [i32 ?z] => rewrite (i32_small z) by lia
  | |- context [i64 ?z] => rewrite (i64_small z) by lia
  end.

(** [split_and_solve tac] splits a conjunction and runs [tac] on each part. *)
Ltac split_and_solve tac := repeat match goal with |- _ /\ _ => split end; try tac.
