(* ===== verification/CMonad.v ===== *)
(** A state and fault monad for C code, and its weakest preconditions.

    [M S A] threads a state of type [S]; a computation ends in [Done] or in a
    [Fault], which says why it does not return: an invalid memory access, an invalid
    [kfree], a lock operation that would block, a loop that used up the fuel its
    definition was given, a failed [assert], an input call that waits for data that
    does not come, or a call to [exit].
    [wp m Q s] says that [m] started in [s] does not fault and that its result
    and final state satisfy [Q]; it is the form of every functional theorem
    about code that touches memory. *)

From S2P Require Import Prelude.

Inductive fault :=
  | BadAccess   (** a load, store or copy outside a live object *)
  | BadFree     (** [kfree] or [free] of something that is not a live object *)
  | LockFault   (** a lock operation the lock's state does not permit *)
  | OutOfFuel   (** a loop did not end within the fuel of its definition *)
  | Aborted     (** a failed [assert], or [panic] *)
  | Blocked     (** a call waits for input and none is left *)
  | Exited.     (** the process called [exit] *)

#[global] Instance fault_eq_dec : EqDecision fault.
Proof. solve_decision. Defined.

Inductive outcome (A : Type) :=
  | Done (a : A)
  | Fault (f : fault).
Arguments Done {A} a.
Arguments Fault {A} f.

#[global] Instance outcome_eq_dec {A} `{EqDecision A} : EqDecision (outcome A).
Proof. solve_decision. Defined.

Definition M (S A : Type) : Type := S -> outcome (A * S).

Definition ret {S A} (a : A) : M S A := fun s => Done (a, s).
Definition bind {S A B} (m : M S A) (k : A -> M S B) : M S B := fun s =>
  match m s with
  | Done (a, s') => k a s'
  | Fault f => Fault f
  end.
Definition mfault {S A} (f : fault) : M S A := fun _ => Fault f.
Definition mget {S} : M S S := fun s => Done (s, s).
Definition mput {S} (s' : S) : M S unit := fun _ => Done (tt, s').
Definition mgets {S A} (g : S -> A) : M S A := fun s => Done (g s, s).
Definition mmodify {S} (g : S -> S) : M S unit := fun s => Done (tt, g s).
Definition mwhen {S} (b : bool) (m : M S unit) : M S unit := if b then m else ret tt.
(** Embed a computation that reads no state. *)
Definition mlift {S A} (o : outcome A) : M S A := fun s =>
  match o with Done a => Done (a, s) | Fault f => Fault f end.
(** An optional value: [None] is the fault [f]. *)
Definition mopt {S A} (f : fault) (o : option A) : M S A :=
  match o with Some a => ret a | None => mfault f end.

Declare Scope cmonad_scope.
Delimit Scope cmonad_scope with cm.
Notation "'let!' x := m 'in' k" := (bind m (fun x => k))
  (at level 10, x pattern, m at level 100, k at level 200)
  : cmonad_scope.
Notation "m ;; k" := (bind m (fun _ => k))
  (at level 100, k at level 200, right associativity) : cmonad_scope.

(** ** Weakest preconditions *)

Definition wp {S A} (m : M S A) (Q : A -> S -> Prop) (s : S) : Prop :=
  match m s with
  | Done (a, s') => Q a s'
  | Fault _ => False
  end.

Section wp.
Context {S : Type}.
Implicit Types s : S.

Lemma wp_ret {A} (a : A) Q s : Q a s -> wp (ret a) Q s.
Proof. done. Qed.
Lemma wp_bind {A B} (m : M S A) (k : A -> M S B) Q s :
  wp m (fun a s' => wp (k a) Q s') s -> wp (bind m k) Q s.
Proof. unfold wp, bind. by destruct (m s) as [[]|]. Qed.
Lemma wp_mono {A} (m : M S A) (Q R : A -> S -> Prop) s :
  wp m Q s -> (forall a s', Q a s' -> R a s') -> wp m R s.
Proof. unfold wp. destruct (m s) as [[]|]; eauto. Qed.
Lemma wp_get Q s : Q s s -> wp mget Q s.
Proof. done. Qed.
Lemma wp_put Q s s' : Q tt s' -> wp (mput s') Q s.
Proof. done. Qed.
Lemma wp_gets {A} (g : S -> A) Q s : Q (g s) s -> wp (mgets g) Q s.
Proof. done. Qed.
Lemma wp_modify (g : S -> S) Q s : Q tt (g s) -> wp (mmodify g) Q s.
Proof. done. Qed.
Lemma wp_when (b : bool) (m : M S unit) Q s :
  (b = true -> wp m Q s) -> (b = false -> Q tt s) -> wp (mwhen b m) Q s.
Proof. destruct b; [auto|]. intros _ H. by apply H. Qed.
Lemma wp_lift {A} (o : outcome A) a Q s : o = Done a -> Q a s -> wp (mlift o) Q s.
Proof. by intros ->. Qed.
Lemma wp_opt {A} (o : option A) a f Q s : o = Some a -> Q a s -> wp (mopt f o) Q s.
Proof. by intros ->. Qed.

(** A computation that satisfies some postcondition ends in [Done]. *)
Lemma wp_Done {A} (m : M S A) Q s :
  wp m Q s -> exists a s', m s = Done (a, s') /\ Q a s'.
Proof. unfold wp. destruct (m s) as [[a s']|]; [eauto|done]. Qed.

(** A postcondition that fixes result and state is an equation. *)
Lemma wp_eq {A} (m : M S A) a s s' :
  wp m (fun b t => b = a /\ t = s') s -> m s = Done (a, s').
Proof. unfold wp. destruct (m s) as [[]|]; [by intros [-> ->]|done]. Qed.

(** Fault-freedom of a bind splits into its parts in the other direction. *)
Lemma wp_run {A} (m : M S A) Q s a s' : m s = Done (a, s') -> wp m Q s -> Q a s'.
Proof. unfold wp. by intros ->. Qed.
End wp.

Create HintDb wp discriminated.
#[export] Hint Resolve wp_ret wp_get wp_put wp_gets wp_modify : wp.

(** [wp_step] runs one primitive of the monad, [wp_steps] as many as possible. *)
Ltac wp_step :=
  lazymatch goal with
  | |- wp (bind _ _) _ _ => apply wp_bind
  | |- wp (ret _) _ _ => apply wp_ret
  | |- wp mget _ _ => apply wp_get
  | |- wp (mput _) _ _ => apply wp_put
  | |- wp (mgets _) _ _ => apply wp_gets
  | |- wp (mmodify _) _ _ => apply wp_modify
  end.
Ltac wp_steps := repeat (wp_step; cbn beta).

(** ** Partial correctness

    [wlp m Q s]: if [m] returns, its result and final state satisfy [Q]. It describes
    the steps of a concurrent system: a step that faults or blocks is not taken. *)

Definition wlp {S A} (m : M S A) (Q : A -> S -> Prop) (s : S) : Prop :=
  match m s with
  | Done (a, s') => Q a s'
  | Fault _ => True
  end.

Section wlp.
Context {S : Type}.
Implicit Types s : S.

Lemma wlp_ret {A} (a : A) Q s : Q a s -> wlp (ret a) Q s.
Proof. done. Qed.
Lemma wlp_bind {A B} (m : M S A) (k : A -> M S B) Q s :
  wlp m (fun a s' => wlp (k a) Q s') s -> wlp (bind m k) Q s.
Proof. unfold wlp, bind. by destruct (m s) as [[]|]. Qed.
Lemma wlp_mono {A} (m : M S A) (Q R : A -> S -> Prop) s :
  wlp m Q s -> (forall a s', Q a s' -> R a s') -> wlp m R s.
Proof. unfold wlp. destruct (m s) as [[]|]; eauto. Qed.
Lemma wlp_get Q s : Q s s -> wlp mget Q s.
Proof. done. Qed.
Lemma wlp_put Q s s' : Q tt s' -> wlp (mput s') Q s.
Proof. done. Qed.
Lemma wlp_modify (g : S -> S) Q s : Q tt (g s) -> wlp (mmodify g) Q s.
Proof. done. Qed.
Lemma wlp_fault {A} f (Q : A -> S -> Prop) s : wlp (mfault f) Q s.
Proof. done. Qed.
Lemma wlp_lift {A} (o : outcome A) Q s : (forall a, o = Done a -> Q a s) -> wlp (mlift o) Q s.
Proof. unfold wlp, mlift. destruct o; auto. Qed.
Lemma wlp_opt {A} (o : option A) f Q s : (forall a, o = Some a -> Q a s) -> wlp (mopt f o) Q s.
Proof. unfold wlp, mopt. destruct o; [unfold ret|done]. auto. Qed.
Lemma wlp_wp {A} (m : M S A) Q s : wp m Q s -> wlp m Q s.
Proof. unfold wp, wlp. by destruct (m s) as [[]|]. Qed.
Lemma wlp_run {A} (m : M S A) Q s a s' : m s = Done (a, s') -> wlp m Q s -> Q a s'.
Proof. unfold wlp. by intros ->. Qed.
End wlp.

(** [wlp_steps] runs the primitives of the monad. *)
Ltac wlp_step :=
  lazymatch goal with
  | |- wlp (bind _ _) _ _ => apply wlp_bind
  | |- wlp (ret _) _ _ => apply wlp_ret
  | |- wlp mget _ _ => apply wlp_get
  | |- wlp (mput _) _ _ => apply wlp_put
  | |- wlp (mmodify _) _ _ => apply wlp_modify
  | |- wlp (mfault _) _ _ => apply wlp_fault
  end.
Ltac wlp_steps := repeat (wlp_step; cbn beta).

(** ** Safety

    [wsp F m Q s]: [m] either returns with [Q] or ends in a fault that [F] allows. It is
    for steps that may wait, or end the process, but must not do anything else wrong. *)

Definition wsp {S A} (F : fault -> Prop) (m : M S A) (Q : A -> S -> Prop) (s : S) : Prop :=
  match m s with
  | Done (a, s') => Q a s'
  | Fault f => F f
  end.

Section wsp.
Context {S : Type} {F : fault -> Prop}.
Implicit Types s : S.

Lemma wsp_ret {A} (a : A) Q s : Q a s -> wsp F (ret a) Q s.
Proof. done. Qed.
Lemma wsp_bind {A B} (m : M S A) (k : A -> M S B) Q s :
  wsp F m (fun a s' => wsp F (k a) Q s') s -> wsp F (bind m k) Q s.
Proof. unfold wsp, bind. by destruct (m s) as [[]|]. Qed.
Lemma wsp_mono {A} (m : M S A) (Q R : A -> S -> Prop) s :
  wsp F m Q s -> (forall a s', Q a s' -> R a s') -> wsp F m R s.
Proof. unfold wsp. destruct (m s) as [[]|]; eauto. Qed.
Lemma wsp_get Q s : Q s s -> wsp F mget Q s.
Proof. done. Qed.
Lemma wsp_put Q s s' : Q tt s' -> wsp F (mput s') Q s.
Proof. done. Qed.
Lemma wsp_modify (g : S -> S) Q s : Q tt (g s) -> wsp F (mmodify g) Q s.
Proof. done. Qed.
Lemma wsp_fault {A} f (Q : A -> S -> Prop) s : F f -> wsp F (mfault f) Q s.
Proof. done. Qed.
Lemma wsp_lift {A} (o : outcome A) a Q s : o = Done a -> Q a s -> wsp F (mlift o) Q s.
Proof. by intros ->. Qed.
Lemma wsp_opt {A} (o : option A) a f Q s : o = Some a -> Q a s -> wsp F (mopt f o) Q s.
Proof. by intros ->. Qed.
(** What always returns is safe whatever is allowed. *)
Lemma wsp_wp {A} (m : M S A) Q s : wp m Q s -> wsp F m Q s.
Proof. unfold wp, wsp. by destruct (m s) as [[]|]. Qed.
Lemma wsp_run {A} (m : M S A) Q s a s' : m s = Done (a, s') -> wsp F m Q s -> Q a s'.
Proof. unfold wsp. by intros ->. Qed.
Lemma wsp_no_fault {A} (m : M S A) Q s f : m s = Fault f -> wsp F m Q s -> F f.
Proof. unfold wsp. by intros ->. Qed.
Lemma wsp_weaken {A} (F' : fault -> Prop) (m : M S A) Q s : (forall f, F f -> F' f) -> wsp F m Q s -> wsp F' m Q s.
Proof. unfold wsp. destruct (m s) as [[]|]; auto. Qed.
End wsp.

(** [wsp_steps] runs the primitives of the monad. *)
Ltac wsp_step :=
  lazymatch goal with
  | |- wsp _ (bind _ _) _ _ => apply wsp_bind
  | |- wsp _ (ret _) _ _ => apply wsp_ret
  | |- wsp _ mget _ _ => apply wsp_get
  | |- wsp _ (mput _) _ _ => apply wsp_put
  | |- wsp _ (mmodify _) _ _ => apply wsp_modify
  end.
Ltac wsp_steps := repeat (wsp_step; cbn beta).
