(* ===== verification/KHeap.v ===== *)
(** Memory objects: pointers, the heap, bounds-checked accesses, and ownership.

    A heap maps the base address of each live object to its bytes. The code's
    pointers are base pointers plus an offset, so an access takes both. An
    access of no bytes touches nothing; any other access needs a live object
    and a range inside it. [owns o F h] says that [h] consists of the objects
    listed in [o] and, apart from them, of the frame [F]; it is stable under
    permutation of [o], which makes it a separating conjunction by hand. *)

From S2P Require Import Prelude CMonad.
Local Open Scope Z_scope.

Abbreviation loc := positive.

(** [PZero] is the kernel's [ZERO_SIZE_PTR]: not NULL, and not dereferenceable. *)
Inductive ptr :=
  | PNull
  | PZero
  | PLoc (l : loc).

#[global] Instance ptr_eq_dec : EqDecision ptr.
Proof. solve_decision. Defined.
#[global] Instance ptr_inhabited : Inhabited ptr := populate PNull.

Definition is_null (p : ptr) : bool := bool_decide (p = PNull).

Lemma is_null_loc l : is_null (PLoc l) = false.
Proof. reflexivity. Qed.

Abbreviation heap := (gmap loc bytes).

Definition in_range (off n : Z) (bs : bytes) : bool :=
  (0 <=? off) && (0 <=? n) && (off + n <=? zlen bs).

(** The [n] bytes at [p + off]. *)
Definition read_range (h : heap) (p : ptr) (off n : Z) : outcome bytes :=
  if n =? 0 then Done []
  else match p with
       | PLoc l =>
           match h !! l with
           | Some bs =>
               if in_range off n bs
               then Done (take (Z.to_nat n) (drop (Z.to_nat off) bs))
               else Fault BadAccess
           | None => Fault BadAccess
           end
       | _ => Fault BadAccess
       end.

(** [p[off]] read as one character. *)
Definition load (h : heap) (p : ptr) (off : Z) : outcome char :=
  match read_range h p off 1 with
  | Done (c :: _) => Done c
  | Done [] => Fault BadAccess
  | Fault f => Fault f
  end.

Definition splice (off : nat) (new old : bytes) : bytes :=
  take off old ++ new ++ drop (off + length new) old.

(** Store the bytes [new] at [p + off]. *)
Definition write_range (h : heap) (p : ptr) (off : Z) (new : bytes) : outcome heap :=
  match new with
  | [] => Done h
  | _ => match p with
         | PLoc l =>
             match h !! l with
             | Some bs =>
                 if in_range off (zlen new) bs
                 then Done (<[l := splice (Z.to_nat off) new bs]> h)
                 else Fault BadAccess
             | None => Fault BadAccess
             end
         | _ => Fault BadAccess
         end
  end.

(** *** Fresh addresses *)

Definition max_loc {A} (h : gmap loc A) : loc := map_fold (fun l _ m => Pos.max l m) 1%positive h.

Lemma max_loc_ge {A} (h : gmap loc A) l : is_Some (h !! l) -> (l <= max_loc h)%positive.
Proof.
  unfold max_loc. apply (map_fold_weak_ind (fun m h => is_Some (h !! l) -> (l <= m)%positive)).
  - rewrite lookup_empty. by intros [].
  - intros i x m r _ IH. rewrite lookup_insert. case_decide; [subst; lia|].
    intros Hl. specialize (IH Hl). lia.
Qed.

Lemma max_loc_fresh {A} (h : gmap loc A) : h !! Pos.succ (max_loc h) = None.
Proof.
  destruct (h !! Pos.succ (max_loc h)) eqn:E; [|done].
  pose proof (max_loc_ge h (Pos.succ (max_loc h))). rewrite E in H. specialize (H (mk_is_Some _ _ eq_refl)). lia.
Qed.

(** ** Ownership *)

Definition owns (o : list (loc * bytes)) (F h : heap) : Prop :=
  NoDup o.*1 /\ (forall l, l ∈ o.*1 -> F !! l = None) /\ h = list_to_map o ∪ F.

#[global] Instance owns_perm :
  Proper ((≡ₚ) ==> eq ==> eq ==> iff) owns.
Proof.
  assert (forall o o' F h, o ≡ₚ o' -> owns o F h -> owns o' F h) as H.
  { intros o o' F h Hp (Hnd & HF & ->).
    assert (o.*1 ≡ₚ o'.*1) as Hp1 by by rewrite Hp.
    split; [by rewrite <- Hp1|]. split.
    - intros l Hl. apply HF. by rewrite Hp1.
    - f_equal. by apply list_to_map_proper. }
  intros o o' Hp F F' <- h h' <-. split; apply H; [done|by symmetry].
Qed.

Lemma owns_nil F : owns [] F F.
Proof.
  split; [constructor|]. split.
  - intros l Hl. by apply elem_of_nil in Hl.
  - simpl. by rewrite (left_id_L ∅ (∪)).
Qed.

Lemma owns_nil_inv F h : owns [] F h -> h = F.
Proof. intros (_ & _ & ->). simpl. by rewrite (left_id_L ∅ (∪)). Qed.

Lemma owns_lookup o F h l bs : owns o F h -> (l, bs) ∈ o -> h !! l = Some bs.
Proof.
  intros (Hnd & _ & ->) Hin. apply lookup_union_Some_l.
  by apply elem_of_list_to_map_1.
Qed.

Lemma owns_head l bs o F h : owns ((l, bs) :: o) F h -> h !! l = Some bs.
Proof. intros H. eapply owns_lookup; [done|]. left. Qed.

Lemma owns_frame o F h l bs : owns o F h -> F !! l = Some bs -> h !! l = Some bs.
Proof.
  intros (_ & HF & ->) Hl. rewrite lookup_union_r; [done|].
  apply not_elem_of_list_to_map_1. intros Hin. by rewrite HF in Hl.
Qed.

Lemma owns_alloc o F h l bs :
  h !! l = None -> owns o F h -> owns ((l, bs) :: o) F (<[l := bs]> h).
Proof.
  intros Hl (Hnd & HF & ->).
  apply lookup_union_None in Hl as [Ho HFl].
  split; [|split].
  - simpl. constructor; [|done]. by apply not_elem_of_list_to_map.
  - intros l' Hl'. apply elem_of_cons in Hl' as [->|Hl']; [done|auto].
  - simpl. by rewrite insert_union_l.
Qed.

Lemma owns_free o F h l bs : owns ((l, bs) :: o) F h -> owns o F (delete l h).
Proof.
  intros (Hnd & HF & ->). simpl in *.
  apply NoDup_cons in Hnd as [Hl Hnd].
  split; [done|]. split; [intros l' ?; apply HF; by right|].
  rewrite <- insert_union_l, delete_insert_id; [done|].
  apply lookup_union_None. split; [by apply not_elem_of_list_to_map_1|].
  apply HF. left.
Qed.

Lemma owns_update o F h l bs bs' :
  owns ((l, bs) :: o) F h -> owns ((l, bs') :: o) F (<[l := bs']> h).
Proof.
  intros (Hnd & HF & ->). split; [done|]. split; [done|]. simpl.
  by rewrite insert_union_l, insert_insert_eq.
Qed.

(** ** Accesses to owned objects *)

Lemma in_range_true off n bs :
  in_range off n bs = true <-> 0 <= off /\ 0 <= n /\ off + n <= zlen bs.
Proof. unfold in_range. rewrite !andb_true_iff, !Z.leb_le. tauto. Qed.

Lemma read_range_0 h p off : read_range h p off 0 = Done [].
Proof. done. Qed.

Lemma read_range_ok h l off n bs :
  h !! l = Some bs -> 0 <= off -> 0 <= n -> off + n <= zlen bs ->
  read_range h (PLoc l) off n = Done (take (Z.to_nat n) (drop (Z.to_nat off) bs)).
Proof.
  intros Hl ???. unfold read_range. case_match eqn:E.
  - apply Z.eqb_eq in E as ->. done.
  - by rewrite Hl, (proj2 (in_range_true _ _ _)).
Qed.

Lemma read_range_all h l n bs :
  h !! l = Some bs -> n = zlen bs -> read_range h (PLoc l) 0 n = Done bs.
Proof.
  intros Hl ->. pose proof (zlen_nonneg bs).
  rewrite (read_range_ok _ _ _ _ bs) by (done || lia).
  by rewrite drop_0, zlen_to_nat, firstn_all.
Qed.

Lemma load_last h l bs c :
  h !! l = Some (bs ++ [c]) -> load h (PLoc l) (zlen (bs ++ [c]) - 1) = Done c.
Proof.
  intros Hl. pose proof (zlen_nonneg bs). unfold load.
  rewrite (read_range_ok _ _ _ _ (bs ++ [c])) by (done || zlen_simp).
  autorewrite with zlen. replace (Z.to_nat (zlen bs + (1 + 0) - 1)) with (length bs) by (unfold zlen; lia).
  by rewrite drop_app_length.
Qed.

Lemma write_range_ok h l off new bs :
  h !! l = Some bs -> 0 <= off -> off + zlen new <= zlen bs ->
  write_range h (PLoc l) off new = Done (<[l := splice (Z.to_nat off) new bs]> h).
Proof.
  intros Hl ??. pose proof (zlen_nonneg new). unfold write_range. destruct new as [|c new].
  - f_equal. unfold splice. simpl. rewrite Nat.add_0_r, take_drop. by rewrite insert_id.
  - by rewrite Hl, (proj2 (in_range_true _ _ _)).
Qed.

Lemma splice_full new old : length new = length old -> splice 0 new old = new.
Proof.
  intros H. unfold splice. simpl. rewrite drop_ge by lia. by rewrite app_nil_r.
Qed.

Lemma splice_prefix a b old :
  length old = (length a + length b)%nat -> splice (length a) b (splice 0 a old) = a ++ b.
Proof.
  intros H. unfold splice. simpl.
  rewrite take_app_length, app_assoc, drop_ge, app_nil_r; [done|].
  rewrite length_app, length_drop. lia.
Qed.

Lemma length_splice off new old :
  (off + length new <= length old)%nat -> length (splice off new old) = length old.
Proof. intros. unfold splice. rewrite !length_app, length_take, length_drop. lia. Qed.

Create HintDb owns discriminated.
#[export] Hint Resolve owns_nil owns_head owns_alloc owns_free owns_update : owns.
