(* ===== verification/CircularBuffer.v ===== *)
(** The circular buffer of the character driver
    ([aesd-char-driver/aesd-circular-buffer.c] and its header).

    The definitions translate the C functions over a record of the struct's
    fields; an index outside [entry[]] is a [BadAccess]. [contents] reads the
    buffer as the list of its entries from oldest to newest, and the theorems
    relate each function to that list. *)

From S2P Require Import Prelude CMonad KHeap.
Local Open Scope Z_scope.
Local Open Scope cint_scope.
Local Open Scope cmonad_scope.

Definition AESDCHAR_MAX_WRITE_OPERATIONS_SUPPORTED : Z := 10.

(** [struct aesd_buffer_entry] *)
Record aesd_buffer_entry := BufferEntry {
  be_buffptr : ptr;
  be_size : Z;     (* size_t *)
}.

(** [struct aesd_circular_buffer] *)
Record aesd_circular_buffer := CircularBuffer {
  cb_entry : list aesd_buffer_entry;
  cb_in_offs : Z;      (* uint8_t *)
  cb_out_offs : Z;     (* uint8_t *)
  cb_num_entries : Z;  (* uint8_t *)
  cb_size : Z;         (* size_t *)
}.

#[global] Instance entry_eq_dec : EqDecision aesd_buffer_entry.
Proof. solve_decision. Defined.
#[global] Instance circular_buffer_eq_dec : EqDecision aesd_circular_buffer.
Proof. solve_decision. Defined.

(** A zeroed entry: what [memset(..., 0, ...)] leaves. *)
Definition zero_entry : aesd_buffer_entry := BufferEntry PNull 0.
#[global] Instance entry_inhabited : Inhabited aesd_buffer_entry := populate zero_entry.

(** The macros of the header. *)
Definition aesd_circular_buffer_empty (b : aesd_circular_buffer) : bool :=
  cb_num_entries b =? 0.
Definition aesd_circular_buffer_full (b : aesd_circular_buffer) : bool :=
  cb_num_entries b =? AESDCHAR_MAX_WRITE_OPERATIONS_SUPPORTED.
Definition aesd_circular_buffer_size (b : aesd_circular_buffer) : Z := cb_size b.

(** [buffer->entry[i]] as an rvalue and as an lvalue. *)
Definition entry_at (b : aesd_circular_buffer) (i : Z) : outcome aesd_buffer_entry :=
  if i <? 0 then Fault BadAccess
  else match cb_entry b !! Z.to_nat i with
       | Some e => Done e
       | None => Fault BadAccess
       end.
Definition set_entry (b : aesd_circular_buffer) (i : Z) (e : aesd_buffer_entry)
    : outcome aesd_circular_buffer :=
  match entry_at b i with
  | Done _ => Done (CircularBuffer (<[Z.to_nat i := e]> (cb_entry b))
                      (cb_in_offs b) (cb_out_offs b) (cb_num_entries b) (cb_size b))
  | Fault f => Fault f
  end.

Definition next_offs (o : Z) : Z := u8 ((o + 1) mod AESDCHAR_MAX_WRITE_OPERATIONS_SUPPORTED).

#[global] Arguments next_offs : simpl never.

(** [aesd_circular_buffer_find_entry_offset_for_fpos]. The loop's variables are
    [current_offs], [current_size] and [p_entry] with the value stored through
    [entry_offset_byte_rtn]; an entry pointer is the index of its slot. *)
Record find_state := FindState {
  current_offs : Z;
  current_size : Z;
  p_entry : option (Z * Z);
}.

Definition find_body (b : aesd_circular_buffer) (char_offset : Z) (st : find_state)
    : outcome find_state :=
  match entry_at b (current_offs st) with
  | Fault f => Fault f
  | Done e =>
      if char_offset <? (current_size st +u64 be_size e)
      then Done (FindState (current_offs st) (current_size st)
                   (Some (current_offs st, char_offset -u64 current_size st)))
      else Done (FindState (next_offs (current_offs st))
                   (current_size st +u64 be_size e) (p_entry st))
  end.

Definition find_continue (b : aesd_circular_buffer) (st : find_state) : bool :=
  negb (current_offs st =? cb_in_offs b) && bool_decide (p_entry st = None).

Fixpoint find_loop (fuel : nat) (b : aesd_circular_buffer) (char_offset : Z)
    (st : find_state) : outcome find_state :=
  match fuel with
  | O => Fault OutOfFuel
  | S fuel =>
      match find_body b char_offset st with
      | Fault f => Fault f
      | Done st' => if find_continue b st' then find_loop fuel b char_offset st' else Done st'
      end
  end.

(** Ten iterations visit every slot. *)
Definition find_fuel : nat := 10.

Definition aesd_circular_buffer_find_entry_offset_for_fpos
    (b : aesd_circular_buffer) (char_offset : Z) : outcome (option (Z * Z)) :=
  if aesd_circular_buffer_empty b then Done None
  else match find_loop find_fuel b char_offset (FindState (cb_out_offs b) 0 None) with
       | Done st => Done (p_entry st)
       | Fault f => Fault f
       end.

(** [aesd_circular_buffer_add_entry]: the new buffer is the state, the returned
    pointer (to be freed by the caller, or NULL) the result. *)
Definition aesd_circular_buffer_add_entry (add_entry : aesd_buffer_entry)
    : M aesd_circular_buffer ptr :=
  let! b0 := mget in
  let! replaced_entry :=
    (if aesd_circular_buffer_full b0 then
       let! old := mlift (entry_at b0 (cb_in_offs b0)) in
       mput (CircularBuffer (cb_entry b0) (cb_in_offs b0) (next_offs (cb_out_offs b0))
               (cb_num_entries b0) (cb_size b0 -u64 be_size old));;
       ret (be_buffptr old)
     else
       mput (CircularBuffer (cb_entry b0) (cb_in_offs b0) (cb_out_offs b0)
               (u8 (cb_num_entries b0 + 1)) (cb_size b0));;
       ret PNull) in
  let! b1 := mget in
  let! b2 := mlift (set_entry b1 (cb_in_offs b1) add_entry) in
  mput (CircularBuffer (cb_entry b2) (next_offs (cb_in_offs b2)) (cb_out_offs b2)
          (cb_num_entries b2) (cb_size b2 +u64 be_size add_entry));;
  ret replaced_entry.

(** [aesd_circular_buffer_get_entry_fpos]. [index] is an [unsigned int], [offset]
    a [size_t], the running position an [int], the loop counter a [uint8_t]. *)
Definition offs_plus (b : aesd_circular_buffer) (i : Z) : Z :=
  u32 (cb_out_offs b + i) mod AESDCHAR_MAX_WRITE_OPERATIONS_SUPPORTED.

Fixpoint fpos_loop (fuel : nat) (b : aesd_circular_buffer) (index i entry_fpos : Z)
    : outcome Z :=
  if i <? index then
    match fuel with
    | O => Fault OutOfFuel
    | S fuel =>
        match entry_at b (offs_plus b i) with
        | Done e => fpos_loop fuel b index (u8 (i + 1)) (i32 (u64 entry_fpos +u64 be_size e))
        | Fault f => Fault f
        end
    end
  else Done entry_fpos.

(** The counter has eight bits, so a loop that ends does so within 256 rounds. *)
Definition fpos_fuel : nat := 256.

Definition aesd_circular_buffer_get_entry_fpos (b : aesd_circular_buffer)
    (index offset : Z) : outcome Z :=
  if cb_num_entries b <=? index then Done (-1)
  else match entry_at b (offs_plus b index) with
       | Fault f => Fault f
       | Done e =>
           if be_size e <=? offset then Done (-1)
           else match fpos_loop fpos_fuel b index 0 0 with
                | Done entry_fpos => Done (i32 (u64 entry_fpos +u64 offset))
                | Fault f => Fault f
                end
       end.

(** [aesd_circular_buffer_init] *)
Definition aesd_circular_buffer_init : aesd_circular_buffer :=
  CircularBuffer (replicate 10 zero_entry) 0 0 0 0.

(** The loop of [AESD_CIRCULAR_BUFFER_FOREACH]: [body] on every slot of [entry[]]
    from index 0 up. *)
Fixpoint foreach_from {S} (n : nat) (b : aesd_circular_buffer) (index : Z)
    (body : aesd_buffer_entry -> M S unit) : M S unit :=
  match n with
  | O => ret tt
  | Datatypes.S n =>
      let! e := mlift (entry_at b index) in
      body e;;
      foreach_from n b (u8 (index + 1)) body
  end.
Definition AESD_CIRCULAR_BUFFER_FOREACH {S} (b : aesd_circular_buffer)
    (body : aesd_buffer_entry -> M S unit) : M S unit :=
  foreach_from (Z.to_nat AESDCHAR_MAX_WRITE_OPERATIONS_SUPPORTED) b 0 body.

(** ** The abstract view *)

(** The slots from [out_offs] on, wrapping around: the live entries, oldest first,
    and then the unused slots. *)
Definition ring (b : aesd_circular_buffer) : list aesd_buffer_entry :=
  rotate (Z.to_nat (cb_out_offs b)) (cb_entry b).
Definition contents (b : aesd_circular_buffer) : list aesd_buffer_entry :=
  take (Z.to_nat (cb_num_entries b)) (ring b).
Definition unused (b : aesd_circular_buffer) : list aesd_buffer_entry :=
  drop (Z.to_nat (cb_num_entries b)) (ring b).

Definition total (l : list aesd_buffer_entry) : Z := zsum (be_size <$> l).

(** The slot index of the [k]-th oldest entry. *)
Definition slot (b : aesd_circular_buffer) (k : nat) : Z :=
  (cb_out_offs b + Z.of_nat k) mod 10.

Definition entry_ok (mx : Z) (e : aesd_buffer_entry) : Prop := 0 <= be_size e <= mx.

(** Well-formedness; [mx] bounds the size of one entry. *)
Record cb_wf (mx : Z) (b : aesd_circular_buffer) : Prop := {
  wf_len : length (cb_entry b) = 10%nat;
  wf_out : 0 <= cb_out_offs b < 10;
  wf_num : 0 <= cb_num_entries b <= 10;
  wf_in : cb_in_offs b = (cb_out_offs b + cb_num_entries b) mod 10;
  wf_entries : Forall (entry_ok mx) (contents b);
  wf_size : cb_size b = total (contents b);
  wf_unused : Forall (eq zero_entry) (unused b);
}.

(** Reference search: which entry of a list holds offset [off] of its
    concatenation, and where in that entry. *)
Fixpoint locate (l : list aesd_buffer_entry) (off : Z) : option (nat * Z) :=
  match l with
  | [] => None
  | e :: l =>
      if off <? be_size e then Some (O, off)
      else (fun '(i, o) => (S i, o)) <$> locate l (off - be_size e)
  end.

(** Reference insertion into a history of at most ten entries: the history, and
    the entry that falls out. *)
Definition push (l : list aesd_buffer_entry) (e : aesd_buffer_entry)
    : list aesd_buffer_entry := lastn 10 (l ++ [e]).
Definition evicted (l : list aesd_buffer_entry) : option aesd_buffer_entry :=
  if decide (length l = 10%nat) then head l else None.

(** ** Slots and the ring *)

Lemma total_nil : total [] = 0.
Proof. done. Qed.
Lemma total_cons e l : total (e :: l) = be_size e + total l.
Proof. done. Qed.
Lemma total_app l k : total (l ++ k) = total l + total k.
Proof. unfold total. by rewrite fmap_app, zsum_app. Qed.

Lemma total_bounds mx l :
  Forall (entry_ok mx) l -> 0 <= total l <= mx * Z.of_nat (length l).
Proof.
  induction 1 as [|e l [? ?] _ IH]; [rewrite total_nil; simpl length; lia|].
  rewrite total_cons. simpl length. rewrite Nat2Z.inj_succ. lia.
Qed.

Lemma next_offs_mod o : next_offs o = (o + 1) mod 10.
Proof.
  unfold next_offs, AESDCHAR_MAX_WRITE_OPERATIONS_SUPPORTED.
  pose proof (Z.mod_pos_bound (o + 1) 10). apply u8_small. lia.
Qed.

Lemma rotate_lt {A} n (l : list A) :
  (n < length l)%nat -> rotate n l = drop n l ++ take n l.
Proof. intros. unfold rotate. by rewrite Nat.mod_small. Qed.

(** Overwriting the oldest slot and moving the start past it appends. *)
Lemma rotate_next {A} n (l : list A) x :
  (n < length l)%nat ->
  rotate (S n mod length l) (<[n := x]> l) = drop 1 (rotate n l) ++ [x].
Proof.
  intros Hn. destruct (lookup_lt_is_Some_2 l n Hn) as [y Hy].
  apply list_elem_of_split_length in Hy as (l1 & l2 & -> & ->).
  rewrite insert_app_r_alt, Nat.sub_diag by lia. simpl.
  rewrite (rotate_lt (length l1)) by done. rewrite drop_app_length, take_app_length.
  simpl. rewrite drop_0. rewrite length_app. simpl length.
  destruct l2 as [|z l2].
  - simpl length. replace (length l1 + 1)%nat with (S (length l1)) by lia.
    rewrite Nat.Div0.mod_same. unfold rotate. rewrite Nat.Div0.mod_0_l, drop_0, take_0.
    by rewrite app_nil_r.
  - rewrite Nat.mod_small by (simpl; lia).
    rewrite rotate_lt by (rewrite length_app; simpl; lia).
    rewrite (cons_middle x), app_assoc.
    rewrite drop_app_length', take_app_length' by (rewrite length_app; simpl; lia).
    by rewrite app_assoc.
Qed.

Lemma length_ring b : length (ring b) = length (cb_entry b).
Proof. apply length_rotate. Qed.

Lemma contents_unused b : contents b ++ unused b = ring b.
Proof. apply take_drop. Qed.

(** The slots of [entry[]] are the live entries and the unused slots. *)
Lemma entry_perm b : cb_entry b ≡ₚ contents b ++ unused b.
Proof.
  rewrite contents_unused. unfold ring, rotate.
  rewrite (Permutation_app_comm (drop _ _)). by rewrite take_drop.
Qed.

Section wf.
Context {mx : Z} {b : aesd_circular_buffer} (Hwf : cb_wf mx b).

Lemma length_contents : length (contents b) = Z.to_nat (cb_num_entries b).
Proof.
  unfold contents. rewrite length_take, length_ring, (wf_len _ _ Hwf).
  pose proof (wf_num _ _ Hwf). lia.
Qed.
Lemma zlen_contents : zlen (contents b) = cb_num_entries b.
Proof. unfold zlen. rewrite length_contents. pose proof (wf_num _ _ Hwf). lia. Qed.
Lemma length_contents_le : (length (contents b) <= 10)%nat.
Proof. rewrite length_contents. pose proof (wf_num _ _ Hwf). lia. Qed.
Lemma length_unused : length (unused b) = (10 - length (contents b))%nat.
Proof.
  unfold unused. rewrite length_drop, length_ring, (wf_len _ _ Hwf), length_contents. done.
Qed.
Lemma contents_total_bounds : 0 <= total (contents b) <= mx * cb_num_entries b.
Proof. rewrite <- zlen_contents. apply total_bounds, wf_entries, Hwf. Qed.
Lemma wf_mx_nonneg : contents b <> [] -> 0 <= mx.
Proof.
  intros Hne. pose proof (wf_entries _ _ Hwf) as HF.
  destruct (contents b) as [|e l]; [done|]. apply Forall_cons in HF as [[? ?] _]. lia.
Qed.

Lemma slot_range k : 0 <= slot b k < 10.
Proof. apply Z.mod_pos_bound. lia. Qed.
Lemma slot_0 : slot b 0 = cb_out_offs b.
Proof. unfold slot. pose proof (wf_out _ _ Hwf). rewrite Z.mod_small; lia. Qed.
Lemma slot_S k : next_offs (slot b k) = slot b (S k).
Proof.
  rewrite next_offs_mod. unfold slot. rewrite Zplus_mod_idemp_l. f_equal. lia.
Qed.
Lemma slot_in : slot b (Z.to_nat (cb_num_entries b)) = cb_in_offs b.
Proof.
  unfold slot. rewrite (wf_in _ _ Hwf). pose proof (wf_num _ _ Hwf). f_equal. lia.
Qed.
(** Distinct distances below ten give distinct slots. *)
Lemma slot_inj j k : (j < 10)%nat -> (k <= 10)%nat -> slot b j = slot b k ->
  j = k \/ (j = 0 /\ k = 10)%nat.
Proof.
  unfold slot. intros Hj Hk E.
  pose proof (Z.div_mod (cb_out_offs b + Z.of_nat j) 10).
  pose proof (Z.div_mod (cb_out_offs b + Z.of_nat k) 10). lia.
Qed.

Lemma lookup_ring k : (k < 10)%nat -> ring b !! k = cb_entry b !! Z.to_nat (slot b k).
Proof.
  intros Hk. unfold ring. rewrite lookup_rotate_r by (rewrite (wf_len _ _ Hwf); lia).
  f_equal. unfold rotate_nat_add, slot. rewrite (wf_len _ _ Hwf).
  pose proof (wf_out _ _ Hwf). rewrite Z2Nat.id by lia. done.
Qed.
Lemma entry_at_ring k e : ring b !! k = Some e -> entry_at b (slot b k) = Done e.
Proof.
  intros He. pose proof (lookup_lt_Some _ _ _ He) as Hk.
  rewrite length_ring, (wf_len _ _ Hwf) in Hk.
  rewrite lookup_ring in He by done. unfold entry_at.
  pose proof (slot_range k). rewrite (proj2 (Z.ltb_ge _ _)) by lia. by rewrite He.
Qed.
Lemma entry_at_contents k e : contents b !! k = Some e -> entry_at b (slot b k) = Done e.
Proof. intros He. apply entry_at_ring. rewrite <- contents_unused. by apply lookup_app_l_Some. Qed.
Lemma offs_plus_slot k : (k < 10)%nat -> offs_plus b (Z.of_nat k) = slot b k.
Proof.
  intros Hk. unfold offs_plus, slot, AESDCHAR_MAX_WRITE_OPERATIONS_SUPPORTED.
  pose proof (wf_out _ _ Hwf). rewrite u32_small; [done|lia].
Qed.
End wf.

(** ** Search *)

Section find.
Context {mx : Z} {b : aesd_circular_buffer} (Hwf : cb_wf mx b).
Context (Hsmall : total (contents b) < 2 ^ 64).

Lemma total_take_S k e :
  contents b !! k = Some e -> total (take (S k) (contents b)) = total (take k (contents b)) + be_size e.
Proof. intros He. rewrite (take_S_r _ _ _ He), total_app, total_cons, total_nil. lia. Qed.

Lemma total_take_bounds k : 0 <= total (take k (contents b)) <= total (contents b).
Proof.
  pose proof (wf_entries _ _ Hwf) as HF. rewrite <- (take_drop k (contents b)) in HF.
  apply Forall_app in HF as [H1 H2].
  apply total_bounds in H1 as [? _], H2 as [? _].
  rewrite <- (take_drop k (contents b)) at 3. rewrite total_app. lia.
Qed.

(** One round either finds the entry at [slot b k] or moves to the next slot. *)
Lemma find_body_step k e off :
  contents b !! k = Some e -> total (take k (contents b)) <= off < 2 ^ 64 ->
  find_body b off (FindState (slot b k) (total (take k (contents b))) None) =
  Done (if off - total (take k (contents b)) <? be_size e
        then FindState (slot b k) (total (take k (contents b)))
               (Some (slot b k, off - total (take k (contents b))))
        else FindState (slot b (S k)) (total (take (S k) (contents b))) None).
Proof.
  intros He Hoff. unfold find_body. simpl.
  rewrite (entry_at_contents Hwf _ _ He).
  pose proof (total_take_S k e He). pose proof (total_take_bounds k).
  pose proof (total_take_bounds (S k)).
  unwrap. rewrite (slot_S k).
  destruct (Z.ltb_spec off (total (take k (contents b)) + be_size e));
    destruct (Z.ltb_spec (off - total (take k (contents b))) (be_size e)); try lia; do 2 f_equal; lia.
Qed.

Lemma find_continue_next k t :
  (k < length (contents b))%nat ->
  find_continue b (FindState (slot b (S k)) t None) = bool_decide (S k < length (contents b))%nat.
Proof.
  intros Hk. unfold find_continue. simpl.
  rewrite andb_true_r. apply eq_bool_prop_intro.
  pose proof (length_contents_le Hwf) as Hle.
  rewrite negb_True, <- (slot_in Hwf), <- (length_contents Hwf), bool_decide_spec, Is_true_true, Z.eqb_eq.
  split.
  - intros Hne. destruct (decide (S k = length (contents b))) as [E|]; [|lia].
    by rewrite E in Hne.
  - intros Hlt E. apply slot_inj in E; lia.
Qed.

Lemma find_loop_locate fuel k off :
  (k < length (contents b))%nat -> (length (contents b) - k <= fuel)%nat ->
  total (take k (contents b)) <= off < 2 ^ 64 ->
  exists st,
    find_loop fuel b off (FindState (slot b k) (total (take k (contents b))) None) = Done st /\
    p_entry st = (fun '(i, o) => (slot b (k + i), o)) <$>
                   locate (drop k (contents b)) (off - total (take k (contents b))).
Proof.
  revert k. induction fuel as [|fuel IH]; intros k Hk Hfuel Hoff; [lia|].
  destruct (lookup_lt_is_Some_2 _ _ Hk) as [e He].
  rewrite (drop_S _ _ _ He). simpl find_loop. simpl locate.
  rewrite (find_body_step _ _ _ He Hoff).
  destruct (Z.ltb_spec (off - total (take k (contents b))) (be_size e)) as [Hlt|Hge].
  - eexists. unfold find_continue. simpl. rewrite andb_false_r.
    split; [done|]. simpl. by rewrite Nat.add_0_r.
  - rewrite find_continue_next by done. pose proof (total_take_S k e He) as HS.
    case_bool_decide as Hnext.
    + destruct (IH (S k)) as (st & Hst & Hp); [lia..|].
      exists st. split; [done|]. rewrite Hp, HS. clear Hp Hst IH.
      replace (off - (total (take k (contents b)) + be_size e))
        with (off - total (take k (contents b)) - be_size e) by lia.
      destruct (locate _ _) as [[i o]|]; simpl; [|done]. by rewrite Nat.add_succ_r.
    + eexists. split; [done|]. rewrite drop_ge by lia. done.
Qed.

Lemma find_locate off :
  0 <= off < 2 ^ 64 ->
  aesd_circular_buffer_find_entry_offset_for_fpos b off =
  Done ((fun '(i, o) => (slot b i, o)) <$> locate (contents b) off).
Proof.
  intros Hoff. unfold aesd_circular_buffer_find_entry_offset_for_fpos,
    aesd_circular_buffer_empty.
  pose proof (zlen_contents Hwf) as Hlen.
  destruct (Z.eqb_spec (cb_num_entries b) 0) as [E|E].
  - rewrite E in Hlen. by rewrite (zlen_0_nil _ Hlen).
  - pose proof (length_contents_le Hwf). unfold zlen in Hlen.
    destruct (find_loop_locate find_fuel 0 off) as (st & Hst & Hp);
      [lia|unfold find_fuel; lia|rewrite take_0, total_nil; lia|].
    rewrite take_0, total_nil, (slot_0 Hwf) in Hst. rewrite Hst, Hp.
    rewrite take_0, total_nil, drop_0, Z.sub_0_r. done.
Qed.
End find.

(** ** The reference search, against the concatenation *)

Lemma locate_Some l off i o :
  locate l off = Some (i, o) -> 0 <= off ->
  exists e, l !! i = Some e /\ 0 <= o < be_size e /\ off = total (take i l) + o.
Proof.
  revert off i. induction l as [|e l IH]; intros off i; [done|].
  simpl locate. destruct (Z.ltb_spec off (be_size e)) as [Hlt|Hge].
  - intros [= <- <-] ?. exists e. rewrite take_0, total_nil. split_and!; try done; lia.
  - destruct (locate l _) as [[j o']|] eqn:E; [|done]. intros [= <- ->] ?.
    destruct (IH _ _ E) as (e' & He' & ? & ?); [lia|].
    exists e'. rewrite firstn_cons, total_cons. split_and!; try done; lia.
Qed.

Lemma locate_at mx l i e o :
  Forall (entry_ok mx) l -> l !! i = Some e -> 0 <= o < be_size e ->
  locate l (total (take i l) + o) = Some (i, o).
Proof.
  intros HF. revert i. induction HF as [|e' l [? ?] HF IH]; intros i; [done|].
  destruct i as [|i]; simpl lookup; intros He Ho.
  - injection He as ->. rewrite take_0, total_nil. simpl locate.
    by rewrite (proj2 (Z.ltb_lt _ _)) by lia.
  - rewrite firstn_cons, total_cons. simpl locate.
    assert (Forall (entry_ok mx) (take i l)) as Ht by by apply Forall_take.
    apply total_bounds in Ht as [? _].
    rewrite (proj2 (Z.ltb_ge _ _)) by lia.
    replace (be_size e' + total (take i l) + o - be_size e') with (total (take i l) + o) by lia.
    by rewrite IH.
Qed.

Lemma locate_None mx l off :
  Forall (entry_ok mx) l -> 0 <= off -> locate l off = None <-> total l <= off.
Proof.
  intros HF. revert off. induction HF as [|e l [? ?] HF IH]; intros off Hoff.
  - rewrite total_nil. simpl. split; [lia|done].
  - rewrite total_cons. simpl locate. apply total_bounds in HF as [? _].
    destruct (Z.ltb_spec off (be_size e)); [split; [done|lia]|].
    rewrite fmap_None, IH by lia. lia.
Qed.

(** ** Insertion *)

(** The old entry's pointer, or NULL when nothing falls out. *)
Definition evicted_ptr (l : list aesd_buffer_entry) : ptr :=
  match evicted l with Some e => be_buffptr e | None => PNull end.

Section add.
Context {mx : Z} {b : aesd_circular_buffer} (Hwf : cb_wf mx b).
Context (Hmx : mx * 10 < 2 ^ 64) (e : aesd_buffer_entry) (He : entry_ok mx e).

(** [entry[i] = e] does not depend on the other fields. *)
Lemma set_entry_upd k old i o n sz :
  ring b !! k = Some old ->
  set_entry (CircularBuffer (cb_entry b) i o n sz) (slot b k) e =
  Done (CircularBuffer (<[Z.to_nat (slot b k) := e]> (cb_entry b)) i o n sz).
Proof.
  intros Hk. unfold set_entry. change (entry_at _ _) with (entry_at b (slot b k)).
  by rewrite (entry_at_ring Hwf _ _ Hk).
Qed.

Lemma in_slot : cb_in_offs b = slot b (length (contents b)).
Proof. by rewrite (length_contents Hwf), (slot_in Hwf). Qed.

(** A full buffer: the oldest entry's slot is reused. *)
Definition full_result : aesd_circular_buffer :=
  CircularBuffer (<[Z.to_nat (cb_out_offs b) := e]> (cb_entry b))
    (next_offs (cb_out_offs b)) (next_offs (cb_out_offs b)) 10
    (total (push (contents b) e)).

Lemma full_result_ring :
  length (contents b) = 10%nat -> ring full_result = drop 1 (contents b) ++ [e].
Proof.
  intros Hfull. unfold ring at 1. simpl.
  assert (Hr : ring b = contents b).
  { rewrite <- contents_unused. rewrite (nil_length_inv (unused b)); [by rewrite app_nil_r|].
    rewrite (length_unused Hwf). lia. }
  rewrite <- Hr. unfold ring. pose proof (wf_out _ _ Hwf) as Ho.
  rewrite <- rotate_next by (rewrite (wf_len _ _ Hwf); lia).
  rewrite (wf_len _ _ Hwf), next_offs_mod. f_equal.
  rewrite <- (Nat2Z.id (S _ mod 10)), Nat2Z.inj_mod. f_equal. f_equal; lia.
Qed.

Lemma full_result_wf :
  length (contents b) = 10%nat -> cb_wf mx full_result /\ contents full_result = push (contents b) e.
Proof.
  intros Hfull. pose proof (full_result_ring Hfull) as Hr.
  assert (contents full_result = push (contents b) e) as Hc.
  { unfold contents at 1. rewrite Hr. unfold push. rewrite lastn_app_one by done.
    simpl. apply take_ge. rewrite length_app, length_drop, Hfull. simpl. lia. }
  split; [|done]. pose proof (wf_out _ _ Hwf).
  assert (0 <= next_offs (cb_out_offs b) < 10).
  { rewrite next_offs_mod. apply Z.mod_pos_bound. lia. }
  constructor; simpl; try lia.
  - by rewrite length_insert, (wf_len _ _ Hwf).
  - rewrite next_offs_mod, Zplus_mod_idemp_l.
    rewrite <- (Z.mod_add (cb_out_offs b + 1) 1 10) by lia. f_equal.
  - rewrite Hc. unfold push. apply Forall_drop, Forall_app. split; [apply Hwf|by constructor].
  - by rewrite Hc.
  - unfold unused. rewrite Hr. rewrite drop_ge; [constructor|].
    rewrite length_app, length_drop, Hfull. simpl. lia.
Qed.

(** A buffer with room: the next unused slot is filled. *)
Definition room_result : aesd_circular_buffer :=
  CircularBuffer (<[Z.to_nat (cb_in_offs b) := e]> (cb_entry b))
    (next_offs (cb_in_offs b)) (cb_out_offs b) (cb_num_entries b + 1)
    (total (push (contents b) e)).

Lemma room_result_ring :
  (length (contents b) < 10)%nat ->
  ring room_result = contents b ++ e :: drop 1 (unused b).
Proof.
  intros Hroom. unfold ring at 1. simpl. pose proof (wf_out _ _ Hwf).
  pose proof (wf_num _ _ Hwf).
  replace (Z.to_nat (cb_in_offs b))
    with (rotate_nat_add (Z.to_nat (cb_out_offs b)) (length (contents b)) (length (cb_entry b))).
  2:{ unfold rotate_nat_add. rewrite (wf_len _ _ Hwf), in_slot. unfold slot.
      by rewrite Z2Nat.id by lia. }
  rewrite rotate_insert_l by (rewrite (wf_len _ _ Hwf); lia).
  fold (ring b). rewrite <- contents_unused.
  rewrite insert_app_r_alt, Nat.sub_diag by lia.
  destruct (unused b) as [|x l] eqn:E; [|done].
  pose proof (length_unused Hwf) as HL. rewrite E in HL. simpl in HL. lia.
Qed.

Lemma room_result_wf :
  (length (contents b) < 10)%nat -> cb_wf mx room_result /\ contents room_result = push (contents b) e.
Proof.
  intros Hroom. pose proof (room_result_ring Hroom) as Hr. pose proof (wf_num _ _ Hwf).
  pose proof (length_contents Hwf) as HL.
  assert (contents room_result = push (contents b) e) as Hc.
  { unfold contents at 1. rewrite Hr. unfold push. rewrite lastn_all by (rewrite length_app; simpl; lia).
    rewrite (cons_middle e), app_assoc. apply take_app_length'.
    rewrite length_app. simpl. lia. }
  split; [|done]. pose proof (wf_out _ _ Hwf).
  constructor; simpl; try lia.
  - by rewrite length_insert, (wf_len _ _ Hwf).
  - rewrite next_offs_mod, (wf_in _ _ Hwf), Zplus_mod_idemp_l. f_equal. lia.
  - rewrite Hc. unfold push. apply Forall_drop, Forall_app. split; [apply Hwf|by constructor].
  - by rewrite Hc.
  - unfold unused. rewrite Hr. simpl. rewrite (cons_middle e), app_assoc.
    rewrite drop_app_length' by (rewrite length_app; simpl; lia).
    apply Forall_drop. apply (wf_unused _ _ Hwf).
Qed.

Lemma in_slot_full : length (contents b) = 10%nat -> cb_in_offs b = slot b 0.
Proof.
  intros Hlen. rewrite in_slot, Hlen. unfold slot.
  rewrite <- (Z.mod_add (cb_out_offs b + Z.of_nat 0) 1 10) by lia. f_equal. lia.
Qed.

Lemma add_entry_full old l :
  contents b = old :: l -> length (contents b) = 10%nat ->
  aesd_circular_buffer_add_entry e b = Done (be_buffptr old, full_result).
Proof.
  intros Ec Hlen. pose proof (length_contents Hwf) as HL. pose proof (wf_num _ _ Hwf).
  assert (ring b !! 0%nat = Some old) as H0 by (rewrite <- contents_unused, Ec; done).
  assert (cb_num_entries b = 10) as Hn by lia.
  unfold aesd_circular_buffer_add_entry, aesd_circular_buffer_full, bind, mget, mlift, mput, ret.
  rewrite Hn, (in_slot_full Hlen). simpl.
  rewrite (entry_at_ring Hwf _ _ H0), (set_entry_upd _ _ _ _ _ _ H0). simpl.
  pose proof (wf_entries _ _ Hwf) as HF. rewrite Ec in HF. apply Forall_cons in HF as [[? ?] HF].
  rewrite Ec in Hlen. injection Hlen as Hl. apply total_bounds in HF. rewrite Hl in HF.
  unfold full_result, push. rewrite (wf_size _ _ Hwf), Ec, lastn_app_one by (simpl; lia).
  destruct He. simpl drop. rewrite drop_0, total_app, !total_cons, total_nil, (slot_0 Hwf).
  unwrap. do 3 f_equal. lia.
Qed.

Lemma add_entry_room :
  (length (contents b) < 10)%nat ->
  aesd_circular_buffer_add_entry e b = Done (PNull, room_result).
Proof.
  intros Hlen. pose proof (length_contents Hwf) as HL. pose proof (wf_num _ _ Hwf).
  destruct (lookup_lt_is_Some_2 (ring b) (length (contents b))) as [old H0].
  { rewrite length_ring, (wf_len _ _ Hwf). lia. }
  unfold aesd_circular_buffer_add_entry, aesd_circular_buffer_full, bind, mget, mlift, mput, ret,
    AESDCHAR_MAX_WRITE_OPERATIONS_SUPPORTED.
  rewrite (proj2 (Z.eqb_neq _ _)) by lia. simpl.
  rewrite in_slot at 2. rewrite (set_entry_upd _ _ _ _ _ _ H0). simpl.
  pose proof (contents_total_bounds Hwf). destruct He.
  assert (mx * cb_num_entries b <= mx * 9) by nia. unfold room_result, push.
  rewrite lastn_all by (rewrite length_app; simpl; lia).
  rewrite (wf_size _ _ Hwf), total_app, total_cons, total_nil, <- in_slot. unwrap.
  do 3 f_equal. lia.
Qed.

Lemma add_entry_run :
  exists b', aesd_circular_buffer_add_entry e b = Done (evicted_ptr (contents b), b') /\
    cb_wf mx b' /\ contents b' = push (contents b) e.
Proof.
  pose proof (length_contents_le Hwf). unfold evicted_ptr, evicted.
  destruct (decide _) as [Hlen|Hlen].
  - destruct (head (contents b)) as [old|] eqn:Eh; [|by destruct (contents b)].
    apply head_Some in Eh as [l Ec]. exists full_result.
    split; [by apply (add_entry_full old l)|by apply full_result_wf].
  - exists room_result. split; [|apply room_result_wf; lia]. apply add_entry_room. lia.
Qed.
End add.

(** ** Position of an entry *)

Section fpos.
Context {mx : Z} {b : aesd_circular_buffer} (Hwf : cb_wf mx b).
Context (Hint : total (contents b) < 2 ^ 31).

Lemma fpos_loop_sum fuel (index i : nat) :
  (i <= index)%nat -> (index < length (contents b))%nat -> (index - i <= fuel)%nat ->
  fpos_loop fuel b (Z.of_nat index) (Z.of_nat i) (total (take i (contents b))) =
  Done (total (take index (contents b))).
Proof.
  revert i. induction fuel as [|fuel IH]; intros i Hi Hidx Hfuel.
  - replace i with index by lia. simpl. by rewrite Z.ltb_irrefl.
  - simpl. destruct (Z.ltb_spec (Z.of_nat i) (Z.of_nat index)) as [Hlt|].
    2:{ do 3 f_equal. lia. }
    pose proof (length_contents_le Hwf).
    destruct (lookup_lt_is_Some_2 (contents b) i) as [e He]; [lia|].
    rewrite (offs_plus_slot Hwf) by lia. rewrite (entry_at_contents Hwf _ _ He).
    pose proof (total_take_S i e He). pose proof (total_take_bounds Hwf i).
    pose proof (total_take_bounds Hwf (S i)). unwrap.
    replace (Z.of_nat i + 1) with (Z.of_nat (S i)) by lia.
    replace (total (take i (contents b)) + be_size e) with (total (take (S i) (contents b))) by lia.
    apply IH; lia.
Qed.

Lemma get_entry_fpos_at (index : nat) offset e :
  contents b !! index = Some e -> 0 <= offset < be_size e ->
  aesd_circular_buffer_get_entry_fpos b (Z.of_nat index) offset =
  Done (total (take index (contents b)) + offset).
Proof.
  intros He Hoff. pose proof (lookup_lt_Some _ _ _ He) as Hlt.
  pose proof (zlen_contents Hwf) as Hn. pose proof (length_contents_le Hwf). unfold zlen in Hn.
  unfold aesd_circular_buffer_get_entry_fpos.
  rewrite (proj2 (Z.leb_gt _ _)), (offs_plus_slot Hwf) by lia.
  rewrite (entry_at_contents Hwf _ _ He), (proj2 (Z.leb_gt _ _)) by lia.
  pose proof (fpos_loop_sum fpos_fuel index 0) as Hloop.
  rewrite take_0, total_nil in Hloop. change (Z.of_nat 0) with 0 in Hloop. rewrite Hloop by (unfold fpos_fuel; lia).
  pose proof (total_take_S index e He). pose proof (total_take_bounds Hwf index).
  pose proof (total_take_bounds Hwf (S index)). unwrap. done.
Qed.

Lemma get_entry_fpos_out_of_range index offset :
  0 <= index < 2 ^ 32 ->
  (forall e, contents b !! Z.to_nat index = Some e -> be_size e <= offset) ->
  aesd_circular_buffer_get_entry_fpos b index offset = Done (-1).
Proof.
  intros Hi Hno. pose proof (zlen_contents Hwf) as Hn.
  pose proof (length_contents_le Hwf). unfold zlen in Hn.
  unfold aesd_circular_buffer_get_entry_fpos.
  destruct (Z.leb_spec (cb_num_entries b) index) as [|Hlt]; [done|].
  destruct (lookup_lt_is_Some_2 (contents b) (Z.to_nat index)) as [e He]; [lia|].
  rewrite <- (Z2Nat.id index), (offs_plus_slot Hwf), (entry_at_contents Hwf _ _ He) by lia.
  by rewrite (proj2 (Z.leb_le _ _)) by auto.
Qed.

Lemma get_entry_fpos_eq index offset :
  0 <= index < 2 ^ 32 -> 0 <= offset < 2 ^ 32 ->
  aesd_circular_buffer_get_entry_fpos b index offset =
  Done (match contents b !! Z.to_nat index with
        | Some e => if offset <? be_size e
                    then total (take (Z.to_nat index) (contents b)) + offset else -1
        | None => -1
        end).
Proof.
  intros Hi Hoff. destruct (contents b !! Z.to_nat index) as [e|] eqn:He.
  - destruct (Z.ltb_spec offset (be_size e)).
    + rewrite <- (Z2Nat.id index) at 1 by lia. apply (get_entry_fpos_at _ _ e); [done|lia].
    + apply get_entry_fpos_out_of_range; [done|]. intros e' He'. congruence.
  - apply get_entry_fpos_out_of_range; [done|]. intros e' He'. congruence.
Qed.
End fpos.

(** ** Iteration over the slots *)

Lemma foreach_from_wp {S} n b index (body : aesd_buffer_entry -> M S unit)
    (I : list aesd_buffer_entry -> S -> Prop) s :
  length (cb_entry b) = 10%nat -> (index + n = 10)%nat ->
  (forall e l s, I (e :: l) s -> wp (body e) (fun _ s' => I l s') s) ->
  I (drop index (cb_entry b)) s ->
  wp (foreach_from n b (Z.of_nat index) body) (fun _ s' => I [] s') s.
Proof.
  intros Hlen Hn Hbody. revert index s Hn.
  induction n as [|n IH]; intros index s Hn HI; simpl.
  - apply wp_ret. by rewrite drop_ge in HI by lia.
  - destruct (lookup_lt_is_Some_2 (cb_entry b) index) as [e He]; [lia|].
    apply wp_bind, (wp_lift _ e).
    { unfold entry_at. rewrite (proj2 (Z.ltb_ge _ _)) by lia. by rewrite Nat2Z.id, He. }
    apply wp_bind. rewrite (drop_S _ _ _ He) in HI.
    eapply wp_mono; [by apply Hbody|]. intros [] s' HI'. cbn beta.
    unwrap. replace (Z.of_nat index + 1) with (Z.of_nat (Datatypes.S index)) by lia.
    apply IH; [lia|done].
Qed.

(** The macro's loop visits [entry[0]] to [entry[9]] once each, in order. *)
Lemma foreach_wp {S} b (body : aesd_buffer_entry -> M S unit)
    (I : list aesd_buffer_entry -> S -> Prop) s :
  length (cb_entry b) = 10%nat ->
  (forall e l s, I (e :: l) s -> wp (body e) (fun _ s' => I l s') s) ->
  I (cb_entry b) s ->
  wp (AESD_CIRCULAR_BUFFER_FOREACH b body) (fun _ s' => I [] s') s.
Proof. intros Hlen Hbody HI. by apply (foreach_from_wp 10 b 0 body I). Qed.

(** ** The empty buffer *)

Lemma init_contents : contents aesd_circular_buffer_init = [].
Proof. reflexivity. Qed.

Lemma init_wf mx : cb_wf mx aesd_circular_buffer_init.
Proof.
  constructor; try reflexivity; try (simpl; lia).
  - rewrite init_contents. constructor.
  - change (unused _) with (replicate 10 zero_entry). by apply Forall_replicate.
Qed.

(** ** A history of insertions *)

(** Insert the entries one after the other; collect the returned pointers. *)
Fixpoint add_all (es : list aesd_buffer_entry) : M aesd_circular_buffer (list ptr) :=
  match es with
  | [] => ret []
  | e :: es =>
      let! p := aesd_circular_buffer_add_entry e in
      let! ps := add_all es in
      ret (p :: ps)
  end.

Lemma length_push l e : length (push l e) = min 10 (S (length l)).
Proof. unfold push. rewrite length_lastn, length_app, Nat.add_1_r. done. Qed.

Lemma lastn_push l es e : lastn 10 (push l e ++ es) = lastn 10 (l ++ e :: es).
Proof. unfold push. rewrite lastn_app_lastn, <- app_assoc. done. Qed.

(** What falls out over a run, starting from the live entries [l]. *)
Fixpoint evictions (l es : list aesd_buffer_entry) : list ptr :=
  match es with
  | [] => []
  | e :: es => evicted_ptr l :: evictions (push l e) es
  end.

Lemma add_all_run mx b es :
  cb_wf mx b -> mx * 10 < 2 ^ 64 -> Forall (entry_ok mx) es ->
  exists b', add_all es b = Done (evictions (contents b) es, b') /\ cb_wf mx b' /\
    contents b' = lastn 10 (contents b ++ es).
Proof.
  intros Hwf Hmx HF. revert b Hwf. induction HF as [|e es He HF IH]; intros b Hwf; simpl.
  - exists b. split; [done|]. split; [done|]. rewrite app_nil_r, lastn_all; [done|].
    apply (length_contents_le Hwf).
  - destruct (add_entry_run Hwf Hmx e He) as (b1 & Hrun & Hwf1 & Hc1).
    destruct (IH b1 Hwf1) as (b2 & Hrun2 & Hwf2 & Hc2).
    exists b2. unfold bind. rewrite Hrun, Hrun2, Hc1. split; [done|]. split; [done|].
    by rewrite Hc2, Hc1, lastn_push.
Qed.

Lemma evictions_short l es :
  (length l + length es <= 10)%nat -> evictions l es = replicate (length es) PNull.
Proof.
  revert l. induction es as [|e es IH]; intros l Hl; [done|]. simpl in *.
  unfold evicted_ptr, evicted. destruct (decide _); [lia|]. f_equal.
  apply IH. rewrite length_push. lia.
Qed.

Lemma evictions_full l es :
  length l = 10%nat -> evictions l es = be_buffptr <$> take (length es) (l ++ es).
Proof.
  revert l. induction es as [|e es IH]; intros l Hl; [done|]. simpl.
  unfold evicted_ptr, evicted. destruct (decide _); [|done].
  destruct l as [|x l]; [done|]. simpl in *. f_equal.
  unfold push. rewrite lastn_app_one by (simpl; lia). simpl. rewrite drop_0.
  rewrite IH by (rewrite length_app; simpl; lia). by rewrite <- app_assoc.
Qed.

Lemma evictions_nil es :
  evictions [] es =
  replicate (min 10 (length es)) PNull ++ (be_buffptr <$> take (length es - 10) es).
Proof.
  rewrite <- (take_drop 10 es) at 1.
  assert (forall l1 l2 l, evictions l (l1 ++ l2) = evictions l l1 ++ evictions (fold_left push l1 l) l2) as Happ.
  { induction l1 as [|x l1 IH]; intros l2 l; [done|]. simpl. by rewrite IH. }
  assert (forall l1 l, (length l + length l1 <= 10)%nat -> fold_left push l1 l = l ++ l1) as Hfold.
  { induction l1 as [|x l1 IH]; intros l Hl; simpl in *; [by rewrite app_nil_r|].
    assert (push l x = l ++ [x]) as -> by (apply lastn_all; rewrite length_app; simpl; lia).
    rewrite IH by (rewrite length_app; simpl; lia). by rewrite <- app_assoc. }
  pose proof (length_take es 10) as Ht. pose proof (length_drop es 10) as Hd.
  rewrite Happ, evictions_short, Ht by (simpl; lia). f_equal.
  rewrite Hfold by (simpl; lia). simpl.
  destruct (decide (length es <= 10)%nat).
  - rewrite drop_ge by lia. replace (length es - 10)%nat with 0%nat by lia. done.
  - rewrite evictions_full by lia. by rewrite Hd, take_drop.
Qed.

(** ** Properties *)

(** C13: adding an entry to a well-formed buffer appends it to the contents; when ten
    entries are live the oldest one is dropped and its pointer returned for the
    caller to free, otherwise NULL is returned. The result is well-formed again:
    offsets, count, byte total and unused slots all agree with the new contents. *)
Theorem add_entry_refines mx b e :
  cb_wf mx b -> mx * 10 < 2 ^ 64 -> entry_ok mx e ->
  exists b', aesd_circular_buffer_add_entry e b = Done (evicted_ptr (contents b), b') /\
    cb_wf mx b' /\ contents b' = push (contents b) e.
Proof. intros Hwf Hmx He. by apply add_entry_run. Qed.

(** C15: from an empty buffer, after any sequence of insertions the buffer holds the last
    ten entries in order, and the pointers handed back to be freed are exactly those
    of the entries no longer held, in order, after one NULL per insertion that found
    room. *)
Theorem add_history mx es :
  mx * 10 < 2 ^ 64 -> Forall (entry_ok mx) es ->
  exists b, add_all es aesd_circular_buffer_init =
      Done (replicate (min 10 (length es)) PNull ++ (be_buffptr <$> take (length es - 10) es), b) /\
    cb_wf mx b /\ contents b = lastn 10 es.
Proof.
  intros Hmx HF. destruct (add_all_run mx _ es (init_wf mx) Hmx HF) as (b & Hrun & Hwf & Hc).
  exists b. rewrite init_contents in *. by rewrite Hrun, evictions_nil.
Qed.

(** C16: the search for a file position terminates within ten rounds on every well-formed
    buffer; it returns the slot and the offset in it of the byte that the position has
    in the concatenation of the entries, and NULL exactly for positions at or past the
    end. *)
Theorem find_entry_offset_correct mx b off :
  cb_wf mx b -> total (contents b) < 2 ^ 64 -> 0 <= off < 2 ^ 64 ->
  (total (contents b) <= off /\
     aesd_circular_buffer_find_entry_offset_for_fpos b off = Done None) \/
  (exists i e o, contents b !! i = Some e /\ 0 <= o < be_size e /\
     off = total (take i (contents b)) + o /\ entry_at b (slot b i) = Done e /\
     aesd_circular_buffer_find_entry_offset_for_fpos b off = Done (Some (slot b i, o))).
Proof.
  intros Hwf Hs Hoff. rewrite (find_locate Hwf Hs _ Hoff).
  destruct (locate (contents b) off) as [[i o]|] eqn:E.
  - right. destruct (locate_Some _ _ _ _ E) as (e & He & Ho & Hsum); [lia|].
    exists i, e, o. split_and!; try done; try lia. by apply (entry_at_contents Hwf).
  - left. split; [|done]. apply (locate_None mx); [apply Hwf|lia|done].
Qed.

(** C20: the position computed for byte [offset] of the [index]-th oldest entry is the
    number of bytes before it, and -1 is returned exactly when there is no such entry
    or no such byte; the position never overflows [int] while the buffer holds less
    than 2^31 bytes. Seeking and reading agree: the search for the computed position
    finds the entry's slot and the offset again. *)
Theorem get_entry_fpos_correct mx b index offset :
  cb_wf mx b -> total (contents b) < 2 ^ 31 -> 0 <= index < 2 ^ 32 -> 0 <= offset < 2 ^ 32 ->
  let pos := total (take (Z.to_nat index) (contents b)) + offset in
  match contents b !! Z.to_nat index with
  | Some e =>
      if offset <? be_size e
      then aesd_circular_buffer_get_entry_fpos b index offset = Done pos /\
           aesd_circular_buffer_find_entry_offset_for_fpos b pos = Done (Some (slot b (Z.to_nat index), offset))
      else aesd_circular_buffer_get_entry_fpos b index offset = Done (-1)
  | None => aesd_circular_buffer_get_entry_fpos b index offset = Done (-1)
  end.
Proof.
  intros Hwf Hs Hi Hoff pos. rewrite (get_entry_fpos_eq Hwf Hs) by done.
  destruct (contents b !! Z.to_nat index) as [e|] eqn:He; [|done]. destruct (Z.ltb_spec offset (be_size e)); [|done].
  split; [done|]. pose proof (total_take_S _ e He). pose proof (total_take_bounds Hwf (Z.to_nat index)).
  pose proof (total_take_bounds Hwf (S (Z.to_nat index))). unfold pos. rewrite (find_locate Hwf) by lia.
  by rewrite (locate_at mx _ _ _ _ (wf_entries _ _ Hwf) He) by lia.
Qed.

(** ** Concrete instances *)

Definition sample_entry (n : positive) : aesd_buffer_entry := BufferEntry (PLoc n) (Zpos n).
(** Twelve insertions of entries of sizes 1 to 12: the buffer has wrapped around. *)
Definition sample_buffer : aesd_circular_buffer :=
  match add_all (sample_entry <$> [1;2;3;4;5;6;7;8;9;10;11;12]%positive) aesd_circular_buffer_init with
  | Done (_, b) => b
  | Fault _ => aesd_circular_buffer_init
  end.

Ltac forall_lia := repeat (constructor; [unfold entry_ok; simpl; lia|]); try constructor.

Lemma sample_buffer_wf : cb_wf 100 sample_buffer.
Proof.
  constructor; try (vm_compute; split; congruence); try (vm_compute; reflexivity).
  - change (contents sample_buffer) with (sample_entry <$> [3;4;5;6;7;8;9;10;11;12]%positive).
    forall_lia.
  - change (unused sample_buffer) with (@nil aesd_buffer_entry). constructor.
Defined.

Lemma add_entry_refines_witness :
  exists b', aesd_circular_buffer_add_entry (sample_entry 13) sample_buffer =
      Done (evicted_ptr (contents sample_buffer), b') /\
    cb_wf 100 b' /\ contents b' = push (contents sample_buffer) (sample_entry 13).
Proof.
  apply (add_entry_refines 100 sample_buffer (sample_entry 13));
    [apply sample_buffer_wf|lia|unfold entry_ok; simpl; lia].
Defined.

Lemma add_history_witness :
  exists b, add_all (sample_entry <$> [1;2;3]%positive) aesd_circular_buffer_init =
      Done ([PNull; PNull; PNull], b) /\
    cb_wf 100 b /\ contents b = sample_entry <$> [1;2;3]%positive.
Proof.
  destruct (add_history 100 (sample_entry <$> [1;2;3]%positive)) as (b & Hrun & Hwf & Hc);
    [lia|forall_lia|].
  exists b. split; [exact Hrun|]. split; [exact Hwf|exact Hc].
Defined.

Lemma find_entry_offset_correct_witness :
  (total (contents sample_buffer) <= 8 /\
     aesd_circular_buffer_find_entry_offset_for_fpos sample_buffer 8 = Done None) \/
  (exists i e o, contents sample_buffer !! i = Some e /\ 0 <= o < be_size e /\
     8 = total (take i (contents sample_buffer)) + o /\
     entry_at sample_buffer (slot sample_buffer i) = Done e /\
     aesd_circular_buffer_find_entry_offset_for_fpos sample_buffer 8 =
       Done (Some (slot sample_buffer i, o))).
Proof.
  apply (find_entry_offset_correct 100 sample_buffer 8);
    [apply sample_buffer_wf|vm_compute; reflexivity|lia].
Defined.

Lemma get_entry_fpos_correct_witness :
  aesd_circular_buffer_get_entry_fpos sample_buffer 2 4 = Done 11 /\
  aesd_circular_buffer_find_entry_offset_for_fpos sample_buffer 11 = Done (Some (slot sample_buffer 2, 4)).
Proof.
  apply (get_entry_fpos_correct 100 sample_buffer 2 4);
    [apply sample_buffer_wf|vm_compute; reflexivity|lia|lia].
Defined.
