(* ===== verification/KernelApi.v ===== *)
(** The kernel services the character driver calls, as an interface.

    None of this code is in the repository, so each service is an operation of
    the class [Kernel] and what the driver relies on is a law of [KernelLaws]:
    the documented behaviour of [kmalloc], [kfree], [copy_from_user],
    [copy_to_user], mutexes, [fixed_size_llseek] and the character device
    registry. [sample_kernel] is a concrete instance that satisfies the laws; it
    is what the driver's theorems are evaluated on. *)

From S2P Require Import Prelude CMonad KHeap.
Local Open Scope Z_scope.

(** User memory: the bytes at the user addresses that can be accessed. *)
Abbreviation umem := (gmap Z char).

(** The character device registry: reserved device numbers, live devices. *)
Record chrdevs := Chrdevs { cd_regions : gset Z; cd_live : gset Z }.

Definition EFAULT : Z := 14.
Definition ENOMEM : Z := 12.
Definition EINVAL : Z := 22.
Definition ENOTTY : Z := 25.

Class Kernel := {
  kmalloc : Z -> heap -> ptr * heap;
  kfree : ptr -> heap -> option heap;
  (** [copy_from_user u from n]: the number of bytes not copied, and the [n] bytes
      the destination holds afterwards. *)
  copy_from_user : umem -> Z -> Z -> Z * bytes;
  (** [copy_to_user u to bs]: the number of bytes not copied, and user memory. *)
  copy_to_user : umem -> Z -> bytes -> Z * umem;
  (** A mutex is its locked flag; [None]: the call would block or is invalid. *)
  mutex_lock : bool -> option bool;
  mutex_unlock : bool -> option bool;
  mutex_destroy : bool -> option bool;
  (** [fixed_size_llseek f_pos offset whence size]: the result and the new [f_pos]. *)
  fixed_size_llseek : Z -> Z -> Z -> Z -> Z * Z;
  (** [alloc_chrdev_region c minor count]: result, device number, registry. *)
  alloc_chrdev_region : chrdevs -> Z -> Z -> Z * Z * chrdevs;
  unregister_chrdev_region : chrdevs -> Z -> Z -> chrdevs;
  cdev_add : chrdevs -> Z -> Z -> Z * chrdevs;
  cdev_del : chrdevs -> Z -> chrdevs;
  MAJOR : Z -> Z;
  MKDEV : Z -> Z -> Z;
  (** The request number macro of the ioctl headers: type, number, argument size. *)
  IOWR : Z -> Z -> Z -> Z;
}.

Definition KMALLOC_MAX_SIZE : Z := 2 ^ 22.

(** The accessible bytes [a .. a + n), if all of them are. *)
Fixpoint ubytes (u : umem) (a : Z) (n : nat) : option bytes :=
  match n with
  | O => Some []
  | S n => match u !! a, ubytes u (a + 1) n with
           | Some c, Some cs => Some (c :: cs)
           | _, _ => None
           end
  end.
Definition user_bytes (u : umem) (a n : Z) : option bytes := ubytes u a (Z.to_nat n).

(** User memory with [bs] stored at [a]. *)
Fixpoint ustore (u : umem) (a : Z) (bs : bytes) : umem :=
  match bs with
  | [] => u
  | c :: bs => ustore (<[a := c]> u) (a + 1) bs
  end.

(** Where a seek goes, before range checks: SEEK_SET, SEEK_CUR, SEEK_END. *)
Definition seek_target (f_pos offset whence size : Z) : option Z :=
  match whence with
  | 0 => Some offset
  | 1 => Some (f_pos + offset)
  | 2 => Some (size + offset)
  | _ => None
  end.

Class KernelLaws (K : Kernel) : Prop := {
  (** kmalloc: NULL and nothing changes, or a fresh object of the size asked for,
      of at most KMALLOC_MAX_SIZE bytes, with any contents. *)
  kmalloc_spec n h : 0 < n ->
    kmalloc n h = (PNull, h) \/
    n <= KMALLOC_MAX_SIZE /\ exists l bs, h !! l = None /\ zlen bs = n /\
      kmalloc n h = (PLoc l, <[l := bs]> h);
  kmalloc_zero h : kmalloc 0 h = (PZero, h);
  kfree_null h : kfree PNull h = Some h;
  kfree_zero h : kfree PZero h = Some h;
  kfree_live l bs h : h !! l = Some bs -> kfree (PLoc l) h = Some (delete l h);
  (** copy_from_user: nothing is left over exactly when every byte is accessible,
      and then the destination holds those bytes. *)
  copy_from_user_range u a n : 0 <= n ->
    0 <= fst (copy_from_user u a n) <= n /\ zlen (snd (copy_from_user u a n)) = n;
  copy_from_user_ok u a n bs : 0 <= n -> user_bytes u a n = Some bs -> copy_from_user u a n = (0, bs);
  copy_from_user_bad u a n : 0 <= n -> user_bytes u a n = None -> 0 < fst (copy_from_user u a n);
  copy_to_user_ok u a bs : is_Some (user_bytes u a (zlen bs)) ->
    copy_to_user u a bs = (0, ustore u a bs);
  copy_to_user_bad u a bs : user_bytes u a (zlen bs) = None ->
    0 < fst (copy_to_user u a bs) <= zlen bs;
  mutex_lock_free : mutex_lock false = Some true;
  mutex_unlock_held : mutex_unlock true = Some false;
  mutex_destroy_free : mutex_destroy false = Some false;
  llseek_valid p off whence size n : seek_target p off whence size = Some n ->
    0 <= n <= size -> fixed_size_llseek p off whence size = (n, n);
  llseek_invalid p off whence size n : seek_target p off whence size = Some n ->
    n < 0 \/ size < n -> ~ (whence = 1 /\ off = 0) ->
    fixed_size_llseek p off whence size = (- EINVAL, p);
  llseek_whence p off whence size : seek_target p off whence size = None ->
    fixed_size_llseek p off whence size = (- EINVAL, p);
  alloc_region_spec c minor count :
    (exists dev, 0 < dev /\ (dev ∉ cd_regions c) /\ MKDEV (MAJOR dev) minor = dev /\
       alloc_chrdev_region c minor count = (0, dev, Chrdevs ({[dev]} ∪ cd_regions c) (cd_live c))) \/
    (exists err, err < 0 /\ alloc_chrdev_region c minor count = (err, 0, c));
  unregister_spec c dev count :
    unregister_chrdev_region c dev count = Chrdevs (cd_regions c ∖ {[dev]}) (cd_live c);
  cdev_add_spec c dev count :
    cdev_add c dev count = (0, Chrdevs (cd_regions c) ({[dev]} ∪ cd_live c)) \/
    (exists err, err < 0 /\ cdev_add c dev count = (err, c));
  cdev_del_spec c dev : cdev_del c dev = (Chrdevs (cd_regions c) (cd_live c ∖ {[dev]}));
}.

Lemma ubytes_length u a n bs : ubytes u a n = Some bs -> length bs = n.
Proof.
  revert a bs. induction n as [|n IH]; simpl; intros a bs; [by intros [= <-]|].
  destruct (u !! a); [|done]. destruct (ubytes u (a + 1) n) eqn:E; [|done].
  intros [= <-]. simpl. f_equal. eauto.
Qed.

Lemma ubytes_shorter u a n m : (n <= m)%nat -> is_Some (ubytes u a m) -> is_Some (ubytes u a n).
Proof.
  revert a m. induction n as [|n IH]; intros a [|m] Hn; simpl; try lia; try by eexists.
  destruct (u !! a); [|by intros []]. intros Hm.
  assert (is_Some (ubytes u (a + 1) m)) as Hm' by (by destruct (ubytes u (a + 1) m); [eexists|destruct Hm]).
  destruct (IH (a + 1) m ltac:(lia) Hm') as [cs ->]. by eexists.
Qed.

Lemma user_bytes_shorter u a m n : n <= m -> is_Some (user_bytes u a m) -> is_Some (user_bytes u a n).
Proof. intros Hn Hm. apply (ubytes_shorter u a (Z.to_nat n) (Z.to_nat m)); [lia|done]. Qed.

Lemma ubytes_take u a n m bs cs :
  (n <= m)%nat -> ubytes u a n = Some bs -> ubytes u a m = Some cs -> exists rest, cs = bs ++ rest.
Proof.
  revert a m bs cs. induction n as [|n IH]; intros a [|m] bs cs Hn; simpl; try lia.
  - intros [= <-] _. by eexists.
  - intros [= <-] _. by eexists.
  - destruct (u !! a); [|done].
    destruct (ubytes u (a + 1) n) as [bs'|] eqn:E1; [|done]. intros [= <-].
    destruct (ubytes u (a + 1) m) as [cs'|] eqn:E2; [|done]. intros [= <-].
    destruct (IH (a + 1) m bs' cs') as [rest ->]; [lia|done|done|]. by exists rest.
Qed.

Lemma user_bytes_take u a n m bs cs :
  user_bytes u a n = Some bs -> user_bytes u a m = Some cs -> n <= m -> exists rest, cs = bs ++ rest.
Proof. intros H1 H2 Hn. apply (ubytes_take u a (Z.to_nat n) (Z.to_nat m)); [lia|done|done]. Qed.

Lemma user_bytes_zlen u a n bs : 0 <= n -> user_bytes u a n = Some bs -> zlen bs = n.
Proof. intros ? H. apply ubytes_length in H. unfold zlen. lia. Qed.

Lemma ustore_lookup_lt u a bs i : i < a -> ustore u a bs !! i = u !! i.
Proof.
  revert u a. induction bs as [|c bs IH]; intros u a Hi; simpl; [done|].
  rewrite IH by lia. apply lookup_insert_ne. lia.
Qed.

(** Reading back what was stored. *)
Lemma user_bytes_ustore u a bs : user_bytes (ustore u a bs) a (zlen bs) = Some bs.
Proof.
  unfold user_bytes. rewrite zlen_to_nat. revert u a.
  induction bs as [|c bs IH]; intros u a; simpl; [done|].
  rewrite ustore_lookup_lt, lookup_insert_eq by lia. by rewrite IH.
Qed.

Lemma ustore_lookup_ge u a bs i : a + zlen bs <= i -> ustore u a bs !! i = u !! i.
Proof.
  revert u a. induction bs as [|c bs IH]; intros u a Hi; simpl; [done|].
  rewrite zlen_cons in Hi. pose proof (zlen_nonneg bs).
  rewrite IH by lia. apply lookup_insert_ne. lia.
Qed.

(** ** A concrete kernel *)

(** Fresh objects are at the successor of the largest address in use and are filled
    with ['X']; a copy proceeds byte by byte up to the first bad address. *)

Fixpoint user_prefix (u : umem) (a : Z) (n : nat) : bytes :=
  match n with
  | O => []
  | S n => match u !! a with Some c => c :: user_prefix u (a + 1) n | None => [] end
  end.

Lemma user_prefix_spec u a n :
  match ubytes u a n with
  | Some bs => user_prefix u a n = bs
  | None => (length (user_prefix u a n) < n)%nat
  end.
Proof.
  revert a. induction n as [|n IH]; intros a; simpl; [done|].
  specialize (IH (a + 1)). destruct (u !! a); [|simpl; lia].
  destruct (ubytes u (a + 1) n); [by rewrite IH|simpl; lia].
Qed.

Lemma user_prefix_le u a n : (length (user_prefix u a n) <= n)%nat.
Proof.
  revert a. induction n as [|n IH]; intros a; simpl; [lia|].
  specialize (IH (a + 1)). destruct (u !! a); simpl; lia.
Qed.

Definition sample_copy_from_user (u : umem) (a n : Z) : Z * bytes :=
  let got := user_prefix u a (Z.to_nat n) in
  (n - zlen got, got ++ replicate (Z.to_nat n - length got) NUL).
Definition sample_copy_to_user (u : umem) (a : Z) (bs : bytes) : Z * umem :=
  let ok := length (user_prefix u a (length bs)) in
  (zlen bs - Z.of_nat ok, ustore u a (take ok bs)).
Definition sample_llseek (p off whence size : Z) : Z * Z :=
  match seek_target p off whence size with
  | Some n => if (0 <=? n) && (n <=? size) then (n, n) else (- EINVAL, p)
  | None => (- EINVAL, p)
  end.
Definition sample_dev : Z := 240 * 2 ^ 20.

#[export] Instance sample_kernel : Kernel := {|
  kmalloc n h :=
    if n =? 0 then (PZero, h)
    else if n <=? KMALLOC_MAX_SIZE then
      let l := Pos.succ (max_loc h) in
      (PLoc l, <[l := replicate (Z.to_nat n) "X"%char]> h)
    else (PNull, h);
  kfree p h := match p with
               | PLoc l => if decide (is_Some (h !! l)) then Some (delete l h) else None
               | _ => Some h
               end;
  copy_from_user := sample_copy_from_user;
  copy_to_user := sample_copy_to_user;
  mutex_lock b := if b then None else Some true;
  mutex_unlock b := if b then Some false else None;
  mutex_destroy b := if b then None else Some false;
  fixed_size_llseek := sample_llseek;
  alloc_chrdev_region c minor count :=
    if decide (sample_dev + minor ∈ cd_regions c) then (-16, 0, c)
    else if (0 <=? minor) && (minor <? 2 ^ 20) then
      (0, sample_dev + minor, Chrdevs ({[sample_dev + minor]} ∪ cd_regions c) (cd_live c))
    else (-16, 0, c);
  unregister_chrdev_region c dev count := Chrdevs (cd_regions c ∖ {[dev]}) (cd_live c);
  cdev_add c dev count := (0, Chrdevs (cd_regions c) ({[dev]} ∪ cd_live c));
  cdev_del c dev := Chrdevs (cd_regions c) (cd_live c ∖ {[dev]});
  MAJOR dev := dev / 2 ^ 20;
  MKDEV ma mi := ma * 2 ^ 20 + mi;
  IOWR ty nr sz := 3 * 2 ^ 30 + sz * 2 ^ 16 + ty * 2 ^ 8 + nr;
|}.

Lemma sample_copy_from_user_ok u a n :
  0 <= n ->
  (0 <= fst (sample_copy_from_user u a n) <= n /\ zlen (snd (sample_copy_from_user u a n)) = n) /\
  match user_bytes u a n with
  | Some bs => sample_copy_from_user u a n = (0, bs)
  | None => 0 < fst (sample_copy_from_user u a n)
  end.
Proof.
  intros Hn. unfold sample_copy_from_user, user_bytes, zlen. simpl.
  pose proof (user_prefix_spec u a (Z.to_nat n)) as H.
  pose proof (user_prefix_le u a (Z.to_nat n)).
  rewrite length_app, length_replicate. split; [lia|].
  destruct (ubytes u a (Z.to_nat n)) as [bs|] eqn:E; [|lia].
  rewrite H in *. pose proof (ubytes_length _ _ _ _ E) as Hl.
  rewrite Hl, Nat.sub_diag. simpl. rewrite app_nil_r. f_equal. lia.
Qed.

#[export] Instance sample_kernel_laws : KernelLaws sample_kernel.
Proof.
  split; simpl; try done.
  - intros n h Hn. rewrite (proj2 (Z.eqb_neq _ _)) by lia.
    destruct (Z.leb_spec n KMALLOC_MAX_SIZE); [right|by left]. split; [done|].
    eexists _, _. split; [apply max_loc_fresh|]. split; [|done].
    unfold zlen. rewrite length_replicate. lia.
  - intros l bs h Hl. by rewrite Hl, decide_True by done.
  - intros u a n Hn. by apply sample_copy_from_user_ok.
  - intros u a n bs Hn H. destruct (sample_copy_from_user_ok u a n Hn) as [_ H2].
    by rewrite H in H2.
  - intros u a n Hn H. destruct (sample_copy_from_user_ok u a n Hn) as [_ H2].
    by rewrite H in H2.
  - intros u a bs [bs' H]. unfold user_bytes in H. rewrite zlen_to_nat in H.
    unfold sample_copy_to_user. pose proof (user_prefix_spec u a (length bs)) as Hp.
    rewrite H in Hp. rewrite Hp, (ubytes_length _ _ _ _ H), firstn_all.
    f_equal. unfold zlen. lia.
  - intros u a bs H. unfold user_bytes in H. rewrite zlen_to_nat in H.
    pose proof (user_prefix_spec u a (length bs)) as Hp. rewrite H in Hp. unfold zlen. lia.
  - intros p off whence size n H Hn. unfold sample_llseek. rewrite H.
    by rewrite (proj2 (Z.leb_le 0 n)), (proj2 (Z.leb_le n size)) by lia.
  - intros p off whence size n H Hn _. unfold sample_llseek. rewrite H.
    destruct (Z.leb_spec 0 n), (Z.leb_spec n size); simpl; (lia || done).
  - intros p off whence size H. unfold sample_llseek. by rewrite H.
  - intros c minor count. case_decide; [right; eexists; split; [|done]; lia|].
    destruct (Z.leb_spec 0 minor); [|right; eexists; split; [|done]; lia].
    destruct (Z.ltb_spec minor (2 ^ 20)); [|right; eexists; split; [|done]; lia].
    left. exists (sample_dev + minor). unfold sample_dev in *. split; [lia|]. split; [done|].
    split; [|done]. rewrite <- (Z.div_unique_pos (240 * 2 ^ 20 + minor) (2 ^ 20) 240 minor); lia.
  - intros c dev count. by left.
Qed.
