(* ===== verification/DeviceSpec.v ===== *)
(** What the character device promises its users, without memory or indices.

    A device is the list of its last ten commands (newline-terminated byte
    strings, oldest first) and the bytes written since the last newline-terminated
    write. The driver's functions refine the operations of this file, and the
    socket server's theorems are stated over them. *)

From S2P Require Import Prelude.
Local Open Scope Z_scope.

Record dstate := DState { cmds : list bytes; pending : bytes }.

#[global] Instance dstate_eq_dec : EqDecision dstate.
Proof. solve_decision. Defined.

Definition d_init : dstate := DState [] [].

(** The readable contents: the commands, concatenated. *)
Definition d_content (a : dstate) : bytes := concat (cmds a).
Definition d_size (a : dstate) : Z := zlen (d_content a).

Definition ends_in_newline (bs : bytes) : bool := bool_decide (last bs = Some NL).

(** A write appends to the pending bytes; if the result ends in a newline it
    becomes the newest command, and only the last ten commands stay. *)
Definition d_write (a : dstate) (bs : bytes) : dstate :=
  let p := pending a ++ bs in
  if ends_in_newline p then DState (lastn 10 (cmds a ++ [p])) []
  else DState (cmds a) p.

(** The bytes from position [pos] to the end of the command that holds it. *)
Fixpoint chunk_at (l : list bytes) (pos : Z) : bytes :=
  match l with
  | [] => []
  | c :: l => if pos <? zlen c then drop (Z.to_nat pos) c else chunk_at l (pos - zlen c)
  end.
(** A read returns at most [count] bytes, from one command only. *)
Definition d_read (a : dstate) (pos count : Z) : bytes :=
  take (Z.to_nat count) (chunk_at (cmds a) pos).

(** The position of byte [off] of the [cmd]-th oldest command. *)
Definition d_seek (a : dstate) (cmd off : Z) : option Z :=
  match cmds a !! Z.to_nat cmd with
  | Some c => if off <? zlen c then Some (zlen (concat (take (Z.to_nat cmd) (cmds a))) + off) else None
  | None => None
  end.

(** [struct aesd_seekto] of [aesd_ioctl.h]: the argument of the seek ioctl. *)
Record aesd_seekto := AesdSeekto { write_cmd : Z; write_cmd_offset : Z }.

(** What holds of every device: at most ten commands, each newline-terminated, and
    pending bytes that are not. [mx] bounds the length of a command. *)
Record dstate_ok (mx : Z) (a : dstate) : Prop := {
  ok_count : (length (cmds a) <= 10)%nat;
  ok_cmds : Forall (fun c => ends_in_newline c = true /\ zlen c <= mx) (cmds a);
  ok_pending : ends_in_newline (pending a) = false /\ zlen (pending a) <= mx;
}.

(** ** Lemmas *)

Lemma d_init_ok mx : 0 <= mx -> dstate_ok mx d_init.
Proof. intros. split; simpl; [lia|constructor|]. split; [done|]. by rewrite zlen_nil. Qed.

Lemma d_write_ok mx a bs :
  dstate_ok mx a -> zlen (pending a ++ bs) <= mx -> dstate_ok mx (d_write a bs).
Proof.
  intros [Hc HF Hp] Hlen. unfold d_write.
  destruct (ends_in_newline (pending a ++ bs)) eqn:E; [|constructor; cbn [cmds pending]; auto].
  constructor; cbn [cmds pending].
  - rewrite length_lastn. lia.
  - unfold lastn. apply Forall_drop, Forall_app_2; [done|]. by constructor.
  - rewrite zlen_nil. pose proof (zlen_nonneg (pending a ++ bs)). split; [done|lia].
Qed.

Lemma ends_in_newline_app a b : b <> [] -> ends_in_newline (a ++ b) = ends_in_newline b.
Proof.
  intros Hb. unfold ends_in_newline. rewrite last_app.
  destruct (last b) eqn:E; [done|]. by apply last_None in E.
Qed.

Lemma ends_in_newline_nonempty b : ends_in_newline b = true -> b <> [].
Proof. by intros H ->. Qed.

(** A non-empty string has a last character, and it decides [ends_in_newline]. *)
Lemma ends_in_newline_snoc b c : ends_in_newline (b ++ [c]) = bool_decide (c = NL).
Proof.
  unfold ends_in_newline. rewrite last_snoc. apply bool_decide_ext. split; congruence.
Qed.

Lemma chunk_at_nil l pos : zlen (concat l) <= pos -> chunk_at l pos = [].
Proof.
  revert pos. induction l as [|c l IH]; intros pos; simpl; [done|]. rewrite zlen_app.
  pose proof (zlen_nonneg (concat l)). intros. rewrite (proj2 (Z.ltb_ge _ _)) by lia. apply IH. lia.
Qed.

(** A chunk is a non-empty prefix of what follows the position. *)
Lemma chunk_at_prefix l pos :
  0 <= pos -> exists rest, drop (Z.to_nat pos) (concat l) = chunk_at l pos ++ rest.
Proof.
  revert pos. induction l as [|c l IH]; intros pos Hpos; simpl.
  - exists []. by rewrite drop_nil.
  - destruct (Z.ltb_spec pos (zlen c)) as [Hlt|Hge].
    + exists (concat l). rewrite drop_app_le; [done|]. unfold zlen in Hlt. lia.
    + destruct (IH (pos - zlen c)) as [rest Hrest]; [lia|]. exists rest.
      rewrite <- Hrest, drop_app_ge by (unfold zlen in Hge; lia). f_equal. unfold zlen. lia.
Qed.

Lemma chunk_at_nonempty l pos : 0 <= pos < zlen (concat l) -> chunk_at l pos <> [].
Proof.
  revert pos. induction l as [|c l IH]; intros pos; simpl; [unfold zlen; simpl; lia|].
  rewrite zlen_app. intros Hpos. destruct (Z.ltb_spec pos (zlen c)) as [Hlt|Hge].
  - intros E. apply (f_equal length) in E. rewrite length_drop in E. simpl in E.
    unfold zlen in *. lia.
  - apply IH. lia.
Qed.

Lemma d_read_length a pos count : 0 <= count -> zlen (d_read a pos count) <= count.
Proof. intros. unfold d_read, zlen. rewrite length_take. lia. Qed.

(** A read returns what follows the position, up to some length. *)
Lemma d_read_prefix a pos count :
  0 <= pos -> exists rest, drop (Z.to_nat pos) (d_content a) = d_read a pos count ++ rest.
Proof.
  intros Hpos. destruct (chunk_at_prefix (cmds a) pos Hpos) as [rest Hrest].
  exists (drop (Z.to_nat count) (chunk_at (cmds a) pos) ++ rest).
  unfold d_content, d_read. by rewrite Hrest, app_assoc, take_drop.
Qed.

Lemma d_read_progress a pos count :
  0 <= pos < d_size a -> 0 < count -> d_read a pos count <> [].
Proof.
  intros Hpos Hc E. pose proof (chunk_at_nonempty (cmds a) pos Hpos) as Hne.
  unfold d_read in E. destruct (chunk_at _ _) as [|c l]; [done|].
  destruct (Z.to_nat count) eqn:En; [lia|done].
Qed.

Lemma d_read_eof a pos count : d_size a <= pos -> d_read a pos count = [].
Proof. intros H. unfold d_read. by rewrite chunk_at_nil, take_nil. Qed.

(** What is left after a read is what follows the new position. *)
Lemma d_read_rest a pos count :
  0 <= pos ->
  drop (Z.to_nat pos) (d_content a) =
  d_read a pos count ++ drop (Z.to_nat (pos + zlen (d_read a pos count))) (d_content a).
Proof.
  intros Hpos. destruct (d_read_prefix a pos count Hpos) as [rest Hrest].
  rewrite Hrest at 1. f_equal. pose proof (zlen_nonneg (d_read a pos count)).
  rewrite Z2Nat.inj_add, <- drop_drop, Hrest, zlen_to_nat by lia. by rewrite drop_app_length.
Qed.

(** A seek goes to a byte of the contents. *)
Lemma d_seek_range a c o pos : 0 <= o -> d_seek a c o = Some pos -> 0 <= pos < d_size a.
Proof.
  intros Ho. unfold d_seek. destruct (cmds a !! Z.to_nat c) as [x|] eqn:E; [|done].
  destruct (Z.ltb_spec o (zlen x)); [|done]. intros [= <-].
  unfold d_size, d_content. apply take_drop_middle in E. apply (f_equal (fun l => zlen (concat l))) in E.
  rewrite concat_app, zlen_app in E. simpl in E. rewrite zlen_app in E.
  pose proof (zlen_nonneg (concat (take (Z.to_nat c) (cmds a)))).
  pose proof (zlen_nonneg (concat (drop (S (Z.to_nat c)) (cmds a)))). lia.
Qed.

Lemma d_seek_nonneg a c o pos : 0 <= o -> d_seek a c o = Some pos -> 0 <= pos.
Proof. intros Ho H. apply d_seek_range in H; lia. Qed.

(** A read that is not empty ends within the contents. *)
Lemma d_read_end a pos n : 0 <= pos -> d_read a pos n <> [] -> pos + zlen (d_read a pos n) <= d_size a.
Proof.
  intros Hpos Hne. destruct (d_read_prefix a pos n Hpos) as [rest E].
  apply (f_equal length) in E. rewrite length_drop, length_app in E.
  assert (0 < length (d_read a pos n))%nat by (destruct (d_read a pos n); simpl; [done|lia]).
  unfold d_size, zlen. lia.
Qed.
