(* ===== verification/CharDriver.v ===== *)
(** The character driver ([aesd-char-driver/main.c], [aesdchar.h], [aesd_ioctl.h]).

    Each file operation is a computation over the [world]: kernel heap, user
    memory, open files, device registry and the one [aesd_device]. A [struct
    file] is named by a key of [w_files]; a [loff_t *f_pos] argument is passed by
    value and returned. The lock is taken and released where the code does so,
    so a missing unlock shows up as a [LockFault] of the next operation. *)

From S2P Require Import Prelude CMonad KHeap CircularBuffer KernelApi DeviceSpec.
Local Open Scope Z_scope.
Local Open Scope cint_scope.
Local Open Scope cmonad_scope.

(** [struct aesd_dev], without the [cdev], whose state is in the registry. *)
Record aesd_dev := AesdDev {
  circular_buffer : aesd_circular_buffer;
  staging_entry : aesd_buffer_entry;
  lock : bool;
}.

(** The only device pointer a file can hold is [&aesd_device]. *)
Inductive dev_ptr := NoDev | AesdDevice.

Record file := File { private_data : dev_ptr; f_pos : Z (* loff_t *) }.

Record world := World {
  w_heap : heap;
  w_umem : umem;
  w_files : gmap positive file;
  w_chrdevs : chrdevs;
  aesd_major : Z;
  aesd_device : aesd_dev;
}.

Definition aesd_minor : Z := 0.

Definition with_heap (h : heap) (w : world) : world :=
  World h (w_umem w) (w_files w) (w_chrdevs w) (aesd_major w) (aesd_device w).
Definition with_umem (u : umem) (w : world) : world :=
  World (w_heap w) u (w_files w) (w_chrdevs w) (aesd_major w) (aesd_device w).
Definition with_files (fs : gmap positive file) (w : world) : world :=
  World (w_heap w) (w_umem w) fs (w_chrdevs w) (aesd_major w) (aesd_device w).
Definition with_chrdevs (c : chrdevs) (w : world) : world :=
  World (w_heap w) (w_umem w) (w_files w) c (aesd_major w) (aesd_device w).
Definition with_major (m : Z) (w : world) : world :=
  World (w_heap w) (w_umem w) (w_files w) (w_chrdevs w) m (aesd_device w).
Definition with_device (d : aesd_dev) (w : world) : world :=
  World (w_heap w) (w_umem w) (w_files w) (w_chrdevs w) (aesd_major w) d.
Definition with_lock (b : bool) (w : world) : world :=
  with_device (AesdDev (circular_buffer (aesd_device w)) (staging_entry (aesd_device w)) b) w.
Definition with_staging (e : aesd_buffer_entry) (w : world) : world :=
  with_device (AesdDev (circular_buffer (aesd_device w)) e (lock (aesd_device w))) w.
Definition with_buffer (b : aesd_circular_buffer) (w : world) : world :=
  with_device (AesdDev b (staging_entry (aesd_device w)) (lock (aesd_device w))) w.

(** [_IOWR(AESD_IOC_MAGIC, 1, struct aesd_seekto)]; the struct has two [uint32_t]. *)
Definition AESD_IOC_MAGIC : Z := 22.
Definition sizeof_aesd_seekto : Z := 8.
Definition AESDCHAR_IOCSEEKTO `{Kernel} : Z := IOWR AESD_IOC_MAGIC 1 sizeof_aesd_seekto.

(** A little-endian unsigned integer, and the struct laid out in memory. *)
Fixpoint le_decode (bs : bytes) : Z :=
  match bs with
  | [] => 0
  | c :: bs => char_code c + 256 * le_decode bs
  end.
Definition decode_seekto (bs : bytes) : aesd_seekto :=
  AesdSeekto (le_decode (take 4 bs)) (le_decode (take 4 (drop 4 bs))).

Section driver.
Context {K : Kernel}.

(** *** Kernel calls, over the world *)

Definition do_kmalloc (n : Z) : M world ptr :=
  let! w := mget in
  let '(p, h) := kmalloc n (w_heap w) in
  mput (with_heap h w);; ret p.
Definition do_kfree (p : ptr) : M world unit :=
  let! w := mget in
  let! h := mopt BadFree (kfree p (w_heap w)) in
  mput (with_heap h w).
Definition do_memcpy (dst : ptr) (src : ptr) (n : Z) : M world unit :=
  let! w := mget in
  let! bs := mlift (read_range (w_heap w) src 0 n) in
  let! h := mlift (write_range (w_heap w) dst 0 bs) in
  mput (with_heap h w).
(** [copy_from_user(dst + off, from, n)] *)
Definition do_copy_from_user (dst : ptr) (off from n : Z) : M world Z :=
  let! w := mget in
  let '(not_copied, bs) := copy_from_user (w_umem w) from n in
  let! h := mlift (write_range (w_heap w) dst off bs) in
  mput (with_heap h w);; ret not_copied.
(** [copy_to_user(to, src + off, n)] *)
Definition do_copy_to_user (to : Z) (src : ptr) (off n : Z) : M world Z :=
  let! w := mget in
  let! bs := mlift (read_range (w_heap w) src off n) in
  let '(not_copied, u) := copy_to_user (w_umem w) to bs in
  mput (with_umem u w);; ret not_copied.
Definition do_mutex (op : bool -> option bool) : M world unit :=
  let! w := mget in
  let! b := mopt LockFault (op (lock (aesd_device w))) in
  mput (with_lock b w).

(** Run a circular buffer operation on the device's buffer. *)
Definition on_buffer {A} (m : M aesd_circular_buffer A) : M world A := fun w =>
  match m (circular_buffer (aesd_device w)) with
  | Done (a, b) => Done (a, with_buffer b w)
  | Fault f => Fault f
  end.
Definition get_buffer : M world aesd_circular_buffer :=
  mgets (fun w => circular_buffer (aesd_device w)).
Definition get_staging : M world aesd_buffer_entry :=
  mgets (fun w => staging_entry (aesd_device w)).

Definition get_file (filp : positive) : M world file :=
  let! w := mget in mopt BadAccess (w_files w !! filp).
Definition set_file (filp : positive) (f : file) : M world unit :=
  mmodify (fun w => with_files (<[filp := f]> (w_files w)) w).
Definition set_f_pos (filp : positive) (pos : Z) : M world unit :=
  let! f := get_file filp in set_file filp (File (private_data f) pos).

(** [aesd_dev_ptr = filp->private_data], then used: NULL is a fault. *)
Definition get_aesd_dev_ptr (filp : positive) : M world unit :=
  let! f := get_file filp in
  match private_data f with
  | AesdDevice => ret tt
  | NoDev => mfault BadAccess
  end.

(** *** File operations *)

Definition aesd_open (filp : positive) : M world Z :=
  let! f := get_file filp in
  set_file filp (File AesdDevice (f_pos f));;
  ret 0.

Definition aesd_release (filp : positive) : M world Z := ret 0.

Definition aesd_llseek (filp : positive) (off whence : Z) : M world Z :=
  get_aesd_dev_ptr filp;;
  do_mutex mutex_lock;;
  let! b := get_buffer in
  let! f := get_file filp in
  let '(retval, pos) := fixed_size_llseek (f_pos f) off whence (i64 (aesd_circular_buffer_size b)) in
  set_f_pos filp pos;;
  do_mutex mutex_unlock;;
  ret retval.

Definition MIN (a b : Z) : Z := if a <? b then a else b.

(** The result is [(retval, *f_pos)]. *)
Definition aesd_read (filp : positive) (buf count f_pos : Z) : M world (Z * Z) :=
  get_aesd_dev_ptr filp;;
  do_mutex mutex_lock;;
  let! b := get_buffer in
  let! found := mlift (aesd_circular_buffer_find_entry_offset_for_fpos b (u64 f_pos)) in
  let! retval :=
    match found with
    | None => ret 0
    | Some (i, buffer_entry_off) =>
        let! e := mlift (entry_at b i) in
        let retval := i64 (MIN count (be_size e -u64 buffer_entry_off)) in
        let! not_copied := do_copy_to_user buf (be_buffptr e) buffer_entry_off (u64 retval) in
        ret (if 0 <? not_copied then - EFAULT else retval)
    end in
  let f_pos' := if 0 <? retval then i64 (f_pos + retval) else f_pos in
  do_mutex mutex_unlock;;
  ret (retval, f_pos').

(** The branch taken when the new staging buffer is complete: hand it to the
    circular buffer, free what falls out, clear the staging entry. *)
Definition commit_staging : M world unit :=
  let! st := get_staging in
  let! old := on_buffer (aesd_circular_buffer_add_entry st) in
  do_kfree old;;
  mmodify (with_staging zero_entry).

(** The newline test on the last staged byte, and the result. *)
Definition finish_write (count : Z) : M world Z :=
  let! st := get_staging in
  let! w := mget in
  let! c := mlift (load (w_heap w) (be_buffptr st) (be_size st -u64 1)) in
  mwhen (bool_decide (c = NL)) commit_staging;;
  ret (i64 count).

(** A write up to the newline test: the error it ends with, or [None] with the bytes staged. *)
Definition stage_write (filp : positive) (buf count : Z) : M world (option Z) :=
  get_aesd_dev_ptr filp;;
  do_mutex mutex_lock;;
  let! st := get_staging in
  let! bufferptr := do_kmalloc (count +u64 be_size st) in
  if is_null bufferptr then ret (Some (- ENOMEM))
  else
    do_memcpy bufferptr (be_buffptr st) (be_size st);;
    let! not_copied := do_copy_from_user bufferptr (be_size st) buf count in
    if 0 <? not_copied then
      do_kfree bufferptr;; ret (Some (- EFAULT))
    else
      do_kfree (be_buffptr st);;
      mmodify (with_staging (BufferEntry bufferptr (be_size st +u64 count)));;
      ret None.

Definition aesd_write (filp : positive) (buf count f_pos : Z) : M world (Z * Z) :=
  let! error := stage_write filp buf count in
  let! retval := match error with Some err => ret err | None => finish_write count end in
  do_mutex mutex_unlock;;
  ret (retval, f_pos).

Definition aesd_adjust_file_offset (filp : positive) (cmd offset : Z) : M world Z :=
  get_aesd_dev_ptr filp;;
  do_mutex mutex_lock;;
  let! b := get_buffer in
  let! new_fpos := mlift (aesd_circular_buffer_get_entry_fpos b cmd offset) in
  let! retval :=
    if 0 <=? new_fpos then set_f_pos filp new_fpos;; ret 0 else ret (- EINVAL) in
  do_mutex mutex_unlock;;
  ret retval.

Definition aesd_ioctl (filp : positive) (cmd arg : Z) : M world Z :=
  if cmd =? AESDCHAR_IOCSEEKTO then
    let! w := mget in
    let '(not_copied, bs) := copy_from_user (w_umem w) arg sizeof_aesd_seekto in
    if negb (not_copied =? 0) then ret (- EFAULT)
    else
      let seekto := decode_seekto bs in
      aesd_adjust_file_offset filp (write_cmd seekto) (write_cmd_offset seekto)
  else ret (- ENOTTY).

(** *** Module life cycle *)

Definition aesd_setup_cdev : M world Z :=
  let! w := mget in
  let devno := MKDEV (aesd_major w) aesd_minor in
  let '(err, c) := cdev_add (w_chrdevs w) devno 1 in
  mput (with_chrdevs c w);; ret err.

Definition aesd_init_module : M world Z :=
  let! w := mget in
  let '(result, dev, c) := alloc_chrdev_region (w_chrdevs w) aesd_minor 1 in
  mput (with_major (MAJOR dev) (with_chrdevs c w));;
  if result <? 0 then ret result
  else
    mmodify (with_device (AesdDev aesd_circular_buffer_init zero_entry false));;
    let! result := aesd_setup_cdev in
    mwhen (negb (result =? 0))
      (mmodify (fun w => with_chrdevs (unregister_chrdev_region (w_chrdevs w) dev 1) w));;
    ret result.

Definition aesd_cleanup_module : M world unit :=
  let! w := mget in
  let devno := MKDEV (aesd_major w) aesd_minor in
  mmodify (fun w => with_chrdevs (cdev_del (w_chrdevs w) devno) w);;
  do_mutex mutex_destroy;;
  let! b := get_buffer in
  AESD_CIRCULAR_BUFFER_FOREACH b (fun entry => do_kfree (be_buffptr entry));;
  mmodify (fun w => with_chrdevs (unregister_chrdev_region (w_chrdevs w) devno 1) w).
End driver.
