(* ===== verification/DriverRep.v ===== *)
(** How the driver's memory represents an abstract device, and what the driver's
    kernel calls do to that representation.

    [dev_mem b cs p F w] says that in world [w] the lock flag is [b], the circular
    buffer is well formed and its entries hold the commands [cs], the staging entry
    holds the bytes [p], and the heap consists of exactly the objects those entries
    point to and the frame [F]. Ownership makes the usual memory errors theorems:
    an entry freed twice, leaked or shared would falsify it. *)

From S2P Require Import Prelude CMonad KHeap CircularBuffer KernelApi DeviceSpec CharDriver.
Local Open Scope Z_scope.
Local Open Scope cmonad_scope.

(** The object an entry points to, when its bytes are [bs]. *)
Definition entry_obj (e : aesd_buffer_entry) (bs : bytes) : list (loc * bytes) :=
  match be_buffptr e with PLoc l => [(l, bs)] | _ => [] end.

Definition entry_rep (e : aesd_buffer_entry) (bs : bytes) : Prop :=
  be_size e = zlen bs /\
  (be_buffptr e = PNull /\ bs = [] \/ (exists l, be_buffptr e = PLoc l) /\ bs <> []).

Definition live_objs (es : list aesd_buffer_entry) (cs : list bytes) : list (loc * bytes) :=
  concat (zip_with entry_obj es cs).

Record dev_mem (b : bool) (cs : list bytes) (p : bytes) (F : heap) (w : world) : Prop := {
  rep_wf : cb_wf KMALLOC_MAX_SIZE (circular_buffer (aesd_device w));
  rep_lock : lock (aesd_device w) = b;
  rep_cmds : Forall2 entry_rep (contents (circular_buffer (aesd_device w))) cs;
  rep_staging : entry_rep (staging_entry (aesd_device w)) p;
  rep_owns : owns (entry_obj (staging_entry (aesd_device w)) p ++
                   live_objs (contents (circular_buffer (aesd_device w))) cs) F (w_heap w);
}.

(** The device between two operations. *)
Definition dev_rep (a : dstate) (F : heap) (w : world) : Prop :=
  dev_mem false (cmds a) (pending a) F w /\ dstate_ok KMALLOC_MAX_SIZE a.

(** A file opened on the device. *)
Definition file_open (filp : positive) (w : world) : Prop :=
  exists pos, w_files w !! filp = Some (File AesdDevice pos).

(** Everything but the heap and the device is unchanged. *)
Definition same_env (w w' : world) : Prop :=
  w_umem w' = w_umem w /\ w_files w' = w_files w /\
  w_chrdevs w' = w_chrdevs w /\ aesd_major w' = aesd_major w.

#[global] Instance same_env_equiv : Equivalence same_env.
Proof.
  split; unfold same_env.
  - done.
  - intros w w' (-> & -> & -> & ->). done.
  - intros w1 w2 w3 (-> & -> & -> & ->) (-> & -> & -> & ->). done.
Qed.

(** ** Entries and commands *)

Lemma zero_entry_rep : entry_rep zero_entry [].
Proof. split; [done|]. by left. Qed.

Lemma entry_rep_ploc l bs : bs <> [] -> entry_rep (BufferEntry (PLoc l) (zlen bs)) bs.
Proof. intros. split; [done|]. right. split; [by eexists|done]. Qed.

Lemma entry_rep_not_zero e bs : entry_rep e bs -> be_buffptr e <> PZero.
Proof. intros [_ [[-> _]|[[l ->] _]]]; done. Qed.

Lemma Forall2_total es cs : Forall2 entry_rep es cs -> total es = zlen (concat cs).
Proof.
  induction 1 as [|e c es cs [He _] _ IH]; [done|].
  rewrite total_cons. simpl concat. rewrite zlen_app, He, IH. done.
Qed.

Lemma live_objs_cons e es c cs : live_objs (e :: es) (c :: cs) = entry_obj e c ++ live_objs es cs.
Proof. done. Qed.

Lemma live_objs_app es es' cs cs' :
  length es = length cs -> live_objs (es ++ es') (cs ++ cs') = live_objs es cs ++ live_objs es' cs'.
Proof. intros. unfold live_objs. by rewrite zip_with_app, concat_app. Qed.

Lemma live_objs_lookup es cs i e c l :
  es !! i = Some e -> cs !! i = Some c -> be_buffptr e = PLoc l -> (l, c) ∈ live_objs es cs.
Proof.
  intros He Hc Hl. unfold live_objs. apply list_elem_of_In, in_concat.
  exists [(l, c)]. split; [|by left]. apply list_elem_of_In.
  replace [(l, c)] with (entry_obj e c) by (unfold entry_obj; by rewrite Hl).
  apply list_elem_of_lookup. exists i. rewrite lookup_zip_with, He, Hc. done.
Qed.

(** The search over entries is the search over commands. *)
Lemma locate_chunk es cs pos :
  Forall2 entry_rep es cs ->
  match locate es pos with
  | Some (i, o) => exists e c, es !! i = Some e /\ cs !! i = Some c /\ entry_rep e c /\
                     chunk_at cs pos = drop (Z.to_nat o) c
  | None => chunk_at cs pos = []
  end.
Proof.
  intros HF. revert pos. induction HF as [|e c es cs He HF IH]; intros pos; [done|].
  simpl locate. simpl chunk_at. pose proof He as [Hsize _]. rewrite Hsize.
  destruct (pos <? zlen c).
  - exists e, c. split_and!; done.
  - specialize (IH (pos - zlen c)).
    destruct (locate es (pos - zlen c)) as [[i o]|]; simpl; [|done].
    destruct IH as (e' & c' & ? & ? & ? & ?). exists e', c'. split_and!; done.
Qed.

Section rep.
Context {b : bool} {cs : list bytes} {p : bytes} {F : heap} {w : world}.
Context (Hrep : dev_mem b cs p F w).

Lemma rep_length : length (contents (circular_buffer (aesd_device w))) = length cs.
Proof. eapply Forall2_length, rep_cmds, Hrep. Qed.
Lemma rep_total : total (contents (circular_buffer (aesd_device w))) = zlen (concat cs).
Proof. eapply Forall2_total, rep_cmds, Hrep. Qed.
Lemma rep_size : aesd_circular_buffer_size (circular_buffer (aesd_device w)) = zlen (concat cs).
Proof. rewrite <- rep_total. apply Hrep. Qed.
(** Ten commands of at most 4 MiB each: file positions fit [int]. *)
Lemma rep_small : 0 <= zlen (concat cs) <= 10 * 2 ^ 22.
Proof.
  rewrite <- rep_total. pose proof (contents_total_bounds (rep_wf _ _ _ _ _ Hrep)) as Ht.
  pose proof (wf_num _ _ (rep_wf _ _ _ _ _ Hrep)). unfold KMALLOC_MAX_SIZE in *. nia.
Qed.
Lemma rep_lookup_cmd i e c l :
  contents (circular_buffer (aesd_device w)) !! i = Some e -> cs !! i = Some c ->
  be_buffptr e = PLoc l -> w_heap w !! l = Some c.
Proof.
  intros He Hc Hl. eapply owns_lookup; [apply Hrep|]. apply elem_of_app. right.
  by eapply live_objs_lookup.
Qed.

(** Only the heap, the device and the frame matter to the representation. *)
Lemma dev_mem_lock b' : dev_mem b' cs p F (with_lock b' w).
Proof. split; try apply Hrep. done. Qed.
Lemma dev_mem_env w' :
  w_heap w' = w_heap w -> aesd_device w' = aesd_device w -> dev_mem b cs p F w'.
Proof. intros Hh Hd. split; rewrite ?Hd, ?Hh; apply Hrep. Qed.
End rep.

Lemma with_lock_lock b b' w : with_lock b (with_lock b' w) = with_lock b w.
Proof. done. Qed.
Lemma with_lock_id b w : lock (aesd_device w) = b -> with_lock b w = w.
Proof. intros <-. by destruct w as [?????[]]. Qed.

(** ** Kernel calls *)

Section kernel.
Context {K : Kernel} {KL : KernelLaws K}.

Lemma get_aesd_dev_ptr_wp filp Q w :
  file_open filp w -> Q tt w -> wp (get_aesd_dev_ptr filp) Q w.
Proof.
  intros [pos Hf] HQ. unfold get_aesd_dev_ptr, get_file. wp_steps.
  unfold wp, mopt, ret. rewrite Hf. done.
Qed.

Lemma mutex_lock_wp Q w :
  lock (aesd_device w) = false -> Q tt (with_lock true w) -> wp (do_mutex mutex_lock) Q w.
Proof.
  intros Hl HQ. unfold do_mutex. wp_steps. rewrite Hl.
  by apply (wp_opt _ true); [apply mutex_lock_free|].
Qed.

Lemma mutex_unlock_wp Q w :
  lock (aesd_device w) = true -> Q tt (with_lock false w) -> wp (do_mutex mutex_unlock) Q w.
Proof.
  intros Hl HQ. unfold do_mutex. wp_steps. rewrite Hl.
  by apply (wp_opt _ false); [apply mutex_unlock_held|].
Qed.

(** Allocation: NULL and no change, or a fresh owned object. *)
Lemma do_kmalloc_wp n o F Q w :
  0 < n -> owns o F (w_heap w) ->
  (fst (kmalloc n (w_heap w)) = PNull -> Q PNull w) ->
  (forall l junk, n <= KMALLOC_MAX_SIZE -> zlen junk = n ->
     fst (kmalloc n (w_heap w)) = PLoc l ->
     owns ((l, junk) :: o) F (<[l := junk]> (w_heap w)) ->
     Q (PLoc l) (with_heap (<[l := junk]> (w_heap w)) w)) ->
  wp (do_kmalloc n) Q w.
Proof.
  intros Hn Hown Hnull Hloc. unfold do_kmalloc. wp_steps.
  destruct (kmalloc_spec n (w_heap w) Hn) as [E|(Hmax & l & junk & Hfresh & Hlen & E)];
    rewrite E in *; wp_steps.
  - replace (with_heap (w_heap w) w) with w by by destruct w. by apply Hnull.
  - apply Hloc; try done. by apply owns_alloc.
Qed.

(** Freeing the object of an entry gives up its ownership; a NULL entry is a no-op. *)
Lemma do_kfree_wp e bs o F Q w :
  be_buffptr e <> PZero -> owns (entry_obj e bs ++ o) F (w_heap w) ->
  (forall h, owns o F h -> Q tt (with_heap h w)) ->
  wp (do_kfree (be_buffptr e)) Q w.
Proof.
  intros Hp Hown HQ. unfold do_kfree, entry_obj in *. wp_steps.
  destruct (be_buffptr e) as [| |l]; simpl in Hown; [|done|].
  - apply (wp_opt _ (w_heap w)); [apply kfree_null|]. wp_steps. by apply HQ.
  - apply (wp_opt _ (delete l (w_heap w))).
    + eapply kfree_live. by eapply owns_head.
    + wp_steps. apply HQ. by eapply owns_free.
Qed.

Lemma do_kfree_null_wp Q w : Q tt w -> wp (do_kfree PNull) Q w.
Proof.
  intros HQ. unfold do_kfree. wp_steps. apply (wp_opt _ (w_heap w)); [apply kfree_null|].
  wp_steps. by replace (with_heap (w_heap w) w) with w by by destruct w.
Qed.

(** Copying an entry's bytes to the start of a fresh object. *)
Lemma do_memcpy_wp e bs l junk o F Q w :
  entry_rep e bs -> zlen bs <= zlen junk ->
  owns ((l, junk) :: entry_obj e bs ++ o) F (w_heap w) ->
  (forall h, owns ((l, splice 0 bs junk) :: entry_obj e bs ++ o) F h -> Q tt (with_heap h w)) ->
  wp (do_memcpy (PLoc l) (be_buffptr e) (be_size e)) Q w.
Proof.
  intros [Hsize Hp] Hlen Hown HQ. unfold do_memcpy. wp_steps.
  apply (wp_lift _ bs).
  - rewrite Hsize. destruct Hp as [[Hp ->]|[[l' Hp] _]]; [by rewrite Hp|].
    rewrite Hp. apply read_range_all; [|done].
    eapply owns_lookup; [done|]. unfold entry_obj. rewrite Hp. right. left.
  - wp_steps. apply (wp_lift _ (<[l := splice 0 bs junk]> (w_heap w))).
    + rewrite (write_range_ok _ _ _ _ junk); [done| |lia|lia]. by eapply owns_head.
    + wp_steps. apply HQ. by eapply owns_update.
Qed.

(** Copying from user memory behind the first [zlen bs] bytes of an object. *)
Lemma do_copy_from_user_wp from n l bs junk o F Q w :
  0 <= n -> zlen junk = zlen bs + n -> owns ((l, splice 0 bs junk) :: o) F (w_heap w) ->
  (forall new h, user_bytes (w_umem w) from n = Some new ->
     owns ((l, bs ++ new) :: o) F h -> Q 0 (with_heap h w)) ->
  (forall left' junk' h, 0 < left' -> user_bytes (w_umem w) from n = None ->
     owns ((l, junk') :: o) F h -> Q left' (with_heap h w)) ->
  wp (do_copy_from_user (PLoc l) (zlen bs) from n) Q w.
Proof.
  intros Hn Hlen Hown Hok Hbad. unfold do_copy_from_user. wp_steps.
  destruct (copy_from_user (w_umem w) from n) as [left' new] eqn:E.
  pose proof (copy_from_user_range (w_umem w) from n Hn) as [_ Hnew].
  rewrite E in Hnew. simpl in Hnew. pose proof (zlen_nonneg bs).
  assert (length (splice 0 bs junk) = length junk) as Hs
    by (apply length_splice; unfold zlen in *; lia).
  apply wp_bind, (wp_lift _ (<[l := splice (length bs) new (splice 0 bs junk)]> (w_heap w))).
  { rewrite (write_range_ok _ _ _ _ (splice 0 bs junk)); [by rewrite zlen_to_nat| |lia|].
    - by eapply owns_head.
    - unfold zlen in *. lia. }
  rewrite splice_prefix by (unfold zlen in *; lia). wp_steps.
  destruct (user_bytes (w_umem w) from n) as [new'|] eqn:Eu.
  - rewrite (copy_from_user_ok _ _ _ _ Hn Eu) in E. injection E as <- <-.
    eapply Hok; [done|]. by eapply owns_update.
  - pose proof (copy_from_user_bad _ _ _ Hn Eu) as Hb. rewrite E in Hb.
    eapply Hbad; [done..|]. by eapply owns_update.
Qed.

Lemma do_copy_to_user_wp to src off n bs Q w :
  read_range (w_heap w) src off n = Done bs ->
  (is_Some (user_bytes (w_umem w) to (zlen bs)) ->
     Q 0 (with_umem (ustore (w_umem w) to bs) w)) ->
  (forall r, 0 < r -> user_bytes (w_umem w) to (zlen bs) = None -> Q r (with_umem (snd (copy_to_user (w_umem w) to bs)) w)) ->
  wp (do_copy_to_user to src off n) Q w.
Proof.
  intros Hread Hok Hbad. unfold do_copy_to_user. wp_steps. apply (wp_lift _ bs); [done|].
  destruct (user_bytes (w_umem w) to (zlen bs)) eqn:E.
  - rewrite copy_to_user_ok by (rewrite E; eauto). wp_steps. eauto.
  - pose proof (copy_to_user_bad _ _ _ E) as Hb.
    destruct (copy_to_user _ _ _) as [r u]. wp_steps. apply Hbad; [apply Hb|done].
Qed.
End kernel.
