(* ===== verification/DriverRefinement.v ===== *)
(** The driver's file operations refine the device of [DeviceSpec].

    For every operation: from a represented device and an open file it does not
    fault, it ends with the lock free, and the world it leaves represents the
    device the specification gives, on every path, errors included. *)

From S2P Require Import Prelude CMonad KHeap CircularBuffer KernelApi DeviceSpec CharDriver DriverRep.
Local Open Scope Z_scope.
Local Open Scope cint_scope.
Local Open Scope cmonad_scope.

(** The largest count the virtual file system passes to read and write. *)
Definition MAX_RW_COUNT : Z := 2 ^ 31 - 4096.

Section refinement.
Context {K : Kernel} {KL : KernelLaws K}.

(** ** Write *)

(** [staging_entry] enters the circular buffer and what falls out is freed. *)
Lemma commit_staging_wp cs p F Q w :
  dev_mem true cs p F w -> p <> [] -> zlen p <= KMALLOC_MAX_SIZE ->
  (forall w', dev_mem true (lastn 10 (cs ++ [p])) [] F w' -> same_env w w' -> Q tt w') ->
  wp commit_staging Q w.
Proof.
  intros Hrep Hp Hlen HQ. unfold commit_staging, get_staging. wp_steps.
  pose proof (rep_wf _ _ _ _ _ Hrep) as Hwf.
  pose proof (rep_staging _ _ _ _ _ Hrep) as Hst. pose proof (rep_cmds _ _ _ _ _ Hrep) as Hcs.
  assert (entry_ok KMALLOC_MAX_SIZE (staging_entry (aesd_device w))) as Hok.
  { destruct Hst as [Hsz _]. unfold entry_ok. rewrite Hsz. pose proof (zlen_nonneg p). lia. }
  destruct (add_entry_run Hwf ltac:(unfold KMALLOC_MAX_SIZE; lia) _ Hok) as (b' & Hrun & Hwf' & Hc').
  unfold wp, on_buffer. rewrite Hrun.
  fold (wp (do_kfree (evicted_ptr (contents (circular_buffer (aesd_device w))));;
            mmodify (with_staging zero_entry)) Q (with_buffer b' w)).
  wp_steps.
  assert (Forall2 entry_rep (push (contents (circular_buffer (aesd_device w))) (staging_entry (aesd_device w))) (lastn 10 (cs ++ [p]))) as Hcs'.
  { unfold push, lastn. rewrite !length_app, (Forall2_length _ _ _ Hcs).
    by apply Forall2_drop, Forall2_app; [|constructor]. }
  pose proof (rep_owns _ _ _ _ _ Hrep) as Hown.
  assert (forall h, owns (live_objs (push (contents (circular_buffer (aesd_device w))) (staging_entry (aesd_device w)))
                            (lastn 10 (cs ++ [p]))) F h ->
            Q tt (with_staging zero_entry (with_heap h (with_buffer b' w)))) as Hfin.
  { intros h Hh. apply HQ; [|done]. split; simpl; try done.
    - apply Hrep.
    - by rewrite Hc'.
    - apply zero_entry_rep.
    - by rewrite Hc'. }
  pose proof (rep_length Hrep) as Hlc. unfold evicted_ptr, evicted.
  destruct (decide _) as [Hfull|Hroom].
  - destruct (contents (circular_buffer (aesd_device w))) as [|old es] eqn:Ec; [done|].
    destruct cs as [|c cs]; [done|]. apply Forall2_cons in Hcs as [Hold Hcs].
    simpl head. cbn iota. eapply (do_kfree_wp old c (entry_obj (staging_entry (aesd_device w)) p ++ live_objs es cs)).
    + eapply entry_rep_not_zero, Hold.
    + simpl. rewrite live_objs_cons in Hown. simpl. by rewrite Permutation_app_swap_app.
    + intros h Hh. wp_steps. apply Hfin. simpl in Hfull, Hlc.
      unfold push. rewrite !lastn_app_one by (simpl; lia). simpl drop. rewrite !drop_0.
      rewrite live_objs_app by lia. rewrite Permutation_app_comm.
      unfold live_objs at 1. simpl. by rewrite app_nil_r.
  - apply do_kfree_null_wp. wp_steps.
    replace (with_buffer b' w) with (with_heap (w_heap w) (with_buffer b' w)) by done.
    apply Hfin. pose proof (length_contents_le Hwf) as Hle.
    unfold push. rewrite !lastn_all by (rewrite length_app; simpl; lia).
    rewrite live_objs_app by done. rewrite Permutation_app_comm.
    unfold live_objs at 1. simpl. by rewrite app_nil_r.
Qed.

(** The end of a write once the new staging buffer is in place. *)
Lemma finish_write_wp cs p F count Q w :
  dev_mem true cs p F w -> p <> [] -> zlen p <= KMALLOC_MAX_SIZE ->
  (forall w', dev_mem true (cmds (d_write (DState cs []) p)) (pending (d_write (DState cs []) p)) F w' ->
     same_env w w' -> Q (i64 count) w') ->
  wp (finish_write count) Q w.
Proof.
  intros Hrep Hp Hlen HQ. unfold finish_write, get_staging. wp_steps.
  destruct (exists_last Hp) as (p' & c & ->).
  pose proof (rep_staging _ _ _ _ _ Hrep) as [Hsz Hptr].
  destruct Hptr as [[_ E]|[[l Hl] _]]; [by destruct p'|].
  assert (w_heap w !! l = Some (p' ++ [c])) as Hlk.
  { eapply owns_lookup; [apply Hrep|]. unfold entry_obj. rewrite Hl. left. }
  apply (wp_lift _ c).
  { rewrite Hsz, Hl. pose proof (zlen_nonneg p'). unfold KMALLOC_MAX_SIZE in Hlen.
    rewrite u64_small by zlen_simp. by apply load_last. }
  unfold d_write in HQ. cbn [cmds pending app] in HQ. rewrite ends_in_newline_snoc in HQ.
  wp_steps. apply wp_when; intros Hc; rewrite Hc in HQ.
  - eapply commit_staging_wp; [done|by destruct p'|done|].
    intros w' Hw' Henv. wp_steps. by apply HQ.
  - wp_steps. by apply HQ.
Qed.

(** The three ways a write can end. *)
Definition write_post (a : dstate) (F : heap) (w : world) (buf count pos : Z)
    (r : Z * Z) (w' : world) : Prop :=
  snd r = pos /\ same_env w w' /\
  ((fst r = - ENOMEM /\ fst (kmalloc (count + zlen (pending a)) (w_heap w)) = PNull /\ dev_rep a F w') \/
   (fst r = - EFAULT /\ user_bytes (w_umem w) buf count = None /\ dev_rep a F w') \/
   (fst r = count /\ exists bs, user_bytes (w_umem w) buf count = Some bs /\ dev_rep (d_write a bs) F w')).

Lemma d_write_merge a bs : d_write a bs = d_write (DState (cmds a) []) (pending a ++ bs).
Proof. done. Qed.

Lemma write_wp a F w filp buf count pos :
  dev_rep a F w -> file_open filp w -> 0 <= count <= MAX_RW_COUNT ->
  0 < count + zlen (pending a) ->
  wp (aesd_write filp buf count pos) (write_post a F w buf count pos) w.
Proof.
  intros [Hrep Hok] Hopen Hcount Hpos. pose proof (ok_pending _ _ Hok) as [_ Hpl].
  pose proof (zlen_nonneg (pending a)) as Hp0. unfold MAX_RW_COUNT, KMALLOC_MAX_SIZE in *.
  unfold aesd_write, stage_write, get_staging. wp_steps. apply get_aesd_dev_ptr_wp; [done|]. wp_steps.
  apply mutex_lock_wp; [apply Hrep|].
  pose proof (dev_mem_lock Hrep true) as Hrep1. set (w1 := with_lock true w) in *.
  pose proof (rep_staging _ _ _ _ _ Hrep1) as Hst. pose proof Hst as [Hsz _].
  pose proof (rep_owns _ _ _ _ _ Hrep1) as Hown. wp_steps.
  rewrite Hsz, u64_small by lia.
  eapply do_kmalloc_wp; [done|exact Hown| |].
  - (* no memory *)
    intros Hnull. unfold is_null. rewrite bool_decide_true by done. wp_steps.
    apply mutex_unlock_wp; [done|]. wp_steps. unfold w1. rewrite with_lock_lock, with_lock_id by apply Hrep.
    split; [done|]. split; [done|]. left. by split.
  - intros l junk Hmax Hjunk _ Hown1. unfold is_null. rewrite bool_decide_false by done.
    wp_steps. rewrite <- Hsz.
    eapply do_memcpy_wp; [exact Hst| |exact Hown1|]; [lia|]. intros h2 Hown2. wp_steps.
    rewrite Hsz. eapply do_copy_from_user_wp; [lia| |exact Hown2| |]; [lia| |].
    + (* every byte copied *)
      intros new h3 Hnew Hown3. simpl. wp_steps.
      pose proof (user_bytes_zlen _ _ count _ (proj1 Hcount) Hnew) as Hnl.
      eapply (do_kfree_wp _ (pending a) ((l, pending a ++ new) :: live_objs _ _)); [eapply entry_rep_not_zero, Hst| |].
      { simpl. rewrite <- Permutation_middle. exact Hown3. }
      intros h4 Hown4. simpl. wp_steps. simpl. unwrap.
      assert (pending a ++ new <> []) as Hne.
      { intros E. apply (f_equal zlen) in E. rewrite zlen_app, zlen_nil in E. lia. }
      eapply (finish_write_wp (cmds a) (pending a ++ new) F).
      * split; simpl; try apply Hrep; [done| |].
        -- rewrite <- Hnl, <- zlen_app. by apply entry_rep_ploc.
        -- exact Hown4.
      * done.
      * rewrite zlen_app. unfold KMALLOC_MAX_SIZE in *. lia.
      * intros w' Hw' Henv. rewrite <- d_write_merge in Hw'.
        wp_steps. apply mutex_unlock_wp; [apply Hw'|]. wp_steps. split; [done|].
        split; [exact Henv|]. right. right.
        simpl. rewrite i64_small by lia. split; [done|]. exists new. split; [done|].
        split; [by eapply dev_mem_lock|]. apply d_write_ok; [done|].
        rewrite zlen_app. unfold KMALLOC_MAX_SIZE in *. lia.
    + (* some byte not accessible *)
      intros left' junk' h3 Hleft Hbad Hown3. rewrite (proj2 (Z.ltb_lt 0 left')) by done.
      wp_steps. eapply (do_kfree_wp (BufferEntry (PLoc l) (zlen junk')) junk'); [done|exact Hown3|].
      intros h4 Hown4. wp_steps. apply mutex_unlock_wp; [done|]. wp_steps.
      split; [done|]. split; [done|]. right. left. split; [done|]. split; [done|].
      split; [|done]. split; simpl; try apply Hrep; done.
Qed.

(** ** Read *)

(** What [read] hands to [copy_to_user], and how it computes the count. *)
Lemma read_range_entry h l c (o : Z) count :
  h !! l = Some c -> 0 <= o < zlen c -> 0 <= count <= MAX_RW_COUNT -> zlen c < 2 ^ 62 ->
  i64 (MIN count (zlen c -u64 o)) = zlen (take (Z.to_nat count) (drop (Z.to_nat o) c)) /\
  read_range h (PLoc l) o (u64 (i64 (MIN count (zlen c -u64 o)))) =
    Done (take (Z.to_nat count) (drop (Z.to_nat o) c)).
Proof.
  intros Hl Ho Hc Hlen. unfold MAX_RW_COUNT in *.
  assert (MIN count (zlen c -u64 o) = Z.min count (zlen c - o)) as ->.
  { unfold MIN. unwrap. destruct (Z.ltb_spec count (zlen c - o)); lia. }
  unwrap. split.
  - unfold zlen in *. rewrite length_take, length_drop. lia.
  - rewrite (read_range_ok _ _ _ _ c) by (done || lia). f_equal.
    rewrite <- (take_min_length (Z.to_nat count)). f_equal.
    unfold zlen in *. rewrite length_drop. lia.
Qed.

Lemma read_wp a F w filp buf count pos Q :
  dev_rep a F w -> file_open filp w -> 0 <= count <= MAX_RW_COUNT -> 0 <= pos < 2 ^ 63 ->
  let bs := d_read a pos count in
  (is_Some (user_bytes (w_umem w) buf (zlen bs)) ->
     Q (zlen bs, pos + zlen bs) (with_umem (ustore (w_umem w) buf bs) w)) ->
  (user_bytes (w_umem w) buf (zlen bs) = None ->
     Q (- EFAULT, pos) (with_umem (snd (copy_to_user (w_umem w) buf bs)) w)) ->
  wp (aesd_read filp buf count pos) Q w.
Proof.
  intros [Hrep Hok] Hopen Hcount Hpos bs Hgood Hbad. subst bs.
  pose proof (rep_small Hrep) as Hsmall. pose proof (rep_total Hrep) as Htot.
  pose proof (rep_wf _ _ _ _ _ Hrep) as Hwf.
  unfold aesd_read, get_buffer. wp_steps. apply get_aesd_dev_ptr_wp; [done|]. wp_steps.
  apply mutex_lock_wp; [apply Hrep|]. wp_steps. simpl circular_buffer. rewrite u64_small by lia.
  eapply wp_lift; [apply (find_locate Hwf); lia|].
  pose proof (locate_chunk _ _ pos (rep_cmds _ _ _ _ _ Hrep)) as Hloc. unfold d_read in *.
  destruct (locate _ pos) as [[i o]|] eqn:Eloc; cbn [fmap option_fmap option_map].
  - destruct Hloc as (e & c & He & Hc & [Hsz Hptr] & Hchunk).
    destruct (locate_Some _ _ _ _ Eloc) as (e' & He' & Ho & Hsum); [lia|].
    assert (e' = e) as -> by congruence. rewrite Hchunk in *.
    destruct Hptr as [[_ ->]|[[l Hl] _]]; [rewrite zlen_nil in Hsz; lia|].
    pose proof (rep_lookup_cmd Hrep i e c l He Hc Hl) as Hheap.
    pose proof (total_take_S i e He). pose proof (total_take_bounds Hwf (S i)).
    pose proof (total_take_bounds Hwf i).
    destruct (read_range_entry _ l c o count Hheap) as [Hn Hread]; [lia|done|lia|].
    wp_steps. eapply wp_lift; [apply (entry_at_contents Hwf _ _ He)|]. wp_steps.
    rewrite Hsz, Hl. eapply do_copy_to_user_wp; [exact Hread| |].
    + intros Huser. wp_steps. rewrite Hn. rewrite Z.ltb_irrefl.
      apply mutex_unlock_wp; [done|]. wp_steps.
      set (bs := take _ _) in *. pose proof (zlen_nonneg bs).
      assert (zlen bs <= zlen c - o).
      { unfold bs, zlen in *. rewrite length_take, length_drop. lia. }
      replace (if 0 <? zlen bs then i64 (pos + zlen bs) else pos) with (pos + zlen bs).
      2:{ destruct (Z.ltb_spec 0 (zlen bs)); [|lia]. unwrap. done. }
      unfold with_lock. simpl. rewrite <- (rep_lock _ _ _ _ _ Hrep).
      destruct w as [?????[]]. by apply Hgood.
    + intros r Hr Hnone. wp_steps. rewrite (proj2 (Z.ltb_lt 0 r)) by done.
      apply mutex_unlock_wp; [done|]. wp_steps. unfold with_lock. simpl.
      rewrite <- (rep_lock _ _ _ _ _ Hrep). destruct w as [?????[]]. by apply Hbad.
  - wp_steps. apply mutex_unlock_wp; [done|]. wp_steps. simpl.
    rewrite Hloc, take_nil, zlen_nil, Z.add_0_r in Hgood.
    rewrite with_lock_lock, with_lock_id by apply Hrep.
    destruct w. apply Hgood. by eexists.
Qed.

(** ** Seeking *)

(** The file table with the position of [filp] set. *)
Definition with_f_pos (filp : positive) (pos : Z) (w : world) : world :=
  with_files (<[filp := File AesdDevice pos]> (w_files w)) w.

Lemma set_f_pos_wp filp pos old Q w :
  w_files w !! filp = Some (File AesdDevice old) ->
  Q tt (with_f_pos filp pos w) -> wp (set_f_pos filp pos) Q w.
Proof.
  intros Hf HQ. unfold set_f_pos, get_file. wp_steps.
  apply (wp_opt _ (File AesdDevice old)); [done|]. by wp_steps.
Qed.

Lemma with_f_pos_lock filp pos w :
  lock (aesd_device w) = false ->
  with_lock false (with_f_pos filp pos (with_lock true w)) = with_f_pos filp pos w.
Proof. destruct w as [?????[]]. by intros [= ->]. Qed.

Lemma llseek_wp a F w filp off whence pos Q :
  dev_rep a F w -> w_files w !! filp = Some (File AesdDevice pos) ->
  (forall r pos', fixed_size_llseek pos off whence (d_size a) = (r, pos') ->
     Q r (with_f_pos filp pos' w)) ->
  wp (aesd_llseek filp off whence) Q w.
Proof.
  intros [Hrep _] Hf HQ. unfold aesd_llseek, get_buffer. wp_steps. pose proof (rep_small Hrep).
  apply get_aesd_dev_ptr_wp; [by eexists|]. wp_steps.
  apply mutex_lock_wp; [apply Hrep|]. wp_steps. unfold get_file. wp_steps.
  apply (wp_opt _ (File AesdDevice pos)); [done|]. simpl.
  rewrite (rep_size Hrep), i64_small by lia. fold (d_content a) (d_size a).
  destruct (fixed_size_llseek _ _ _ _) as [r pos']. wp_steps.
  eapply set_f_pos_wp; [done|]. wp_steps. apply mutex_unlock_wp; [done|]. wp_steps.
  rewrite with_f_pos_lock by apply Hrep. by apply HQ.
Qed.

(** The position the driver computes is the specification's. *)
Lemma get_entry_fpos_rep a F b w cmd off :
  dev_mem b (cmds a) (pending a) F w -> 0 <= cmd < 2 ^ 32 -> 0 <= off < 2 ^ 32 ->
  aesd_circular_buffer_get_entry_fpos (circular_buffer (aesd_device w)) cmd off =
  Done (default (-1) (d_seek a cmd off)).
Proof.
  intros Hrep Hcmd Hoff. pose proof (rep_small Hrep). pose proof (rep_total Hrep).
  rewrite (get_entry_fpos_eq (rep_wf _ _ _ _ _ Hrep)) by lia.
  f_equal. unfold d_seek. pose proof (rep_cmds _ _ _ _ _ Hrep) as HF.
  destruct (_ !! Z.to_nat cmd) as [e|] eqn:He.
  - destruct (Forall2_lookup_l _ _ _ _ _ HF He) as (c & Hc & Hsz & _). rewrite Hc, <- Hsz.
    destruct (off <? be_size e); [|done]. simpl.
    rewrite (Forall2_total _ (take (Z.to_nat cmd) (cmds a))); [done|]. by apply Forall2_take.
  - apply lookup_ge_None in He. rewrite (Forall2_length _ _ _ HF) in He.
    by rewrite (proj2 (lookup_ge_None _ _) He).
Qed.

Lemma adjust_file_offset_wp a F w filp cmd off Q :
  dev_rep a F w -> file_open filp w -> 0 <= cmd < 2 ^ 32 -> 0 <= off < 2 ^ 32 ->
  (forall pos, d_seek a cmd off = Some pos -> Q 0 (with_f_pos filp pos w)) ->
  (d_seek a cmd off = None -> Q (- EINVAL) w) ->
  wp (aesd_adjust_file_offset filp cmd off) Q w.
Proof.
  intros [Hrep _] Hopen Hcmd Hoff Hgood Hbad. unfold aesd_adjust_file_offset, get_buffer.
  wp_steps. apply get_aesd_dev_ptr_wp; [done|]. wp_steps.
  apply mutex_lock_wp; [apply Hrep|]. wp_steps.
  eapply wp_lift; [apply (get_entry_fpos_rep a F true); [by eapply dev_mem_lock|done..]|].
  destruct Hopen as [old Hf].
  destruct (d_seek a cmd off) as [pos|] eqn:E; simpl.
  - rewrite (proj2 (Z.leb_le 0 pos)) by (eapply d_seek_nonneg, E; lia). wp_steps.
    eapply set_f_pos_wp; [done|]. wp_steps. apply mutex_unlock_wp; [done|]. wp_steps.
    rewrite with_f_pos_lock by apply Hrep. by apply Hgood.
  - wp_steps. apply mutex_unlock_wp; [done|]. wp_steps.
    rewrite with_lock_lock, with_lock_id by apply Hrep. by apply Hbad.
Qed.

Lemma le_decode_range bs n : (length bs <= n)%nat -> 0 <= le_decode bs < 256 ^ Z.of_nat n.
Proof.
  revert n. induction bs as [|c bs IH]; intros n Hn; simpl.
  - split; [lia|]. apply Z.pow_pos_nonneg; lia.
  - destruct n as [|n]; [simpl in Hn; lia|]. simpl in Hn.
    specialize (IH n ltac:(lia)). pose proof (char_code_range c).
    rewrite Nat2Z.inj_succ, Z.pow_succ_r by lia. lia.
Qed.

Lemma ioctl_wp a F w filp cmd arg Q :
  dev_rep a F w -> file_open filp w ->
  (cmd <> AESDCHAR_IOCSEEKTO -> Q (- ENOTTY) w) ->
  (cmd = AESDCHAR_IOCSEEKTO -> user_bytes (w_umem w) arg sizeof_aesd_seekto = None ->
     Q (- EFAULT) w) ->
  (forall bs, cmd = AESDCHAR_IOCSEEKTO -> user_bytes (w_umem w) arg sizeof_aesd_seekto = Some bs ->
     match d_seek a (write_cmd (decode_seekto bs)) (write_cmd_offset (decode_seekto bs)) with
     | Some pos => Q 0 (with_f_pos filp pos w)
     | None => Q (- EINVAL) w
     end) ->
  wp (aesd_ioctl filp cmd arg) Q w.
Proof.
  intros Hrep Hopen Hcmd Hfault Hseek. unfold aesd_ioctl.
  destruct (Z.eqb_spec cmd AESDCHAR_IOCSEEKTO) as [->|Hne]; [|wp_steps; auto].
  wp_steps. unfold sizeof_aesd_seekto in *.
  destruct (user_bytes (w_umem w) arg 8) as [bs|] eqn:E.
  - rewrite (copy_from_user_ok _ _ 8 _ ltac:(lia) E). cbn [negb Z.eqb].
    specialize (Hseek bs eq_refl eq_refl).
    apply (adjust_file_offset_wp a F); [done|done| | | |].
    + apply (le_decode_range _ 4). rewrite length_take. lia.
    + apply (le_decode_range _ 4). rewrite length_take. lia.
    + intros pos Hpos. by rewrite Hpos in Hseek.
    + intros Hnone. by rewrite Hnone in Hseek.
  - pose proof (copy_from_user_bad _ _ 8 ltac:(lia) E) as Hb.
    destruct (copy_from_user _ _ _) as [r bs]. simpl in Hb.
    rewrite (proj2 (Z.eqb_neq r 0)) by lia. simpl. wp_steps. by apply Hfault.
Qed.

(** ** Open and release *)

Lemma open_wp filp f Q w :
  w_files w !! filp = Some f -> Q 0 (with_f_pos filp (f_pos f) w) -> wp (aesd_open filp) Q w.
Proof.
  intros Hf HQ. unfold aesd_open, get_file, set_file. wp_steps.
  apply (wp_opt _ f); [done|]. by wp_steps.
Qed.

(** ** Module life cycle *)

(** The world after a successful [aesd_init_module] that was given [dev]. *)
Definition initialised (dev : Z) (w : world) : world :=
  World (w_heap w) (w_umem w) (w_files w)
    (Chrdevs ({[dev]} ∪ cd_regions (w_chrdevs w)) ({[dev]} ∪ cd_live (w_chrdevs w)))
    (MAJOR dev) (AesdDev aesd_circular_buffer_init zero_entry false).

Lemma init_rep dev w : dev_rep d_init (w_heap w) (initialised dev w).
Proof.
  split; [|by apply d_init_ok]. split; simpl.
  - apply init_wf.
  - done.
  - rewrite init_contents. constructor.
  - apply zero_entry_rep.
  - rewrite init_contents. apply owns_nil.
Qed.

Lemma init_module_wp Q w :
  (forall dev, dev ∉ cd_regions (w_chrdevs w) -> MKDEV (MAJOR dev) aesd_minor = dev ->
     Q 0 (initialised dev w)) ->
  (forall r w', r < 0 -> w_chrdevs w' = w_chrdevs w -> w_heap w' = w_heap w -> Q r w') ->
  wp aesd_init_module Q w.
Proof.
  intros Hok Hfail. unfold aesd_init_module. wp_steps.
  destruct (alloc_region_spec (w_chrdevs w) aesd_minor 1) as [(dev & Hpos & Hnew & Hmk & E)|(err & Herr & E)];
    rewrite E; wp_steps.
  - rewrite Z.ltb_irrefl. unfold aesd_setup_cdev. wp_steps. simpl. rewrite Hmk.
    destruct (cdev_add_spec (Chrdevs ({[dev]} ∪ cd_regions (w_chrdevs w)) (cd_live (w_chrdevs w))) dev 1)
      as [E'|(err & Herr & E')]; rewrite E'; wp_steps.
    + simpl. by apply Hok.
    + rewrite (proj2 (Z.eqb_neq err 0)) by lia. simpl. wp_steps.
      apply Hfail; [done| |done]. simpl. rewrite unregister_spec. simpl.
      destruct (w_chrdevs w). simpl in *. f_equal. clear -Hnew. set_solver.
  - rewrite (proj2 (Z.ltb_lt err 0)) by done. wp_steps. by apply Hfail.
Qed.

Definition pair_obj (ec : aesd_buffer_entry * bytes) : list (loc * bytes) :=
  entry_obj (fst ec) (snd ec).

Lemma pair_objs_zip es cs :
  concat (pair_obj <$> zip es cs) = live_objs es cs.
Proof.
  revert cs. induction es as [|e es IH]; intros [|c cs]; try done. simpl.
  rewrite live_objs_cons. f_equal. apply IH.
Qed.

Lemma pair_objs_zero n :
  concat (pair_obj <$> ((fun e => (e, [])) <$> replicate n zero_entry)) = [].
Proof. induction n as [|n IH]; [done|]. simpl. exact IH. Qed.

(** Every slot of [entry[]] with the bytes it owns, in array order. *)
Lemma slots_rep b cs p F w :
  dev_mem b cs p F w ->
  exists ps : list (aesd_buffer_entry * bytes), ps.*1 = cb_entry (circular_buffer (aesd_device w)) /\
    Forall (fun ec => entry_rep (fst ec) (snd ec)) ps /\
    owns (entry_obj (staging_entry (aesd_device w)) p ++ concat (pair_obj <$> ps)) F (w_heap w).
Proof.
  intros Hrep. set (b0 := circular_buffer (aesd_device w)).
  pose proof (wf_unused _ _ (rep_wf _ _ _ _ _ Hrep)) as Hun. fold b0 in Hun.
  assert (unused b0 = replicate (length (unused b0)) zero_entry) as Hrepl.
  { symmetry. apply replicate_as_elem_of. split; [done|]. intros x Hx.
    rewrite Forall_forall in Hun. by rewrite (Hun x Hx). }
  set (ps0 := zip (contents b0) cs ++ ((fun e => (e, [])) <$> unused b0)).
  pose proof (rep_cmds _ _ _ _ _ Hrep) as HF. fold b0 in HF.
  pose proof (rep_length Hrep) as Hlen. fold b0 in Hlen.
  assert (ps0.*1 = contents b0 ++ unused b0) as Hfst.
  { unfold ps0. rewrite fmap_app, fst_zip by lia. f_equal. rewrite <- list_fmap_compose.
    by rewrite list_fmap_id. }
  assert (map fst ps0 ≡ₚ cb_entry b0) as Hp by (rewrite entry_perm; by rewrite <- Hfst).
  symmetry in Hp. apply Permutation_map_inv in Hp as (ps & Hps & Hperm).
  exists ps. split; [by symmetry|]. split.
  - rewrite <- Hperm. unfold ps0. apply Forall_app. split.
    + by apply Forall2_zip.
    + rewrite Hrepl. apply Forall_fmap, Forall_replicate. apply zero_entry_rep.
  - rewrite <- (concat_perm (pair_obj <$> ps0)) by (by rewrite Hperm).
    unfold ps0. rewrite fmap_app, concat_app, pair_objs_zip, Hrepl, pair_objs_zero, app_nil_r.
    apply Hrep.
Qed.

Lemma cleanup_wp cs p F w Q :
  dev_mem false cs p F w ->
  (forall w', owns (entry_obj (staging_entry (aesd_device w)) p) F (w_heap w') ->
     w_chrdevs w' = Chrdevs (cd_regions (w_chrdevs w) ∖ {[MKDEV (aesd_major w) aesd_minor]})
                            (cd_live (w_chrdevs w) ∖ {[MKDEV (aesd_major w) aesd_minor]}) ->
     Q tt w') ->
  wp aesd_cleanup_module Q w.
Proof.
  intros Hrep HQ. destruct (slots_rep _ _ _ _ _ Hrep) as (ps & Hps & HF & Hown).
  unfold aesd_cleanup_module, get_buffer. wp_steps. set (devno := MKDEV _ _) in *.
  unfold do_mutex at 1. wp_steps. simpl lock.
  apply (wp_opt _ false); [rewrite (rep_lock _ _ _ _ _ Hrep); apply mutex_destroy_free|]. wp_steps.
  set (w1 := with_lock _ _). simpl circular_buffer.
  set (st := staging_entry (aesd_device w)) in *.
  eapply wp_mono.
  - apply (foreach_wp _ _ (fun l w' => exists ps : list (aesd_buffer_entry * bytes), ps.*1 = l /\
      Forall (fun ec => entry_rep (fst ec) (snd ec)) ps /\
      owns (entry_obj st p ++ concat (pair_obj <$> ps)) F (w_heap w') /\
      exists h, w' = with_heap h w1)).
    + apply (wf_len _ _ (rep_wf _ _ _ _ _ Hrep)).
    + intros e l w' ([|[e' c] ps'] & Hl & HF' & Hown' & h & ->); [done|].
      injection Hl as -> <-. apply Forall_cons in HF' as [He HF'].
      eapply (do_kfree_wp e c (entry_obj st p ++ concat (pair_obj <$> ps'))); [eapply entry_rep_not_zero, He| |].
      * rewrite Permutation_app_swap_app. exact Hown'.
      * intros h' Hh'. exists ps'. split_and!; try done. by exists h'.
    + exists ps. split_and!; try done. exists (w_heap w). done.
  - intros [] w' (ps' & Hnil & _ & Hown' & h & ->). destruct ps'; [|done].
    rewrite app_nil_r in Hown'. wp_steps. apply HQ; [exact Hown'|].
    simpl. by rewrite unregister_spec, cdev_del_spec.
Qed.

(** ** Sequences of file operations *)

Inductive file_op :=
  | OpOpen | OpRelease
  | OpLseek (off whence : Z)
  | OpRead (buf count pos : Z)
  | OpWrite (buf count pos : Z)
  | OpIoctl (cmd arg : Z).

(** The entry of [aesd_fops] an operation dispatches to; its return value. *)
Definition run_op (filp : positive) (op : file_op) : M world Z :=
  match op with
  | OpOpen => aesd_open filp
  | OpRelease => aesd_release filp
  | OpLseek off whence => aesd_llseek filp off whence
  | OpRead buf count pos => let! r := aesd_read filp buf count pos in ret (fst r)
  | OpWrite buf count pos => let! r := aesd_write filp buf count pos in ret (fst r)
  | OpIoctl cmd arg => aesd_ioctl filp cmd arg
  end.

Fixpoint run_ops (ops : list (positive * file_op)) : M world (list Z) :=
  match ops with
  | [] => ret []
  | (filp, op) :: ops =>
      let! r := run_op filp op in
      let! rs := run_ops ops in
      ret (r :: rs)
  end.

(** Arguments the kernel passes; a write of no bytes is left out (it faults). *)
Definition op_valid (op : file_op) : Prop :=
  match op with
  | OpRead _ count pos => 0 <= count <= MAX_RW_COUNT /\ 0 <= pos < 2 ^ 63
  | OpWrite _ count pos => 0 < count <= MAX_RW_COUNT
  | _ => True
  end.

(** What an operation with result [r] does to the abstract device. *)
Definition op_effect (op : file_op) (r : Z) (a a' : dstate) : Prop :=
  match op with
  | OpWrite _ count _ =>
      r = count /\ (exists bs, zlen bs = count /\ a' = d_write a bs) \/ r < 0 /\ a' = a
  | _ => a' = a
  end.

Inductive trace_effect : list (positive * file_op) -> list Z -> dstate -> dstate -> Prop :=
  | trace_nil a : trace_effect [] [] a a
  | trace_cons filp op ops r rs a a' a'' :
      op_effect op r a a' -> trace_effect ops rs a' a'' ->
      trace_effect ((filp, op) :: ops) (r :: rs) a a''.

(** Every file in the table was opened on the device. *)
Definition files_open (w : world) : Prop :=
  forall filp f, w_files w !! filp = Some f -> private_data f = AesdDevice.

Lemma files_open_open w filp :
  files_open w -> filp ∈ dom (w_files w) -> file_open filp w.
Proof.
  intros Ho Hd. apply elem_of_dom in Hd as [[pd pos] Hf]. exists pos.
  rewrite Hf. by rewrite <- (Ho _ _ Hf).
Qed.

Lemma with_f_pos_files filp pos w :
  files_open w -> filp ∈ dom (w_files w) ->
  files_open (with_f_pos filp pos w) /\ dom (w_files (with_f_pos filp pos w)) = dom (w_files w).
Proof.
  intros Ho Hd. split.
  - intros filp' f. simpl. rewrite lookup_insert. case_decide; [by intros [= <-]|apply Ho].
  - simpl. rewrite dom_insert_L. set_solver.
Qed.

Definition op_post (op : file_op) (a : dstate) (F : heap) (w : world) (r : Z) (w' : world) : Prop :=
  exists a', op_effect op r a a' /\ dev_rep a' F w' /\ files_open w' /\
    dom (w_files w') = dom (w_files w).

(** An operation that only moves the file position. *)
Lemma seek_post op a F w filp pos r :
  (forall r', op_effect op r' a a) -> dev_rep a F w -> files_open w -> filp ∈ dom (w_files w) ->
  op_post op a F w r (with_f_pos filp pos w).
Proof.
  intros Hop [Hrep Hok] Ho Hd. destruct (with_f_pos_files filp pos w Ho Hd) as [Ho' Hd'].
  exists a. split_and!; try done. split; [|done]. by eapply dev_mem_env.
Qed.

Lemma run_op_wp a F w filp op :
  dev_rep a F w -> files_open w -> filp ∈ dom (w_files w) -> op_valid op ->
  wp (run_op filp op) (op_post op a F w) w.
Proof.
  intros Hrep Ho Hd Hv. pose proof (files_open_open w filp Ho Hd) as Hopen.
  assert (forall op' r, (forall r', op_effect op' r' a a) -> op_post op' a F w r w) as Hsame
    by (intros; exists a; split_and!; done).
  destruct op as [| |off whence|buf count pos|buf count pos|cmd arg]; simpl run_op.
  - destruct Hopen as [pos Hf]. eapply open_wp; [done|]. by apply seek_post.
  - by apply Hsame.
  - destruct Hopen as [pos Hf]. eapply llseek_wp; [done..|]. intros r pos' _. by apply seek_post.
  - destruct Hv as [Hc Hp]. wp_steps. eapply read_wp; [done..| |].
    + intros _. wp_steps. exists a. split_and!; try done. split; [|apply Hrep].
      eapply dev_mem_env; [apply Hrep|done..].
    + intros _. wp_steps. exists a. split_and!; try done. split; [|apply Hrep].
      eapply dev_mem_env; [apply Hrep|done..].
  - simpl in Hv. wp_steps. eapply wp_mono.
    + apply write_wp; [done|done|lia|]. pose proof (zlen_nonneg (pending a)). lia.
    + intros [r pos'] w' (_ & (Hu & Hfs & _) & Hcases). wp_steps. simpl in Hcases.
      assert (files_open w' /\ dom (w_files w') = dom (w_files w)) as [Ho' Hd'].
      { unfold files_open. by rewrite Hfs. }
      destruct Hcases as [(-> & _ & Hr)|[(-> & _ & Hr)|(-> & bs & Hbs & Hr)]].
      * exists a. split_and!; try done. by right.
      * exists a. split_and!; try done. by right.
      * exists (d_write a bs). split_and!; try done. left. split; [done|]. exists bs.
        split; [|done]. eapply user_bytes_zlen; [lia|done].
  - eapply (ioctl_wp a F); [done|done|by intros; apply Hsame..|].
    intros bs _ _. destruct (d_seek _ _ _); [by apply seek_post|by apply Hsame].
Qed.

Lemma run_ops_wp ops a F w :
  dev_rep a F w -> files_open w ->
  Forall (fun fo => fst fo ∈ dom (w_files w) /\ op_valid (snd fo)) ops ->
  wp (run_ops ops) (fun rs w' => exists a', trace_effect ops rs a a' /\ dev_rep a' F w') w.
Proof.
  revert a w. induction ops as [|[filp op] ops IH]; intros a w Hrep Ho HF; simpl.
  - wp_steps. exists a. split; [constructor|done].
  - apply Forall_cons in HF as [[Hd Hv] HF]. wp_steps.
    eapply wp_mono; [by apply run_op_wp|]. intros r w1 (a1 & He & Hrep1 & Ho1 & Hd1).
    wp_steps. eapply wp_mono; [apply (IH a1); [done|done|by rewrite Hd1]|].
    intros rs w2 (a2 & Htr & Hrep2). wp_steps. exists a2. split; [by econstructor|done].
Qed.
End refinement.
