(* ===== verification/DriverProperties.v ===== *)
(** The character driver's theorems, and concrete worlds they are evaluated on. *)

From S2P Require Import Prelude CMonad KHeap CircularBuffer KernelApi DeviceSpec CharDriver DriverRep DriverRefinement.
Local Open Scope Z_scope.

(** ** A sample world: one command stored, three bytes staged, one open file *)

Definition sample_cmd : bytes := str "hello" ++ [NL].
Definition sample_user : bytes := str "tial" ++ [NL].
Definition sample_buf : Z := 1000.

Definition sample_device : aesd_dev :=
  AesdDev (CircularBuffer (BufferEntry (PLoc 1) 6 :: replicate 9 zero_entry) 1 0 1 6)
    (BufferEntry (PLoc 2) 3) false.
Definition sample_world : world :=
  World {[1%positive := sample_cmd; 2%positive := str "par"]} (ustore ∅ sample_buf sample_user)
    {[1%positive := File AesdDevice 0]} (Chrdevs {[sample_dev]} {[sample_dev]}) 240 sample_device.
Definition sample_state : dstate := DState [sample_cmd] (str "par").
(** The same device with nothing staged. *)
Definition idle_world : world :=
  World {[1%positive := sample_cmd]} (w_umem sample_world) (w_files sample_world)
    (w_chrdevs sample_world) 240
    (AesdDev (circular_buffer sample_device) zero_entry false).
Definition idle_state : dstate := DState [sample_cmd] [].

Lemma sample_cb_wf : cb_wf KMALLOC_MAX_SIZE (circular_buffer sample_device).
Proof.
  constructor; simpl; try lia; try reflexivity.
  - change (contents _) with [BufferEntry (PLoc 1) 6]. constructor; [|constructor].
    split; vm_compute; congruence.
  - change (unused _) with (replicate 9 zero_entry). by apply Forall_replicate.
Qed.

Lemma sample_rep : dev_rep sample_state ∅ sample_world.
Proof.
  split.
  - split.
    + apply sample_cb_wf.
    + done.
    + change (contents _) with [BufferEntry (PLoc 1) 6].
      constructor; [|constructor]. by apply (entry_rep_ploc 1 sample_cmd).
    + by apply (entry_rep_ploc 2 (str "par")).
    + split; [|split].
      * vm_compute. repeat constructor; set_solver.
      * intros l _. apply lookup_empty.
      * vm_compute. reflexivity.
  - split; simpl; [lia| |].
    + repeat constructor. vm_compute. congruence.
    + split; [done|vm_compute; congruence].
Qed.

Lemma idle_rep : dev_rep idle_state ∅ idle_world.
Proof.
  split.
  - split.
    + apply sample_cb_wf.
    + done.
    + change (contents _) with [BufferEntry (PLoc 1) 6].
      constructor; [|constructor]. by apply (entry_rep_ploc 1 sample_cmd).
    + apply zero_entry_rep.
    + split; [|split].
      * vm_compute. repeat constructor; set_solver.
      * intros l _. apply lookup_empty.
      * vm_compute. reflexivity.
  - split; simpl; [lia| |].
    + repeat constructor. vm_compute. congruence.
    + split; [done|vm_compute; congruence].
Qed.

Lemma sample_open : file_open 1 sample_world.
Proof. by exists 0. Qed.

Lemma sample_files_open : files_open sample_world.
Proof.
  intros filp f H. simpl in H. rewrite lookup_singleton in H. by case_decide; simplify_eq.
Qed.

(** ** Properties *)

(** C5: a write to a represented device does not fault, releases the lock, leaves user
    memory, files and registry alone, and ends in one of three ways: [-ENOMEM], with
    the device unchanged, exactly when [kmalloc] returned NULL; [-EFAULT], unchanged and
    nothing leaked, when some user byte is not accessible; or [count], with the device
    of the specification for the bytes of the user buffer: appended to the staged
    bytes, moved to the history when the result ends in a newline, the oldest of ten
    commands freed. *)
Theorem write_refines (K : Kernel) (KL : KernelLaws K) a F w filp buf count pos :
  dev_rep a F w -> file_open filp w -> 0 <= count <= MAX_RW_COUNT ->
  0 < count + zlen (pending a) ->
  exists r w', aesd_write filp buf count pos w = Done ((r, pos), w') /\ same_env w w' /\
    ((r = - ENOMEM /\ fst (kmalloc (count + zlen (pending a)) (w_heap w)) = PNull /\ dev_rep a F w') \/
     (r = - EFAULT /\ user_bytes (w_umem w) buf count = None /\ dev_rep a F w') \/
     (r = count /\ exists bs, user_bytes (w_umem w) buf count = Some bs /\ dev_rep (d_write a bs) F w')).
Proof.
  intros Hrep Hopen Hc Hp.
  destruct (wp_Done _ _ _ (write_wp a F w filp buf count pos Hrep Hopen Hc Hp))
    as ([r pos'] & w' & Hrun & Hpos & Henv & Hcases).
  simpl in *. subst pos'. by exists r, w'.
Qed.

(** C14: a read at [pos] returns exactly the bytes the specification gives, at most [count]
    and never across a command boundary, stores them at the user's buffer, advances the
    position by their number and changes nothing else; if the user buffer is not
    accessible it returns [-EFAULT] and does not move the position. *)
Theorem read_refines (K : Kernel) (KL : KernelLaws K) a F w filp buf count pos :
  dev_rep a F w -> file_open filp w -> 0 <= count <= MAX_RW_COUNT -> 0 <= pos < 2 ^ 63 ->
  let bs := d_read a pos count in
  (is_Some (user_bytes (w_umem w) buf (zlen bs)) ->
     aesd_read filp buf count pos w =
     Done ((zlen bs, pos + zlen bs), with_umem (ustore (w_umem w) buf bs) w)) /\
  (user_bytes (w_umem w) buf (zlen bs) = None ->
     exists u, aesd_read filp buf count pos w = Done ((- EFAULT, pos), with_umem u w)).
Proof.
  intros Hrep Hopen Hc Hp bs. split.
  - intros Hu. apply wp_eq. eapply read_wp; [done..| |].
    + intros _. done.
    + intros Hn. fold bs in Hn. by rewrite Hn in Hu; destruct Hu.
  - intros Hn.
    assert (wp (aesd_read filp buf count pos)
              (fun r w' => exists u, r = (- EFAULT, pos) /\ w' = with_umem u w) w) as Hwp.
    { eapply read_wp; [done..| |].
      - intros Hu. fold bs in Hu. by rewrite Hn in Hu; destruct Hu.
      - intros _. by eexists. }
    apply wp_Done in Hwp as (r & w' & Hrun & u & -> & ->). by exists u.
Qed.

(** C21: a seek succeeds exactly for targets within the device's contents, the end included: it sets the file
    position to the target and returns it; an unknown [whence] or a target outside the
    contents is [-EINVAL]. Nothing else changes, the position included when it fails, and the lock is free again.
    (Except that the kernel answers a seek by 0 from a position beyond the contents with the position.) *)
Theorem llseek_refines (K : Kernel) (KL : KernelLaws K) a F w filp pos off whence :
  dev_rep a F w -> w_files w !! filp = Some (File AesdDevice pos) ->
  (whence = 1 -> off = 0 -> 0 <= pos <= d_size a) ->
  aesd_llseek filp off whence w =
  match seek_target pos off whence (d_size a) with
  | Some n => if (0 <=? n) && (n <=? d_size a) then Done (n, with_f_pos filp n w) else Done (- EINVAL, w)
  | None => Done (- EINVAL, w)
  end.
Proof.
  intros Hrep Hf Hcur.
  assert (with_f_pos filp pos w = w) as Hid.
  { unfold with_f_pos. rewrite insert_id by done. by destruct w. }
  assert (aesd_llseek filp off whence w =
          Done (fst (fixed_size_llseek pos off whence (d_size a)),
                with_f_pos filp (snd (fixed_size_llseek pos off whence (d_size a))) w)) as ->.
  { apply wp_eq. eapply llseek_wp; [done..|]. by intros r pos' ->. }
  destruct (seek_target pos off whence (d_size a)) as [n|] eqn:E.
  - destruct (Z.leb_spec 0 n), (Z.leb_spec n (d_size a)); simpl; [by rewrite (llseek_valid _ _ _ _ n E) by lia|..];
      (rewrite (llseek_invalid _ _ _ _ n E); [by simpl; rewrite Hid|lia|]);
      intros [-> ->]; unfold seek_target in E; simpl in E; injection E as <-; lia.
  - rewrite (llseek_whence _ _ _ _ E). simpl. by rewrite Hid.
Qed.

(** C19: the ioctl accepts only AESDCHAR_IOCSEEKTO; it reads the two 32-bit fields from user
    memory and moves the file position to the byte of that command, or fails with
    [-EINVAL] when there is no such command or byte, with [-EFAULT] when the argument is
    not accessible and with [-ENOTTY] for any other request, changing nothing. *)
Theorem ioctl_refines (K : Kernel) (KL : KernelLaws K) a F w filp cmd arg :
  dev_rep a F w -> file_open filp w ->
  aesd_ioctl filp cmd arg w =
  if cmd =? AESDCHAR_IOCSEEKTO then
    match user_bytes (w_umem w) arg sizeof_aesd_seekto with
    | None => Done (- EFAULT, w)
    | Some bs =>
        match d_seek a (write_cmd (decode_seekto bs)) (write_cmd_offset (decode_seekto bs)) with
        | Some pos => Done (0, with_f_pos filp pos w)
        | None => Done (- EINVAL, w)
        end
    end
  else Done (- ENOTTY, w).
Proof.
  intros Hrep Hopen. destruct (Z.eqb_spec cmd AESDCHAR_IOCSEEKTO) as [->|Hne].
  - destruct (user_bytes (w_umem w) arg sizeof_aesd_seekto) as [bs|] eqn:E.
    + destruct (d_seek _ _ _) as [pos|] eqn:Es; apply wp_eq;
        (eapply ioctl_wp; [done|done|by intros []|congruence|]);
        intros bs' _ E'; assert (bs' = bs) as -> by congruence; by rewrite Es.
    + apply wp_eq. eapply ioctl_wp; [done|done|by intros []|done|congruence].
  - apply wp_eq. eapply ioctl_wp; [done|done|done|by intros ?|by intros ? ?].
Qed.

(** Any sequence of open, release, llseek, read, non-empty write and ioctl calls, on any of
    the open files in any order, runs without a fault (no invalid access, double free,
    self-deadlock or unbounded loop), and the device it leaves is the one the
    specification's operations give for the results the calls returned. *)
Theorem driver_trace_refines (K : Kernel) (KL : KernelLaws K) ops a F w :
  dev_rep a F w -> files_open w ->
  Forall (fun fo => fst fo ∈ dom (w_files w) /\ op_valid (snd fo)) ops ->
  exists rs w' a', run_ops ops w = Done (rs, w') /\ trace_effect ops rs a a' /\ dev_rep a' F w'.
Proof.
  intros Hrep Ho HF. destruct (wp_Done _ _ _ (run_ops_wp ops a F w Hrep Ho HF))
    as (rs & w' & Hrun & a' & Htr & Hrep'). by exists rs, w', a'.
Qed.

(** C27: module initialisation either succeeds, with a reserved device number, a live
    character device and an empty device whose memory footprint is empty, or returns a
    negative error with the registry as it was: a failed [cdev_add] undoes the
    reservation. *)
Theorem init_module_correct (K : Kernel) (KL : KernelLaws K) w :
  exists r w', aesd_init_module w = Done (r, w') /\ w_heap w' = w_heap w /\
    ((r = 0 /\ dev_rep d_init (w_heap w) w' /\
      exists dev, (dev ∉ cd_regions (w_chrdevs w)) /\ MKDEV (aesd_major w') aesd_minor = dev /\
        w_chrdevs w' = Chrdevs ({[dev]} ∪ cd_regions (w_chrdevs w)) ({[dev]} ∪ cd_live (w_chrdevs w))) \/
     (r < 0 /\ w_chrdevs w' = w_chrdevs w)).
Proof.
  apply (wp_Done _ (fun r w' => w_heap w' = w_heap w /\ _)).
  apply init_module_wp.
  - intros dev Hnew Hmk. split; [done|]. left. split; [done|]. split; [apply init_rep|].
    exists dev. by split_and!.
  - intros r w' Hr Hc Hh. split; [done|]. by right.
Qed.

(** C34: module cleanup unregisters the device and frees the memory of every stored command
    once, but not the staging buffer: the heap left over is the frame plus the staged
    bytes. Unloading the module with an incomplete command staged leaks its buffer. *)
Theorem cleanup_leaks_staging (K : Kernel) (KL : KernelLaws K) a F w :
  dev_rep a F w ->
  exists w', aesd_cleanup_module w = Done (tt, w') /\
    owns (entry_obj (staging_entry (aesd_device w)) (pending a)) F (w_heap w') /\
    (pending a = [] -> w_heap w' = F) /\
    (pending a <> [] -> exists l, F !! l = None /\ w_heap w' !! l = Some (pending a)) /\
    (MKDEV (aesd_major w) aesd_minor ∉ cd_regions (w_chrdevs w')) /\
    MKDEV (aesd_major w) aesd_minor ∉ cd_live (w_chrdevs w').
Proof.
  intros [Hrep _].
  assert (wp aesd_cleanup_module (fun _ w' =>
    owns (entry_obj (staging_entry (aesd_device w)) (pending a)) F (w_heap w') /\
    (MKDEV (aesd_major w) aesd_minor ∉ cd_regions (w_chrdevs w')) /\
    MKDEV (aesd_major w) aesd_minor ∉ cd_live (w_chrdevs w')) w) as Hwp.
  { eapply cleanup_wp; [done|]. intros w' Hown ->. split; [done|]. simpl. set_solver. }
  apply wp_Done in Hwp as ([] & w' & Hrun & Hown & Hr & Hl).
  exists w'. split; [done|]. split; [done|].
  destruct (rep_staging _ _ _ _ _ Hrep) as [Hsz [[Hp Hnil]|[[l Hp] Hnil]]];
    unfold entry_obj in *; rewrite Hp in *.
  - split; [intros _; by apply owns_nil_inv in Hown|]. split; [by rewrite Hnil|done].
  - split; [done|]. split; [|done]. intros _. exists l. split; [|by eapply owns_head].
    destruct Hown as (_ & HF & _). apply HF. left.
Qed.

(** C35: a write of zero bytes while nothing is staged, which any process that can write to the
    device may make: it takes the lock, [kmalloc] of no bytes gives ZERO_SIZE_PTR, and with that and
    a size of zero as the staging entry, nothing else changed, the write comes to its newline test
    with the lock held. The test indexes with [size - 1] of the zero size and faults. *)
Theorem empty_write_faults (K : Kernel) (KL : KernelLaws K) a F w filp buf pos :
  dev_rep a F w -> file_open filp w -> pending a = [] ->
  let w1 := with_staging (BufferEntry PZero 0) (with_lock true w) in
  stage_write filp buf 0 w = Done (None, w1) /\
  lock (aesd_device w1) = true /\
  load (w_heap w1) (be_buffptr (staging_entry (aesd_device w1))) (be_size (staging_entry (aesd_device w1)) -u64 1)%cint =
    Fault BadAccess /\
  finish_write 0 w1 = Fault BadAccess /\
  aesd_write filp buf 0 pos w = Fault BadAccess.
Proof.
  intros [Hrep _] [pos' Hf] Hp w1. destruct (rep_staging _ _ _ _ _ Hrep) as [Hsz Hptr].
  rewrite Hp in *. destruct Hptr as [[Hnull _]|[_ Hne]]; [|done].
  assert (stage_write filp buf 0 w = Done (None, w1)) as Hs.
  { unfold stage_write, get_aesd_dev_ptr, get_file, do_mutex, get_staging, bind, mget, mgets, mopt, mput, ret.
    rewrite Hf. simpl. rewrite (rep_lock _ _ _ _ _ Hrep), mutex_lock_free. simpl.
    rewrite Hsz. unfold do_kmalloc, bind, mget, mput, ret. change (u64 (0 + zlen [])) with 0.
    rewrite kmalloc_zero. simpl. unfold do_memcpy, bind, mget, mput, ret, mlift.
    simpl. unfold do_copy_from_user, bind, mget, mput, ret, mlift. simpl.
    rewrite (copy_from_user_ok _ _ 0 [] ltac:(lia) eq_refl). simpl.
    unfold do_kfree, bind, mget, mput, ret, mopt. simpl. rewrite Hnull, kfree_null. done. }
  split; [done|]. unfold aesd_write, bind. rewrite Hs. done.
Qed.

(** ** Witnesses *)

Lemma write_refines_witness :
  exists r w', aesd_write 1 sample_buf 5 0 sample_world = Done ((r, 0), w') /\
    same_env sample_world w' /\
    ((r = - ENOMEM /\ fst (kmalloc (5 + zlen (pending sample_state)) (w_heap sample_world)) = PNull /\
      dev_rep sample_state ∅ w') \/
     (r = - EFAULT /\ user_bytes (w_umem sample_world) sample_buf 5 = None /\
      dev_rep sample_state ∅ w') \/
     (r = 5 /\ exists bs, user_bytes (w_umem sample_world) sample_buf 5 = Some bs /\
      dev_rep (d_write sample_state bs) ∅ w')).
Proof.
  apply (write_refines sample_kernel sample_kernel_laws sample_state ∅ sample_world 1 sample_buf 5 0);
    [apply sample_rep|apply sample_open|unfold MAX_RW_COUNT; lia|vm_compute; reflexivity].
Defined.

Lemma read_refines_witness :
  let bs := d_read sample_state 2 100 in
  (is_Some (user_bytes (w_umem sample_world) sample_buf (zlen bs)) ->
     aesd_read 1 sample_buf 100 2 sample_world =
     Done ((zlen bs, 2 + zlen bs), with_umem (ustore (w_umem sample_world) sample_buf bs) sample_world)) /\
  (user_bytes (w_umem sample_world) sample_buf (zlen bs) = None ->
     exists u, aesd_read 1 sample_buf 100 2 sample_world = Done ((- EFAULT, 2), with_umem u sample_world)).
Proof.
  apply (read_refines sample_kernel sample_kernel_laws sample_state ∅ sample_world 1 sample_buf 100 2);
    [apply sample_rep|apply sample_open|unfold MAX_RW_COUNT; lia|lia].
Defined.

Lemma llseek_refines_witness :
  aesd_llseek 1 (-2) 2 sample_world =
  Done (4, with_f_pos 1 4 sample_world).
Proof.
  apply (llseek_refines sample_kernel sample_kernel_laws sample_state ∅ sample_world 1 0 (-2) 2);
    [apply sample_rep|reflexivity|lia].
Defined.

(** The seek argument: command 0, offset 3, little-endian. *)
Definition seek_world : world :=
  with_umem (ustore ∅ 2000 [NUL; NUL; NUL; NUL; ascii_of_nat 3; NUL; NUL; NUL]) sample_world.
Lemma seek_world_rep : dev_rep sample_state ∅ seek_world.
Proof. split; [|apply sample_rep]. eapply dev_mem_env; [apply sample_rep|done..]. Qed.

Lemma ioctl_refines_witness :
  aesd_ioctl 1 AESDCHAR_IOCSEEKTO 2000 seek_world = Done (0, with_f_pos 1 3 seek_world).
Proof.
  etransitivity.
  - apply (ioctl_refines sample_kernel sample_kernel_laws sample_state ∅ seek_world 1 AESDCHAR_IOCSEEKTO 2000);
      [apply seek_world_rep|by exists 0].
  - vm_compute. reflexivity.
Defined.

Lemma driver_trace_refines_witness :
  exists rs w' a',
    run_ops [(1%positive, OpWrite sample_buf 5 0); (1%positive, OpRead sample_buf 3 0);
             (1%positive, OpIoctl 7 0); (1%positive, OpRelease)] sample_world = Done (rs, w') /\
    trace_effect [(1%positive, OpWrite sample_buf 5 0); (1%positive, OpRead sample_buf 3 0);
                  (1%positive, OpIoctl 7 0); (1%positive, OpRelease)] rs sample_state a' /\
    dev_rep a' ∅ w'.
Proof.
  apply (driver_trace_refines sample_kernel sample_kernel_laws _ sample_state ∅ sample_world);
    [apply sample_rep|apply sample_files_open|].
  repeat (constructor; [split; [apply elem_of_dom; by eexists|simpl; unfold MAX_RW_COUNT; lia]|]). constructor.
Defined.

Lemma init_module_correct_witness :
  exists r w', aesd_init_module sample_world = Done (r, w') /\ w_heap w' = w_heap sample_world /\
    ((r = 0 /\ dev_rep d_init (w_heap sample_world) w' /\
      exists dev, (dev ∉ cd_regions (w_chrdevs sample_world)) /\ MKDEV (aesd_major w') aesd_minor = dev /\
        w_chrdevs w' = Chrdevs ({[dev]} ∪ cd_regions (w_chrdevs sample_world))
                               ({[dev]} ∪ cd_live (w_chrdevs sample_world))) \/
     (r < 0 /\ w_chrdevs w' = w_chrdevs sample_world)).
Proof. apply (init_module_correct sample_kernel sample_kernel_laws sample_world). Defined.

Lemma cleanup_leaks_staging_witness :
  exists w', aesd_cleanup_module sample_world = Done (tt, w') /\
    owns (entry_obj (staging_entry (aesd_device sample_world)) (pending sample_state)) ∅ (w_heap w') /\
    (pending sample_state = [] -> w_heap w' = ∅) /\
    (pending sample_state <> [] ->
       exists l, (∅ : heap) !! l = None /\ w_heap w' !! l = Some (pending sample_state)) /\
    (MKDEV (aesd_major sample_world) aesd_minor ∉ cd_regions (w_chrdevs w')) /\
    MKDEV (aesd_major sample_world) aesd_minor ∉ cd_live (w_chrdevs w').
Proof.
  apply (cleanup_leaks_staging sample_kernel sample_kernel_laws sample_state ∅ sample_world).
  apply sample_rep.
Defined.

Lemma empty_write_faults_witness :
  let w1 := with_staging (BufferEntry PZero 0) (with_lock true idle_world) in
  stage_write 1 sample_buf 0 idle_world = Done (None, w1) /\ finish_write 0 w1 = Fault BadAccess.
Proof.
  destruct (empty_write_faults sample_kernel sample_kernel_laws idle_state ∅ idle_world 1 sample_buf 0)
    as (Hs & _ & _ & Hf & _); [apply idle_rep|by exists 0|done|done].
Defined.
