(* ===== verification/DriverConcurrent.v ===== *)
(** The driver called by any number of processes at the same time.

    A call of [aesd_llseek], [aesd_read], [aesd_write] or [aesd_ioctl] takes the device's mutex once and
    frees it once ([call_sections], [op_sections]). Between its steps other calls run: [conc_step]. User memory may
    change at any time. [driver_linearizable] says that this cannot be told from a device
    that performs each call in one step ([spec_step]): both make the same events. *)

From S2P Require Import Prelude CMonad KHeap CircularBuffer KernelApi DeviceSpec CharDriver DriverRep DriverRefinement DriverProperties.
Local Open Scope Z_scope.
Local Open Scope cmonad_scope.
Local Open Scope cint_scope.

(** The calls that take the mutex; an ioctl has read its argument by then. *)
Inductive call :=
  | C_Lseek (off whence : Z)
  | C_Read (buf count pos : Z)
  | C_Write (buf count pos : Z)
  | C_Adjust (cmd offset : Z).
(** The return value, and what is stored to [*f_pos] if the call has that argument. *)
Abbreviation result := (Z * option Z)%type.

Inductive stage :=
  | Waiting (c : call)     (** before [mutex_lock] *)
  | Locked (c : call)
  | Finished (r : result)  (** before [mutex_unlock] *)
  | Returned (r : result).
Definition inside (st : stage) : bool := match st with Locked _ | Finished _ => true | _ => false end.

(** What happens: a process calls an operation, the driver carries it out, the process is told the result;
    and processes store to their memory. *)
Inductive driver_event :=
  | DE_Call (n : Z) (filp : positive) (op : file_op)
  | DE_Perform (n : Z) (r : result)
  | DE_Return (n : Z) (r : result)
  | DE_User (u : umem).
(** The events of a step of the call of [n] to the stage [st]. *)
Definition stage_events (n : Z) (st : stage) : list driver_event :=
  match st with Finished r => [DE_Perform n r] | Returned r => [DE_Return n r] | _ => [] end.

Section concurrent.
Context {K : Kernel}.

(** What is between [mutex_lock] and [mutex_unlock] in each function. *)
Definition llseek_section (filp : positive) (off whence : Z) : M world Z :=
  let! b := get_buffer in
  let! f := get_file filp in
  let '(retval, pos) := fixed_size_llseek (f_pos f) off whence (i64 (aesd_circular_buffer_size b)) in
  set_f_pos filp pos;; ret retval.
Definition read_section (buf count f_pos : Z) : M world (Z * Z) :=
  let! b := get_buffer in
  let! found := mlift (aesd_circular_buffer_find_entry_offset_for_fpos b (u64 f_pos)) in
  let! retval :=
    match found with
    | None => ret 0
    | Some (i, buffer_entry_off) =>
        let! e := mlift (entry_at b i) in
        let retval := i64 (MIN count (be_size e -u64 buffer_entry_off)) in
        let! not_copied := do_copy_to_user buf (be_buffptr e) buffer_entry_off (u64 retval) in
        ret (if 0 <? not_copied then - EFAULT else retval)
    end in
  ret (retval, if 0 <? retval then i64 (f_pos + retval) else f_pos).
Definition write_section (buf count : Z) : M world Z :=
  let! st := get_staging in
  let! bufferptr := do_kmalloc (count +u64 be_size st) in
  if is_null bufferptr then ret (- ENOMEM)
  else
    do_memcpy bufferptr (be_buffptr st) (be_size st);;
    let! not_copied := do_copy_from_user bufferptr (be_size st) buf count in
    if 0 <? not_copied then
      do_kfree bufferptr;; ret (- EFAULT)
    else
      do_kfree (be_buffptr st);;
      mmodify (with_staging (BufferEntry bufferptr (be_size st +u64 count)));;
      finish_write count.
Definition adjust_section (filp : positive) (cmd offset : Z) : M world Z :=
  let! b := get_buffer in
  let! new_fpos := mlift (aesd_circular_buffer_get_entry_fpos b cmd offset) in
  if 0 <=? new_fpos then set_f_pos filp new_fpos;; ret 0 else ret (- EINVAL).

Definition call_body (filp : positive) (c : call) : M world result :=
  match c with
  | C_Lseek off whence => let! r := llseek_section filp off whence in ret (r, None)
  | C_Read buf count pos => let! r := read_section buf count pos in ret (fst r, Some (snd r))
  | C_Write buf count pos => let! r := write_section buf count in ret (r, Some pos)
  | C_Adjust cmd offset => let! r := adjust_section filp cmd offset in ret (r, None)
  end.

(** The functions themselves. *)
Definition call_code (filp : positive) (c : call) : M world result :=
  match c with
  | C_Lseek off whence => let! r := aesd_llseek filp off whence in ret (r, None)
  | C_Read buf count pos => let! r := aesd_read filp buf count pos in ret (fst r, Some (snd r))
  | C_Write buf count pos => let! r := aesd_write filp buf count pos in ret (fst r, Some (snd r))
  | C_Adjust cmd offset => let! r := aesd_adjust_file_offset filp cmd offset in ret (r, None)
  end.

(** They are made of these sections. *)
Lemma call_sections filp c w :
  call_code filp c w =
  (get_aesd_dev_ptr filp;; do_mutex mutex_lock;;
   let! r := call_body filp c in do_mutex mutex_unlock;; ret r) w.
Proof.
  destruct c; unfold call_code, call_body, llseek_section, read_section, write_section, adjust_section,
    aesd_llseek, aesd_read, aesd_write, stage_write, aesd_adjust_file_offset, bind, ret, mlift, mmodify;
    repeat match goal with
      | |- context [match ?m with _ => _ end] =>
          lazymatch m with context [match _ with _ => _ end] => fail | _ => destruct m as [] eqn:? end
      end; done.
Qed.

(** The part of an operation before the mutex; opening and releasing have no other. *)
Definition enter (filp : positive) (op : file_op) : M world stage :=
  match op with
  | OpOpen => let! r := aesd_open filp in ret (Returned (r, None))
  | OpRelease => let! r := aesd_release filp in ret (Returned (r, None))
  | OpLseek off whence => get_aesd_dev_ptr filp;; ret (Waiting (C_Lseek off whence))
  | OpRead buf count pos => get_aesd_dev_ptr filp;; ret (Waiting (C_Read buf count pos))
  | OpWrite buf count pos => get_aesd_dev_ptr filp;; ret (Waiting (C_Write buf count pos))
  | OpIoctl cmd arg =>
      if cmd =? AESDCHAR_IOCSEEKTO then
        let! w := mget in
        let '(not_copied, bs) := copy_from_user (w_umem w) arg sizeof_aesd_seekto in
        if negb (not_copied =? 0) then ret (Returned (- EFAULT, None))
        else
          let seekto := decode_seekto bs in
          get_aesd_dev_ptr filp;; ret (Waiting (C_Adjust (write_cmd seekto) (write_cmd_offset seekto)))
      else ret (Returned (- ENOTTY, None))
  end.

(** The rest of a call with nobody in its way. *)
Definition rest (filp : positive) (st : stage) : M world Z :=
  match st with
  | Waiting c => do_mutex mutex_lock;; let! r := call_body filp c in do_mutex mutex_unlock;; ret (fst r)
  | Locked c => let! r := call_body filp c in do_mutex mutex_unlock;; ret (fst r)
  | Finished r => do_mutex mutex_unlock;; ret (fst r)
  | Returned r => ret (fst r)
  end.

(** An operation is its part before the mutex and then the section: nothing of it is left out. *)
Lemma op_sections filp op w :
  run_op filp op w =
  (let! st := enter filp op in rest filp st) w.
Proof.
  assert (forall c, (let! r := call_code filp c in ret (fst r)) w =
    (get_aesd_dev_ptr filp;; do_mutex mutex_lock;; let! r := call_body filp c in do_mutex mutex_unlock;; ret (fst r)) w) as Hc.
  { intros c. unfold bind at 1. rewrite call_sections. unfold bind, ret.
    repeat match goal with |- context [match ?m with _ => _ end] =>
      lazymatch m with context [match _ with _ => _ end] => fail | _ => destruct m as [] eqn:? end end; done. }
  assert (forall c (m : M world Z), (let! r := call_code filp c in ret (fst r)) w = m w ->
    m w = (let! st := get_aesd_dev_ptr filp;; ret (Waiting c) in rest filp st) w) as Hm.
  { intros c m <-. rewrite Hc. unfold bind, ret. by destruct (get_aesd_dev_ptr filp w) as [[]|]. }
  destruct op as [| |off whence|buf count pos|buf count pos|cmd arg]; simpl run_op; simpl enter.
  1-2: unfold bind, ret; by repeat case_match; simplify_eq.
  1: apply (Hm (C_Lseek off whence)). 2: apply (Hm (C_Read buf count pos)). 3: apply (Hm (C_Write buf count pos)).
  1-3: unfold call_code, bind, ret; by repeat case_match; simplify_eq.
  unfold aesd_ioctl. destruct (cmd =? AESDCHAR_IOCSEEKTO); [|done].
  unfold bind at 1 2 3. cbv beta iota delta [mget]. destruct (copy_from_user _ _ _) as [n bs]. destruct (negb (n =? 0)); [reflexivity|].
  apply (Hm (C_Adjust _ _)). unfold call_code, bind, ret; by repeat case_match; simplify_eq.
Qed.

(** The next step of a call. *)
Definition stage_step (filp : positive) (st : stage) : M world stage :=
  match st with
  | Waiting c => do_mutex mutex_lock;; ret (Locked c)
  | Locked c => let! r := call_body filp c in ret (Finished r)
  | Finished r => do_mutex mutex_unlock;; ret (Returned r)
  | Returned r => mfault Blocked
  end.

(** The processes, each with the file and the stage of its last call. *)
Record conc := Conc { cn_world : world; cn_calls : gmap Z (positive * stage) }.

Definition idle (calls : gmap Z (positive * stage)) (n : Z) : Prop :=
  forall filp st, calls !! n = Some (filp, st) -> exists r, st = Returned r.

Inductive conc_step : conc -> list driver_event -> conc -> Prop :=
  | conc_call n filp op w calls st w' :
      idle calls n -> filp ∈ dom (w_files w) -> op_valid op -> enter filp op w = Done (st, w') ->
      conc_step (Conc w calls) (DE_Call n filp op :: stage_events n st) (Conc w' (<[n := (filp, st)]> calls))
  | conc_stage n filp st w calls st' w' :
      calls !! n = Some (filp, st) -> stage_step filp st w = Done (st', w') ->
      conc_step (Conc w calls) (stage_events n st') (Conc w' (<[n := (filp, st')]> calls))
  (** A process stores to its memory. *)
  | conc_user u w calls : conc_step (Conc w calls) [DE_User u] (Conc (with_umem u w) calls).

(** Several steps of a labelled machine, with their events. *)
Inductive run {S E} (step : S -> list E -> S -> Prop) (s0 : S) : list E -> S -> Prop :=
  | run_nil : run step s0 [] s0
  | run_snoc tr s es s' : run step s0 tr s -> step s es s' -> run step s0 (tr ++ es) s'.

(** ** The device that performs a call in one step *)

Inductive spec_stage := Pending (c : call) | Answered (r : result) | Told (r : result).
Definition seen (st : stage) : spec_stage :=
  match st with Waiting c | Locked c => Pending c | Finished r => Answered r | Returned r => Told r end.
Definition told (n : Z) (st : spec_stage) : list driver_event := match st with Told r => [DE_Return n r] | _ => [] end.

Record spec := Spec {
  sp_dev : dstate;
  sp_umem : umem;
  sp_files : gmap positive file;
  sp_calls : gmap Z (positive * spec_stage);
}.

(** The call [c] on the file [filp] of the device [a], user memory [u], files [fs]. *)
Inductive perform_call (filp : positive) : call -> result -> dstate -> umem -> gmap positive file ->
    dstate -> umem -> gmap positive file -> Prop :=
  | perform_lseek off whence pos r pos' a u fs :
      fs !! filp = Some (File AesdDevice pos) -> fixed_size_llseek pos off whence (d_size a) = (r, pos') ->
      perform_call filp (C_Lseek off whence) (r, None) a u fs a u (<[filp := File AesdDevice pos']> fs)
  | perform_read buf count pos a u fs :
      let bs := d_read a pos count in
      is_Some (user_bytes u buf (zlen bs)) ->
      perform_call filp (C_Read buf count pos) (zlen bs, Some (pos + zlen bs)) a u fs a (ustore u buf bs) fs
  | perform_read_fault buf count pos a u fs :
      let bs := d_read a pos count in
      user_bytes u buf (zlen bs) = None ->
      perform_call filp (C_Read buf count pos) (- EFAULT, Some pos) a u fs a (snd (copy_to_user u buf bs)) fs
  | perform_write buf count pos bs a u fs :
      user_bytes u buf count = Some bs ->
      perform_call filp (C_Write buf count pos) (count, Some pos) a u fs (d_write a bs) u fs
  | perform_write_fault buf count pos a u fs :
      user_bytes u buf count = None -> perform_call filp (C_Write buf count pos) (- EFAULT, Some pos) a u fs a u fs
  | perform_write_memory buf count pos a u fs :
      (exists h, fst (kmalloc (count + zlen (pending a)) h) = PNull) ->
      perform_call filp (C_Write buf count pos) (- ENOMEM, Some pos) a u fs a u fs
  | perform_adjust cmd offset pos a u fs :
      d_seek a cmd offset = Some pos ->
      perform_call filp (C_Adjust cmd offset) (0, None) a u fs a u (<[filp := File AesdDevice pos]> fs)
  | perform_adjust_invalid cmd offset a u fs :
      d_seek a cmd offset = None -> perform_call filp (C_Adjust cmd offset) (- EINVAL, None) a u fs a u fs.

(** What a process is told at once, or that it waits. *)
Definition accepted (u : umem) (op : file_op) : spec_stage :=
  match op with
  | OpOpen | OpRelease => Told (0, None)
  | OpLseek off whence => Pending (C_Lseek off whence)
  | OpRead buf count pos => Pending (C_Read buf count pos)
  | OpWrite buf count pos => Pending (C_Write buf count pos)
  | OpIoctl cmd arg =>
      if cmd =? AESDCHAR_IOCSEEKTO then
        match user_bytes u arg sizeof_aesd_seekto with
        | None => Told (- EFAULT, None)
        | Some bs => Pending (C_Adjust (write_cmd (decode_seekto bs)) (write_cmd_offset (decode_seekto bs)))
        end
      else Told (- ENOTTY, None)
  end.

Inductive spec_step : spec -> list driver_event -> spec -> Prop :=
  | spec_call n filp op a u fs calls :
      (forall f st, calls !! n = Some (f, st) -> exists r, st = Told r) ->
      spec_step (Spec a u fs calls) (DE_Call n filp op :: told n (accepted u op)) (Spec a u fs (<[n := (filp, accepted u op)]> calls))
  | spec_perform n filp c r a u fs calls a' u' fs' :
      calls !! n = Some (filp, Pending c) -> perform_call filp c r a u fs a' u' fs' ->
      spec_step (Spec a u fs calls) [DE_Perform n r] (Spec a' u' fs' (<[n := (filp, Answered r)]> calls))
  | spec_return n filp r a u fs calls :
      calls !! n = Some (filp, Answered r) ->
      spec_step (Spec a u fs calls) [DE_Return n r] (Spec a u fs (<[n := (filp, Told r)]> calls))
  | spec_user u' a u fs calls : spec_step (Spec a u fs calls) [DE_User u'] (Spec a u' fs calls).

(** ** A call that runs alone performs it *)

(** A locked mutex cannot be taken, a free one cannot be freed. *)
Record mutex_strict : Prop := {
  lock_held : mutex_lock true = None;
  unlock_free : mutex_unlock false = None;
}.
Context {KL : KernelLaws K} (Hmx : mutex_strict).

Definition call_valid (c : call) : Prop :=
  match c with
  | C_Read _ count pos => 0 <= count <= MAX_RW_COUNT /\ 0 <= pos < 2 ^ 63
  | C_Write _ count _ => 0 < count <= MAX_RW_COUNT
  | C_Adjust cmd offset => 0 <= cmd < 2 ^ 32 /\ 0 <= offset < 2 ^ 32
  | C_Lseek _ _ => True
  end.

Lemma dev_rep_env a F w w' : dev_rep a F w -> w_heap w' = w_heap w -> aesd_device w' = aesd_device w -> dev_rep a F w'.
Proof using Type. intros [Hrep Hok] Hh Hd. split; [by eapply dev_mem_env|done]. Qed.

Lemma call_code_wp filp c a F w :
  dev_rep a F w -> file_open filp w -> call_valid c ->
  wp (call_code filp c) (fun r w' => exists a', perform_call filp c r a (w_umem w) (w_files w) a' (w_umem w') (w_files w') /\
    dev_rep a' F w') w.
Proof using KL.
  intros Hrep Hopen Hv. pose proof Hopen as [pos Hf]. destruct c as [off whence|buf count fpos|buf count fpos|cmd offset]; simpl call_code; wp_steps.
  - eapply llseek_wp; [done..|]. intros r pos' Hl. wp_steps. exists a. split; [by econstructor|by eapply dev_rep_env].
  - destruct Hv as [Hc Hp]. eapply read_wp; [done..| |].
    + intros Hu. wp_steps. exists a. split; [by apply perform_read|by eapply dev_rep_env].
    + intros Hu. wp_steps. exists a. split; [by apply perform_read_fault|by eapply dev_rep_env].
  - simpl in Hv. pose proof (zlen_nonneg (pending a)). eapply wp_mono; [apply write_wp; [done|done|lia|lia]|].
    intros [r pos'] w' (Hpos & (Hu & Hfs & _) & Hcases). wp_steps. simpl in *. subst pos'. rewrite Hu, Hfs.
    destruct Hcases as [(-> & Hk & Hr)|[(-> & Hn & Hr)|(-> & bs & Hbs & Hr)]].
    + exists a. split; [apply perform_write_memory; by eexists|done].
    + exists a. split; [by apply perform_write_fault|done].
    + exists (d_write a bs). split; [by apply perform_write|done].
  - destruct Hv as [H1 H2]. eapply (adjust_file_offset_wp a F); [done..| |]; [intros pos' Hs|intros Hs]; wp_steps; exists a.
    + split; [by apply perform_adjust|by eapply dev_rep_env].
    + split; [by apply perform_adjust_invalid|done].
Qed.

(** So does its section inside the mutex, whatever happens to the flag of the mutex around it. *)
Lemma call_body_wp filp c a F w :
  dev_rep a F (with_lock false w) -> lock (aesd_device w) = true -> file_open filp w -> call_valid c ->
  wp (call_body filp c) (fun r w' => exists a', perform_call filp c r a (w_umem w) (w_files w) a' (w_umem w') (w_files w') /\
    dev_rep a' F (with_lock false w') /\ lock (aesd_device w') = true) w.
Proof using KL Hmx.
  intros Hrep Hl Hopen Hv. pose proof (call_code_wp filp c a F (with_lock false w) Hrep Hopen Hv) as Hwp.
  unfold wp in Hwp. rewrite call_sections in Hwp. destruct Hopen as [pos Hf].
  unfold get_aesd_dev_ptr, get_file, do_mutex, bind, mget, mput, mopt, ret in Hwp. simpl in Hwp. rewrite Hf in Hwp. simpl in Hwp.
  rewrite mutex_lock_free in Hwp. change (with_lock true (with_lock false w)) with (with_lock true w) in Hwp.
  assert (with_lock true w = w) as E by (destruct w as [? ? ? ? ? []]; simpl in Hl; by rewrite Hl). rewrite E in Hwp.
  unfold wp. destruct (call_body filp c w) as [[r w1]|]; [|done]. simpl in Hwp.
  destruct (lock (aesd_device w1)) eqn:Hl1; [rewrite mutex_unlock_held in Hwp|by rewrite (unlock_free Hmx) in Hwp].
  destruct Hwp as (a' & Hp & Hrep'). by exists a'.
Qed.

(** ** The invariant *)

Definition stage_valid (st : stage) : Prop := match st with Waiting c | Locked c => call_valid c | _ => True end.

Record conc_inv (F : heap) (a : dstate) (s : conc) : Prop := {
  ci_rep : dev_rep a F (with_lock false (cn_world s));
  ci_files : files_open (cn_world s);
  ci_call n filp st : cn_calls s !! n = Some (filp, st) -> filp ∈ dom (w_files (cn_world s)) /\ stage_valid st;
  ci_lock : lock (aesd_device (cn_world s)) = true <->
    exists n filp st, cn_calls s !! n = Some (filp, st) /\ inside st = true;
  ci_excl n filp st n' filp' st' :
    cn_calls s !! n = Some (filp, st) -> cn_calls s !! n' = Some (filp', st') ->
    inside st = true -> inside st' = true -> n = n';
}.

(** Entering changes nothing; the argument of the seek ioctl is read. *)
Lemma enter_wp filp op w : files_open w -> filp ∈ dom (w_files w) -> op_valid op ->
  wp (enter filp op) (fun st w' => w' = w /\ seen st = accepted (w_umem w) op /\ inside st = false /\ stage_valid st) w.
Proof using KL.
  clear Hmx. intros Ho Hd Hv. pose proof (files_open_open w filp Ho Hd) as Hopen.
  destruct op as [| |off whence|buf count pos|buf count pos|cmd arg]; simpl enter; wp_steps.
  - destruct Hopen as [pos Hf]. eapply open_wp; [done|]. wp_steps. split_and!; try done.
    unfold with_f_pos. simpl. rewrite insert_id by done. by destruct w.
  - unfold aesd_release. by wp_steps.
  - apply get_aesd_dev_ptr_wp; [done|]. by wp_steps.
  - apply get_aesd_dev_ptr_wp; [done|]. by wp_steps.
  - apply get_aesd_dev_ptr_wp; [done|]. by wp_steps.
  - simpl accepted. destruct (cmd =? AESDCHAR_IOCSEEKTO); wp_steps; [|done]. unfold sizeof_aesd_seekto.
    destruct (user_bytes (w_umem w) arg 8) as [bs|] eqn:E.
    + rewrite (copy_from_user_ok _ _ 8 _ ltac:(lia) E). cbn [negb Z.eqb]. wp_steps. apply get_aesd_dev_ptr_wp; [done|]. wp_steps.
      split_and!; try done; split; apply (le_decode_range _ 4); rewrite length_take; lia.
    + pose proof (copy_from_user_bad _ _ 8 ltac:(lia) E) as Hb. destruct (copy_from_user _ _ _) as [r bs]. simpl in Hb.
      rewrite (proj2 (Z.eqb_neq r 0)) by lia. simpl. by wp_steps.
Qed.

Lemma perform_files filp c r a u w a' u' fs' : files_open w -> filp ∈ dom (w_files w) ->
  perform_call filp c r a u (w_files w) a' u' fs' ->
  (forall filp' f, fs' !! filp' = Some f -> private_data f = AesdDevice) /\ dom fs' = dom (w_files w).
Proof using Type.
  clear Hmx KL. intros Ho Hd Hp. inversion Hp; subst; try (by split); (split; [|rewrite dom_insert_L; set_solver]).
  - intros filp' f. rewrite lookup_insert. case_decide; [by intros [= <-]|apply Ho].
  - intros filp' f. rewrite lookup_insert. case_decide; [by intros [= <-]|apply Ho].
Qed.

(** A step of a call inside or at the door of the mutex. *)
Lemma stage_step_wp F a w n filp st calls :
  conc_inv F a (Conc w calls) -> calls !! n = Some (filp, st) ->
  wsp (fun _ => (exists c, st = Waiting c) /\ lock (aesd_device w) = true \/ exists r, st = Returned r) (stage_step filp st)
    (fun st' w' => stage_valid st' /\ files_open w' /\ dom (w_files w') = dom (w_files w) /\
       match st with
       | Waiting _ => lock (aesd_device w) = false /\ lock (aesd_device w') = true /\ inside st' = true
       | Locked _ => lock (aesd_device w') = true /\ inside st' = true
       | _ => lock (aesd_device w') = false /\ inside st' = false
       end /\
       exists a', dev_rep a' F (with_lock false w') /\
         match st with
         | Finished r => a' = a /\ st' = Returned r /\ w_umem w' = w_umem w /\ w_files w' = w_files w
         | Locked c => exists r, st' = Finished r /\ perform_call filp c r a (w_umem w) (w_files w) a' (w_umem w') (w_files w')
         | _ => a' = a /\ seen st' = seen st /\ stage_events n st' = [] /\ w_umem w' = w_umem w /\ w_files w' = w_files w
         end) w.
Proof using KL Hmx.
  intros [Hrep Ho Hcall Hlock Hexcl] Hn. simpl in *. destruct (Hcall _ _ _ Hn) as [Hd Hv].
  destruct st as [c|c|r|r]; simpl stage_step.
  - unfold do_mutex. wsp_steps. destruct (lock (aesd_device w)) eqn:El.
    + rewrite (lock_held Hmx). apply wsp_fault. left. by split; [exists c|].
    + rewrite mutex_lock_free. eapply wsp_opt; [reflexivity|]. wsp_steps. split_and!; try done. exists a. by split_and!.
  - apply wsp_wp. wp_steps. assert (lock (aesd_device w) = true) as El by (apply Hlock; by exists n, filp, (Locked c)).
    eapply wp_mono; [apply (call_body_wp filp c a F w Hrep El (files_open_open w filp Ho Hd) Hv)|].
    intros r w' (a' & Hp & Hrep' & Hl'). wp_steps. destruct (perform_files _ _ _ _ _ _ _ _ _ Ho Hd Hp) as [Ho' Hd'].
    split_and!; try done. exists a'. split; [done|]. by exists r.
  - unfold do_mutex. wsp_steps. assert (lock (aesd_device w) = true) as -> by (apply Hlock; by exists n, filp, (Finished r)).
    rewrite mutex_unlock_held. eapply wsp_opt; [reflexivity|]. wsp_steps. split_and!; try done. exists a. by split_and!.
  - apply wsp_fault. right. by exists r.
Qed.

Definition view (a : dstate) (s : conc) : spec :=
  Spec a (w_umem (cn_world s)) (w_files (cn_world s)) (prod_map id seen <$> cn_calls s).

(** The calls after the step of [n]; the others are as they were. *)
Lemma conc_inv_insert F a a' w w' n filp st st' calls :
  conc_inv F a (Conc w calls) -> (forall filp0 st0, calls !! n = Some (filp0, st0) -> filp0 = filp /\ st0 = st \/ inside st = false /\ inside st0 = false) ->
  filp ∈ dom (w_files w) -> stage_valid st' -> files_open w' -> dom (w_files w') = dom (w_files w) -> dev_rep a' F (with_lock false w') ->
  (calls !! n = Some (filp, st) \/ inside st = false) ->
  match inside st, inside st' with
  | true, b => lock (aesd_device w') = b
  | false, true => lock (aesd_device w) = false /\ lock (aesd_device w') = true
  | false, false => lock (aesd_device w') = lock (aesd_device w)
  end ->
  conc_inv F a' (Conc w' (<[n := (filp, st')]> calls)).
Proof using Type.
  clear Hmx KL. intros [Hrep Ho Hcall Hlock Hexcl] Hn Hd Hv Ho' Hd' Hrep' Hst Hl. simpl in *.
  assert (forall n' filp' st0, n' <> n -> calls !! n' = Some (filp', st0) -> inside st0 = true ->
    inside st = false /\ inside st' = false) as Hother.
  { intros n' filp' st0 Hne Hn' Hin. destruct (inside st) eqn:E.
    - destruct Hst as [Hst|]; [|done]. by destruct Hne, (Hexcl _ _ _ _ _ _ Hn' Hst Hin E).
    - split; [done|]. destruct (inside st'); [|done]. destruct Hl as [Hl _].
      assert (lock (aesd_device w) = true) by (apply Hlock; by exists n', filp', st0). congruence. }
  split; simpl; [done|done| | |].
  - intros n' filp' st0. rewrite lookup_insert, Hd'. case_decide; [by intros [= <- <-]|apply Hcall].
  - split.
    + intros Hl'. destruct (inside st') eqn:E; [by exists n, filp, st'; rewrite lookup_insert_eq|].
      destruct (inside st) eqn:E2; [congruence|]. rewrite Hl in Hl'. apply Hlock in Hl' as (n' & filp' & st0 & Hn' & Hin).
      exists n', filp', st0. split; [|done]. rewrite lookup_insert_ne; [done|]. intros <-.
      destruct (Hn _ _ Hn') as [[_ ->]|[_ ?]]; congruence.
    + intros (n' & filp' & st0 & Hn' & Hin). rewrite lookup_insert in Hn'. case_decide as E.
      * injection Hn' as <- <-. rewrite Hin in Hl. by destruct (inside st); [|apply Hl].
      * destruct (Hother n' filp' st0 ltac:(done) Hn' Hin) as [E1 E2]. rewrite E1, E2 in Hl. rewrite Hl. apply Hlock. by exists n', filp', st0.
  - intros n1 f1 st1 n2 f2 st2. rewrite !lookup_insert. case_decide as E1; case_decide as E2; try (by intros; congruence).
    + intros [= <- <-] H2 Hi1 Hi2. destruct (Hother n2 f2 st2 ltac:(done) H2 Hi2). congruence.
    + intros H1 [= <- <-] Hi1 Hi2. destruct (Hother n1 f1 st1 ltac:(done) H1 Hi1). congruence.
    + intros H1 H2. by apply (Hexcl _ _ _ _ _ _ H1 H2).
Qed.

(** Every step is a step of the specification with the same events, or none. *)
Lemma conc_simulates F a s es s' : conc_inv F a s -> conc_step s es s' ->
  exists a', conc_inv F a' s' /\ (es = [] /\ view a' s' = view a s \/ spec_step (view a s) es (view a' s')).
Proof using KL Hmx.
  intros Hi Hs. destruct Hs as [n filp op w calls st w' Hidle Hd Hv Hrun|n filp st w calls st' w' Hn Hrun|u w calls].
  - destruct (wp_run _ _ _ _ _ Hrun (enter_wp filp op w (ci_files _ _ _ Hi) Hd Hv)) as (-> & Hseen & Hin & Hsv).
    exists a. split.
    + eapply (conc_inv_insert F a a w w n filp st); try done; try apply Hi; [|by right|by rewrite Hin].
      intros filp0 st0 Hn. destruct (Hidle _ _ Hn) as [r ->]. by right.
    + right. unfold view. simpl. rewrite fmap_insert. simpl. rewrite Hseen.
      assert (stage_events n st = told n (accepted (w_umem w) op)) as -> by (rewrite <- Hseen; by destruct st). apply spec_call.
      intros f sp. rewrite lookup_fmap. destruct (calls !! n) as [[f0 st0]|] eqn:E; [|done]. simpl. intros [= <- <-].
      destruct (Hidle _ _ E) as [r ->]. by exists r.
  - destruct (wsp_run _ _ _ _ _ Hrun (stage_step_wp _ _ _ _ _ _ _ Hi Hn)) as (Hsv & Ho' & Hd' & Hl & a' & Hrep' & Hsp).
    exists a'. split.
    + eapply (conc_inv_insert F a a' w w' n filp st); try done; [|apply (ci_call _ _ _ Hi n filp st Hn)|by left|].
      * intros filp0 st0 Hn0. rewrite Hn in Hn0. injection Hn0 as <- <-. by left.
      * destruct st; simpl; [destruct Hl as (? & ? & ->)|destruct Hl as (? & ->)|destruct Hl as (? & ->)|destruct Hl]; try done.
    + unfold view. simpl. rewrite fmap_insert. simpl. destruct st as [c|c|r|r].
      * left. destruct Hsp as (-> & Es & Ev & -> & ->). split; [done|]. rewrite Es, insert_id; [done|]. by rewrite lookup_fmap, Hn.
      * right. destruct Hsp as (r & -> & Hp). eapply spec_perform; [|exact Hp]. by rewrite lookup_fmap, Hn.
      * right. destruct Hsp as (-> & -> & -> & ->). apply spec_return. by rewrite lookup_fmap, Hn.
      * done.
  - exists a. split; [|right; apply spec_user]. destruct Hi as [Hrep Ho Hc Hl He]. split; simpl in *; try done.
    by eapply dev_rep_env.
Qed.

(** While a call is not finished, some call can go on. *)
Lemma conc_progress F a w calls n filp st : conc_inv F a (Conc w calls) -> calls !! n = Some (filp, st) ->
  (forall r, st <> Returned r) ->
  exists n' filp' st' st'' w', calls !! n' = Some (filp', st') /\ stage_step filp' st' w = Done (st'', w').
Proof using KL Hmx.
  intros Hi Hn Hst.
  assert (exists n' filp' st', calls !! n' = Some (filp', st') /\
    ~ ((exists c, st' = Waiting c) /\ lock (aesd_device w) = true \/ exists r, st' = Returned r)) as (n' & filp' & st' & Hn' & Hgo).
  { destruct (lock (aesd_device w)) eqn:El.
    - apply (ci_lock _ _ _ Hi) in El as (n' & filp' & st' & Hn' & Hin). exists n', filp', st'. split; [done|].
      intros [[[c ->] _]|[r ->]]; done.
    - exists n, filp, st. split; [done|]. intros [[_ ?]|[r ->]]; [done|by eapply Hst]. }
  exists n', filp', st'. pose proof (stage_step_wp _ _ _ _ _ _ _ Hi Hn') as Hwp. unfold wsp in Hwp.
  destruct (stage_step filp' st' w) as [[st'' w']|f]; [by exists st'', w'|]. by destruct (Hgo Hwp).
Qed.
End concurrent.

(** C4: the driver is linearizable and does not deadlock. Every file operation is its part before the mutex
    and the steps of its call, one after the other. From a represented device, let
    processes call its operations at the same time, on any of the open files, while they also store to their
    memory; the events [tr] of the run are the calls, each carrying out of a call (at its step inside the mutex), the
    results that are returned, and what is stored. Then a device that performs each call in one step makes
    exactly these events: it performs each call after it was made, by its specification from the state, the
    user memory and the file position of that moment, with the result that is then returned ([-ENOMEM] only where [kmalloc] can fail); and it ends with
    the same user memory, file positions and calls, in the state that the driver's memory represents. The mutex is locked
    exactly while a call is inside, and at most one is. No call goes wrong: only [mutex_lock] waits, while the mutex is
    locked, and while a call is not finished some call can go on. *)
Theorem driver_linearizable (K : Kernel) (KL : KernelLaws K) a0 F w0 tr s :
  mutex_strict -> dev_rep a0 F w0 -> files_open w0 -> run conc_step (Conc w0 ∅) tr s ->
  (forall filp op w, run_op filp op w = (let! st := enter filp op in rest filp st) w) /\
  (forall filp c w, call_code filp c w =
     (get_aesd_dev_ptr filp;; do_mutex mutex_lock;; let! r := call_body filp c in do_mutex mutex_unlock;; ret r) w) /\
  exists a, run spec_step (Spec a0 (w_umem w0) (w_files w0) ∅) tr (view a s) /\
    dev_rep a F (with_lock false (cn_world s)) /\
    (lock (aesd_device (cn_world s)) = true <-> exists n filp st, cn_calls s !! n = Some (filp, st) /\ inside st = true) /\
    (forall n filp st n' filp' st', cn_calls s !! n = Some (filp, st) -> cn_calls s !! n' = Some (filp', st') ->
       inside st = true -> inside st' = true -> n = n') /\
    (forall n filp st f, cn_calls s !! n = Some (filp, st) -> stage_step filp st (cn_world s) = Fault f ->
       (exists c, st = Waiting c) /\ lock (aesd_device (cn_world s)) = true \/ exists r, st = Returned r) /\
    (forall n filp st, cn_calls s !! n = Some (filp, st) -> (forall r, st <> Returned r) ->
       exists n' filp' st' st'' w', cn_calls s !! n' = Some (filp', st') /\ stage_step filp' st' (cn_world s) = Done (st'', w')).
Proof.
  intros Hmx Hrep Ho Hr. split; [exact op_sections|]. split; [exact call_sections|].
  assert (exists a, conc_inv F a s /\ run spec_step (Spec a0 (w_umem w0) (w_files w0) ∅) tr (view a s)) as (a & Hi & Hsp).
  { induction Hr as [|tr s es s' _ (a & Hi & Hsp) Hs].
    - exists a0. split; [split; try done|]; simpl.
      + rewrite with_lock_id; [done|]. apply (rep_lock _ _ _ _ _ (proj1 Hrep)).
      + rewrite (rep_lock _ _ _ _ _ (proj1 Hrep)). split; [done|]. by intros (? & ? & ? & ? & _).
      + unfold view. simpl. rewrite fmap_empty. apply run_nil.
    - destruct (conc_simulates Hmx _ _ _ _ _ Hi Hs) as (a' & Hi' & [[-> E]|Hst]); exists a'.
      + by rewrite E, app_nil_r.
      + split; [done|]. by eapply run_snoc. }
  destruct s as [w calls]. exists a. split; [done|]. split; [apply Hi|]. split; [apply Hi|]. split; [apply Hi|]. split.
  - intros n filp st f Hn Hf. exact (wsp_no_fault _ _ _ _ Hf (stage_step_wp Hmx _ _ _ _ _ _ _ Hi Hn)).
  - intros n filp st Hn Hst. by eapply (conc_progress Hmx).
Qed.

(** ** Witness: a reader calls while a writer is inside, and reads what the writer has written *)

Inductive conc_move := Call (n : Z) (filp : positive) (op : file_op) | Go (n : Z).
Definition conc_do `{K : Kernel} (m : conc_move) (s : conc) : option (list driver_event * conc) :=
  match m with
  | Call n filp op =>
      if match cn_calls s !! n with Some (_, Returned _) | None => true | _ => false end &&
         bool_decide (filp ∈ dom (w_files (cn_world s)))
      then match enter filp op (cn_world s) with
           | Done (st, w) => Some (DE_Call n filp op :: stage_events n st, Conc w (<[n := (filp, st)]> (cn_calls s)))
           | Fault _ => None
           end
      else None
  | Go n =>
      match cn_calls s !! n with
      | Some (filp, st) =>
          match stage_step filp st (cn_world s) with
          | Done (st', w) => Some (stage_events n st', Conc w (<[n := (filp, st')]> (cn_calls s)))
          | Fault _ => None
          end
      | None => None
      end
  end.
Fixpoint conc_run `{K : Kernel} (ms : list conc_move) (s : conc) : option (list driver_event * conc) :=
  match ms with
  | [] => Some ([], s)
  | m :: ms =>
      match conc_do m s with
      | Some (es, s') => match conc_run ms s' with Some (tr, s'') => Some (es ++ tr, s'') | None => None end
      | None => None
      end
  end.

Lemma conc_do_ok `{K : Kernel} m s es s' :
  match m with Call _ _ op => op_valid op | _ => True end -> conc_do m s = Some (es, s') -> conc_step s es s'.
Proof.
  destruct s as [w calls], m as [n filp op|n]; simpl; intros Hm E.
  - destruct (match calls !! n with Some (_, Returned _) | None => true | _ => false end) eqn:Hid; [|done]. simpl in E.
    case_bool_decide; [|done]. destruct (enter filp op w) as [[st w']|] eqn:Ee; [|done]. injection E as <- <-.
    eapply conc_call; try done. intros filp' st' Hn. rewrite Hn in Hid. destruct st'; try done. by eexists.
  - destruct (calls !! n) as [[filp st]|] eqn:Hn; [|done]. destruct (stage_step filp st w) as [[st' w']|] eqn:Es; [|done].
    injection E as <- <-. by eapply conc_stage.
Qed.
Lemma conc_run_ok `{K : Kernel} s0 ms : Forall (fun m => match m with Call _ _ op => op_valid op | _ => True end) ms ->
  forall tr0 s tr s', run conc_step s0 tr0 s -> conc_run ms s = Some (tr, s') -> run conc_step s0 (tr0 ++ tr) s'.
Proof.
  intros HF. induction HF as [|m ms Hm HF IH]; intros tr0 s tr s' Hr; simpl; [intros [= <- <-]; by rewrite app_nil_r|].
  destruct (conc_do m s) as [[es s1]|] eqn:E; [|done]. destruct (conc_run ms s1) as [[tr1 s2]|] eqn:E2; [|done]. intros [= <- <-].
  rewrite app_assoc. eapply IH; [|exact E2]. eapply run_snoc; [exact Hr|by apply (conc_do_ok m)].
Qed.

Definition reader_waits : list conc_move :=
  [Call 1 1 (OpWrite sample_buf 5 0); Call 2 1 (OpRead sample_buf 100 0); Go 1; Go 1].
Definition reader_state : list driver_event * conc := default ([], Conc sample_world ∅) (conc_run reader_waits (Conc sample_world ∅)).

Lemma driver_linearizable_witness : exists a,
  reader_state.1 = [DE_Call 1 1 (OpWrite sample_buf 5 0); DE_Call 2 1 (OpRead sample_buf 100 0); DE_Perform 1 (5, Some 0)] /\
  run spec_step (Spec sample_state (w_umem sample_world) (w_files sample_world) ∅) reader_state.1 (view a reader_state.2) /\
  dev_rep a ∅ (with_lock false (cn_world reader_state.2)) /\ lock (aesd_device (cn_world reader_state.2)) = true /\
  cn_calls reader_state.2 !! 2 = Some (1%positive, Waiting (C_Read sample_buf 100 0)) /\
  exists n' filp' st' st'' w', cn_calls reader_state.2 !! n' = Some (filp', st') /\
    stage_step filp' st' (cn_world reader_state.2) = Done (st'', w').
Proof.
  assert (run conc_step (Conc sample_world ∅) reader_state.1 reader_state.2) as Hr.
  { apply (conc_run_ok (Conc sample_world ∅) reader_waits ltac:(repeat constructor; vm_compute; congruence) [] _ _ _ (run_nil _ _)).
    vm_compute. reflexivity. }
  destruct (driver_linearizable sample_kernel sample_kernel_laws sample_state ∅ sample_world reader_state.1 reader_state.2) as (_ & _ & a & H1 & H2 & _ & _ & _ & H6).
  - split; reflexivity.
  - exact sample_rep.
  - exact sample_files_open.
  - exact Hr.
  - exists a. split; [vm_compute; reflexivity|]. split; [exact H1|]. split; [exact H2|]. split; [vm_compute; reflexivity|].
    split; [vm_compute; reflexivity|].
    apply (H6 2 1%positive (Waiting (C_Read sample_buf 100 0))); [vm_compute; reflexivity|done].
Defined.
