(* ===== verification/Libc.v ===== *)
(** What the socket server uses of the C library: allocation, strings, scanning.

    [malloc] may fail and may return any fresh address; [Libc] holds those choices.
    Strings are read from the heap up to their NUL. [scan_u_u] is
    [sscanf(s, "%u,%u", &a, &b)]: white space and a sign are accepted before a
    number, the value is that of [strtoul] stored in 32 bits. *)

From S2P Require Import Prelude CMonad KHeap.
Local Open Scope Z_scope.

(** [malloc h n]: the address for an object of [n] bytes beside those of [h], or NULL;
    [uninit l n]: what such an object holds before it is written. *)
Class Libc := {
  malloc {A} (h : gmap loc A) (n : Z) : option loc;
  uninit (l : loc) (n : Z) : bytes;
}.

Class LibcLaws (L : Libc) : Prop := {
  malloc_fresh {A} (h : gmap loc A) n l : malloc h n = Some l -> h !! l = None;
  uninit_length l n : 0 <= n -> zlen (uninit l n) = n;
}.

(** Memory is not exhausted. *)
Definition malloc_succeeds (L : Libc) : Prop :=
  forall A (h : gmap loc A) n, 0 <= n < 2 ^ 31 -> is_Some (malloc h n).

(** *** Strings *)

(** The characters before the first NUL. *)
Fixpoint cstr (bs : bytes) : bytes :=
  match bs with
  | [] => []
  | c :: bs => if bool_decide (c = NUL) then [] else c :: cstr bs
  end.

(** The string at [p]; an object without a NUL is read past its end. *)
Definition read_cstr (h : heap) (p : ptr) : outcome bytes :=
  match p with
  | PLoc l =>
      match h !! l with
      | Some bs => if bool_decide (NUL ∈ bs) then Done (cstr bs) else Fault BadAccess
      | None => Fault BadAccess
      end
  | _ => Fault BadAccess
  end.

(** [strncmp(s, t, n) == 0], for strings without their NUL. *)
Fixpoint strncmp_eq (s t : bytes) (n : nat) {struct n} : bool :=
  match n with
  | O => true
  | S n => match s, t with
           | [], [] => true
           | a :: s, b :: t => bool_decide (a = b) && strncmp_eq s t n
           | _, _ => false
           end
  end.

(** *** Scanning *)

Definition isspace (c : char) : bool :=
  (char_code c =? 32) || ((9 <=? char_code c) && (char_code c <=? 13)).
Definition isdigit (c : char) : bool := (48 <=? char_code c) && (char_code c <=? 57).

Fixpoint skip_space (bs : bytes) : bytes :=
  match bs with
  | c :: bs' => if isspace c then skip_space bs' else bs
  | [] => []
  end.

(** The value of the longest run of digits, continuing from [acc], and what follows. *)
Fixpoint scan_digits (acc : Z) (bs : bytes) : Z * bytes :=
  match bs with
  | c :: bs' => if isdigit c then scan_digits (10 * acc + (char_code c - 48)) bs' else (acc, bs)
  | [] => (acc, [])
  end.

Definition scan_sign (bs : bytes) : bool * bytes :=
  match bs with
  | c :: bs' => if char_code c =? 45 then (true, bs')
                else if char_code c =? 43 then (false, bs') else (false, bs)
  | [] => (false, [])
  end.

Definition ULONG_MAX : Z := 2 ^ 64 - 1.
(** [strtoul] saturates, then applies the sign. *)
Definition strtoul_value (neg : bool) (v : Z) : Z :=
  if ULONG_MAX <? v then ULONG_MAX else if neg then u64 (- v) else v.

(** One [%u]: the stored [unsigned int] and the rest of the input. *)
Definition scan_u (bs : bytes) : option (Z * bytes) :=
  let '(neg, bs) := scan_sign (skip_space bs) in
  match bs with
  | c :: _ => if isdigit c then
                let '(v, rest) := scan_digits 0 bs in Some (u32 (strtoul_value neg v), rest)
              else None
  | [] => None
  end.

Definition scan_comma (bs : bytes) : option bytes :=
  match bs with
  | c :: bs => if char_code c =? 44 then Some bs else None
  | [] => None
  end.

(** [sscanf(s, "%u,%u", &a, &b) == 2], with the two values. *)
Definition scan_u_u (s : bytes) : option (Z * Z) :=
  match scan_u s with
  | Some (a, s) =>
      match scan_comma s with
      | Some s => match scan_u s with Some (b, _) => Some (a, b) | None => None end
      | None => None
      end
  | None => None
  end.

(** *** Decimal notation *)

Definition digit (d : Z) : char := ascii_of_N (Z.to_N (48 + d)).

Fixpoint print_digits (fuel : nat) (n : Z) : bytes :=
  match fuel with
  | O => []
  | S fuel => (if n <? 10 then [] else print_digits fuel (n / 10)) ++ [digit (n mod 10)]
  end.
(** [printf("%u", n)]: an [unsigned int] has at most ten digits. *)
Definition print_u (n : Z) : bytes := print_digits 10 n.

(** ** Lemmas *)

Lemma cstr_no_nul bs : NUL ∉ cstr bs.
Proof.
  induction bs as [|c bs IH]; simpl; [by apply not_elem_of_nil|].
  case_bool_decide; [by apply not_elem_of_nil|]. apply not_elem_of_cons. split; congruence || done.
Qed.

Lemma cstr_id bs : NUL ∉ bs -> cstr bs = bs.
Proof.
  induction bs as [|c bs IH]; simpl; [done|]. intros [? ?]%not_elem_of_cons.
  rewrite bool_decide_false by congruence. by rewrite IH.
Qed.

Lemma cstr_app_nul a b : cstr (a ++ NUL :: b) = cstr a.
Proof.
  induction a as [|c a IH]; simpl; [done|].
  case_bool_decide; [done|]. by rewrite IH.
Qed.

Lemma cstr_prefix bs : exists rest, bs = cstr bs ++ rest.
Proof.
  induction bs as [|c bs [rest IH]]; simpl; [by exists []|].
  case_bool_decide; [by eexists|]. exists rest. simpl. by f_equal.
Qed.

Lemma strncmp_prefix s t :
  strncmp_eq s t (length t) = true <-> exists r, s = t ++ r.
Proof.
  revert s. induction t as [|b t IH]; intros s; simpl; [by split; [exists s|]|].
  destruct s as [|a s].
  - split; [done|]. by intros [r ?].
  - rewrite andb_true_iff, bool_decide_eq_true, IH. split.
    + intros (-> & r & ->). by exists r.
    + intros (r & E). injection E as -> ->. split; [done|]. by exists r.
Qed.

Lemma char_code_digit d : 0 <= d <= 9 -> char_code (digit d) = 48 + d.
Proof.
  intros. unfold digit, char_code. rewrite N_ascii_embedding by lia. lia.
Qed.

Lemma isdigit_digit d : 0 <= d <= 9 -> isdigit (digit d) = true.
Proof.
  intros. unfold isdigit. rewrite char_code_digit by done.
  by rewrite (proj2 (Z.leb_le 48 _)), (proj2 (Z.leb_le _ 57)) by lia.
Qed.

Lemma scan_digits_app acc ds rest :
  forallb isdigit ds = true -> scan_digits acc (ds ++ rest) = scan_digits (fst (scan_digits acc ds)) rest.
Proof.
  revert acc. induction ds as [|c ds IH]; intros acc; simpl; [done|].
  intros [Hc Hds]%andb_true_iff. rewrite Hc. by apply IH.
Qed.

Lemma print_digits_isdigit fuel n : 0 <= n -> forallb isdigit (print_digits fuel n) = true.
Proof.
  revert n. induction fuel as [|fuel IH]; intros n Hn; simpl; [done|].
  pose proof (Z.mod_pos_bound n 10). rewrite forallb_app. simpl.
  rewrite isdigit_digit by lia. rewrite andb_true_r.
  destruct (n <? 10); [done|]. apply IH. apply Z.div_pos; lia.
Qed.

Lemma scan_print_digits fuel n :
  0 <= n < 10 ^ Z.of_nat fuel -> scan_digits 0 (print_digits fuel n) = (n, []).
Proof.
  revert n. induction fuel as [|fuel IH]; intros n Hn; [simpl in *; f_equal; lia|].
  rewrite Nat2Z.inj_succ, Z.pow_succ_r in Hn by lia.
  pose proof (Z.mod_pos_bound n 10). pose proof (Z.div_mod n 10). simpl.
  destruct (Z.ltb_spec n 10).
  - simpl. rewrite isdigit_digit, char_code_digit by lia. simpl. f_equal. rewrite Z.mod_small; lia.
  - rewrite scan_digits_app by (apply print_digits_isdigit, Z.div_pos; lia).
    rewrite IH by (split; [apply Z.div_pos|apply Z.div_lt_upper_bound]; lia).
    simpl. rewrite isdigit_digit, char_code_digit by lia. simpl. f_equal. lia.
Qed.

Lemma print_digits_head fuel n :
  0 <= n -> exists c ds, print_digits (S fuel) n = c :: ds /\ isdigit c = true.
Proof.
  intros Hn. pose proof (print_digits_isdigit (S fuel) n Hn) as H.
  destruct (print_digits (S fuel) n) as [|c ds] eqn:E.
  - simpl in E. by apply app_nil in E as [_ ?].
  - exists c, ds. split; [done|]. simpl in H. by apply andb_true_iff in H as [? _].
Qed.

Lemma isdigit_not_space c : isdigit c = true -> isspace c = false /\ scan_sign [c] = (false, [c]).
Proof.
  unfold isdigit, isspace. simpl. rewrite andb_true_iff, !Z.leb_le. intros [? ?].
  rewrite (proj2 (Z.eqb_neq _ 32)), (proj2 (Z.leb_gt _ 13)), andb_false_r by lia.
  by rewrite (proj2 (Z.eqb_neq _ 45)), (proj2 (Z.eqb_neq _ 43)) by lia.
Qed.

(** A printed number is read back, whatever follows it but a digit. *)
Lemma scan_u_print n rest :
  0 <= n < 2 ^ 32 -> forallb (fun c => negb (isdigit c)) (take 1 rest) = true ->
  scan_u (print_u n ++ rest) = Some (n, rest).
Proof.
  intros Hn Hrest. unfold scan_u, print_u.
  destruct (print_digits_head 9 n) as (c & ds & E & Hc); [lia|].
  pose proof (scan_print_digits 10 n ltac:(lia)) as Hs.
  pose proof (print_digits_isdigit 10 n ltac:(lia)) as Hd.
  destruct (isdigit_not_space c Hc) as [Hsp Hsg].
  assert (forall l, scan_digits 0 ((c :: ds) ++ l) = scan_digits n l) as Hall.
  { intros l. rewrite <- E, scan_digits_app by done. by rewrite Hs. }
  rewrite E. cbn [app skip_space]. rewrite Hsp.
  assert (scan_sign (c :: ds ++ rest) = (false, c :: ds ++ rest)) as ->.
  { simpl in *. destruct (_ =? 45); [done|]. by destruct (_ =? 43). }
  rewrite Hc. change (c :: ds ++ rest) with ((c :: ds) ++ rest). rewrite Hall.
  assert (scan_digits n rest = (n, rest)) as ->.
  { destruct rest as [|r rest]; [done|]. simpl in *. by destruct (isdigit r). }
  unfold strtoul_value, ULONG_MAX. rewrite (proj2 (Z.ltb_ge _ _)) by lia.
  by rewrite u32_small by lia.
Qed.

(** ** A concrete C library *)

Definition sample_uninit (n : Z) : bytes := replicate (Z.to_nat n) "X"%char.

(** Memory up to 2 GiB an object, at the next free address. *)
#[export] Instance sample_libc : Libc := {|
  malloc A h n := if n <? 2 ^ 31 then Some (Pos.succ (max_loc h)) else None;
  uninit l n := sample_uninit n;
|}.

#[export] Instance sample_libc_laws : LibcLaws sample_libc.
Proof.
  split; simpl.
  - intros A h n l. case_match; [|done]. intros [= <-]. apply max_loc_fresh.
  - intros l n Hn. unfold sample_uninit, zlen. rewrite length_replicate. lia.
Qed.

Lemma sample_malloc_succeeds : malloc_succeeds sample_libc.
Proof. intros A h n Hn. simpl. rewrite (proj2 (Z.ltb_lt _ _)) by lia. by eexists. Qed.
