(* ===== verification/FileDev.v ===== *)
(** The file the server writes to, as an interface.

    [FileDev] has the operations the server performs on [/dev/aesdchar]: [open],
    [write], [read], the seek ioctl and [close] of a descriptor. [FileDevLaws] states
    them over the device specification of [DeviceSpec]; the server's theorems are
    proved against it, and [DriverDevice] shows that the driver's own functions
    provide it. [Stdio] is how a C library cuts the text of [fprintf] into [write] calls. *)

From S2P Require Import Prelude DeviceSpec.
Local Open Scope Z_scope.

Class FileDev := {
  dev : Type;
  (** [fopen(name, "r+")]: a descriptor, or NULL. *)
  dev_fopen : dev -> option (Z * dev);
  (** [write(fd, bs)]: the count, or a negative error. *)
  dev_write : Z -> bytes -> dev -> Z * dev;
  (** [read(fd, buf, n)]: the count and the bytes stored, or a negative error. *)
  dev_read : Z -> Z -> dev -> Z * bytes * dev;
  (** [ioctl(fd, AESDCHAR_IOCSEEKTO, arg)]. *)
  dev_seekto : Z -> aesd_seekto -> dev -> Z * dev;
  dev_close : Z -> dev -> dev;
}.

(** [dev_is d a ps]: the device is in state [a] and the descriptors of [ps] are open on
    it, at those positions. [dev_max] bounds the length of a command. *)
Class FileDevLaws (FD : FileDev) := {
  dev_is : dev -> dstate -> gmap Z Z -> Prop;
  dev_max : Z;
  dev_max_small : 0 <= dev_max <= 2 ^ 30;
  dev_is_ok d a ps : dev_is d a ps -> dstate_ok dev_max a;
  dev_fopen_spec d a ps fd d' : dev_is d a ps -> dev_fopen d = Some (fd, d') ->
    ps !! fd = None /\ dev_is d' a (<[fd := 0]> ps);
  (** A write is refused, or becomes part of the device as [d_write] says. *)
  dev_write_spec d a ps fd bs : dev_is d a ps -> is_Some (ps !! fd) -> bs <> [] ->
    (fst (dev_write fd bs d) < 0 /\ dev_is (snd (dev_write fd bs d)) a ps) \/
    (fst (dev_write fd bs d) = zlen bs /\ dev_is (snd (dev_write fd bs d)) (d_write a bs) ps);
  dev_read_spec d a ps fd pos n : dev_is d a ps -> ps !! fd = Some pos -> 0 <= pos -> 0 <= n <= 2 ^ 16 ->
    exists d', dev_read fd n d = (zlen (d_read a pos n), d_read a pos n, d') /\
      dev_is d' a (<[fd := pos + zlen (d_read a pos n)]> ps);
  dev_seekto_spec d a ps fd pos arg : dev_is d a ps -> ps !! fd = Some pos ->
    0 <= write_cmd arg < 2 ^ 32 -> 0 <= write_cmd_offset arg < 2 ^ 32 ->
    match d_seek a (write_cmd arg) (write_cmd_offset arg) with
    | Some pos' => fst (dev_seekto fd arg d) = 0 /\ dev_is (snd (dev_seekto fd arg d)) a (<[fd := pos']> ps)
    | None => fst (dev_seekto fd arg d) < 0 /\ dev_is (snd (dev_seekto fd arg d)) a ps
    end;
  dev_close_spec d a ps fd : dev_is d a ps -> dev_is (dev_close fd d) a (delete fd ps);
}.

(** The device opens, and has the memory for every command of at most [dev_max] bytes. *)
Record dev_reliable (FD : FileDev) (L : FileDevLaws FD) : Prop := {
  reliable_fopen d a ps : dev_is d a ps -> is_Some (dev_fopen d);
  reliable_write d a ps fd bs : dev_is d a ps -> is_Some (ps !! fd) -> bs <> [] ->
    zlen (pending a ++ bs) <= dev_max -> 0 <= fst (dev_write fd bs d);
}.

(** What the threads' memory safety and mutual exclusion need of a file, less than [FileDevLaws]: the
    descriptors of [ps] are open at these positions, and an operation on one of them leaves the
    others alone. [ft_state] is whatever else the file has, and [ft_content] what can be read. *)
Class FileTable (FD : FileDev) := {
  ft_state : Type;
  ft_is : dev -> ft_state -> gmap Z Z -> Prop;
  ft_content : ft_state -> bytes;
  ft_fopen d a ps fd d' : ft_is d a ps -> dev_fopen d = Some (fd, d') -> ps !! fd = None /\ ft_is d' a (<[fd := 0]> ps);
  ft_write d a ps fd pos bs : ft_is d a ps -> ps !! fd = Some pos -> 0 <= pos -> bs <> [] ->
    exists a' pos', 0 <= pos' /\ ft_is (snd (dev_write fd bs d)) a' (<[fd := pos']> ps);
  ft_read d a ps fd pos n : ft_is d a ps -> ps !! fd = Some pos -> 0 <= pos -> 0 <= n <= 2 ^ 16 ->
    exists r bs d' pos', dev_read fd n d = (r, bs, d') /\ ft_is d' a (<[fd := pos']> ps) /\ 0 <= pos' /\
      (0 < r -> pos < pos' <= zlen (ft_content a));
  ft_seekto d a ps fd pos arg : ft_is d a ps -> ps !! fd = Some pos -> 0 <= pos ->
    0 <= write_cmd arg < 2 ^ 32 -> 0 <= write_cmd_offset arg < 2 ^ 32 ->
    exists pos', 0 <= pos' /\ ft_is (snd (dev_seekto fd arg d)) a (<[fd := pos']> ps);
  ft_close d a ps fd : ft_is d a ps -> is_Some (ps !! fd) -> ft_is (dev_close fd d) a (delete fd ps);
}.

Definition ft_size `{FT : FileTable} (a : ft_state) : Z := zlen (ft_content a).

(** The device of [FileDevLaws] is such a file. *)
#[export] Instance laws_table {FD : FileDev} {FDL : FileDevLaws FD} : FileTable FD.
Proof.
  refine (Build_FileTable FD dstate dev_is d_content dev_fopen_spec _ _ _ (fun d a ps fd Hd _ => dev_close_spec d a ps fd Hd)).
  - intros d a ps fd pos bs Hd Hf Hp Hbs.
    destruct (dev_write_spec d a ps fd bs Hd (mk_is_Some _ _ Hf) Hbs) as [[_ H]|[_ H]];
      eexists _, pos; (split; [done|]); rewrite insert_id by done; exact H.
  - intros d a ps fd pos n Hd Hf Hp Hn. destruct (dev_read_spec d a ps fd pos n Hd Hf Hp Hn) as (d' & E & Hd').
    eexists _, _, d', _. split; [exact E|]. split; [exact Hd'|]. pose proof (zlen_nonneg (d_read a pos n)).
    split; [lia|]. intros Hr. split; [lia|]. apply d_read_end; [done|]. intros Hnil. by rewrite Hnil in Hr.
  - intros d a ps fd pos arg Hd Hf Hp H1 H2. pose proof (dev_seekto_spec d a ps fd pos arg Hd Hf H1 H2) as H.
    destruct (d_seek a _ _) as [pos'|] eqn:Es; destruct H as [_ H].
    + exists pos'. split; [|exact H]. eapply d_seek_nonneg; [apply H2|exact Es].
    + exists pos. split; [done|]. by rewrite insert_id.
Defined.

(** [stdio_chunks bs] are the texts passed to [write] for a stream into which [bs] is
    printed: those written by [fprintf] itself because the buffer filled up, and those
    written by [fflush]. *)
Class Stdio := stdio_chunks : bytes -> list bytes * list bytes.

Class StdioLaws (S : Stdio) : Prop := {
  stdio_concat bs : concat (fst (stdio_chunks bs) ++ snd (stdio_chunks bs)) = bs;
  stdio_nonempty bs : Forall (fun c => c <> []) (fst (stdio_chunks bs) ++ snd (stdio_chunks bs));
}.

(** A stream with a buffer of [n] bytes: full buffers as they fill up, the rest in the end. *)
Fixpoint buffer_chunks (fuel n : nat) (bs : bytes) : list bytes * list bytes :=
  match fuel with
  | O => ([], if bool_decide (bs = []) then [] else [bs])
  | S fuel => if (n <? length bs)%nat
              then let '(full, rest) := buffer_chunks fuel n (drop n bs) in (take n bs :: full, rest)
              else ([], if bool_decide (bs = []) then [] else [bs])
  end.
#[export] Instance buffered_stdio : Stdio := fun bs => buffer_chunks (length bs) 4096 bs.

Lemma buffer_chunks_concat fuel n bs :
  concat (fst (buffer_chunks fuel n bs) ++ snd (buffer_chunks fuel n bs)) = bs.
Proof.
  revert bs. induction fuel as [|fuel IH]; intros bs; simpl.
  { case_bool_decide; [by subst|]. simpl. by rewrite app_nil_r. }
  destruct (_ <? _)%nat.
  - specialize (IH (drop n bs)). destruct (buffer_chunks fuel n (drop n bs)). simpl in *.
    by rewrite IH, take_drop.
  - simpl. case_bool_decide; [by subst|]. simpl. by rewrite app_nil_r.
Qed.

Lemma buffer_chunks_nonempty fuel n bs :
  (0 < n)%nat -> (length bs <= fuel)%nat ->
  Forall (fun c => c <> []) (fst (buffer_chunks fuel n bs) ++ snd (buffer_chunks fuel n bs)) \/ bs = [].
Proof.
  intros Hn. revert bs. induction fuel as [|fuel IH]; intros bs Hf.
  - right. destruct bs; [done|]. simpl in Hf. lia.
  - simpl. destruct (Nat.ltb_spec n (length bs)) as [Hlt|Hge].
    + left. specialize (IH (drop n bs)). rewrite length_drop in IH.
      destruct (buffer_chunks fuel n (drop n bs)) as [full rest]. simpl in *. constructor.
      * intros E. apply (f_equal length) in E. rewrite length_take in E. simpl in E. lia.
      * destruct IH as [IH|E]; [lia|done|]. apply (f_equal length) in E.
        rewrite length_drop in E. simpl in E. lia.
    + simpl. case_bool_decide; [by right|]. left. by constructor.
Qed.

#[export] Instance buffered_stdio_laws : StdioLaws buffered_stdio.
Proof.
  split; intros bs; unfold stdio_chunks, buffered_stdio.
  - apply buffer_chunks_concat.
  - destruct (buffer_chunks_nonempty (length bs) 4096 bs) as [H| ->]; [lia..|done|]. by constructor.
Qed.

(** ** The specification as a device *)

Definition spec_max : Z := 2 ^ 22.
Definition next_fd {A} (ps : gmap Z A) : Z := 1 + map_fold (fun fd _ m => Z.max fd m) 2 ps.

Definition spec_write (fd : Z) (bs : bytes) (d : dstate * gmap Z Z) : Z * (dstate * gmap Z Z) :=
  if decide (is_Some (d.2 !! fd)) then
    if zlen (pending d.1 ++ bs) <=? spec_max then (zlen bs, (d_write d.1 bs, d.2)) else (-12, d)
  else (-9, d).
Definition spec_read (fd n : Z) (d : dstate * gmap Z Z) : Z * bytes * (dstate * gmap Z Z) :=
  match d.2 !! fd with
  | Some pos => let bs := d_read d.1 pos n in (zlen bs, bs, (d.1, <[fd := pos + zlen bs]> d.2))
  | None => (-9, [], d)
  end.
Definition spec_seekto (fd : Z) (arg : aesd_seekto) (d : dstate * gmap Z Z) : Z * (dstate * gmap Z Z) :=
  match d.2 !! fd, d_seek d.1 (write_cmd arg) (write_cmd_offset arg) with
  | Some _, Some pos => (0, (d.1, <[fd := pos]> d.2))
  | _, _ => (-22, d)
  end.

#[export] Instance spec_dev : FileDev := {|
  dev := dstate * gmap Z Z;
  dev_fopen d := Some (next_fd d.2, (d.1, <[next_fd d.2 := 0]> d.2));
  dev_write := spec_write;
  dev_read := spec_read;
  dev_seekto := spec_seekto;
  dev_close fd d := (d.1, delete fd d.2);
|}.

Lemma next_fd_fresh {A} (ps : gmap Z A) : ps !! next_fd ps = None.
Proof.
  destruct (ps !! next_fd ps) as [x|] eqn:E; [|done].
  assert (forall fd, is_Some (ps !! fd) -> fd <= map_fold (fun fd _ m => Z.max fd m) 2 ps) as H.
  { intros fd. apply (map_fold_weak_ind (fun m ps => is_Some (ps !! fd) -> fd <= m)).
    - rewrite lookup_empty. by intros [].
    - intros i y m r _ IH. rewrite lookup_insert. case_decide; [subst; lia|].
      intros Hl. specialize (IH Hl). lia. }
  specialize (H (next_fd ps)). rewrite E in H. specialize (H (mk_is_Some _ _ eq_refl)).
  unfold next_fd in H. lia.
Qed.

Definition spec_is (d : dstate * gmap Z Z) (a : dstate) (ps : gmap Z Z) : Prop :=
  d = (a, ps) /\ dstate_ok spec_max a.

#[export] Instance spec_dev_laws : FileDevLaws spec_dev.
Proof.
  refine (Build_FileDevLaws spec_dev spec_is spec_max _ _ _ _ _ _ _).
  - unfold spec_max. lia.
  - by intros d a ps [_ H].
  - intros d a ps fd d' [-> H] [= <- <-]. simpl. split; [apply next_fd_fresh|done].
  - intros d a ps fd bs [-> H] Hfd Hbs. simpl. unfold spec_write. simpl. rewrite decide_True by done.
    case_match eqn:E; simpl; [right|by left]. apply Z.leb_le in E. split; [done|].
    split; [done|]. by apply d_write_ok.
  - intros d a ps fd pos n [-> H] Hfd _ _. simpl. unfold spec_read. simpl. rewrite Hfd. by eexists.
  - intros d a ps fd pos arg [-> H] Hfd _ _. simpl. unfold spec_seekto. simpl. rewrite Hfd.
    by destruct (d_seek a _ _).
  - intros d a ps fd [-> H]. simpl. done.
Defined.

Lemma spec_dev_reliable : dev_reliable spec_dev spec_dev_laws.
Proof.
  split.
  - intros d a ps _. simpl. by eexists.
  - intros d a ps fd bs [-> _] Hfd _ Hlen. simpl in *. unfold spec_write. simpl. rewrite decide_True by done.
    rewrite (proj2 (Z.leb_le _ _)) by done. simpl. apply zlen_nonneg.
Qed.
