(* ===== verification/DriverDevice.v ===== *)
(** The character driver as the server's device.

    The system calls on a file of the device, from the file position kept in the file
    and a user buffer to the driver's function and back, give an instance of
    [FileDev] whose state is the driver's [world]. [driver_dev_laws] proves that it
    behaves as the server's theorems ask, so that these hold with the driver
    underneath: [server_over_driver] states it for whole sessions. *)

From S2P Require Import Prelude CMonad KHeap CircularBuffer KernelApi DeviceSpec CharDriver DriverRep DriverRefinement Libc FileDev.
Local Open Scope Z_scope.
Local Open Scope cmonad_scope.

(** Where the user buffer of a system call is. *)
Definition USER_BUF : Z := 4096.

(** A little-endian number of [n] bytes, and the argument of the seek ioctl. *)
Fixpoint le_encode (n : nat) (x : Z) : bytes :=
  match n with
  | O => []
  | S n => ascii_of_N (Z.to_N (x mod 256)) :: le_encode n (x / 256)
  end.
Definition encode_seekto (arg : aesd_seekto) : bytes :=
  le_encode 4 (write_cmd arg) ++ le_encode 4 (write_cmd_offset arg).

Section device.
Context {K : Kernel}.

Definition put_user (bs : bytes) : M world unit :=
  mmodify (fun w => with_umem (ustore (w_umem w) USER_BUF bs) w).

(** *** System calls on an open file *)

Definition sys_open : M world positive :=
  let! w := mget in
  let filp := Pos.succ (max_loc (w_files w)) in
  set_file filp (File NoDev 0);; aesd_open filp;; ret filp.
(** The kernel passes at most MAX_RW_COUNT bytes on. *)
Definition sys_write (filp : positive) (bs : bytes) : M world Z :=
  put_user bs;;
  let! f := get_file filp in
  let! r := aesd_write filp USER_BUF (MIN (zlen bs) MAX_RW_COUNT) (f_pos f) in
  set_f_pos filp (snd r);; ret (fst r).
Definition sys_read (filp : positive) (n : Z) : M world (Z * bytes) :=
  put_user (replicate (Z.to_nat n) NUL);;
  let! f := get_file filp in
  let! r := aesd_read filp USER_BUF n (f_pos f) in
  set_f_pos filp (snd r);;
  let! w := mget in
  ret (fst r, default [] (user_bytes (w_umem w) USER_BUF (fst r))).
Definition sys_seekto (filp : positive) (arg : aesd_seekto) : M world Z :=
  put_user (encode_seekto arg);; aesd_ioctl filp AESDCHAR_IOCSEEKTO USER_BUF.
Definition sys_close (filp : positive) : M world unit :=
  aesd_release filp;; mmodify (fun w => with_files (delete filp (w_files w)) w).

(** *** The instance *)

(** A descriptor is the number of its file. A fault of the driver would be a result
    [err] with nothing changed; the laws show that there is none. *)
Definition perform {A} (m : M world A) (err : A) (w : world) : A * world :=
  match m w with Done r => r | Fault _ => (err, w) end.
Definition EBADF : Z := 9.
Definition with_filp {A} (fd : Z) (m : positive -> M world A) (err : A) (w : world) : A * world :=
  match fd with Z.pos filp => perform (m filp) err w | _ => (err, w) end.

#[export] Instance driver_dev : FileDev := {|
  dev := world;
  dev_fopen w := match sys_open w with Done (filp, w) => Some (Z.pos filp, w) | Fault _ => None end;
  dev_write fd bs := with_filp fd (fun filp => sys_write filp bs) (- EBADF);
  dev_read fd n w := let '(r, w) := with_filp fd (fun filp => sys_read filp n) (- EBADF, []) w in (r, w);
  dev_seekto fd arg := with_filp fd (fun filp => sys_seekto filp arg) (- EBADF);
  dev_close fd w := snd (with_filp fd sys_close tt w);
|}.

(** *** What it promises *)

Definition pos_max : Z := 10 * 2 ^ 22.

(** The driver holds [a], its memory is exactly its own objects beside [F], and the
    files at [ps], and no others, are open on it. *)
Record driver_is (F : heap) (w : world) (a : dstate) (ps : gmap Z Z) : Prop := {
  di_rep : dev_rep a F w;
  di_files filp : w_files w !! filp = File AesdDevice <$> ps !! Z.pos filp;
  di_pos fd pos : ps !! fd = Some pos -> 0 < fd /\ 0 <= pos <= pos_max;
}.

Lemma perform_wp {A} (m : M world A) err w (Q : A -> world -> Prop) :
  wp m Q w -> Q (fst (perform m err w)) (snd (perform m err w)).
Proof. unfold perform. intros H. apply wp_Done in H as (r & w' & -> & HQ). done. Qed.

(** Opening, moving or closing a file keeps the rest. *)
Lemma driver_is_files F w a ps w' fd pos :
  driver_is F w a ps -> 0 < fd -> 0 <= pos <= pos_max ->
  w_heap w' = w_heap w -> aesd_device w' = aesd_device w ->
  w_files w' = <[Z.to_pos fd := File AesdDevice pos]> (w_files w) ->
  driver_is F w' a (<[fd := pos]> ps).
Proof.
  intros [[Hrep Hok] Hf Hp] Hfd Hpos Hh Hd Hfiles. split.
  - split; [by eapply dev_mem_env|done].
  - intros filp. rewrite Hfiles. destruct (decide (Z.pos filp = fd)) as [<-|Hne].
    + simpl. by rewrite !lookup_insert_eq.
    + rewrite !lookup_insert_ne by (try done; intros <-; lia). apply Hf.
  - intros fd' pos'. rewrite lookup_insert. case_decide; [intros [= <-]; lia|apply Hp].
Qed.

Lemma driver_is_close F w a ps w' filp :
  driver_is F w a ps ->
  w_heap w' = w_heap w -> aesd_device w' = aesd_device w -> w_files w' = delete filp (w_files w) ->
  driver_is F w' a (delete (Z.pos filp) ps).
Proof.
  intros [[Hrep Hok] Hf Hp] Hh Hd Hfiles. split.
  - split; [by eapply dev_mem_env|done].
  - intros filp'. rewrite Hfiles. destruct (decide (filp' = filp)) as [->|Hne].
    + by rewrite !lookup_delete_eq.
    + rewrite !lookup_delete_ne by congruence. apply Hf.
  - intros fd' pos'. rewrite lookup_delete. case_decide; [done|apply Hp].
Qed.

Lemma driver_is_same F w a ps w' a' :
  driver_is F w a ps -> dev_rep a' F w' -> w_files w' = w_files w -> driver_is F w' a' ps.
Proof. intros [_ Hf Hp] Hrep Hfiles. split; [done| |done]. intros filp. rewrite Hfiles. apply Hf. Qed.

(** Only the heap and the device matter to the representation. *)
Lemma driver_is_env F w a ps w' :
  driver_is F w a ps -> w_heap w' = w_heap w -> aesd_device w' = aesd_device w -> w_files w' = w_files w ->
  driver_is F w' a ps.
Proof.
  intros Hd Hh Hdev Hfiles. eapply driver_is_same; [done| |done].
  destruct (di_rep _ _ _ _ Hd) as [Hrep Hok]. split; [by eapply dev_mem_env|done].
Qed.

Lemma driver_is_open F w a ps fd pos :
  driver_is F w a ps -> ps !! fd = Some pos ->
  exists filp, fd = Z.pos filp /\ w_files w !! filp = Some (File AesdDevice pos).
Proof.
  intros Hd Hpos. destruct (di_pos _ _ _ _ Hd _ _ Hpos) as [Hfd _]. exists (Z.to_pos fd).
  assert (Z.pos (Z.to_pos fd) = fd) as E by (by rewrite Z2Pos.id). split; [done|].
  by rewrite (di_files _ _ _ _ Hd), E, Hpos.
Qed.

Lemma le_decode_encode n x : 0 <= x < 256 ^ Z.of_nat n -> le_decode (le_encode n x) = x.
Proof.
  revert x. induction n as [|n IH]; intros x Hx; [simpl in *; lia|].
  rewrite Nat2Z.inj_succ, Z.pow_succ_r in Hx by lia. simpl.
  pose proof (Z.mod_pos_bound x 256). pose proof (Z.div_mod x 256).
  rewrite IH by (split; [apply Z.div_pos|apply Z.div_lt_upper_bound]; lia).
  unfold char_code. rewrite N_ascii_embedding by lia. lia.
Qed.

Lemma length_le_encode n x : length (le_encode n x) = n.
Proof. revert x. induction n as [|n IH]; intros x; simpl; [done|]. by rewrite IH. Qed.

Lemma decode_encode_seekto arg :
  0 <= write_cmd arg < 2 ^ 32 -> 0 <= write_cmd_offset arg < 2 ^ 32 -> decode_seekto (encode_seekto arg) = arg.
Proof.
  intros H1 H2. destruct arg as [c o]. cbn [write_cmd write_cmd_offset] in *. unfold decode_seekto, encode_seekto.
  cbn [write_cmd write_cmd_offset].
  rewrite take_app_length' by by rewrite length_le_encode.
  rewrite drop_app_length' by by rewrite length_le_encode.
  rewrite take_ge by by rewrite length_le_encode.
  by rewrite !le_decode_encode.
Qed.

(** *** The system calls *)

Context {KL : KernelLaws K}.

(** Memory for every command the driver accepts. *)
Definition kmalloc_succeeds : Prop :=
  forall n h, 0 < n <= KMALLOC_MAX_SIZE -> fst (kmalloc n h) <> PNull.

Lemma get_file_wp filp f w (Q : file -> world -> Prop) :
  w_files w !! filp = Some f -> Q f w -> wp (get_file filp) Q w.
Proof. intros Hf HQ. unfold get_file. wp_steps. by eapply wp_opt. Qed.

Lemma sys_open_wp F w a ps :
  driver_is F w a ps ->
  wp sys_open (fun filp w' => ps !! Z.pos filp = None /\ driver_is F w' a (<[Z.pos filp := 0]> ps)) w.
Proof.
  intros Hd. unfold sys_open. wp_steps. set (filp := Pos.succ (max_loc (w_files w))). unfold set_file. wp_steps.
  eapply open_wp; [apply lookup_insert_eq|]. wp_steps. simpl f_pos. split.
  - pose proof (di_files _ _ _ _ Hd filp) as H. unfold filp in H. rewrite max_loc_fresh in H.
    fold filp in H. by destruct (ps !! Z.pos filp).
  - eapply (driver_is_files F w); [done|lia|unfold pos_max; lia|done|done|].
    simpl. by rewrite insert_insert_eq.
Qed.

(** The device never takes more than it can store, so never a clipped count. *)
Lemma d_write_max mx a bs : dstate_ok mx (d_write a bs) -> zlen bs <= mx.
Proof.
  intros [_ HF [_ Hp]]. unfold d_write in *. pose proof (zlen_nonneg (pending a)).
  destruct (ends_in_newline (pending a ++ bs)); cbn [cmds pending] in *.
  - rewrite Forall_forall in HF. destruct (HF (pending a ++ bs)) as [_ Hl].
    + unfold lastn. rewrite drop_app. apply elem_of_app. right.
      replace (_ - _)%nat with 0%nat by (rewrite length_app; simpl; lia). left.
    + rewrite zlen_app in Hl. lia.
  - rewrite zlen_app in Hp. lia.
Qed.

Lemma MIN_min x y : MIN x y = Z.min x y.
Proof. unfold MIN. destruct (Z.ltb_spec x y); lia. Qed.

Lemma user_bytes_prefix u x bs n :
  0 <= n <= zlen bs -> user_bytes (ustore u x bs) x n = Some (take (Z.to_nat n) bs).
Proof.
  intros Hn. destruct (user_bytes_shorter (ustore u x bs) x (zlen bs) n) as [cs Hcs].
  - lia.
  - rewrite user_bytes_ustore. by eexists.
  - rewrite Hcs. f_equal. pose proof (user_bytes_ustore u x bs) as H.
    apply (user_bytes_take _ _ _ _ _ _ Hcs) in H as [rest ->]; [|lia].
    apply user_bytes_zlen in Hcs; [|lia]. rewrite <- Hcs, zlen_to_nat, take_app_length. done.
Qed.

Lemma sys_write_wp F w a ps fd pos filp bs :
  driver_is F w a ps -> ps !! fd = Some pos -> fd = Z.pos filp -> bs <> [] ->
  wp (sys_write filp bs) (fun r w' =>
    (r < 0 /\ fst (kmalloc (Z.min (zlen bs) MAX_RW_COUNT + zlen (pending a)) (w_heap w)) = PNull /\ driver_is F w' a ps) \/
    (r = zlen bs /\ driver_is F w' (d_write a bs) ps)) w.
Proof.
  intros Hd Hpos -> Hbs. unfold sys_write, put_user. wp_steps.
  destruct (driver_is_open _ _ _ _ _ _ Hd Hpos) as (filp' & [= <-] & Hf).
  set (w1 := with_umem _ w). pose proof (driver_is_env F w a ps w1 Hd eq_refl eq_refl eq_refl) as Hd1.
  eapply get_file_wp; [exact Hf|]. wp_steps. simpl f_pos. rewrite MIN_min.
  pose proof (zlen_pos bs Hbs). pose proof (zlen_nonneg (pending a)). set (n := Z.min (zlen bs) MAX_RW_COUNT).
  assert (0 < n <= MAX_RW_COUNT) as Hn by (unfold n, MAX_RW_COUNT; lia).
  eapply wp_mono; [apply (write_wp a F w1); [apply Hd1|by exists pos|lia|lia]|].
  intros [r pos'] w2 (Hp & (_ & Hfs & _) & Hcases). simpl in Hp, Hcases. subst pos'. wp_steps.
  eapply set_f_pos_wp; [by rewrite Hfs|]. wp_steps. cbn [fst snd].
  destruct (di_pos _ _ _ _ Hd _ _ Hpos) as [_ Hpm].
  assert (forall a', dev_rep a' F w2 -> driver_is F (with_f_pos filp pos w2) a' ps) as Hkeep.
  { intros a' Hrep. rewrite <- (insert_id ps (Z.pos filp) pos) by done.
    eapply (driver_is_files F w2); [|lia|done|done|done|done]. by eapply driver_is_same. }
  rewrite user_bytes_prefix in Hcases by (unfold n; lia).
  destruct Hcases as [(-> & Hk & Hr)|[(-> & Hu & _)|(-> & bs' & [= <-] & Hr)]].
  - left. split; [unfold ENOMEM; lia|]. split; [exact Hk|]. by apply Hkeep.
  - done.
  - right. pose proof (d_write_max _ _ _ (proj2 Hr)) as Hmax.
    assert (zlen (take (Z.to_nat n) bs) = n) as Hln by (unfold zlen in *; rewrite length_take; unfold n in *; lia).
    assert (n = zlen bs) as E by (unfold n, MAX_RW_COUNT, KMALLOC_MAX_SIZE in *; lia).
    rewrite E, zlen_to_nat, firstn_all in Hr. split; [done|]. by apply Hkeep.
Qed.

Lemma d_size_max a : dstate_ok KMALLOC_MAX_SIZE a -> d_size a <= pos_max.
Proof.
  intros [Hc HF _]. unfold d_size, d_content, pos_max, KMALLOC_MAX_SIZE in *.
  assert (zlen (concat (cmds a)) <= zlen (cmds a) * 2 ^ 22); [|unfold zlen in *; lia].
  clear Hc. induction HF as [|c l [_ Hl] _ IH]; simpl; [by rewrite !zlen_nil|].
  rewrite zlen_app, zlen_cons. lia.
Qed.

Lemma sys_read_wp F w a ps fd pos filp n :
  driver_is F w a ps -> ps !! fd = Some pos -> fd = Z.pos filp -> 0 <= n <= 2 ^ 16 ->
  let bs := d_read a pos n in
  wp (sys_read filp n) (fun r w' => r = (zlen bs, bs) /\ driver_is F w' a (<[fd := pos + zlen bs]> ps)) w.
Proof.
  intros Hd Hpos -> Hn bs. unfold sys_read, put_user. wp_steps.
  destruct (driver_is_open _ _ _ _ _ _ Hd Hpos) as (filp' & [= <-] & Hf).
  destruct (di_pos _ _ _ _ Hd _ _ Hpos) as [_ Hpm]. unfold pos_max in Hpm.
  set (w1 := with_umem _ w). pose proof (driver_is_env F w a ps w1 Hd eq_refl eq_refl eq_refl) as Hd1.
  eapply get_file_wp; [exact Hf|]. wp_steps. simpl f_pos. pose proof (zlen_nonneg bs) as Hb0.
  assert (zlen bs <= n) as Hb by (apply d_read_length; lia).
  assert (is_Some (user_bytes (w_umem w1) USER_BUF (zlen bs))) as Hu.
  { apply (user_bytes_shorter _ _ n); [lia|]. simpl.
    pose proof (user_bytes_ustore (w_umem w) USER_BUF (replicate (Z.to_nat n) NUL)) as Hst.
    assert (zlen (replicate (Z.to_nat n) NUL) = n) as En by (unfold zlen; rewrite length_replicate; lia).
    rewrite En in Hst. rewrite Hst. by eexists. }
  eapply (read_wp a F w1); [apply Hd1|by exists pos|unfold MAX_RW_COUNT; lia|lia| |].
  2: { intros Hnone. fold bs in Hnone. rewrite Hnone in Hu. by destruct Hu. }
  intros _. fold bs. wp_steps. eapply set_f_pos_wp; [exact Hf|]. wp_steps. cbn [fst snd].
  split.
  - simpl. by rewrite user_bytes_ustore.
  - eapply (driver_is_files F w); [done|lia| |done|done|done]. unfold pos_max.
    destruct (decide (bs = [])) as [E|Hne]; [apply (f_equal zlen) in E; rewrite zlen_nil in E; lia|].
    pose proof (d_size_max a (proj2 (di_rep _ _ _ _ Hd))) as Hmax. unfold pos_max in Hmax.
    pose proof (d_read_end a pos n ltac:(lia) Hne) as Hend. fold bs in Hend. lia.
Qed.

Lemma sys_seekto_wp F w a ps fd pos filp arg :
  driver_is F w a ps -> ps !! fd = Some pos -> fd = Z.pos filp ->
  0 <= write_cmd arg < 2 ^ 32 -> 0 <= write_cmd_offset arg < 2 ^ 32 ->
  wp (sys_seekto filp arg) (fun r w' =>
    match d_seek a (write_cmd arg) (write_cmd_offset arg) with
    | Some pos' => r = 0 /\ driver_is F w' a (<[fd := pos']> ps)
    | None => r < 0 /\ driver_is F w' a ps
    end) w.
Proof.
  intros Hd Hpos -> H1 H2. unfold sys_seekto, put_user. wp_steps.
  destruct (driver_is_open _ _ _ _ _ _ Hd Hpos) as (filp' & [= <-] & Hf).
  set (w1 := with_umem _ w). pose proof (driver_is_env F w a ps w1 Hd eq_refl eq_refl eq_refl) as Hd1.
  assert (user_bytes (w_umem w1) USER_BUF sizeof_aesd_seekto = Some (encode_seekto arg)) as Hu.
  { assert (sizeof_aesd_seekto = zlen (encode_seekto arg)) as ->.
    { unfold zlen, encode_seekto. by rewrite length_app, !length_le_encode. }
    apply user_bytes_ustore. }
  eapply (ioctl_wp a F w1); [apply Hd1|by exists pos|done|congruence|].
  intros bs _ Hbs. rewrite Hu in Hbs. injection Hbs as <-. rewrite decode_encode_seekto by done.
  destruct (d_seek a _ _) as [pos'|] eqn:E; [|unfold EINVAL; split; [lia|done]]. split; [done|].
  eapply (driver_is_files F w1); [done|lia| |done|done|done].
  pose proof (d_size_max a (proj2 (di_rep _ _ _ _ Hd))). pose proof (d_seek_range _ _ _ _ (proj1 H2) E). lia.
Qed.

(** *** The driver provides the server's device *)

#[export] Instance driver_dev_laws (F : heap) : FileDevLaws driver_dev.
Proof.
  refine (Build_FileDevLaws driver_dev (driver_is F) KMALLOC_MAX_SIZE _ _ _ _ _ _ _).
  - unfold KMALLOC_MAX_SIZE. lia.
  - intros w a ps Hd. apply (di_rep _ _ _ _ Hd).
  - intros w a ps fd w' Hd Hopen. simpl in Hopen.
    destruct (sys_open w) as [[filp w2]|] eqn:E; [|done]. injection Hopen as <- <-.
    apply (wp_run _ _ _ _ _ E (sys_open_wp F w a ps Hd)).
  - intros w a ps fd bs Hd [pos Hpos] Hbs.
    destruct (driver_is_open _ _ _ _ _ _ Hd Hpos) as (filp & -> & _). simpl.
    pose proof (perform_wp _ (- EBADF) w _ (sys_write_wp F w a ps _ pos filp bs Hd Hpos eq_refl Hbs)) as H.
    destruct H as [(? & _ & ?)|?]; [by left|by right].
  - intros w a ps fd pos n Hd Hpos _ Hn.
    destruct (driver_is_open _ _ _ _ _ _ Hd Hpos) as (filp & -> & _). simpl.
    pose proof (perform_wp _ (- EBADF, []) w _ (sys_read_wp F w a ps _ pos filp n Hd Hpos eq_refl Hn)) as [H1 H2].
    destruct (perform (sys_read filp n) (- EBADF, []) w) as [r w']. simpl in *. exists w'. by rewrite H1.
  - intros w a ps fd pos arg Hd Hpos H1 H2.
    destruct (driver_is_open _ _ _ _ _ _ Hd Hpos) as (filp & -> & _). simpl.
    apply (perform_wp _ (- EBADF) w _ (sys_seekto_wp F w a ps _ pos filp arg Hd Hpos eq_refl H1 H2)).
  - intros w a ps fd Hd. simpl. destruct fd as [|filp|filp]; simpl.
    + rewrite delete_id; [done|]. destruct (ps !! 0) eqn:E; [|done]. apply (di_pos _ _ _ _ Hd) in E. lia.
    + by eapply driver_is_close.
    + rewrite delete_id; [done|]. destruct (ps !! Z.neg filp) eqn:E; [|done]. apply (di_pos _ _ _ _ Hd) in E. lia.
Defined.

Lemma driver_dev_reliable F : kmalloc_succeeds -> dev_reliable driver_dev (driver_dev_laws F).
Proof.
  intros Hk. split.
  - intros w a ps Hd. simpl. pose proof (sys_open_wp F w a ps Hd) as H.
    apply wp_Done in H as (filp & w' & -> & _). by eexists.
  - intros w a ps fd bs Hd [pos Hpos] Hbs Hlen. simpl in Hlen.
    destruct (driver_is_open _ _ _ _ _ _ Hd Hpos) as (filp & -> & _). simpl.
    rewrite zlen_app in Hlen. pose proof (zlen_nonneg (pending a)). pose proof (zlen_pos bs Hbs).
    pose proof (perform_wp _ (- EBADF) w _ (sys_write_wp F w a ps _ pos filp bs Hd Hpos eq_refl Hbs)) as H'.
    destruct H' as [(_ & Hnull & _)|[-> _]]; [|lia].
    exfalso. eapply Hk; [|exact Hnull]. unfold MAX_RW_COUNT, KMALLOC_MAX_SIZE in *. lia.
Qed.
End device.

Lemma sample_kmalloc_succeeds : kmalloc_succeeds.
Proof.
  intros n h Hn. simpl. rewrite (proj2 (Z.eqb_neq n 0)), (proj2 (Z.leb_le n KMALLOC_MAX_SIZE)) by lia. done.
Qed.
