(* ===== verification/Process.v ===== *)
(** The server process: its memory, sockets and device, and the calls it makes.

    A [proc] has the heap of [char] buffers, the [tcp_connection_t] objects, the open
    socket descriptors with what will arrive on each of them and what was sent,
    and the device. [Sockets] holds the network's choices for [send]. The calls
    of the C library and of the system are computations over [proc]. *)

From S2P Require Import Prelude CMonad KHeap Libc DeviceSpec FileDev.
Local Open Scope Z_scope.
Local Open Scope cmonad_scope.

(** What [recv] of one byte finds. *)
Inductive recv_event := RecvByte (c : char) | RecvEof | RecvErr.

Inductive send_result :=
  | Sent (n : Z)    (** the first [n] bytes were accepted *)
  | SendFailed      (** -1 *)
  | SendPipe.       (** the peer has closed the connection: SIGPIPE *)

(** [sock_send fd out bs]: the fate of [send(fd, bs)] when [out] was sent before. *)
Class Sockets := sock_send : Z -> bytes -> bytes -> send_result.

Class SocketsLaws (N : Sockets) : Prop := {
  sock_send_range fd out bs n : sock_send fd out bs = Sent n -> 0 <= n <= zlen bs;
}.

(** A network that accepts all that is sent. *)
Definition net_reliable (N : Sockets) : Prop :=
  forall fd out bs, sock_send fd out bs = Sent (zlen bs).

(** [tcp_connection_t] *)
Record tcp_connection := TcpConnection {
  c_socket : Z;
  c_client_address : ptr;
  c_is_open : bool;
}.

Record proc `{FD : FileDev} := Proc {
  p_heap : heap;
  p_conns : gmap loc tcp_connection;
  p_fds : gset Z;
  p_in : gmap Z (list recv_event);
  p_out : gmap Z bytes;
  p_dev : dev;
}.

Section process.
Context `{FD : FileDev} {L : Libc} {N : Sockets} {St : Stdio}.

Definition set_heap (h : heap) (s : proc) : proc :=
  Proc _ h (p_conns s) (p_fds s) (p_in s) (p_out s) (p_dev s).
Definition set_conns (c : gmap loc tcp_connection) (s : proc) : proc :=
  Proc _ (p_heap s) c (p_fds s) (p_in s) (p_out s) (p_dev s).
Definition set_fds (f : gset Z) (s : proc) : proc :=
  Proc _ (p_heap s) (p_conns s) f (p_in s) (p_out s) (p_dev s).
Definition set_in (i : gmap Z (list recv_event)) (s : proc) : proc :=
  Proc _ (p_heap s) (p_conns s) (p_fds s) i (p_out s) (p_dev s).
Definition set_out (o : gmap Z bytes) (s : proc) : proc :=
  Proc _ (p_heap s) (p_conns s) (p_fds s) (p_in s) o (p_dev s).
Definition set_dev (d : dev) (s : proc) : proc :=
  Proc _ (p_heap s) (p_conns s) (p_fds s) (p_in s) (p_out s) d.

(** What was sent on a socket, and what will arrive on it. *)
Definition out_of (s : proc) (fd : Z) : bytes := default [] (p_out s !! fd).
Definition in_of (s : proc) (fd : Z) : list recv_event := default [] (p_in s !! fd).

(** *** Memory *)

Definition do_malloc (n : Z) : M proc ptr :=
  let! s := mget in
  match malloc (p_heap s) n with
  | Some l => mput (set_heap (<[l := uninit l n]> (p_heap s)) s);; ret (PLoc l)
  | None => ret PNull
  end.
(** [free(NULL)] does nothing; anything but a live object is a fault. *)
Definition do_free (p : ptr) : M proc unit :=
  match p with
  | PNull => ret tt
  | PZero => mfault BadFree
  | PLoc l =>
      let! s := mget in
      let! _ := mopt BadFree (p_heap s !! l) in
      mput (set_heap (delete l (p_heap s)) s)
  end.
(** [realloc] of a live object: NULL and the object stays, or the object is replaced
    by one of [n] bytes that starts with the old bytes. *)
Definition do_realloc (p : ptr) (n : Z) : M proc ptr :=
  match p with
  | PLoc l =>
      let! s := mget in
      let! bs := mopt BadAccess (p_heap s !! l) in
      let h := delete l (p_heap s) in
      match malloc h n with
      | Some l' =>
          let bs' := take (Z.to_nat n) (bs ++ drop (length bs) (uninit l' n)) in
          mput (set_heap (<[l' := bs']> h) s);; ret (PLoc l')
      | None => ret PNull
      end
  | _ => mfault BadAccess
  end.
Definition do_load (p : ptr) (off : Z) : M proc char :=
  let! s := mget in mlift (load (p_heap s) p off).
Definition do_store (p : ptr) (off : Z) (bs : bytes) : M proc unit :=
  let! s := mget in
  let! h := mlift (write_range (p_heap s) p off bs) in
  mput (set_heap h s).
(** The string a [char*] argument points to. *)
Definition do_string (p : ptr) : M proc bytes :=
  let! s := mget in mlift (read_cstr (p_heap s) p).
(** [strdup] of a string that is not on the heap. *)
Definition do_strdup (a : bytes) : M proc ptr :=
  let! p := do_malloc (zlen a + 1) in
  match p with
  | PLoc l => do_store p 0 (a ++ [NUL]);; ret p
  | _ => ret PNull
  end.

(** *** Sockets *)

(** [recv(fd, p + off, 1, 0)] *)
Definition do_recv (fd : Z) (p : ptr) (off : Z) : M proc Z :=
  let! s := mget in
  if bool_decide (fd ∈ p_fds s) then
    match in_of s fd with
    | [] => mfault Blocked
    | RecvByte c :: evs =>
        mput (set_in (<[fd := evs]> (p_in s)) s);; do_store p off [c];; ret 1
    | RecvEof :: evs => ret 0
    | RecvErr :: evs => mput (set_in (<[fd := evs]> (p_in s)) s);; ret (-1)
    end
  else ret (-1).

(** [send(fd, bs, size, 0)]; SIGPIPE is not handled, so it ends the process. *)
Definition do_send (fd : Z) (bs : bytes) : M proc Z :=
  let! s := mget in
  if bool_decide (fd ∈ p_fds s) then
    match sock_send fd (out_of s fd) bs with
    | Sent n => mput (set_out (<[fd := out_of s fd ++ take (Z.to_nat n) bs]> (p_out s)) s);; ret n
    | SendFailed => ret (-1)
    | SendPipe => mfault Exited
    end
  else ret (-1).

Definition do_close (fd : Z) : M proc unit :=
  mmodify (fun s => set_fds (p_fds s ∖ {[fd]}) s).

(** *** Streams *)

Definition do_fopen : M proc (option Z) :=
  let! s := mget in
  match dev_fopen (p_dev s) with
  | Some (fd, d) => mput (set_dev d s);; ret (Some fd)
  | None => ret None
  end.
(** [write] until one fails: its count, or the error. *)
Fixpoint write_chunks (fd : Z) (cs : list bytes) : M proc Z :=
  match cs with
  | [] => ret 0
  | c :: cs =>
      let! s := mget in
      let '(r, d) := dev_write fd c (p_dev s) in
      mput (set_dev d s);;
      if r <? 0 then ret r else write_chunks fd cs
  end.
(** [fprintf] of the text [bs], then what is left in the buffer for [fflush]. *)
Definition do_fprintf (fd : Z) (bs : bytes) : M proc (Z * list bytes) :=
  let '(now, later) := stdio_chunks bs in
  let! r := write_chunks fd now in
  ret (if r <? 0 then (-1, []) else (zlen bs, later)).
Definition do_fflush (fd : Z) (buffered : list bytes) : M proc Z :=
  let! r := write_chunks fd buffered in
  ret (if r <? 0 then -1 else 0).
Definition do_read (fd n : Z) : M proc (Z * bytes) :=
  let! s := mget in
  let '(r, bs, d) := dev_read fd n (p_dev s) in
  mput (set_dev d s);; ret (r, bs).
Definition do_ioctl_seekto (fd : Z) (arg : aesd_seekto) : M proc Z :=
  let! s := mget in
  let '(r, d) := dev_seekto fd arg (p_dev s) in
  mput (set_dev d s);; ret r.
Definition do_fclose (fd : Z) : M proc unit :=
  mmodify (fun s => set_dev (dev_close fd (p_dev s)) s).

(** *** Connections *)

Definition get_conn (p : ptr) : M proc tcp_connection :=
  match p with
  | PLoc l => let! s := mget in mopt BadAccess (p_conns s !! l)
  | _ => mfault BadAccess
  end.
Definition set_conn (p : ptr) (c : tcp_connection) : M proc unit :=
  match p with
  | PLoc l => mmodify (fun s => set_conns (<[l := c]> (p_conns s)) s)
  | _ => mfault BadAccess
  end.
Definition malloc_conn : M proc ptr :=
  let! s := mget in
  match malloc (p_conns s) 24 with
  | Some l => mput (set_conns (<[l := TcpConnection 0 PNull false]> (p_conns s)) s);; ret (PLoc l)
  | None => ret PNull
  end.
Definition free_conn (p : ptr) : M proc unit :=
  match p with
  | PNull => ret tt
  | PZero => mfault BadFree
  | PLoc l =>
      let! s := mget in
      let! _ := mopt BadFree (p_conns s !! l) in
      mput (set_conns (delete l (p_conns s)) s)
  end.
End process.

#[global] Arguments do_malloc : simpl never.
#[global] Arguments do_free : simpl never.
#[global] Arguments do_realloc : simpl never.
#[global] Arguments do_load : simpl never.
#[global] Arguments do_store : simpl never.
#[global] Arguments do_string : simpl never.
#[global] Arguments do_strdup : simpl never.
#[global] Arguments do_recv : simpl never.
#[global] Arguments do_send : simpl never.
#[global] Arguments do_close : simpl never.
#[global] Arguments do_fopen : simpl never.
#[global] Arguments do_fprintf : simpl never.
#[global] Arguments do_fflush : simpl never.
#[global] Arguments do_read : simpl never.
#[global] Arguments do_ioctl_seekto : simpl never.
#[global] Arguments do_fclose : simpl never.
#[global] Arguments get_conn : simpl never.
#[global] Arguments set_conn : simpl never.
#[global] Arguments malloc_conn : simpl never.
#[global] Arguments free_conn : simpl never.

(** A network that takes everything. *)
#[export] Instance sample_sockets : Sockets := fun fd out bs => Sent (zlen bs).

Lemma sample_net_reliable : net_reliable sample_sockets.
Proof. done. Qed.
