(* ===== verification/TcpConnection.v ===== *)
(** TCP connections ([server/src/tcp_connection.c]).

    A connection is created for an accepted socket, receives messages byte by byte into
    a buffer that doubles, sends buffers and whole files, and is destroyed with its
    socket and address string. Loops take the fuel their theorems show to be enough:
    one round for each event left on the socket, one for each byte left to read. *)

From S2P Require Import Prelude CMonad KHeap Libc DeviceSpec FileDev Process.
Local Open Scope Z_scope.
Local Open Scope cmonad_scope.

Section tcp_connection.
Context `{FD : FileDev} {L : Libc} {N : Sockets} {St : Stdio}.

Definition tcp_connection_create (socket : Z) (client_address : bytes) : M proc ptr :=
  let! connection := malloc_conn in
  if is_null connection then ret PNull
  else
    set_conn connection (TcpConnection socket PNull false);;
    let! a := do_strdup client_address in
    set_conn connection (TcpConnection socket a false);;
    if is_null a then free_conn connection;; ret PNull
    else set_conn connection (TcpConnection socket a true);; ret connection.

Definition tcp_connection_destroy (connection : ptr) : M proc unit :=
  if is_null connection then ret tt
  else
    let! c := get_conn connection in
    do_close (c_socket c);;
    do_free (c_client_address c);;
    set_conn connection (TcpConnection (c_socket c) PNull (c_is_open c));;
    free_conn connection.

Definition tcp_connection_is_open (connection : ptr) : M proc bool :=
  let! c := get_conn connection in ret (c_is_open c).

(** [assert(p)] *)
Definition assert_ptr (p : ptr) : M proc unit := if is_null p then mfault Aborted else ret tt.

(** One round of the loop: the result of the function, or the state of the next round. *)
Definition recv_round (connection : ptr) (delimiter : char) (buffer : ptr)
    (buffer_size current_size : Z) : M proc (bool * ptr + ptr * Z * Z) :=
  let! c := get_conn connection in
  let! recv_size := do_recv (c_socket c) buffer current_size in
  if 0 <? recv_size then
    let! ch := do_load buffer current_size in
    if bool_decide (ch = delimiter) then
      do_store buffer current_size [NUL];; ret (inl (true, buffer))
    else
      let current_size := i32 (current_size + 1) in
      if current_size =? buffer_size then
        let buffer_size := i32 (buffer_size * 2) in
        let! buffer := do_realloc buffer (u64 buffer_size) in
        assert_ptr buffer;; ret (inr (buffer, buffer_size, current_size))
      else ret (inr (buffer, buffer_size, current_size))
  else if recv_size =? 0 then
    set_conn connection (TcpConnection (c_socket c) (c_client_address c) false);;
    do_free buffer;; ret (inl (false, PNull))
  else do_free buffer;; ret (inl (false, PNull)).

(** The [do ... while (recv_size > 0)] loop: every other round returns. *)
Fixpoint recv_loop (fuel : nat) (connection : ptr) (delimiter : char) (buffer : ptr)
    (buffer_size current_size : Z) : M proc (bool * ptr) :=
  match fuel with
  | O => mfault OutOfFuel
  | S fuel =>
      let! r := recv_round connection delimiter buffer buffer_size current_size in
      match r with
      | inl res => ret res
      | inr (buffer, buffer_size, current_size) =>
          recv_loop fuel connection delimiter buffer buffer_size current_size
      end
  end.

(** The result and [*message]. *)
Definition tcp_connection_receive_message (connection : ptr) (delimiter : char) : M proc (bool * ptr) :=
  assert_ptr connection;;
  let! buffer := do_malloc 1024 in
  assert_ptr buffer;;
  let! c := get_conn connection in
  let! s := mget in
  recv_loop (S (length (in_of s (c_socket c)))) connection delimiter buffer 1024 0.

(** [message] is the text at the pointer, [size] bytes of it. *)
Definition tcp_connection_send_message (connection : ptr) (message : bytes) : M proc bool :=
  let! c := get_conn connection in
  let! r := do_send (c_socket c) message in
  ret (negb (r =? -1)).

(** One round of the [while] loop: the result of the function, or [None] for another round. *)
Definition send_file_round (connection : ptr) (fd : Z) : M proc (option bool) :=
  let! r := do_read fd 4096 in
  let '(bytes_read, buffer) := r in
  if 0 <? bytes_read then
    let! ok := tcp_connection_send_message connection buffer in
    ret (if ok then None else Some false)
  else ret (Some true).

(** The loop, [fuel] reads long. *)
Fixpoint tcp_connection_send_file (fuel : nat) (connection : ptr) (fd : Z) : M proc bool :=
  match fuel with
  | O => mfault OutOfFuel
  | S fuel =>
      let! r := send_file_round connection fd in
      match r with
      | None => tcp_connection_send_file fuel connection fd
      | Some result => ret result
      end
  end.
End tcp_connection.
