(* ===== verification/TcpReceive.v ===== *)
(** What [tcp_connection_receive_message] does with the bytes that arrive.

    [recv_state s fd evs l bs h] is the process [s] inside the loop: [evs] is still to
    arrive on [fd], and the heap is [h] with the buffer [bs] at [l]. [recv_loop_bytes]
    runs the loop over bytes that are not the delimiter; the ways the loop ends are
    lemmas about its last round. *)

From S2P Require Import Prelude CMonad KHeap Libc DeviceSpec FileDev Process TcpConnection.
Local Open Scope Z_scope.
Local Open Scope cmonad_scope.

Section receive.
Context `{FD : FileDev} {L : Libc} {N : Sockets} {St : Stdio} {LL : LibcLaws L}.

Definition recv_state (s : proc) (fd : Z) (evs : list recv_event) (l : loc) (bs : bytes) (h : heap) : proc :=
  set_in (<[fd := evs]> (p_in s)) (set_heap (<[l := bs]> h) s).

(** The connection at [lc] has the open socket [fd]. *)
Definition conn_open (s : proc) (lc : loc) (fd : Z) (a : ptr) : Prop :=
  p_conns s !! lc = Some (TcpConnection fd a true) /\ fd ∈ p_fds s.

(** [buf_ok got bs]: the buffer [bs] starts with the bytes received and has room left;
    its size is the initial one or at most twice their number. *)
Record buf_ok (got bs : bytes) : Prop := {
  buf_prefix : take (length got) bs = got;
  buf_room : zlen got < zlen bs;
  buf_size : zlen bs = 1024 \/ zlen bs <= 2 * zlen got;
}.

Lemma assert_ptr_wp l Q s : Q tt s -> wp (assert_ptr (PLoc l)) Q s.
Proof. done. Qed.

Lemma splice_one got c bs :
  take (length got) bs = got -> zlen got < zlen bs ->
  splice (length got) [c] bs = got ++ c :: drop (S (length got)) bs.
Proof.
  intros Hp Hr. unfold splice. rewrite Hp. simpl. do 3 f_equal. lia.
Qed.

Lemma take_length_app {A} (a b : list A) : take (length a) (a ++ b) = a.
Proof. by rewrite take_app_length. Qed.

Lemma do_recv_byte s fd c evs l bs h got Q :
  fd ∈ p_fds s -> buf_ok got bs ->
  Q 1 (recv_state s fd evs l (got ++ c :: drop (S (length got)) bs) h) ->
  wp (do_recv fd (PLoc l) (zlen got)) Q (recv_state s fd (RecvByte c :: evs) l bs h).
Proof.
  intros Hfd [Hp Hr Hs] HQ. unfold do_recv. wp_steps. simpl p_fds.
  rewrite bool_decide_true by done. unfold in_of. simpl p_in. rewrite lookup_insert_eq. simpl.
  unfold do_store. wp_steps. simpl p_heap. pose proof (zlen_nonneg got).
  eapply wp_lift.
  { apply (write_range_ok _ _ _ _ bs); [apply lookup_insert_eq|lia|]. zlen_simp. }
  wp_steps. rewrite zlen_to_nat, splice_one by done.
  unfold recv_state in *. unfold set_in, set_heap in *. simpl in *.
  by rewrite !insert_insert_eq in *.
Qed.

Lemma do_load_received s fd evs l got c rest h Q :
  Q c (recv_state s fd evs l (got ++ c :: rest) h) ->
  wp (do_load (PLoc l) (zlen got)) Q (recv_state s fd evs l (got ++ c :: rest) h).
Proof.
  intros HQ. unfold do_load. wp_steps. pose proof (zlen_nonneg got). pose proof (zlen_nonneg rest).
  apply (wp_lift _ c); [|done]. unfold load.
  erewrite read_range_ok; [|apply lookup_insert_eq|lia|lia|zlen_simp].
  by rewrite zlen_to_nat, drop_app_length.
Qed.

Lemma do_realloc_wp s fd evs l bs h n Q :
  h !! l = None -> malloc_succeeds L -> zlen bs <= n < 2 ^ 31 ->
  (forall l' rest, h !! l' = None -> zlen (bs ++ rest) = n ->
     Q (PLoc l') (recv_state s fd evs l' (bs ++ rest) h)) ->
  wp (do_realloc (PLoc l) n) Q (recv_state s fd evs l bs h).
Proof.
  intros Hl Hm Hn HQ. unfold do_realloc. wp_steps. simpl p_heap. pose proof (zlen_nonneg bs).
  apply (wp_opt _ bs); [apply lookup_insert_eq|]. wp_steps.
  rewrite delete_insert_id by done.
  destruct (Hm _ h n ltac:(lia)) as [l' Hl']. rewrite Hl'. wp_steps.
  pose proof (uninit_length l' n ltac:(lia)) as Hu.
  assert (length (drop (length bs) (uninit l' n)) = (Z.to_nat n - length bs)%nat) as Hd.
  { rewrite length_drop. unfold zlen in Hu. lia. }
  rewrite take_ge by (rewrite length_app, Hd; unfold zlen in *; lia).
  apply HQ; [by eapply malloc_fresh|].
  unfold zlen in *. rewrite length_app, Hd. lia.
Qed.

(** One byte that is not the delimiter. *)
Lemma recv_round_byte s lc fd a delim c evs l got bs h Q :
  conn_open s lc fd a -> malloc_succeeds L -> h !! l = None -> buf_ok got bs ->
  c <> delim -> zlen got + 1 < 2 ^ 30 ->
  (forall l' bs', h !! l' = None -> buf_ok (got ++ [c]) bs' ->
     Q (inr (PLoc l', zlen bs', zlen (got ++ [c]))) (recv_state s fd evs l' bs' h)) ->
  wp (recv_round (PLoc lc) delim (PLoc l) (zlen bs) (zlen got)) Q
     (recv_state s fd (RecvByte c :: evs) l bs h).
Proof.
  intros [Hc Hfd] Hm Hl Hb Hne Hlen HQ. unfold recv_round, get_conn. pose proof (zlen_nonneg got).
  wp_steps. simpl p_conns. eapply wp_opt; [done|]. simpl c_socket. wp_steps.
  apply do_recv_byte; [done..|]. simpl. set (rest := drop _ bs). wp_steps.
  apply do_load_received. rewrite bool_decide_false by done.
  destruct Hb as [Hp Hr Hs].
  assert (length bs = S (length got) + length rest)%nat as Hlb.
  { unfold rest. rewrite length_drop. unfold zlen in *. lia. }
  assert (got ++ c :: rest = (got ++ [c]) ++ rest) as -> by by rewrite <- app_assoc.
  assert (zlen (got ++ [c]) = zlen got + 1) as Hg by (rewrite zlen_app; reflexivity).
  unwrap. destruct (Z.eqb_spec (zlen got + 1) (zlen bs)) as [Heq|Hneq].
  - unwrap. wp_steps.
    assert (rest = []) as -> by (apply nil_length_inv; unfold zlen in *; lia).
    rewrite app_nil_r. apply do_realloc_wp; [done|done|lia|].
    intros l' rest' Hl' Hr'. simpl. wp_steps. rewrite <- Hg, <- Hr'. apply HQ; [done|].
    split; [apply take_length_app|lia|lia].
  - wp_steps.
    assert (zlen bs = zlen ((got ++ [c]) ++ rest)) as Hz.
    { rewrite zlen_app. unfold zlen in *. rewrite length_app in *. simpl in *. lia. }
    rewrite <- Hg, Hz. apply HQ; [done|].
    split; [apply take_length_app|lia|lia].
Qed.

(** The loop over any number of bytes that are not the delimiter. *)
Lemma recv_loop_bytes pre : forall s lc fd a delim evs fuel l got bs h Q,
  conn_open s lc fd a -> malloc_succeeds L -> h !! l = None -> buf_ok got bs ->
  (delim ∉ pre) -> zlen got + zlen pre < 2 ^ 30 ->
  (forall l' bs', h !! l' = None -> buf_ok (got ++ pre) bs' ->
     wp (recv_loop fuel (PLoc lc) delim (PLoc l') (zlen bs') (zlen (got ++ pre))) Q
        (recv_state s fd evs l' bs' h)) ->
  wp (recv_loop (length pre + fuel) (PLoc lc) delim (PLoc l) (zlen bs) (zlen got)) Q
     (recv_state s fd ((RecvByte <$> pre) ++ evs) l bs h).
Proof.
  induction pre as [|c pre IH]; intros s lc fd a delim evs fuel l got bs h Q Hopen Hm Hl Hb Hd Hlen HQ.
  { specialize (HQ l bs). rewrite app_nil_r in HQ. by apply HQ. }
  apply not_elem_of_cons in Hd as [Hne Hd]. rewrite zlen_cons in Hlen. pose proof (zlen_nonneg pre).
  simpl. wp_steps. eapply recv_round_byte; [done..| | |]; [congruence|lia|].
  intros l' bs' Hl' Hb'. eapply (IH s lc fd a); [done..| |].
  - autorewrite with zlen. lia.
  - intros l2 bs2 Hl2 Hb2. rewrite <- !app_assoc in *. by apply HQ.
Qed.

(** *** The last round *)

Lemma recv_loop_delim s lc fd a delim evs fuel l got bs h Q :
  conn_open s lc fd a -> buf_ok got bs ->
  Q (true, PLoc l) (recv_state s fd evs l (got ++ NUL :: drop (S (length got)) bs) h) ->
  wp (recv_loop (S fuel) (PLoc lc) delim (PLoc l) (zlen bs) (zlen got)) Q
     (recv_state s fd (RecvByte delim :: evs) l bs h).
Proof.
  intros [Hc Hfd] Hb HQ. simpl. unfold recv_round, get_conn. pose proof (zlen_nonneg got).
  wp_steps. simpl p_conns. eapply wp_opt; [done|]. simpl c_socket. wp_steps.
  apply do_recv_byte; [done..|]. simpl. wp_steps.
  apply do_load_received. rewrite bool_decide_true by done. wp_steps. unfold do_store. wp_steps.
  set (rest := drop _ bs) in *. pose proof (zlen_nonneg rest).
  eapply wp_lift.
  { apply (write_range_ok _ _ _ _ (got ++ delim :: rest)); [apply lookup_insert_eq|lia|zlen_simp]. }
  wp_steps. rewrite zlen_to_nat, splice_one; [|apply take_length_app|zlen_simp].
  replace (drop (S (length got)) (got ++ delim :: rest)) with rest in *.
  - unfold recv_state, set_in, set_heap in *. simpl in *. by rewrite insert_insert_eq.
  - rewrite drop_app_ge by lia. by replace (S (length got) - length got)%nat with 1%nat by lia.
Qed.

(** End of stream, or an error: the buffer is freed. *)
Definition closed_by (ev : recv_event) (a : ptr) (fd : Z) (lc : loc) (s : proc) : proc :=
  match ev with
  | RecvEof => set_conns (<[lc := TcpConnection fd a false]> (p_conns s)) s
  | _ => s
  end.
Definition after_event (ev : recv_event) (evs : list recv_event) : list recv_event :=
  match ev with RecvEof => ev :: evs | _ => evs end.

Lemma recv_loop_end s lc fd a delim ev evs fuel l got bs h Q :
  conn_open s lc fd a -> buf_ok got bs -> h !! l = None ->
  ev = RecvEof \/ ev = RecvErr ->
  Q (false, PNull) (closed_by ev a fd lc (set_in (<[fd := after_event ev evs]> (p_in s)) (set_heap h s))) ->
  wp (recv_loop (S fuel) (PLoc lc) delim (PLoc l) (zlen bs) (zlen got)) Q
     (recv_state s fd (ev :: evs) l bs h).
Proof.
  intros [Hc Hfd] Hb Hl Hev HQ. simpl. unfold recv_round, get_conn.
  wp_steps. simpl p_conns. eapply wp_opt; [done|]. simpl c_socket. wp_steps. unfold do_recv. wp_steps.
  simpl p_fds. rewrite bool_decide_true by done. unfold in_of. simpl p_in. rewrite lookup_insert_eq. simpl.
  destruct Hev as [-> | ->]; wp_steps; cbn [Z.ltb Z.eqb Z.compare];
    wp_steps; unfold set_conn, do_free; wp_steps; simpl p_heap;
    (eapply wp_opt; [apply lookup_insert_eq|]); wp_steps;
    rewrite delete_insert_id by done; unfold recv_state, set_in, set_heap, closed_by, set_conns in *; simpl in *;
    rewrite ?insert_insert_eq in *; exact HQ.
Qed.

(** *** The whole function *)

Lemma set_in_id s fd evs : p_in s !! fd = Some evs -> set_in (<[fd := evs]> (p_in s)) s = s.
Proof. intros H. unfold set_in. rewrite insert_id by done. by destruct s. Qed.

(** A stream without the delimiter, followed by one more event: fuel is enough. *)
Lemma receive_wp s lc fd a delim pre ev evs Q :
  conn_open s lc fd a -> malloc_succeeds L ->
  p_in s !! fd = Some ((RecvByte <$> pre) ++ ev :: evs) -> (delim ∉ pre) -> zlen pre < 2 ^ 30 ->
  (forall fuel l bs, p_heap s !! l = None -> buf_ok pre bs ->
     wp (recv_loop (S fuel) (PLoc lc) delim (PLoc l) (zlen bs) (zlen pre)) Q
        (recv_state s fd (ev :: evs) l bs (p_heap s))) ->
  wp (tcp_connection_receive_message (PLoc lc) delim) Q s.
Proof.
  intros Hopen Hm Hin Hd Hlen HQ. unfold tcp_connection_receive_message, do_malloc, get_conn.
  wp_steps. apply assert_ptr_wp. wp_steps. destruct (Hm _ (p_heap s) 1024 ltac:(lia)) as [l Hl].
  rewrite Hl. wp_steps. apply assert_ptr_wp. wp_steps.
  simpl p_conns. eapply wp_opt; [apply Hopen|]. wp_steps. simpl c_socket. unfold in_of. simpl p_in. rewrite Hin. simpl default.
  assert (set_heap (<[l := uninit l 1024]> (p_heap s)) s =
          recv_state s fd ((RecvByte <$> pre) ++ ev :: evs) l (uninit l 1024) (p_heap s)) as ->.
  { unfold recv_state. by rewrite <- (set_in_id s fd _ Hin) at 2. }
  pose proof (uninit_length l 1024 ltac:(lia)) as Hu.
  rewrite length_app, length_fmap. cbn [length]. rewrite <- plus_n_Sm.
  replace (S (S (length pre + length evs))) with (length pre + S (S (length evs)))%nat by lia.
  rewrite <- Hu at 1. change 0 with (zlen (@nil char)) at 1.
  eapply (recv_loop_bytes pre s lc fd a); [done|done|by eapply malloc_fresh| |done| |].
  - split; [done| |by left]. rewrite Hu. unfold zlen. simpl. lia.
  - unfold zlen at 1. simpl. lia.
  - intros l' bs' Hl' Hb'. simpl app in *. by apply HQ.
Qed.

Lemma receive_message_wp s lc fd a delim msg evs Q :
  conn_open s lc fd a -> malloc_succeeds L ->
  p_in s !! fd = Some ((RecvByte <$> msg) ++ RecvByte delim :: evs) -> (delim ∉ msg) -> zlen msg < 2 ^ 30 ->
  (forall l rest, p_heap s !! l = None ->
     Q (true, PLoc l) (recv_state s fd evs l (msg ++ NUL :: rest) (p_heap s))) ->
  wp (tcp_connection_receive_message (PLoc lc) delim) Q s.
Proof.
  intros Hopen Hm Hin Hd Hlen HQ. eapply receive_wp; [done..|].
  intros fuel l bs Hl Hb. eapply recv_loop_delim; [done..|]. by apply HQ.
Qed.

Lemma receive_end_wp s lc fd a delim pre ev evs Q :
  conn_open s lc fd a -> malloc_succeeds L ->
  p_in s !! fd = Some ((RecvByte <$> pre) ++ ev :: evs) -> (delim ∉ pre) -> zlen pre < 2 ^ 30 ->
  ev = RecvEof \/ ev = RecvErr ->
  Q (false, PNull) (closed_by ev a fd lc (set_in (<[fd := after_event ev evs]> (p_in s)) s)) ->
  wp (tcp_connection_receive_message (PLoc lc) delim) Q s.
Proof.
  intros Hopen Hm Hin Hd Hlen Hev HQ. eapply receive_wp; [done..|].
  intros fuel l bs Hl Hb. eapply recv_loop_end; [done..|].
  assert (set_heap (p_heap s) s = s) as -> by by destruct s. done.
Qed.
End receive.
