(* ===== verification/TcpSend.v ===== *)
(** Sending, and the life of a connection object.

    [send_state s fd bs d] is the process [s] after [bs] was sent on [fd], with the
    device in state [d]. *)

From S2P Require Import Prelude CMonad KHeap Libc DeviceSpec FileDev Process TcpConnection TcpReceive.
Local Open Scope Z_scope.
Local Open Scope cmonad_scope.

Section send.
Context `{FD : FileDev} {L : Libc} {N : Sockets} {St : Stdio}.

Definition add_out (fd : Z) (bs : bytes) (s : proc) : proc :=
  set_out (<[fd := out_of s fd ++ bs]> (p_out s)) s.
Definition send_state (s : proc) (fd : Z) (bs : bytes) (d : dev) : proc :=
  set_dev d (if bool_decide (bs = []) then s else add_out fd bs s).

Lemma set_dev_id s : set_dev (p_dev s) s = s.
Proof. by destruct s. Qed.

Lemma send_state_nil s fd d : send_state s fd [] d = set_dev d s.
Proof. done. Qed.

Lemma send_state_out s fd bs d : out_of (send_state s fd bs d) fd = out_of s fd ++ bs.
Proof.
  unfold send_state. case_bool_decide as E; [by rewrite E, app_nil_r|].
  unfold out_of, add_out. simpl. by rewrite lookup_insert_eq.
Qed.

Lemma send_state_out_ne s fd bs d fd' : fd' <> fd -> out_of (send_state s fd bs d) fd' = out_of s fd'.
Proof.
  intros. unfold send_state. case_bool_decide; [done|].
  unfold out_of, add_out. simpl. by rewrite lookup_insert_ne.
Qed.

(** Two sends are one. *)
Lemma send_state_app s fd b1 b2 d1 d2 :
  send_state (send_state s fd b1 d1) fd b2 d2 = send_state s fd (b1 ++ b2) d2.
Proof.
  unfold send_state. destruct b1 as [|c b1], b2 as [|c' b2]; simpl; try done.
  - by rewrite app_nil_r.
  - unfold add_out, set_out, set_dev, out_of. simpl.
    rewrite lookup_insert_eq, insert_insert_eq. simpl. by rewrite <- app_assoc.
Qed.

Lemma send_state_same s fd bs d :
  p_heap (send_state s fd bs d) = p_heap s /\ p_conns (send_state s fd bs d) = p_conns s /\
  p_fds (send_state s fd bs d) = p_fds s /\ p_in (send_state s fd bs d) = p_in s /\
  p_dev (send_state s fd bs d) = d.
Proof. unfold send_state. by case_bool_decide. Qed.

Lemma conn_open_send s fd bs d lc fd' a : conn_open s lc fd' a -> conn_open (send_state s fd bs d) lc fd' a.
Proof. unfold conn_open. destruct (send_state_same s fd bs d) as (_ & -> & -> & _). done. Qed.

(** *** Sending a buffer *)

(** The connection at [lc] has the open socket [fd]; sending does not look at [is_open]. *)
Definition conn_sock (s : proc) (lc : loc) (fd : Z) : Prop :=
  (exists c, p_conns s !! lc = Some c /\ c_socket c = fd) /\ fd ∈ p_fds s.

Lemma conn_open_sock s lc fd a : conn_open s lc fd a -> conn_sock s lc fd.
Proof. intros [Hc Hf]. split; [by eexists|done]. Qed.

Lemma conn_sock_send s fd bs d lc fd' : conn_sock s lc fd' -> conn_sock (send_state s fd bs d) lc fd'.
Proof. unfold conn_sock. destruct (send_state_same s fd bs d) as (_ & -> & -> & _). done. Qed.

Lemma send_message_ok s lc fd bs Q :
  conn_sock s lc fd -> net_reliable N -> bs <> [] ->
  Q true (send_state s fd bs (p_dev s)) ->
  wp (tcp_connection_send_message (PLoc lc) bs) Q s.
Proof.
  intros [(c & Hc & <-) Hfd] Hn Hbs HQ. unfold tcp_connection_send_message, get_conn. wp_steps.
  eapply wp_opt; [done|]. wp_steps. unfold do_send. wp_steps.
  rewrite bool_decide_true, Hn by done. wp_steps. pose proof (zlen_nonneg bs).
  rewrite (proj2 (Z.eqb_neq _ _)) by lia. simpl.
  rewrite zlen_to_nat, firstn_all. unfold send_state in HQ.
  rewrite bool_decide_false in HQ by done.
  replace (set_dev (p_dev s) (add_out (c_socket c) bs s)) with (add_out (c_socket c) bs s) in HQ; [exact HQ|by destruct s].
Qed.

(** *** Sending a file *)

Context {FDL : FileDevLaws FD}.

(** One round sends what one read gives, and ends the loop exactly at the end of the file. *)
Lemma send_file_round_wp s lc fd f pos st ps Q :
  conn_sock s lc fd -> net_reliable N ->
  dev_is (p_dev s) st ps -> ps !! f = Some pos -> 0 <= pos ->
  (forall d, let bs := d_read st pos 4096 in
     dev_is d st (<[f := pos + zlen bs]> ps) ->
     (if bool_decide (bs = []) then Q (Some true) (send_state s fd bs d)
      else Q None (send_state s fd bs d))) ->
  wp (send_file_round (PLoc lc) f) Q s.
Proof.
  intros Hopen Hn Hdev Hf Hpos HQ. unfold send_file_round, do_read. wp_steps.
  destruct (dev_read_spec (p_dev s) st ps f pos 4096 Hdev Hf Hpos ltac:(lia)) as (d & Hd & Hd').
  rewrite Hd. wp_steps. specialize (HQ d Hd'). simpl in HQ.
  set (bs := d_read st pos 4096) in *. pose proof (zlen_nonneg bs). case_bool_decide as Hbs.
  - rewrite Hbs in *. simpl. wp_steps. by rewrite <- (send_state_nil s fd).
  - rewrite (proj2 (Z.ltb_lt _ _)) by by apply zlen_pos. wp_steps.
    eapply send_message_ok; [done..|]. wp_steps. change (p_dev (set_dev d s)) with d.
    replace (send_state (set_dev d s) fd bs d) with (send_state s fd bs d)
      by (unfold send_state; by case_bool_decide).
    exact HQ.
Qed.

(** An empty read is the end of the contents. *)
Lemma d_read_nil st pos n : 0 <= pos -> 0 < n -> d_read st pos n = [] -> drop (Z.to_nat pos) (d_content st) = [].
Proof.
  intros Hpos Hn E. destruct (decide (pos < d_size st)) as [Hp|Hp].
  - by destruct (d_read_progress st pos n (conj Hpos Hp) Hn).
  - apply drop_ge. unfold d_size, zlen in Hp. lia.
Qed.

(** One round of reads for each byte left is enough fuel, and one for the end. *)
Lemma send_file_wp fuel : forall s lc fd a f pos st ps Q,
  conn_open s lc fd a -> net_reliable N ->
  dev_is (p_dev s) st ps -> ps !! f = Some pos -> 0 <= pos ->
  zlen (drop (Z.to_nat pos) (d_content st)) < Z.of_nat fuel ->
  (forall d pos', dev_is d st (<[f := pos']> ps) ->
     Q true (send_state s fd (drop (Z.to_nat pos) (d_content st)) d)) ->
  wp (tcp_connection_send_file fuel (PLoc lc) f) Q s.
Proof.
  induction fuel as [|fuel IH]; intros s lc fd a f pos st ps Q Hopen Hn Hdev Hf Hpos Hfuel HQ.
  { pose proof (zlen_nonneg (drop (Z.to_nat pos) (d_content st))). lia. }
  simpl. wp_steps. eapply send_file_round_wp; [by eapply conn_open_sock|done..|]. intros d bs Hd.
  pose proof (d_read_rest st pos 4096 Hpos) as Hrest. fold bs in Hrest. pose proof (zlen_nonneg bs).
  case_bool_decide as Hbs.
  - wp_steps. rewrite Hbs. rewrite (d_read_nil st pos 4096) in HQ by (done || lia). by eapply HQ.
  - eapply (IH _ lc fd a f (pos + zlen bs) st (<[f := pos + zlen bs]> ps)).
    + by apply conn_open_send.
    + done.
    + by destruct (send_state_same s fd bs d) as (_ & _ & _ & _ & ->).
    + by rewrite lookup_insert_eq.
    + lia.
    + rewrite Hrest, zlen_app in Hfuel. pose proof (zlen_pos bs Hbs). lia.
    + intros d' pos' Hd2. rewrite insert_insert_eq in Hd2. rewrite send_state_app, <- Hrest.
      by eapply HQ.
Qed.

(** *** Creating and destroying *)

Context {LL : LibcLaws L}.

(** Both allocations may fail; the second failure frees the first object. *)
Lemma create_any_wp socket addr s (Q : ptr -> proc -> Prop) :
  Q PNull s ->
  (forall lc la, p_conns s !! lc = None -> p_heap s !! la = None ->
     Q (PLoc lc) (set_conns (<[lc := TcpConnection socket (PLoc la) true]> (p_conns s))
                    (set_heap (<[la := addr ++ [NUL]]> (p_heap s)) s))) ->
  wp (tcp_connection_create socket addr) Q s.
Proof.
  intros Hnull HQ. pose proof (zlen_nonneg addr).
  unfold tcp_connection_create, malloc_conn, set_conn, do_strdup, do_malloc. wp_steps.
  destruct (malloc (p_conns s) 24) as [lc|] eqn:Hlc; [|by wp_steps].
  apply malloc_fresh in Hlc. wp_steps. rewrite is_null_loc. wp_steps. simpl p_heap.
  destruct (malloc (p_heap s) (zlen addr + 1)) as [la|] eqn:Hla.
  - apply malloc_fresh in Hla. wp_steps.
    unfold do_store. wp_steps. pose proof (uninit_length la (zlen addr + 1) ltac:(lia)) as Hu.
    eapply wp_lift.
    { apply (write_range_ok _ _ _ _ (uninit la (zlen addr + 1))); [apply lookup_insert_eq|lia|zlen_simp]. }
    wp_steps. rewrite is_null_loc. wp_steps.
    rewrite splice_full by (apply zlen_inj; rewrite Hu, zlen_app; reflexivity).
    unfold set_conns, set_heap in *. simpl in *. rewrite !insert_insert_eq. by apply HQ.
  - wp_steps. change (is_null PNull) with true. cbn iota. unfold free_conn. wp_steps. simpl p_conns.
    eapply wp_opt; [apply lookup_insert_eq|]. wp_steps. unfold set_conns. simpl.
    rewrite !insert_insert_eq, delete_insert_id by done. by destruct s.
Qed.

Lemma destroy_wp s lc fd la o addr Q :
  p_conns s !! lc = Some (TcpConnection fd (PLoc la) o) -> p_heap s !! la = Some addr ->
  Q tt (set_conns (delete lc (p_conns s)) (set_heap (delete la (p_heap s)) (set_fds (p_fds s ∖ {[fd]}) s))) ->
  wp (tcp_connection_destroy (PLoc lc)) Q s.
Proof.
  intros Hc Ha HQ. unfold tcp_connection_destroy, get_conn, do_close, do_free, set_conn, free_conn.
  rewrite is_null_loc. wp_steps. eapply wp_opt; [done|]. wp_steps. simpl c_client_address. cbn iota.
  wp_steps. eapply wp_opt; [done|]. wp_steps. simpl p_conns.
  eapply wp_opt; [apply lookup_insert_eq|]. wp_steps. simpl c_socket.
  unfold set_conns, set_heap, set_fds in *. simpl in *. by rewrite delete_insert_eq.
Qed.
End send.
