(* ===== verification/ReceiveSafety.v ===== *)
(** Receiving is memory safe whatever arrives and whatever allocations fail. *)

From S2P Require Import Prelude CMonad KHeap Libc DeviceSpec FileDev Process TcpConnection TcpReceive.
Local Open Scope Z_scope.
Local Open Scope cmonad_scope.

(** [str_at h l]: a live object that contains a string. *)
Definition str_at (h : heap) (l : loc) : Prop := exists bs, h !! l = Some bs /\ NUL ∈ bs.

Lemma str_at_read h l : str_at h l -> exists m, read_cstr h (PLoc l) = Done m.
Proof. intros (bs & Hl & Hn). simpl. rewrite Hl, bool_decide_true by done. by eexists. Qed.

Section receive_safety.
Context `{FD : FileDev} {L : Libc} {N : Sockets} {LL : LibcLaws L}.

(** An event that ends the function: the delimiter, the end of the stream or an error. *)
Definition ends_receive (delim : char) (ev : recv_event) : bool :=
  match ev with RecvByte c => bool_decide (c = delim) | _ => true end.

(** With [evs] to read, receiving waits if none of them ends it, or finds no memory and aborts. *)
Definition receive_faults (delim : char) (evs : list recv_event) (f : fault) : Prop :=
  f = Blocked /\ Forall (fun ev => ends_receive delim ev = false) evs \/ f = Aborted /\ ~ malloc_succeeds L.

(** The first event that ends it, behind the bytes [pre]. *)
Definition ended (delim : char) (evs : list recv_event) : Prop :=
  exists pre ev rest, evs = (RecvByte <$> pre) ++ ev :: rest /\ (delim ∉ pre) /\ ends_receive delim ev = true.

Lemma ended_here delim ev evs : ends_receive delim ev = true -> ended delim (ev :: evs).
Proof. intros He. exists [], ev, evs. split; [done|]. split; [by apply not_elem_of_nil|done]. Qed.
Lemma ended_later delim ch evs : ch <> delim -> ended delim evs -> ended delim (RecvByte ch :: evs).
Proof.
  intros Hne (pre & ev & rest & -> & Hp & He). exists (ch :: pre), ev, rest. split; [done|]. split; [|done].
  intros [<-|Hin]%elem_of_cons; [done|by apply Hp].
Qed.

(** The heap keeps what it had, the connection its socket and address; a message is a new string,
    and nothing else is new. *)
Definition received_ok (s : proc) (lc : loc) (c : tcp_connection) (r : bool * ptr) (s' : proc) : Prop :=
  (forall l, is_Some (p_heap s !! l) -> p_heap s' !! l = p_heap s !! l) /\
  (exists c', p_conns s' !! lc = Some c' /\ c_client_address c' = c_client_address c) /\
  (r.1 = true -> exists k, r.2 = PLoc k /\ p_heap s !! k = None /\ str_at (p_heap s') k) /\
  (forall l, is_Some (p_heap s' !! l) -> is_Some (p_heap s !! l) \/ r = (true, PLoc l)).

Lemma do_realloc_any s fd evs l bs h n Q :
  h !! l = None -> zlen bs <= n < 2 ^ 31 ->
  (~ malloc_succeeds L -> Q PNull (recv_state s fd evs l bs h)) ->
  (forall l' rest, h !! l' = None -> zlen (bs ++ rest) = n ->
     Q (PLoc l') (recv_state s fd evs l' (bs ++ rest) h)) ->
  wp (do_realloc (PLoc l) n) Q (recv_state s fd evs l bs h).
Proof.
  intros Hl Hn HQ0 HQ. unfold do_realloc. wp_steps. simpl p_heap. pose proof (zlen_nonneg bs).
  apply (wp_opt _ bs); [apply lookup_insert_eq|]. wp_steps. rewrite delete_insert_id by done.
  destruct (malloc h n) as [l'|] eqn:Hl'; wp_steps; [|apply HQ0; intros Hm; destruct (Hm _ h n ltac:(lia)); congruence].
  pose proof (uninit_length l' n ltac:(lia)) as Hu.
  assert (length (drop (length bs) (uninit l' n)) = (Z.to_nat n - length bs)%nat) as Hd.
  { rewrite length_drop. unfold zlen in Hu. lia. }
  rewrite take_ge by (rewrite length_app, Hd; unfold zlen in *; lia).
  apply HQ; [by eapply malloc_fresh|]. unfold zlen in *. rewrite length_app, Hd. lia.
Qed.

(** The buffer after one more byte, before the end of the room is looked at. *)
Lemma recv_round_bytes (F : fault -> Prop) s lc c delim ch evs l got bs Q :
  (~ malloc_succeeds L -> F Aborted) ->
  p_conns s !! lc = Some c -> c_socket c ∈ p_fds s -> p_heap s !! l = None -> buf_ok got bs ->
  zlen got + 1 < 2 ^ 30 ->
  (ch = delim -> Q (inl (true, PLoc l)) (recv_state s (c_socket c) evs l (got ++ NUL :: drop (S (length got)) bs) (p_heap s))) ->
  (forall l' bs', ch <> delim -> p_heap s !! l' = None -> buf_ok (got ++ [ch]) bs' ->
     Q (inr (PLoc l', zlen bs', zlen (got ++ [ch]))) (recv_state s (c_socket c) evs l' bs' (p_heap s))) ->
  wsp F (recv_round (PLoc lc) delim (PLoc l) (zlen bs) (zlen got)) Q
     (recv_state s (c_socket c) (RecvByte ch :: evs) l bs (p_heap s)).
Proof.
  intros HF Hc Hfd Hl Hb Hlen HQ1 HQ2. unfold recv_round, get_conn. pose proof (zlen_nonneg got).
  wsp_steps. simpl p_conns. eapply wsp_opt; [done|]. wsp_steps.
  eapply wsp_mono.
  { apply wsp_wp, (do_recv_byte s (c_socket c) ch evs l bs (p_heap s) got
      (fun r s' => r = 1 /\ s' = recv_state s (c_socket c) evs l (got ++ ch :: drop (S (length got)) bs) (p_heap s)));
      [done|done|done]. }
  intros r s' [-> ->]. simpl. set (rest := drop _ bs) in *. wsp_steps.
  eapply wsp_mono.
  { apply wsp_wp, (do_load_received s (c_socket c) evs l got ch rest (p_heap s)
      (fun r s' => r = ch /\ s' = recv_state s (c_socket c) evs l (got ++ ch :: rest) (p_heap s))). done. }
  intros ch' s' [-> ->]. destruct Hb as [Hp Hr Hs].
  assert (length bs = S (length got) + length rest)%nat as Hlb.
  { unfold rest. rewrite length_drop. unfold zlen in *. lia. }
  assert (zlen (got ++ [ch]) = zlen got + 1) as Hg by (rewrite zlen_app; reflexivity).
  case_bool_decide as Hd.
  - wsp_steps. unfold do_store. wsp_steps. pose proof (zlen_nonneg rest). eapply wsp_lift.
    { apply (write_range_ok _ _ _ _ (got ++ ch :: rest)); [apply lookup_insert_eq|lia|zlen_simp]. }
    wsp_steps. rewrite zlen_to_nat, splice_one; [|apply take_length_app|zlen_simp].
    replace (drop (S (length got)) (got ++ ch :: rest)) with rest.
    + unfold recv_state, set_in, set_heap in *. simpl in *. rewrite insert_insert_eq. by apply HQ1.
    + rewrite drop_app_ge by lia. by replace (S (length got) - length got)%nat with 1%nat by lia.
  - assert (got ++ ch :: rest = (got ++ [ch]) ++ rest) as -> by by rewrite <- app_assoc.
    unwrap. destruct (Z.eqb_spec (zlen got + 1) (zlen bs)) as [Heq|Hneq].
    + unwrap. wsp_steps.
      assert (rest = []) as -> by (apply nil_length_inv; unfold zlen in *; lia). rewrite app_nil_r.
      eapply wsp_mono; [apply wsp_wp, (do_realloc_any _ _ _ _ _ _ _ (fun p s' =>
        p = PNull /\ ~ malloc_succeeds L \/ exists l' rest', p = PLoc l' /\ p_heap s !! l' = None /\
          zlen ((got ++ [ch]) ++ rest') = zlen bs * 2 /\
          s' = recv_state s (c_socket c) evs l' ((got ++ [ch]) ++ rest') (p_heap s)));
        [done|lia|by intros; left|by intros l' rest' Hl' Hz; right; exists l', rest']|].
      intros p s' [[-> Hno]|(l' & rest' & -> & Hl' & Hz & ->)]; wsp_steps; [by apply HF|].
      apply (wsp_ret tt). cbn beta. wsp_steps. rewrite <- Hg, <- Hz. apply HQ2; [done|done|].
      split; [apply take_length_app|lia|lia].
    + wsp_steps. assert (zlen bs = zlen ((got ++ [ch]) ++ rest)) as Hz.
      { rewrite zlen_app. unfold zlen in *. rewrite length_app in *. simpl in *. lia. }
      rewrite <- Hg, Hz. apply HQ2; [done|done|]. split; [apply take_length_app|lia|lia].
Qed.

(** The loop, for any events. *)
Lemma recv_loop_safe s lc c delim evs : forall fuel l got bs,
  p_conns s !! lc = Some c -> c_socket c ∈ p_fds s -> p_heap s !! l = None -> buf_ok got bs ->
  zlen got + zlen evs < 2 ^ 30 -> (length evs < fuel)%nat ->
  wsp (receive_faults delim evs) (recv_loop fuel (PLoc lc) delim (PLoc l) (zlen bs) (zlen got))
     (fun r s' => received_ok s lc c r s' /\ ended delim evs) (recv_state s (c_socket c) evs l bs (p_heap s)).
Proof.
  induction evs as [|ev evs IH]; intros [|fuel] l got bs Hc Hfd Hl Hb Hlen Hfuel; simpl in Hfuel; try lia; cbn [recv_loop].
  - unfold recv_round, get_conn, do_recv. wsp_steps. eapply wsp_opt; [done|]. wsp_steps. simpl p_fds.
    rewrite bool_decide_true by done. unfold in_of. simpl p_in. rewrite lookup_insert_eq. left. by split.
  - rewrite zlen_cons in Hlen. pose proof (zlen_nonneg evs). wsp_steps. destruct ev as [ch| |].
    + apply (recv_round_bytes _ s); try done; [by right|lia| |].
      * intros ->. wsp_steps. split; [|by apply ended_here, bool_decide_eq_true_2]. split_and!.
        -- intros l' [b Hl']. simpl. rewrite lookup_insert_ne; [done|]. intros ->. congruence.
        -- by exists c.
        -- intros _. exists l. split; [done|]. split; [done|]. eexists. simpl. rewrite lookup_insert_eq.
           split; [done|]. apply elem_of_app. right. left.
        -- intros l'. simpl. rewrite lookup_insert. case_decide; [subst; by right|by left].
      * intros l' bs' Hd Hl' Hb'.
        eapply (wsp_mono _ (fun r s' => received_ok s lc c r s' /\ ended delim evs)); [|intros r s' [Hok He]; split; [exact Hok|by apply ended_later]].
        eapply wsp_weaken; [|apply IH; try done; [|lia]].
        -- intros f [[-> HF]|?]; [left|by right]. split; [done|]. constructor; [by apply bool_decide_eq_false_2|done].
        -- rewrite zlen_app. unfold zlen at 2. simpl. lia.
    + unfold recv_round, get_conn, do_recv. wsp_steps. eapply wsp_opt; [done|]. wsp_steps. simpl p_fds.
      rewrite bool_decide_true by done. unfold in_of. simpl p_in. rewrite lookup_insert_eq. simpl. wsp_steps.
      cbn [Z.ltb Z.eqb Z.compare]. unfold set_conn, do_free. wsp_steps. simpl p_heap.
      eapply wsp_opt; [apply lookup_insert_eq|]. wsp_steps. rewrite delete_insert_id by done.
      split; [|by apply ended_here]. split_and!; [done| |done|by left]. simpl. rewrite lookup_insert_eq. by eexists.
    + unfold recv_round, get_conn, do_recv. wsp_steps. eapply wsp_opt; [done|]. wsp_steps. simpl p_fds.
      rewrite bool_decide_true by done. unfold in_of. simpl p_in. rewrite lookup_insert_eq. simpl. wsp_steps.
      cbn [Z.ltb Z.eqb Z.compare]. unfold do_free. wsp_steps. simpl p_heap.
      eapply wsp_opt; [apply lookup_insert_eq|]. wsp_steps. rewrite delete_insert_id by done.
      split; [|by apply ended_here]. split_and!; [done| |done|by left]. by exists c.
Qed.

(** The function, with less than 2^30 events waiting. *)
Lemma receive_safe s lc c delim :
  p_conns s !! lc = Some c -> c_socket c ∈ p_fds s -> zlen (in_of s (c_socket c)) < 2 ^ 30 ->
  wsp (receive_faults delim (in_of s (c_socket c))) (tcp_connection_receive_message (PLoc lc) delim)
    (fun r s' => received_ok s lc c r s' /\ ended delim (in_of s (c_socket c))) s.
Proof.
  intros Hc Hfd Hlen. unfold tcp_connection_receive_message, do_malloc, get_conn. wsp_steps. apply (wsp_ret tt).
  wsp_steps. destruct (malloc (p_heap s) 1024) as [l|] eqn:Hl; wsp_steps.
  2: { right. split; [done|]. intros Hm. destruct (Hm _ (p_heap s) 1024 ltac:(lia)). congruence. }
  apply malloc_fresh in Hl. apply (wsp_ret tt). cbn beta. wsp_steps. simpl p_conns. eapply wsp_opt; [done|]. wsp_steps.
  pose proof (uninit_length l 1024 ltac:(lia)) as Hu. unfold in_of in Hlen |- *. simpl p_in.
  set (evs := default [] _) in *.
  destruct (p_in s !! c_socket c) as [evs'|] eqn:Hin; simpl in evs; subst evs.
  - set (bs := uninit l 1024) in *.
    assert (set_heap (<[l := bs]> (p_heap s)) s = recv_state s (c_socket c) evs' l bs (p_heap s)) as ->.
    { unfold recv_state. by rewrite <- (set_in_id s _ _ Hin) at 2. }
    rewrite <- Hu at 1. change 0 with (zlen (@nil char)). apply recv_loop_safe; try done; [|lia].
    split; [done| |by left]. rewrite Hu. change (zlen (@nil char)) with 0. lia.
  - cbn [recv_loop length]. unfold recv_round, get_conn, do_recv. wsp_steps. simpl p_conns. eapply wsp_opt; [done|]. wsp_steps.
    simpl p_fds. rewrite bool_decide_true by done. unfold in_of. simpl p_in. rewrite Hin. left. by split.
Qed.
End receive_safety.
