(* ===== verification/TcpProperties.v ===== *)
(** The TCP connection's theorems. *)

From S2P Require Import Prelude CMonad KHeap Libc DeviceSpec FileDev Process TcpConnection TcpReceive TcpSend.
Local Open Scope Z_scope.

(** C17: receiving a message from a stream that contains the delimiter returns true and a
    fresh buffer that holds the bytes before the first delimiter and a terminating NUL,
    takes exactly those bytes and the delimiter off the stream, and changes nothing else:
    the growth of the buffer by doubling leaves no object behind and never writes
    outside one. When the stream ends, or [recv] fails, before a delimiter, it returns false
    and a NULL message, frees the buffer however often it had grown, and leaves the
    memory as it was; an end of stream also marks the connection closed, an error
    leaves it open. *)
Theorem receive_message_correct (FD : FileDev) (L : Libc) (LL : LibcLaws L) s lc fd a delim msg ev evs :
  conn_open s lc fd a -> malloc_succeeds L -> (delim ∉ msg) -> zlen msg < 2 ^ 30 ->
  p_in s !! fd = Some ((RecvByte <$> msg) ++ ev :: evs) ->
  (ev = RecvByte delim ->
     exists l rest, let s' := recv_state s fd evs l (msg ++ NUL :: rest) (p_heap s) in
       tcp_connection_receive_message (PLoc lc) delim s = Done ((true, PLoc l), s') /\
       p_heap s !! l = None /\ read_cstr (p_heap s') (PLoc l) = Done (cstr msg)) /\
  (ev = RecvEof \/ ev = RecvErr ->
     exists s', tcp_connection_receive_message (PLoc lc) delim s = Done ((false, PNull), s') /\
       p_heap s' = p_heap s /\ p_fds s' = p_fds s /\ p_out s' = p_out s /\ p_dev s' = p_dev s /\
       p_in s' = <[fd := after_event ev evs]> (p_in s) /\
       p_conns s' = match ev with
                    | RecvEof => <[lc := TcpConnection fd a false]> (p_conns s)
                    | _ => p_conns s
                    end).
Proof.
  intros Hopen Hm Hd Hlen Hin. split; [intros ->|intros Hev].
  - assert (wp (tcp_connection_receive_message (PLoc lc) delim) (fun r s' => exists l rest,
              r = (true, PLoc l) /\ s' = recv_state s fd evs l (msg ++ NUL :: rest) (p_heap s) /\
              p_heap s !! l = None) s) as Hwp.
    { eapply receive_message_wp; [done..|]. intros l rest Hl. by exists l, rest. }
    apply wp_Done in Hwp as (r & s' & Hrun & l & rest & -> & -> & Hl).
    exists l, rest. split; [done|]. split; [done|]. simpl. rewrite lookup_insert_eq.
    rewrite bool_decide_true by set_solver. by rewrite cstr_app_nul.
  - eexists. split.
    + apply wp_eq. eapply receive_end_wp; [done..|]. done.
    + destruct Hev as [-> | ->]; done.
Qed.

(** C18: on a network that takes all it is given, sending a file sends exactly the bytes
    of the device from the file's position to the end, in order, however the device
    cuts them into reads; it ends within one read for each byte and one more, and
    leaves the device's contents and the process's memory as they were. *)
Theorem send_file_complete (FD : FileDev) (FDL : FileDevLaws FD) (N : Sockets)
    fuel s lc fd a f pos st ps :
  conn_open s lc fd a -> net_reliable N ->
  dev_is (p_dev s) st ps -> ps !! f = Some pos -> 0 <= pos ->
  d_size st - pos < Z.of_nat fuel -> (0 < fuel)%nat ->
  exists s' pos', tcp_connection_send_file fuel (PLoc lc) f s = Done (true, s') /\
    out_of s' fd = out_of s fd ++ drop (Z.to_nat pos) (d_content st) /\
    (forall fd', fd' <> fd -> out_of s' fd' = out_of s fd') /\
    dev_is (p_dev s') st (<[f := pos']> ps) /\
    p_heap s' = p_heap s /\ p_conns s' = p_conns s /\ p_fds s' = p_fds s /\ p_in s' = p_in s.
Proof.
  intros Hopen Hn Hdev Hf Hpos Hfuel Hfuel0.
  assert (wp (tcp_connection_send_file fuel (PLoc lc) f) (fun r s' => exists d pos', r = true /\
            s' = send_state s fd (drop (Z.to_nat pos) (d_content st)) d /\
            dev_is d st (<[f := pos']> ps)) s) as Hwp.
  { eapply send_file_wp; [done..| |].
    - unfold d_size, zlen in *. rewrite length_drop. lia.
    - intros d pos' Hd. by exists d, pos'. }
  apply wp_Done in Hwp as (r & s' & Hrun & d & pos' & -> & -> & Hd).
  eexists _, pos'. split; [exact Hrun|]. split; [apply send_state_out|].
  split; [by intros; apply send_state_out_ne|].
  destruct (send_state_same s fd (drop (Z.to_nat pos) (d_content st)) d) as (? & ? & ? & ? & Hdd).
  rewrite Hdd. by split_and!.
Qed.

(** C36: sending on an open connection: what [send] takes is sent, and a [send] that takes only a
    part counts as success, so that the rest of the message is never sent; a failed one is
    reported and sends nothing; and sending to a peer that has closed its end does not
    return, since the server neither ignores SIGPIPE nor passes MSG_NOSIGNAL. *)
Theorem send_message_cases (FD : FileDev) (N : Sockets) s lc fd a bs :
  conn_open s lc fd a ->
  match sock_send fd (out_of s fd) bs with
  | Sent n => 0 <= n <= zlen bs ->
      exists s', tcp_connection_send_message (PLoc lc) bs s = Done (true, s') /\
        s' = set_out (<[fd := out_of s fd ++ take (Z.to_nat n) bs]> (p_out s)) s /\
        (out_of s' fd = out_of s fd ++ bs <-> n = zlen bs)
  | SendFailed => tcp_connection_send_message (PLoc lc) bs s = Done (false, s)
  | SendPipe => tcp_connection_send_message (PLoc lc) bs s = Fault Exited
  end.
Proof.
  intros [Hc Hfd]. unfold tcp_connection_send_message, get_conn, do_send, bind, mget, mopt, ret.
  rewrite Hc. simpl. rewrite bool_decide_true by done.
  destruct (sock_send fd (out_of s fd) bs) as [n| |]; [|done|done]. intros Hn.
  simpl. rewrite (proj2 (Z.eqb_neq _ _)) by lia. eexists. split; [done|]. split; [done|].
  unfold out_of at 1. simpl. rewrite lookup_insert_eq. simpl. split.
  - intros E%app_inv_head. apply (f_equal length) in E. rewrite length_take in E. unfold zlen in *. lia.
  - intros ->. by rewrite zlen_to_nat, firstn_all.
Qed.

(** Whatever allocations fail, creating a connection does not fault and either returns
    an open connection with its socket and a copy of the address, as the only two new
    objects, or returns NULL with the process exactly as it was. *)
Theorem create_connection_correct (FD : FileDev) (L : Libc) (LL : LibcLaws L) s socket addr :
  exists p s', tcp_connection_create socket addr s = Done (p, s') /\
    ((p = PNull /\ s' = s) \/
     exists lc la, p = PLoc lc /\ p_conns s !! lc = None /\ p_heap s !! la = None /\
       s' = set_conns (<[lc := TcpConnection socket (PLoc la) true]> (p_conns s))
              (set_heap (<[la := addr ++ [NUL]]> (p_heap s)) s)).
Proof.
  apply (wp_Done _ (fun p s' => (p = PNull /\ s' = s) \/ _)). apply create_any_wp; [by left|].
  intros lc la Hlc Hla. right. by exists lc, la.
Qed.

(** Destroying a connection undoes its creation: the process is as it was before,
    except that the socket is closed. *)
Theorem create_destroy_connection (FD : FileDev) (L : Libc) (LL : LibcLaws L) s socket addr lc s' :
  tcp_connection_create socket addr s = Done (PLoc lc, s') ->
  tcp_connection_destroy (PLoc lc) s' = Done (tt, set_fds (p_fds s ∖ {[socket]}) s).
Proof.
  intros Hrun. assert (wp (tcp_connection_create socket addr) (fun p s' => forall lc, p = PLoc lc ->
    wp (tcp_connection_destroy (PLoc lc)) (fun _ t => t = set_fds (p_fds s ∖ {[socket]}) s) s') s) as Hwp.
  { apply create_any_wp; [done|]. intros lc' la Hlc Hla lc'' [= <-].
    eapply destroy_wp; simpl; [apply lookup_insert_eq..|].
    unfold set_conns, set_heap, set_fds. simpl. by rewrite !delete_insert_id. }
  apply (wp_run _ _ _ _ _ Hrun) in Hwp. specialize (Hwp lc eq_refl).
  apply wp_Done in Hwp as ([] & t & -> & ->). done.
Qed.

(** ** Witnesses *)

(** One connection on socket 4, with the line "hello" about to arrive, and a device with
    one command that is open at position 1. *)
Definition sample_addr : bytes := str "127.0.0.1".
Definition sample_msg : bytes := str "hello".
Definition sample_dstate : dstate := DState [str "abc" ++ [NL]] [].
Definition sample_proc (evs : list recv_event) : proc :=
  Proc spec_dev {[1%positive := sample_addr ++ [NUL]]}
    {[1%positive := TcpConnection 4 (PLoc 1) true]} {[4]} {[4 := evs]} ∅
    (sample_dstate, {[3 := 1]}).

Lemma sample_conn_open evs : conn_open (sample_proc evs) 1 4 (PLoc 1).
Proof. split; [done|]. simpl. set_solver. Qed.

Lemma sample_dstate_ok : dstate_ok spec_max sample_dstate.
Proof.
  split; simpl; [lia| |by split].
  constructor; [|constructor]. split; [done|vm_compute; congruence].
Qed.

Lemma sample_dev_is evs : dev_is (p_dev (sample_proc evs)) sample_dstate {[3 := 1]}.
Proof. split; [done|apply sample_dstate_ok]. Qed.

Lemma receive_message_correct_witness :
  (let s := sample_proc ((RecvByte <$> sample_msg) ++ [RecvByte NL; RecvEof]) in
   exists l rest, let s' := recv_state s 4 [RecvEof] l (sample_msg ++ NUL :: rest) (p_heap s) in
     tcp_connection_receive_message (PLoc 1) NL s = Done ((true, PLoc l), s') /\
     p_heap s !! l = None /\ read_cstr (p_heap s') (PLoc l) = Done (cstr sample_msg)) /\
  (let s := sample_proc ((RecvByte <$> sample_msg) ++ [RecvEof]) in
   exists s', tcp_connection_receive_message (PLoc 1) NL s = Done ((false, PNull), s') /\
     p_heap s' = p_heap s /\ p_fds s' = p_fds s /\ p_out s' = p_out s /\ p_dev s' = p_dev s /\
     p_in s' = <[4 := [RecvEof]]> (p_in s) /\
     p_conns s' = <[1%positive := TcpConnection 4 (PLoc 1) false]> (p_conns s)).
Proof.
  split; intros s.
  - apply (receive_message_correct spec_dev sample_libc sample_libc_laws s 1 4 (PLoc 1) NL sample_msg (RecvByte NL) [RecvEof]);
      [apply sample_conn_open|apply sample_malloc_succeeds|vm_compute; set_solver|vm_compute; reflexivity|reflexivity|done].
  - apply (receive_message_correct spec_dev sample_libc sample_libc_laws s 1 4 (PLoc 1) NL sample_msg RecvEof []);
      [apply sample_conn_open|apply sample_malloc_succeeds|vm_compute; set_solver|vm_compute; reflexivity|reflexivity|by left].
Defined.

Lemma send_file_complete_witness :
  exists s' pos', tcp_connection_send_file 5 (PLoc 1) 3 (sample_proc []) = Done (true, s') /\
    out_of s' 4 = str "bc" ++ [NL] /\
    (forall fd', fd' <> 4 -> out_of s' fd' = []) /\
    dev_is (p_dev s') sample_dstate (<[3 := pos']> {[3 := 1]}) /\
    p_heap s' = p_heap (sample_proc []) /\ p_conns s' = p_conns (sample_proc []) /\
    p_fds s' = {[4]} /\ p_in s' = {[4 := []]}.
Proof.
  apply (send_file_complete spec_dev spec_dev_laws sample_sockets 5 (sample_proc []) 1 4 (PLoc 1) 3 1
           sample_dstate {[3 := 1]});
    [apply sample_conn_open|apply sample_net_reliable|apply sample_dev_is|reflexivity|lia|vm_compute; reflexivity|lia].
Defined.

(** Networks that take two bytes at a time, and one whose peer is gone. *)
Definition slow_sockets : Sockets := fun fd out bs => Sent 2.
Definition closed_sockets : Sockets := fun fd out bs => SendPipe.

Lemma send_message_cases_witness :
  (exists s', tcp_connection_send_message (N := slow_sockets) (PLoc 1) sample_msg (sample_proc []) = Done (true, s') /\
    s' = set_out {[4 := str "he"]} (sample_proc []) /\ (out_of s' 4 = sample_msg <-> 2 = zlen sample_msg)) /\
  tcp_connection_send_message (N := closed_sockets) (PLoc 1) sample_msg (sample_proc []) = Fault Exited.
Proof.
  split.
  - apply (send_message_cases spec_dev slow_sockets (sample_proc []) 1 4 (PLoc 1) sample_msg);
      [apply sample_conn_open|vm_compute; split; congruence].
  - apply (send_message_cases spec_dev closed_sockets (sample_proc []) 1 4 (PLoc 1) sample_msg), sample_conn_open.
Defined.

Lemma create_connection_correct_witness :
  exists p s', tcp_connection_create 5 sample_addr (sample_proc []) = Done (p, s') /\
    ((p = PNull /\ s' = sample_proc []) \/
     exists lc la, p = PLoc lc /\ p_conns (sample_proc []) !! lc = None /\ p_heap (sample_proc []) !! la = None /\
       s' = set_conns (<[lc := TcpConnection 5 (PLoc la) true]> (p_conns (sample_proc [])))
              (set_heap (<[la := sample_addr ++ [NUL]]> (p_heap (sample_proc []))) (sample_proc []))).
Proof. exact (create_connection_correct spec_dev sample_libc sample_libc_laws (sample_proc []) 5 sample_addr). Defined.

Lemma create_destroy_connection_witness :
  tcp_connection_destroy (PLoc 2)
    (set_conns (<[2%positive := TcpConnection 5 (PLoc 2) true]> (p_conns (sample_proc [])))
       (set_heap (<[2%positive := sample_addr ++ [NUL]]> (p_heap (sample_proc []))) (sample_proc []))) =
  Done (tt, set_fds ({[4]} ∖ {[5]}) (sample_proc [])).
Proof.
  apply (create_destroy_connection spec_dev sample_libc sample_libc_laws (sample_proc []) 5 sample_addr 2).
  reflexivity.
Defined.
