(* ===== verification/SList.v ===== *)
(** Singly linked lists: the SLIST macros of [server/src/queue.h].

    The elements live in a store [m] by address; [SListEntry] gives the link field the
    macros' [field] argument selects. A head is a pointer value. A macro that
    assigns to a head or to links returns the new head and store. [slist m h xs] says
    that the list with head [h] is the NULL-terminated chain of the elements [xs].
    A loop of the macros follows the chain: the number of elements is enough fuel. *)

From S2P Require Import Prelude CMonad KHeap.

(** [SLIST_ENTRY]: the link field of an element type. *)
Class SListEntry (A : Type) := {
  sle_next : A -> ptr;
  set_sle_next : ptr -> A -> A;
  sle_next_set p a : sle_next (set_sle_next p a) = p;
  set_sle_next_twice p q a : set_sle_next p (set_sle_next q a) = set_sle_next p a;
}.

Section slist.
Context {A : Type} `{SListEntry A}.
Implicit Types m : gmap loc A.

(** [SLIST_HEAD]: the head is [slh_first]. *)
Definition SLIST_INIT : ptr := PNull.
Definition SLIST_EMPTY (head : ptr) : bool := is_null head.
Definition SLIST_FIRST (head : ptr) : ptr := head.

(** [*p] *)
Definition elem m (p : ptr) : outcome (loc * A) :=
  match p with
  | PLoc l => match m !! l with Some a => Done (l, a) | None => Fault BadAccess end
  | _ => Fault BadAccess
  end.
Definition SLIST_NEXT m (p : ptr) : outcome ptr :=
  match elem m p with Done (_, a) => Done (sle_next a) | Fault f => Fault f end.
(** [SLIST_NEXT(p) = q] *)
Definition assign_next m (p q : ptr) : outcome (gmap loc A) :=
  match elem m p with Done (l, a) => Done (<[l := set_sle_next q a]> m) | Fault f => Fault f end.

Definition SLIST_INSERT_HEAD m (head elm : ptr) : outcome (gmap loc A * ptr) :=
  match assign_next m elm (SLIST_FIRST head) with
  | Done m => Done (m, elm)
  | Fault f => Fault f
  end.
Definition SLIST_INSERT_AFTER m (slistelm elm : ptr) : outcome (gmap loc A) :=
  match SLIST_NEXT m slistelm with
  | Done next => match assign_next m elm next with
                 | Done m => assign_next m slistelm elm
                 | Fault f => Fault f
                 end
  | Fault f => Fault f
  end.
Definition SLIST_REMOVE_HEAD m (head : ptr) : outcome ptr := SLIST_NEXT m (SLIST_FIRST head).
Definition SLIST_REMOVE_AFTER m (elm : ptr) : outcome (gmap loc A) :=
  match SLIST_NEXT m elm with
  | Done next => match SLIST_NEXT m next with
                 | Done next2 => assign_next m elm next2
                 | Fault f => Fault f
                 end
  | Fault f => Fault f
  end.

(** [while (SLIST_NEXT(curelm) != stop) curelm = SLIST_NEXT(curelm);] *)
Fixpoint find_before (fuel : nat) m (curelm stop : ptr) : outcome ptr :=
  match fuel with
  | O => Fault OutOfFuel
  | S fuel =>
      match SLIST_NEXT m curelm with
      | Done next => if bool_decide (next = stop) then Done curelm else find_before fuel m next stop
      | Fault f => Fault f
      end
  end.
Definition SLIST_REMOVE m (head elm : ptr) : outcome (gmap loc A * ptr) :=
  if bool_decide (SLIST_FIRST head = elm) then
    match SLIST_REMOVE_HEAD m head with Done head => Done (m, head) | Fault f => Fault f end
  else
    match find_before (size m) m (SLIST_FIRST head) elm with
    | Done curelm => match SLIST_REMOVE_AFTER m curelm with
                     | Done m => Done (m, head)
                     | Fault f => Fault f
                     end
    | Fault f => Fault f
    end.

(** The store and the new first head; the second list becomes empty. *)
Definition SLIST_CONCAT m (head1 head2 : ptr) : outcome (gmap loc A * ptr * ptr) :=
  let curelm := SLIST_FIRST head1 in
  if is_null curelm then
    let head1 := SLIST_FIRST head2 in
    Done (m, head1, if is_null head1 then head2 else SLIST_INIT)
  else if is_null (SLIST_FIRST head2) then Done (m, head1, head2)
  else
    match find_before (size m) m curelm PNull with
    | Done last => match assign_next m last (SLIST_FIRST head2) with
                   | Done m => Done (m, head1, SLIST_INIT)
                   | Fault f => Fault f
                   end
    | Fault f => Fault f
    end.
Definition SLIST_SWAP (head1 head2 : ptr) : ptr * ptr := (SLIST_FIRST head2, SLIST_FIRST head1).

(** The elements a [SLIST_FOREACH] loop visits, if its body changes no links. *)
Fixpoint SLIST_FOREACH (fuel : nat) m (var : ptr) : outcome (list loc) :=
  match fuel with
  | O => Fault OutOfFuel
  | S fuel =>
      match var with
      | PNull => Done []
      | _ => match elem m var with
             | Done (l, a) => match SLIST_FOREACH fuel m (sle_next a) with
                              | Done ls => Done (l :: ls)
                              | Fault f => Fault f
                              end
             | Fault f => Fault f
             end
      end
  end.

(** *** The list a head represents *)

(** The chain from [p] through [xs] to [q]. *)
Fixpoint lseg m (p : ptr) (xs : list loc) (q : ptr) : Prop :=
  match xs with
  | [] => p = q
  | l :: xs => p = PLoc l /\ exists a, m !! l = Some a /\ lseg m (sle_next a) xs q
  end.
Definition slist m (head : ptr) (xs : list loc) : Prop := lseg m head xs PNull.

Lemma lseg_app m p xs ys q : lseg m p (xs ++ ys) q <-> exists r, lseg m p xs r /\ lseg m r ys q.
Proof.
  revert p. induction xs as [|l xs IH]; intros p; simpl.
  - split; [by exists p|]. by intros (r & <- & ?).
  - setoid_rewrite IH. naive_solver.
Qed.

(** The chain from a head is determined by the store. *)
Lemma slist_unique m p xs ys : slist m p xs -> slist m p ys -> xs = ys.
Proof.
  unfold slist. revert p ys. induction xs as [|l xs IH]; intros p [|l' ys]; simpl; naive_solver.
Qed.

Lemma slist_nil_inv m p : slist m p [] -> p = PNull.
Proof. done. Qed.

(** So a NULL-terminated chain visits no element twice. *)
Lemma slist_NoDup m p xs : slist m p xs -> NoDup xs.
Proof.
  revert p. induction xs as [|l xs IH]; intros p; [constructor|].
  intros Hs. pose proof Hs as (-> & a & Ha & Hx). constructor; [|by eapply IH].
  intros Hin. apply list_elem_of_split in Hin as (xs1 & xs2 & ->).
  apply lseg_app in Hx as (r & _ & Hr). pose proof Hr as [-> _].
  pose proof (slist_unique _ _ _ _ Hs Hr) as E. apply (f_equal length) in E.
  simpl in E. rewrite length_app in E. simpl in E. lia.
Qed.

Lemma slist_live m p xs l : slist m p xs -> l ∈ xs -> is_Some (m !! l).
Proof.
  unfold slist. revert p. induction xs as [|l' xs IH]; intros p; simpl; [set_solver|].
  intros (-> & a & Ha & Hx) [->|Hin]%elem_of_cons; [by eexists|eauto].
Qed.

(** Changing an element outside the chain keeps it. *)
Lemma lseg_insert m p xs q l a : (l ∉ xs) -> lseg m p xs q -> lseg (<[l := a]> m) p xs q.
Proof.
  revert p. induction xs as [|l' xs IH]; intros p Hl; simpl; [done|].
  apply not_elem_of_cons in Hl as [Hne Hl]. intros (-> & a' & Ha & Hx). split; [done|].
  exists a'. rewrite lookup_insert_ne by done. eauto.
Qed.

Lemma lseg_delete m p xs q l : (l ∉ xs) -> lseg m p xs q -> lseg (delete l m) p xs q.
Proof.
  revert p. induction xs as [|l' xs IH]; intros p Hl; simpl; [done|].
  apply not_elem_of_cons in Hl as [Hne Hl]. intros (-> & a' & Ha & Hx). split; [done|].
  exists a'. rewrite lookup_delete_ne by done. eauto.
Qed.

Lemma slist_size m p xs : slist m p xs -> length xs <= size m.
Proof.
  intros Hs. rewrite <- (size_dom m). rewrite <- (size_list_to_set (C := gset loc) xs).
  - apply subseteq_size. intros l. rewrite elem_of_list_to_set, elem_of_dom. by apply slist_live with (p := p).
  - by eapply slist_NoDup.
Qed.

(** *** The operations *)

(** Only the elements [es] may differ. *)
Record near (es : list loc) m m' : Prop := {
  nr_dom : dom m' = dom m;
  nr_out z : (z ∉ es) -> m' !! z = m !! z;
}.
Lemma near_refl es m : near es m m.
Proof. done. Qed.
Lemma near_insert es m m' l a : near es m m' -> l ∈ es -> is_Some (m' !! l) -> near es m (<[l := a]> m').
Proof.
  intros [Hd Ho] Hl Hs%elem_of_dom. split.
  - rewrite dom_insert_L, <- Hd. set_solver.
  - intros z Hz. rewrite lookup_insert_ne; [auto|]. by intros ->.
Qed.
Lemma near_weaken es es' m m' : near es m m' -> (forall z, z ∈ es -> z ∈ es') -> near es' m m'.
Proof. intros [] Hs. split; auto. Qed.

Lemma assign_next_ok m l a q : m !! l = Some a -> assign_next m (PLoc l) q = Done (<[l := set_sle_next q a]> m).
Proof. intros Ha. unfold assign_next. simpl. by rewrite Ha. Qed.
Lemma next_ok m l a : m !! l = Some a -> SLIST_NEXT m (PLoc l) = Done (sle_next a).
Proof. intros Ha. unfold SLIST_NEXT. simpl. by rewrite Ha. Qed.

Lemma SLIST_EMPTY_ok m p xs : slist m p xs -> SLIST_EMPTY p = bool_decide (xs = []).
Proof. destruct xs; simpl; [by intros ->|]. by intros (-> & _). Qed.

Lemma insert_head_ok m p xs l a :
  slist m p xs -> m !! l = Some a -> (l ∉ xs) ->
  SLIST_INSERT_HEAD m p (PLoc l) = Done (<[l := set_sle_next p a]> m, PLoc l) /\
  slist (<[l := set_sle_next p a]> m) (PLoc l) (l :: xs).
Proof.
  intros Hs Ha Hl. unfold SLIST_INSERT_HEAD, SLIST_FIRST. rewrite (assign_next_ok _ _ _ _ Ha).
  split; [done|]. split; [done|]. exists (set_sle_next p a). rewrite lookup_insert_eq, sle_next_set.
  split; [done|]. by apply lseg_insert.
Qed.

Lemma remove_head_ok m p l xs :
  slist m p (l :: xs) -> exists p', SLIST_REMOVE_HEAD m p = Done p' /\ slist m p' xs.
Proof.
  intros (-> & a & Ha & Hx). exists (sle_next a). unfold SLIST_REMOVE_HEAD, SLIST_FIRST.
  by rewrite (next_ok _ _ _ Ha).
Qed.

Lemma insert_after_ok m p xs l ys l' a' :
  slist m p (xs ++ l :: ys) -> m !! l' = Some a' -> (l' ∉ xs ++ l :: ys) ->
  exists m', SLIST_INSERT_AFTER m (PLoc l) (PLoc l') = Done m' /\ slist m' p (xs ++ l :: l' :: ys) /\ near [l; l'] m m'.
Proof.
  intros Hs Ha' Hl'. pose proof (slist_NoDup _ _ _ Hs) as Hnd.
  apply lseg_app in Hs as (r & Hx & -> & a & Ha & Hy).
  apply not_elem_of_app in Hl' as [Hx' [Hne Hy']%not_elem_of_cons].
  apply NoDup_app in Hnd as (_ & Hdis & [Hly _]%NoDup_cons).
  assert (l ∉ xs) as Hlx by (intros ?; eapply Hdis; [done|left]).
  unfold SLIST_INSERT_AFTER. rewrite (next_ok _ _ _ Ha), (assign_next_ok _ _ _ _ Ha').
  rewrite (assign_next_ok _ l a) by by rewrite lookup_insert_ne.
  eexists. split; [done|]. split.
  2: { apply near_insert; [apply near_insert; [done|set_solver|by eexists]|set_solver|]. rewrite lookup_insert_ne by done. by eexists. }
  apply lseg_app. exists (PLoc l). split.
  - by do 2 (apply lseg_insert; [done|]).
  - simpl. split; [done|]. exists (set_sle_next (PLoc l') a). rewrite lookup_insert_eq, sle_next_set.
    split; [done|]. split; [done|]. exists (set_sle_next (sle_next a) a').
    rewrite lookup_insert_ne, lookup_insert_eq, sle_next_set by done. split; [done|].
    by do 2 (apply lseg_insert; [done|]).
Qed.

(** The search stops at the element before the one sought. *)
Lemma find_before_ok m fuel xs l q p :
  lseg m p (xs ++ [l]) q -> (q ∉ PLoc <$> (xs ++ [l])) -> length xs < fuel ->
  find_before fuel m p q = Done (PLoc l).
Proof.
  revert fuel p. induction xs as [|l' xs IH]; intros [|fuel] p Hs Hq Hf; simpl in *; try lia.
  - destruct Hs as (-> & a & Ha & Hn). rewrite (next_ok _ _ _ Ha), bool_decide_true; done.
  - destruct Hs as (-> & a & Ha & Hn). rewrite (next_ok _ _ _ Ha).
    apply not_elem_of_cons in Hq as [Hne Hq]. rewrite bool_decide_false.
    + apply IH; [done|done|lia].
    + intros E. apply Hq. destruct xs; simpl in Hn; destruct Hn as [Hn _]; rewrite <- E, Hn; left.
Qed.

Lemma slist_app_next m p xs l q r ys :
  lseg m p (xs ++ [l]) q -> (l ∉ xs) -> (l ∉ ys) ->
  (forall l', l' ∈ xs ++ [l] -> l' ∉ ys) -> slist m r ys ->
  exists m', assign_next m (PLoc l) r = Done m' /\ slist m' p (xs ++ l :: ys) /\ near [l] m m'.
Proof.
  intros (r' & Hx & -> & a & Ha & Hq)%lseg_app Hl Hly Hdis Hr. simpl in Hq.
  rewrite (assign_next_ok _ _ _ _ Ha). eexists. split; [done|].
  split; [|apply near_insert; [done|left|by eexists]]. apply lseg_app. exists (PLoc l). split; [by apply lseg_insert|]. split; [done|].
  exists (set_sle_next r a). rewrite lookup_insert_eq, sle_next_set. split; [done|]. by apply lseg_insert.
Qed.

Lemma ploc_notin l (xs : list loc) : (l ∉ xs) -> (PLoc l ∉ PLoc <$> xs).
Proof. intros Hl [l' [[= <-] ?]]%list_elem_of_fmap. done. Qed.

Lemma null_notin (xs : list loc) : PNull ∉ PLoc <$> xs.
Proof. intros [l [? _]]%list_elem_of_fmap. done. Qed.

Lemma remove_after_ok m h xs k l ys :
  slist m h (xs ++ k :: l :: ys) ->
  exists m', SLIST_REMOVE_AFTER m (PLoc k) = Done m' /\ slist m' h (xs ++ k :: ys) /\ near [k] m m'.
Proof.
  intros Hs. pose proof (slist_NoDup _ _ _ Hs) as Hnd. rewrite cons_middle, app_assoc in Hs.
  apply lseg_app in Hs as (r & Hx & -> & a & Ha & Hy).
  apply NoDup_app in Hnd as (_ & Hdis & Hnd). apply NoDup_cons in Hnd as [Hk Hnd]. apply not_elem_of_cons in Hk as [Hkl Hky].
  pose proof Hx as Hx'. apply lseg_app in Hx' as (r' & _ & -> & b & Hb & Hn). simpl in Hn.
  unfold SLIST_REMOVE_AFTER. rewrite (next_ok _ _ _ Hb), Hn, (next_ok _ _ _ Ha).
  apply (slist_app_next m h xs k (PLoc l) (sle_next a) ys); [done|intros ?; eapply Hdis; [done|left]|done| |done].
  intros l' [Hin|Hin]%elem_of_app Hy'; [apply (Hdis l' Hin)|]; set_solver.
Qed.

(** SLIST_REMOVE of an element of a list, first, last or in between, unlinks exactly that element
    and keeps the order of the others; its search ends and never follows a NULL link. *)
Lemma slist_remove_ok m h xs l ys :
  slist m h (xs ++ l :: ys) ->
  exists m' h', SLIST_REMOVE m h (PLoc l) = Done (m', h') /\ slist m' h' (xs ++ ys) /\ near xs m m'.
Proof.
  intros Hs. pose proof (slist_NoDup _ _ _ Hs) as Hnd. pose proof (slist_size _ _ _ Hs) as Hsz.
  unfold SLIST_REMOVE, SLIST_FIRST. destruct (lastn_cases xs) as [->|(xs' & k & ->)].
  - destruct (remove_head_ok _ _ _ _ Hs) as (p' & Hp' & Hys). destruct Hs as [-> _].
    rewrite bool_decide_true, Hp' by done. by exists m, p'.
  - rewrite <- app_assoc in Hs. simpl in Hs. destruct (remove_after_ok _ _ _ _ _ _ Hs) as (m' & Hm' & Hs' & Hnear).
    rewrite cons_middle, app_assoc in Hs. apply lseg_app in Hs as (r & Hx & -> & _).
    assert (l ∉ xs' ++ [k]) as Hlx by (apply NoDup_app in Hnd as (_ & Hdis & _); intros Hin; apply (Hdis l Hin); left).
    rewrite bool_decide_false.
    2: { intros ->. destruct xs'; simpl in Hx; destruct Hx as [[= ->] _]; set_solver. }
    rewrite (find_before_ok _ _ xs' k (PLoc l));
      [|done|by apply ploc_notin|rewrite !length_app in Hsz; simpl in Hsz; lia].
    rewrite Hm'. eexists m', h. split; [done|]. split; [by rewrite <- app_assoc|].
    eapply near_weaken; [done|]. clear. set_solver.
Qed.

(** SLIST_CONCAT of two lists without a common element makes the first head represent their
    concatenation and the second the empty list, for empty lists too. *)
Lemma slist_concat_ok m h1 h2 xs ys :
  slist m h1 xs -> slist m h2 ys -> xs ## ys ->
  exists m' h1' h2', SLIST_CONCAT m h1 h2 = Done (m', h1', h2') /\
    slist m' h1' (xs ++ ys) /\ slist m' h2' [] /\ near xs m m'.
Proof.
  intros H1 H2 Hdis. unfold SLIST_CONCAT, SLIST_FIRST, SLIST_INIT.
  destruct (lastn_cases xs) as [->|(xs' & k & ->)].
  - apply slist_nil_inv in H1 as ->. change (is_null PNull) with true. cbn iota.
    eexists _, _, _. split; [done|]. split; [done|]. split; [|done].
    destruct ys; [by apply slist_nil_inv in H2 as ->|]. by destruct H2 as [-> _].
  - pose proof (slist_NoDup _ _ _ H1) as Hnd. pose proof (slist_size _ _ _ H1) as Hsz.
    assert (exists l, h1 = PLoc l) as [l0 E] by (destruct xs'; destruct H1 as [-> _]; by eexists).
    subst h1. rewrite is_null_loc. destruct ys as [|y ys].
    + apply slist_nil_inv in H2 as ->. change (is_null PNull) with true. cbn iota.
      eexists _, _, _. split; [done|]. by rewrite app_nil_r.
    + pose proof H2 as [-> _]. rewrite is_null_loc.
      rewrite (find_before_ok _ _ xs' k PNull);
        [|done|apply null_notin|rewrite length_app in Hsz; simpl in Hsz; lia].
      apply NoDup_app in Hnd as (_ & Hk & _).
      destruct (slist_app_next m (PLoc l0) xs' k PNull (PLoc y) (y :: ys)) as (m' & Hm' & Hs' & Hnear);
        [done| | | |done|].
      { intros Hin. apply (Hk k Hin). left. }
      { set_solver. }
      { set_solver. }
      rewrite Hm'. eexists _, _, _. split; [done|]. split; [by rewrite <- app_assoc|]. split; [done|].
      eapply near_weaken; [done|]. clear. set_solver.
Qed.

(** Traversal visits the elements in order. *)
Lemma foreach_ok m h xs fuel : slist m h xs -> length xs < fuel -> SLIST_FOREACH fuel m h = Done xs.
Proof.
  unfold slist. revert h fuel. induction xs as [|l xs IH]; intros h [|fuel] Hs Hf; simpl in *; try lia.
  - by subst h.
  - destruct Hs as (-> & a & Ha & Hx). simpl. rewrite Ha, (IH _ fuel) by (done || lia). done.
Qed.
End slist.
