(* ===== verification/Queue.v ===== *)
(** What the tail queues and doubly linked lists of [server/src/queue.h] share.

    Their links are addressed: a head's [first] field and an element's [next] field
    have the same type, and [last] and [prev] fields hold the address of such a field, a
    [slot]. [qmem] is the memory of the heads and of the link fields of the elements. The
    classes give the fields of a family's HEAD and ENTRY structures; [chain] and [backs]
    are the shapes that the fields of a list make, over what the slots hold, and
    [Family] is what a family must provide for [rep], many lists at once. *)

From S2P Require Import Prelude CMonad KHeap.
Local Open Scope cmonad_scope.

(** [&head->first] or [&elm->next]. *)
Inductive slot := SFirst (h : loc) | SNext (l : loc).
#[export] Instance slot_eq_dec : EqDecision slot.
Proof. solve_decision. Defined.

Class Links (H E : Type) := {
  h_first : H -> ptr;
  h_set_first : ptr -> H -> H;
  e_next : E -> ptr;
  e_set_next : ptr -> E -> E;
  h_first_set p h : h_first (h_set_first p h) = p;
  e_next_set p e : e_next (e_set_next p e) = p;
}.
(** Heads with a [last] field. *)
Class Tails (H E : Type) `{Links H E} := {
  h_last : H -> slot;
  h_set_last : slot -> H -> H;
  h_last_set sl h : h_last (h_set_last sl h) = sl;
  h_first_set_last sl h : h_first (h_set_last sl h) = h_first h;
  h_last_set_first p h : h_last (h_set_first p h) = h_last h;
}.
(** Elements with a [prev] field. *)
Class Prevs (H E : Type) `{Links H E} := {
  e_prev : E -> slot;
  e_set_prev : slot -> E -> E;
  e_prev_set sl e : e_prev (e_set_prev sl e) = sl;
  e_next_set_prev sl e : e_next (e_set_prev sl e) = e_next e;
  e_prev_set_next p e : e_prev (e_set_next p e) = e_prev e;
}.

Record qmem (H E : Type) := QMem { q_heads : gmap loc H; q_elems : gmap loc E }.
Arguments QMem {H E}.
Arguments q_heads {H E}.
Arguments q_elems {H E}.

(** ** Accesses *)

Section access.
Context {H E : Type} `{!Links H E}.
Implicit Types s : qmem H E.

(** What a slot holds. *)
Definition lnk s (sl : slot) : option ptr :=
  match sl with
  | SFirst h => h_first <$> q_heads s !! h
  | SNext l => e_next <$> q_elems s !! l
  end.
Definition set_lnk (sl : slot) (p : ptr) s : qmem H E :=
  match sl with
  | SFirst h => QMem (alter (h_set_first p) h (q_heads s)) (q_elems s)
  | SNext l => QMem (q_heads s) (alter (e_set_next p) l (q_elems s))
  end.

(** [*sl], as an rvalue and as an lvalue. *)
Definition load_slot (sl : slot) : M (qmem H E) ptr := let! s := mget in mopt BadAccess (lnk s sl).
Definition store_slot (sl : slot) (p : ptr) : M (qmem H E) unit :=
  let! _ := load_slot sl in mmodify (set_lnk sl p).

(** [&elm->next] and [elm->next]. *)
Definition addr_next (elm : ptr) : M (qmem H E) slot :=
  match elm with PLoc l => ret (SNext l) | _ => mfault BadAccess end.
Definition load_next (elm : ptr) : M (qmem H E) ptr := let! sl := addr_next elm in load_slot sl.
Definition store_next (elm p : ptr) : M (qmem H E) unit := let! sl := addr_next elm in store_slot sl p.

(** The element whose [next] field is at this address ([__containerof]). *)
Definition containerof (sl : slot) : M (qmem H E) ptr :=
  match sl with SNext l => ret (PLoc l) | SFirst _ => mfault BadAccess end.

(** The elements a [FOREACH] loop visits whose body leaves the links alone, from [var] on. *)
Fixpoint visit (step : ptr -> M (qmem H E) ptr) (fuel : nat) (var : ptr) : M (qmem H E) (list loc) :=
  match var with
  | PNull => ret []
  | PZero => mfault BadAccess
  | PLoc l =>
      match fuel with
      | O => mfault OutOfFuel
      | S fuel => let! next := step var in let! ls := visit step fuel next in ret (l :: ls)
      end
  end.
(** [while (NEXT(curelm) != stop) curelm = NEXT(curelm);] *)
Fixpoint find_before (fuel : nat) (curelm stop : ptr) : M (qmem H E) ptr :=
  match fuel with
  | O => mfault OutOfFuel
  | S fuel =>
      let! next := load_next curelm in
      if bool_decide (next = stop) then ret curelm
      else let! curelm := load_next curelm in find_before fuel curelm stop
  end.
End access.

Section access_last.
Context {H E : Type} `{HL : !Links H E} `{!Tails H E}.
Implicit Types s : qmem H E.
Definition lst s (h : loc) : option slot := h_last <$> q_heads s !! h.
Definition set_lst (h : loc) (sl : slot) s : qmem H E := QMem (alter (h_set_last sl) h (q_heads s)) (q_elems s).
Definition load_last (h : loc) : M (qmem H E) slot := let! s := mget in mopt BadAccess (lst s h).
Definition store_last (h : loc) (sl : slot) : M (qmem H E) unit :=
  let! _ := load_last h in mmodify (set_lst h sl).
End access_last.

Section access_prev.
Context {H E : Type} `{HL : !Links H E} `{!Prevs H E}.
Implicit Types s : qmem H E.
Definition prv s (l : loc) : option slot := e_prev <$> q_elems s !! l.
Definition set_prv (l : loc) (sl : slot) s : qmem H E := QMem (q_heads s) (alter (e_set_prev sl) l (q_elems s)).
Definition load_prev (elm : ptr) : M (qmem H E) slot :=
  match elm with PLoc l => let! s := mget in mopt BadAccess (prv s l) | _ => mfault BadAccess end.
Definition store_prev (elm : ptr) (sl : slot) : M (qmem H E) unit :=
  match elm with PLoc l => let! _ := load_prev elm in mmodify (set_prv l sl) | _ => mfault BadAccess end.
End access_prev.

(** *** What a store changes *)

Section observe.
Context {H E : Type} `{HL : !Links H E}.
Implicit Types s : qmem H E.

Lemma lnk_set_lnk s sl p sl' : is_Some (lnk s sl) -> lnk (set_lnk sl p s) sl' = if decide (sl = sl') then Some p else lnk s sl'.
Proof.
  intros [q Hq]. case_decide as Hd.
  - subst sl'. destruct sl as [h|l]; simpl in *; rewrite lookup_alter_eq.
    + destruct (q_heads s !! h); [simpl; by rewrite h_first_set|done].
    + destruct (q_elems s !! l); [simpl; by rewrite e_next_set|done].
  - destruct sl as [h|l], sl' as [h'|l']; simpl; try done; by rewrite lookup_alter_ne by congruence.
Qed.

Lemma lnk_set_eq s sl p : is_Some (lnk s sl) -> lnk (set_lnk sl p s) sl = Some p.
Proof. intros. by rewrite lnk_set_lnk, decide_True. Qed.
Lemma lnk_set_ne s sl p sl' : sl <> sl' -> lnk (set_lnk sl p s) sl' = lnk s sl'.
Proof.
  intros Hd. destruct sl as [h|l], sl' as [h'|l']; simpl; try done; by rewrite lookup_alter_ne by congruence.
Qed.
Lemma lnk_live s sl p sl' : is_Some (lnk (set_lnk sl p s) sl') <-> is_Some (lnk s sl').
Proof.
  destruct (decide (sl = sl')) as [<-|Hne]; [|by rewrite lnk_set_ne].
  destruct sl; simpl; by rewrite lookup_alter_eq, !fmap_is_Some.
Qed.

Lemma load_slot_wp sl p Q s : lnk s sl = Some p -> Q p s -> wp (load_slot sl) Q s.
Proof. intros Hp HQ. unfold load_slot. wp_steps. by eapply wp_opt. Qed.
Lemma store_slot_wp sl p Q s : is_Some (lnk s sl) -> Q tt (set_lnk sl p s) -> wp (store_slot sl p) Q s.
Proof. intros [q Hq] HQ. unfold store_slot. wp_steps. eapply load_slot_wp; [done|]. by wp_steps. Qed.
Lemma load_next_wp l p Q s : lnk s (SNext l) = Some p -> Q p s -> wp (load_next (PLoc l)) Q s.
Proof. intros. unfold load_next. wp_steps. by eapply load_slot_wp. Qed.
Lemma store_next_wp l p Q s :
  is_Some (lnk s (SNext l)) -> Q tt (set_lnk (SNext l) p s) -> wp (store_next (PLoc l) p) Q s.
Proof. intros. unfold store_next. wp_steps. by eapply store_slot_wp. Qed.
End observe.

Section observe_last.
Context {H E : Type} `{HL : !Links H E} `{HT : !Tails H E}.
Implicit Types s : qmem H E.

Lemma lnk_set_lst s h sl sl' : lnk (set_lst h sl s) sl' = lnk s sl'.
Proof.
  destruct sl' as [h'|l']; [|done]. simpl. rewrite lookup_alter. case_decide as Hd; [subst|done].
  destruct (q_heads s !! h'); [simpl; by rewrite h_first_set_last|done].
Qed.
Lemma lst_set_lst s h sl h' : is_Some (lst s h) -> lst (set_lst h sl s) h' = if decide (h = h') then Some sl else lst s h'.
Proof.
  intros [q Hq]. unfold lst in *. simpl. rewrite lookup_alter. case_decide; [subst|done].
  destruct (q_heads s !! h'); [simpl; by rewrite h_last_set|done].
Qed.
Lemma lst_set_eq s h sl : is_Some (lst s h) -> lst (set_lst h sl s) h = Some sl.
Proof. intros. by rewrite lst_set_lst, decide_True. Qed.
Lemma lst_set_ne s h sl h' : h <> h' -> lst (set_lst h sl s) h' = lst s h'.
Proof. intros. unfold lst. simpl. by rewrite lookup_alter_ne. Qed.
Lemma lst_live s h sl h' : is_Some (lst (set_lst h sl s) h') <-> is_Some (lst s h').
Proof.
  destruct (decide (h = h')) as [<-|Hne]; [|by rewrite lst_set_ne].
  unfold lst. simpl. by rewrite lookup_alter_eq, !fmap_is_Some.
Qed.
Lemma lst_set_lnk s sl p h : lst (set_lnk sl p s) h = lst s h.
Proof.
  destruct sl as [h'|l']; [|done]. unfold lst. simpl. rewrite lookup_alter. case_decide; [subst|done].
  destruct (q_heads s !! h); [simpl; by rewrite h_last_set_first|done].
Qed.
Lemma lst_lnk s h sl : lst s h = Some sl -> is_Some (lnk s (SFirst h)).
Proof. unfold lst. simpl. destruct (q_heads s !! h); [by eexists|done]. Qed.

Lemma load_last_wp h sl Q s : lst s h = Some sl -> Q sl s -> wp (load_last h) Q s.
Proof. intros Hp HQ. unfold load_last. wp_steps. by eapply wp_opt. Qed.
Lemma store_last_wp h sl Q s : is_Some (lst s h) -> Q tt (set_lst h sl s) -> wp (store_last h sl) Q s.
Proof. intros [q Hq] HQ. unfold store_last. wp_steps. eapply load_last_wp; [done|]. by wp_steps. Qed.
End observe_last.

Section observe_prev.
Context {H E : Type} `{HL : !Links H E} `{HP : !Prevs H E}.
Implicit Types s : qmem H E.

Lemma lnk_set_prv s l sl sl' : lnk (set_prv l sl s) sl' = lnk s sl'.
Proof.
  destruct sl' as [h'|l']; [done|]. simpl. rewrite lookup_alter. case_decide; [subst|done].
  destruct (q_elems s !! l'); [simpl; by rewrite e_next_set_prev|done].
Qed.
Lemma prv_set_prv s l sl l' : is_Some (prv s l) -> prv (set_prv l sl s) l' = if decide (l = l') then Some sl else prv s l'.
Proof.
  intros [q Hq]. unfold prv in *. simpl. rewrite lookup_alter. case_decide; [subst|done].
  destruct (q_elems s !! l'); [simpl; by rewrite e_prev_set|done].
Qed.
Lemma prv_set_eq s l sl : is_Some (prv s l) -> prv (set_prv l sl s) l = Some sl.
Proof. intros. by rewrite prv_set_prv, decide_True. Qed.
Lemma prv_set_ne s l sl l' : l <> l' -> prv (set_prv l sl s) l' = prv s l'.
Proof. intros. unfold prv. simpl. by rewrite lookup_alter_ne. Qed.
Lemma prv_live s l sl l' : is_Some (prv (set_prv l sl s) l') <-> is_Some (prv s l').
Proof.
  destruct (decide (l = l')) as [<-|Hne]; [|by rewrite prv_set_ne].
  unfold prv. simpl. by rewrite lookup_alter_eq, !fmap_is_Some.
Qed.
Lemma prv_set_lnk s sl p l : prv (set_lnk sl p s) l = prv s l.
Proof.
  destruct sl as [h'|l']; [done|]. unfold prv. simpl. rewrite lookup_alter. case_decide; [subst|done].
  destruct (q_elems s !! l); [simpl; by rewrite e_prev_set_next|done].
Qed.
Lemma prv_lnk s l : is_Some (prv s l) <-> is_Some (lnk s (SNext l)).
Proof. unfold prv. simpl. by rewrite !fmap_is_Some. Qed.

Lemma load_prev_wp l sl Q s : prv s l = Some sl -> Q sl s -> wp (load_prev (PLoc l)) Q s.
Proof. intros Hp HQ. unfold load_prev. wp_steps. by eapply wp_opt. Qed.
Lemma store_prev_wp l sl Q s : is_Some (prv s l) -> Q tt (set_prv l sl s) -> wp (store_prev (PLoc l) sl) Q s.
Proof. intros [q Hq] HQ. unfold store_prev. wp_steps. eapply load_prev_wp; [done|]. by wp_steps. Qed.
End observe_prev.

Section observe_both.
Context {H E : Type} `{HL : !Links H E} `{HT : !Tails H E} `{HP : !Prevs H E}.
Implicit Types s : qmem H E.
Lemma lst_set_prv s l sl h : lst (set_prv l sl s) h = lst s h.
Proof. done. Qed.
Lemma prv_set_lst s h sl l : prv (set_lst h sl s) l = prv s l.
Proof. done. Qed.
End observe_both.

#[global] Arguments lnk : simpl never.
#[global] Arguments set_lnk : simpl never.
#[global] Arguments lst : simpl never.
#[global] Arguments set_lst : simpl never.
#[global] Arguments prv : simpl never.
#[global] Arguments set_prv : simpl never.

(** [obs] evaluates what a slot, a [last] or a [prev] field holds after stores to it or to
    others; [live] shows that a field exists. *)
Ltac slot_ne := first [ assumption | congruence ].
Ltac live := repeat first
  [ rewrite lnk_live | rewrite lnk_set_lst | rewrite lnk_set_prv | rewrite lst_live | rewrite lst_set_lnk
  | rewrite lst_set_prv | rewrite prv_live | rewrite prv_set_lnk | rewrite prv_set_lst ];
  first [ assumption | by eexists | apply prv_lnk; first [ assumption | by eexists ] | eauto ].
Ltac obs := repeat first
  [ rewrite lnk_set_lst | rewrite lnk_set_prv | rewrite lst_set_lnk | rewrite lst_set_prv
  | rewrite prv_set_lnk | rewrite prv_set_lst
  | rewrite lnk_set_ne by slot_ne | rewrite lst_set_ne by slot_ne | rewrite prv_set_ne by slot_ne
  | rewrite lnk_set_eq by live | rewrite lst_set_eq by live | rewrite prv_set_eq by live ].
