(* ===== verification/QueueShape.v ===== *)
(** The shapes the links of a list make, and many lists in one memory.

    [chain f sl xs p]: starting at the slot [sl], the links [f] lead through the elements
    [xs] to [p]. [backs g sl xs]: the back pointers [g] of the elements hold the slots that
    lead to them. [agree] bounds what an operation changes; a [Family] whose lists only
    depend on their own head and elements then keeps all other lists ([rep_one], [rep_two]). *)

From S2P Require Import Prelude CMonad KHeap Queue.

Implicit Types (f : slot -> option ptr) (g : loc -> option slot) (xs ys : list loc).

Fixpoint chain f (sl : slot) xs (p : ptr) : Prop :=
  match xs with
  | [] => f sl = Some p
  | l :: xs => f sl = Some (PLoc l) /\ chain f (SNext l) xs p
  end.
Fixpoint backs g (sl : slot) xs : Prop :=
  match xs with
  | [] => True
  | l :: xs => g l = Some sl /\ backs g (SNext l) xs
  end.
Fixpoint last_slot (sl : slot) xs : slot :=
  match xs with [] => sl | l :: xs => last_slot (SNext l) xs end.
Definition slots (sl : slot) xs : list slot := sl :: (SNext <$> xs).
(** Where a chain through [ys] to [p] starts. *)
Definition first_of ys (p : ptr) : ptr := match ys with [] => p | y :: _ => PLoc y end.
(** The last element, or NULL. *)
Definition last_of xs : ptr := from_option PLoc PNull (last xs).

Lemma last_slot_app sl xs ys : last_slot sl (xs ++ ys) = last_slot (last_slot sl xs) ys.
Proof. revert sl. induction xs as [|x xs IH]; intros sl; simpl; auto. Qed.
Lemma last_slot_snoc sl xs l : last_slot sl (xs ++ [l]) = SNext l.
Proof. by rewrite last_slot_app. Qed.
Lemma last_slot_in sl xs : last_slot sl xs ∈ slots sl xs.
Proof.
  unfold slots. revert sl. induction xs as [|x xs IH]; intros sl; simpl; [left|]. right. apply IH.
Qed.
Lemma last_slot_cases sl xs : xs = [] /\ last_slot sl xs = sl \/ exists ys l, xs = ys ++ [l] /\ last_slot sl xs = SNext l.
Proof. destruct xs as [|l xs _] using rev_ind; [by left|right]. exists xs, l. by rewrite last_slot_snoc. Qed.

Lemma slots_next sl xs l : SNext l ∈ slots sl xs <-> SNext l = sl \/ l ∈ xs.
Proof. unfold slots. rewrite elem_of_cons, list_elem_of_fmap. naive_solver. Qed.
Lemma slots_first h xs h' : SFirst h' ∈ slots (SFirst h) xs <-> h' = h.
Proof. unfold slots. rewrite elem_of_cons, list_elem_of_fmap. naive_solver. Qed.

(** The slots of the elements only, and what they are not. *)
Lemma slots_SNext x ys sl : sl ∈ slots (SNext x) ys <-> exists z, sl = SNext z /\ z ∈ x :: ys.
Proof. change (slots (SNext x) ys) with (SNext <$> (x :: ys)). rewrite list_elem_of_fmap. naive_solver. Qed.
Lemma slots_ne h xs sl l : sl ∈ slots (SFirst h) xs -> (l ∉ xs) -> sl <> SNext l.
Proof. intros Hsl Hl ->. apply slots_next in Hsl as [|]; done. Qed.
Lemma last_slot_ne h xs l : (l ∉ xs) -> last_slot (SFirst h) xs <> SNext l.
Proof. intros Hl. eapply slots_ne; [apply last_slot_in|done]. Qed.
Lemma last_slot_ne_first h h' xs : h <> h' -> last_slot (SFirst h) xs <> SFirst h'.
Proof. intros Hne E. pose proof (last_slot_in (SFirst h) xs) as Hin. rewrite E in Hin. apply slots_first in Hin. done. Qed.

(** ** Chains *)

Lemma chain_ext f f' sl xs p :
  chain f sl xs p -> (forall sl', sl' ∈ slots sl xs -> f' sl' = f sl') -> chain f' sl xs p.
Proof.
  revert sl. induction xs as [|x xs IH]; intros sl; simpl; intros Hc Hf.
  - rewrite Hf; [done|left].
  - destruct Hc as [H1 H2]. split; [rewrite Hf; [done|left]|]. apply IH; [done|]. intros sl' Hin. apply Hf. by right.
Qed.

Lemma chain_app f sl xs ys p :
  chain f sl (xs ++ ys) p <-> chain f sl xs (first_of ys p) /\ chain f (last_slot sl xs) ys p.
Proof.
  revert sl. induction xs as [|x xs IH]; intros sl; simpl.
  - split; [|by intros [_ ?]]. intros Hc. split; [|done]. destruct ys; simpl in *; [done|by destruct Hc].
  - rewrite IH. naive_solver.
Qed.

Lemma chain_last f sl xs p : chain f sl xs p -> f (last_slot sl xs) = Some p.
Proof. revert sl. induction xs as [|x xs IH]; intros sl; simpl; [done|]. intros [_ H]. auto. Qed.
Lemma chain_first f sl xs p : chain f sl xs p -> f sl = Some (first_of xs p).
Proof. destruct xs; simpl; [done|by intros [? _]]. Qed.

Lemma chain_live f sl xs p sl' : chain f sl xs p -> sl' ∈ slots sl xs -> is_Some (f sl').
Proof.
  revert sl. induction xs as [|x xs IH]; intros sl Hc Hin.
  - apply list_elem_of_singleton in Hin as ->. by eexists.
  - destruct Hc as [Hx Hc]. apply elem_of_cons in Hin as [->|Hin]; [by eexists|]. by eapply IH.
Qed.
Lemma chain_elem_live f sl xs p l : chain f sl xs p -> l ∈ xs -> is_Some (f (SNext l)).
Proof. intros Hc Hl. eapply chain_live; [done|]. apply slots_next. by right. Qed.

Lemma chain_unique f sl xs ys : chain f sl xs PNull -> chain f sl ys PNull -> xs = ys.
Proof. revert sl ys. induction xs as [|l xs IH]; intros sl [|l' ys]; simpl; naive_solver. Qed.

(** A chain that ends in NULL visits no element twice. *)
Lemma chain_NoDup f sl xs : chain f sl xs PNull -> NoDup xs.
Proof.
  revert sl. induction xs as [|l xs IH]; intros sl Hc; [constructor|]. destruct Hc as [_ Hc].
  constructor; [|by eapply IH]. intros Hin. apply list_elem_of_split in Hin as (xs1 & xs2 & ->).
  pose proof Hc as Hc'. apply chain_app in Hc' as [_ [_ Hc']].
  pose proof (chain_unique _ _ _ _ Hc Hc') as E. apply (f_equal length) in E.
  rewrite length_app in E. simpl in E. lia.
Qed.

Lemma slots_NoDup h xs : NoDup xs -> NoDup (slots (SFirst h) xs).
Proof.
  intros Hnd. unfold slots. constructor; [|by apply NoDup_fmap_2; [congruence|]].
  intros Hin%list_elem_of_fmap. naive_solver.
Qed.
Lemma slots_NoDup_next l xs : NoDup (l :: xs) -> NoDup (slots (SNext l) xs).
Proof. intros Hnd. change (slots (SNext l) xs) with (SNext <$> (l :: xs)). by apply NoDup_fmap_2; [congruence|]. Qed.

(** Let the last link of a chain point somewhere else. *)
Lemma chain_retarget f f' sl xs p q :
  chain f sl xs p -> NoDup (slots sl xs) -> f' (last_slot sl xs) = Some q ->
  (forall sl', sl' ∈ slots sl xs -> sl' <> last_slot sl xs -> f' sl' = f sl') -> chain f' sl xs q.
Proof.
  revert sl. induction xs as [|x xs IH]; intros sl; simpl; [done|].
  intros [H1 H2] Hnd Hq Hf. apply NoDup_cons in Hnd as [Hsl Hnd]. split.
  - rewrite Hf; [done|left|]. intros E. apply Hsl. rewrite E. apply last_slot_in.
  - apply IH; try done. intros sl' Hin Hne. apply Hf; [by right|done].
Qed.

(** The elements before the one an operation is about are let point elsewhere, *)
Lemma chain_redirect f f' h xs p q :
  chain f (SFirst h) xs p -> NoDup xs -> f' (last_slot (SFirst h) xs) = Some q ->
  (forall sl, sl ∈ slots (SFirst h) xs -> sl <> last_slot (SFirst h) xs -> f' sl = f sl) ->
  chain f' (SFirst h) xs q.
Proof. intros. eapply chain_retarget; [done|by apply slots_NoDup|done|done]. Qed.
(** and those after it are not touched. *)
Lemma chain_same f f' x ys p :
  chain f (SNext x) ys p -> (forall z, z ∈ x :: ys -> f' (SNext z) = f (SNext z)) -> chain f' (SNext x) ys p.
Proof. intros Hc Hf. eapply chain_ext; [done|]. intros sl (z & -> & Hz)%slots_SNext. auto. Qed.

(** A chain whose first link was copied into another slot. *)
Lemma chain_moved f f' sl sl' xs p :
  chain f sl xs p -> f' sl' = f sl -> (forall l, l ∈ xs -> f' (SNext l) = f (SNext l)) -> chain f' sl' xs p.
Proof.
  revert sl sl'. induction xs as [|x xs IH]; intros sl sl' Hc Hsl Hf; [simpl in *; congruence|].
  destruct Hc as [Hx Hc]. split; [by rewrite Hsl|]. eapply IH; [exact Hc|apply Hf; left|].
  intros l Hl. apply Hf. by right.
Qed.

(** ** Back pointers *)

Lemma backs_ext g g' sl xs : backs g sl xs -> (forall l, l ∈ xs -> g' l = g l) -> backs g' sl xs.
Proof.
  revert sl. induction xs as [|x xs IH]; intros sl; simpl; [done|]. intros [H1 H2] Hg.
  split; [rewrite Hg; [done|left]|]. apply IH; [done|]. intros l Hl. apply Hg. by right.
Qed.
Lemma backs_app g sl xs ys : backs g sl (xs ++ ys) <-> backs g sl xs /\ backs g (last_slot sl xs) ys.
Proof. revert sl. induction xs as [|x xs IH]; intros sl; simpl; [naive_solver|]. rewrite IH. naive_solver. Qed.
(** Only the first back pointer depends on where the list hangs. *)
Lemma backs_cons_ext g g' sl x xs :
  backs g sl (x :: xs) -> (forall l, l ∈ xs -> g' l = g l) -> forall sl', g' x = Some sl' -> backs g' sl' (x :: xs).
Proof. intros [_ H] Hg sl' Hx. split; [done|]. by eapply backs_ext. Qed.

(** ** Loops along a chain *)

Section loops.
Context {H E : Type} `{HL : !Links H E}.
Implicit Types s : qmem H E.

Lemma visit_ok s sl xs fuel : chain (lnk s) sl xs PNull -> length xs <= fuel ->
  visit load_next fuel (first_of xs PNull) s = Done (xs, s).
Proof.
  revert sl fuel. induction xs as [|x xs IH]; intros sl fuel Hc Hf; [by destruct fuel|].
  destruct Hc as [_ Hc]. destruct fuel as [|fuel]; simpl in *; [lia|]. apply wp_eq. wp_steps.
  eapply load_next_wp; [by eapply chain_first|]. wp_steps. unfold wp. erewrite IH; [done|exact Hc|lia].
Qed.

Lemma chain_load_first s sl xs p : chain (lnk s) sl xs p -> load_slot sl s = Done (first_of xs p, s).
Proof. intros. apply wp_eq. by eapply load_slot_wp; [by eapply chain_first|]. Qed.
Lemma chain_load_next s sl xs x ys p : chain (lnk s) sl (xs ++ x :: ys) p -> load_next (PLoc x) s = Done (first_of ys p, s).
Proof. intros [_ [_ Hc]]%chain_app. apply wp_eq. by eapply load_next_wp; [by eapply chain_first|]. Qed.
Lemma chain_size s sl xs : chain (lnk s) sl xs PNull -> length xs <= size (q_elems s).
Proof.
  intros Hc. rewrite <- (size_dom (q_elems s)), <- (size_list_to_set (C := gset loc) xs) by by eapply chain_NoDup.
  apply subseteq_size. intros l. rewrite elem_of_list_to_set, elem_of_dom. intros Hl.
  pose proof (chain_elem_live _ _ _ _ _ Hc Hl) as Hlive. unfold lnk in Hlive. by apply fmap_is_Some in Hlive.
Qed.

(** The loop stops at the element before [stop]. *)
Lemma find_before_wp s sl xs k stop fuel Q :
  chain (lnk s) sl (xs ++ [k]) stop -> (stop ∉ PLoc <$> xs ++ [k]) -> length xs < fuel -> Q (PLoc k) s ->
  wp (find_before fuel (first_of (xs ++ [k]) stop) stop) Q s.
Proof.
  revert sl fuel. induction xs as [|x xs IH]; intros sl [|fuel] Hc Hn Hf HQ; simpl in Hf; try lia.
  - destruct Hc as [_ Hc]. simpl. wp_steps. eapply load_next_wp; [done|]. by rewrite bool_decide_true.
  - destruct Hc as [_ Hc]. simpl. apply not_elem_of_cons in Hn as [Hx Hn]. pose proof (chain_first _ _ _ _ Hc) as Hfst.
    wp_steps. eapply load_next_wp; [done|]. rewrite bool_decide_false.
    + wp_steps. eapply load_next_wp; [done|]. eapply IH; [exact Hc|done|lia|done].
    + intros Heq. apply Hn. rewrite <- Heq. destruct xs; left.
Qed.
End loops.

Lemma ploc_not_in (l : loc) xs : (l ∉ xs) -> (PLoc l ∉ PLoc <$> xs).
Proof. intros Hl [l' [[= <-] ?]]%list_elem_of_fmap. done. Qed.
Lemma null_not_in xs : PNull ∉ PLoc <$> xs.
Proof. intros [l [? _]]%list_elem_of_fmap. done. Qed.
