(* ===== verification/QueueSpec.v ===== *)
(** What the list macros promise: operations on lists, for any number of heads.

    The abstract state gives each initialised head its list. [q_step] is [None] where the
    macro may not be used: an element that is in some list must not be inserted
    again, and one that is not in the list must not be removed from it. [Family] is
    the interface between the macros of a family and this specification. *)

From S2P Require Import Prelude CMonad KHeap Queue QueueShape.
Local Open Scope cmonad_scope.

Abbreviation lists := (gmap loc (list loc)).

Inductive qop :=
  | QInit (h : loc)
  | QInsertHead (h l : loc)
  | QInsertTail (h l : loc)
  | QInsertAfter (h x l : loc)
  | QInsertBefore (h x l : loc)
  | QRemoveHead (h : loc)
  | QRemoveAfter (h x : loc)
  | QRemove (h l : loc)
  | QConcat (h1 h2 : loc)
  | QSwap (h1 h2 : loc).

(** *** On one list *)

Fixpoint add_after (x l : loc) (xs : list loc) : list loc :=
  match xs with
  | [] => []
  | y :: ys => if decide (y = x) then y :: l :: ys else y :: add_after x l ys
  end.
Fixpoint add_before (x l : loc) (xs : list loc) : list loc :=
  match xs with
  | [] => []
  | y :: ys => if decide (y = x) then l :: y :: ys else y :: add_before x l ys
  end.
Fixpoint del (l : loc) (xs : list loc) : list loc :=
  match xs with
  | [] => []
  | y :: ys => if decide (y = l) then ys else y :: del l ys
  end.
(** The element after [x], which must not be the last. *)
Fixpoint succ_of (x : loc) (xs : list loc) : option loc :=
  match xs with
  | y :: ys => if decide (y = x) then head ys else succ_of x ys
  | [] => None
  end.

(** *** On all lists *)

Section spec.
Context (heads elems : gset loc).

Definition free (A : lists) (l : loc) : Prop := map_Forall (fun _ xs => (l ∉ xs)) A.
#[global] Instance free_dec A l : Decision (free A l).
Proof. unfold free. apply _. Defined.

Definition insertable (A : lists) (l : loc) : bool := bool_decide (l ∈ elems) && bool_decide (free A l).
Definition q_step (o : qop) (A : lists) : option lists :=
  match o with
  | QInit h => if decide (h ∈ heads) then Some (<[h := []]> A) else None
  | QInsertHead h l => xs ← A !! h; if insertable A l then Some (<[h := l :: xs]> A) else None
  | QInsertTail h l => xs ← A !! h; if insertable A l then Some (<[h := xs ++ [l]]> A) else None
  | QInsertAfter h x l => xs ← A !! h;
      if insertable A l && bool_decide (x ∈ xs) then Some (<[h := add_after x l xs]> A) else None
  | QInsertBefore h x l => xs ← A !! h;
      if insertable A l && bool_decide (x ∈ xs) then Some (<[h := add_before x l xs]> A) else None
  | QRemoveHead h => xs ← A !! h; match xs with [] => None | _ :: xs => Some (<[h := xs]> A) end
  | QRemoveAfter h x => xs ← A !! h; y ← succ_of x xs; Some (<[h := del y xs]> A)
  | QRemove h l => xs ← A !! h; if decide (l ∈ xs) then Some (<[h := del l xs]> A) else None
  | QConcat h1 h2 => xs1 ← A !! h1; xs2 ← A !! h2;
      if decide (h1 = h2) then None else Some (<[h1 := xs1 ++ xs2]> (<[h2 := []]> A))
  | QSwap h1 h2 => xs1 ← A !! h1; xs2 ← A !! h2;
      if decide (h1 = h2) then None else Some (<[h1 := xs2]> (<[h2 := xs1]> A))
  end.
Fixpoint q_steps (os : list qop) (A : lists) : option lists :=
  match os with [] => Some A | o :: os => A' ← q_step o A; q_steps os A' end.
End spec.

(** Around one element, and around two, of a list without repetition. *)
Lemma NoDup_mid (x : loc) xs ys : NoDup (xs ++ x :: ys) -> (x ∉ xs) /\ (x ∉ ys) /\ NoDup xs /\ (forall z, z ∈ ys -> z ∉ xs).
Proof.
  intros (H1 & H2 & [H3 _]%NoDup_cons)%NoDup_app. split_and!; try done.
  - intros Hin. eapply H2; [done|left].
  - intros z Hz Hin. eapply H2; [done|by right].
Qed.
Lemma NoDup_mid2 (x y : loc) xs ys :
  NoDup (xs ++ x :: y :: ys) ->
  (x ∉ xs) /\ (y ∉ xs) /\ (x ∉ ys) /\ (y ∉ ys) /\ x <> y /\ NoDup xs /\ (forall z, z ∈ ys -> z ∉ xs).
Proof.
  intros Hnd. pose proof (NoDup_mid _ _ _ Hnd) as (H1 & H2 & H3 & H4).
  apply NoDup_app in Hnd as (_ & _ & [_ [H5 _]%NoDup_cons]%NoDup_cons).
  apply not_elem_of_cons in H2 as [H6 H2]. split_and!; try done; [apply H4; left|]. intros z Hz. apply H4. by right.
Qed.
Lemma add_after_split x l xs ys : (x ∉ xs) -> add_after x l (xs ++ x :: ys) = xs ++ x :: l :: ys.
Proof.
  induction xs as [|z xs IH]; simpl; intros Hx; [by rewrite decide_True|].
  apply not_elem_of_cons in Hx as [Hz Hx]. rewrite decide_False by done. by rewrite IH.
Qed.
Lemma add_before_split x l xs ys : (x ∉ xs) -> add_before x l (xs ++ x :: ys) = xs ++ l :: x :: ys.
Proof.
  induction xs as [|z xs IH]; simpl; intros Hx; [by rewrite decide_True|].
  apply not_elem_of_cons in Hx as [Hz Hx]. rewrite decide_False by done. by rewrite IH.
Qed.
Lemma del_split l xs ys : (l ∉ xs) -> del l (xs ++ l :: ys) = xs ++ ys.
Proof.
  induction xs as [|z xs IH]; simpl; intros Hx; [by rewrite decide_True|].
  apply not_elem_of_cons in Hx as [Hz Hx]. rewrite decide_False by done. by rewrite IH.
Qed.
Lemma succ_of_split x y xs : succ_of x xs = Some y -> exists xs1 xs2, xs = xs1 ++ x :: y :: xs2.
Proof.
  induction xs as [|z xs IH]; [done|]. simpl. case_decide as Hd.
  - destruct xs as [|w xs]; [done|]. intros [= <-]. subst z. by exists [], xs.
  - intros H. destruct (IH H) as (xs1 & xs2 & E). exists (z :: xs1), xs2. by rewrite E.
Qed.

(** ** What an operation may change *)

Section agree.
Context {H E : Type}.
Implicit Types s : qmem H E.

(** Only the heads [hs] and the elements [es] differ. *)
Record agree (hs es : list loc) s s' : Prop := {
  ag_heads h : (h ∉ hs) -> q_heads s' !! h = q_heads s !! h;
  ag_elems l : (l ∉ es) -> q_elems s' !! l = q_elems s !! l;
  ag_dom_heads : dom (q_heads s') = dom (q_heads s);
  ag_dom_elems : dom (q_elems s') = dom (q_elems s);
}.
Definition same_dom s s' : Prop := dom (q_heads s') = dom (q_heads s) /\ dom (q_elems s') = dom (q_elems s).
Lemma agree_dom hs es s s' : agree hs es s s' -> same_dom s s'.
Proof. by intros []. Qed.
Definition slot_ok (hs es : list loc) (sl : slot) : Prop :=
  match sl with SFirst h => h ∈ hs | SNext l => l ∈ es end.

Lemma agree_refl hs es s : agree hs es s s.
Proof. done. Qed.

Lemma agree_trans hs es s1 s2 s3 : agree hs es s1 s2 -> agree hs es s2 s3 -> agree hs es s1 s3.
Proof.
  intros [Hh1 He1 ??] [Hh2 He2 ??]. split; [| |congruence|congruence].
  - intros h Hh. rewrite Hh2, Hh1; auto.
  - intros l Hl. rewrite He2, He1; auto.
Qed.
Lemma agree_weaken hs es hs' es' s1 s2 :
  agree hs es s1 s2 -> (forall h, h ∈ hs -> h ∈ hs') -> (forall l, l ∈ es -> l ∈ es') -> agree hs' es' s1 s2.
Proof. intros [????] Hs Es. split; auto. Qed.

Context `{HL : !Links H E}.

Lemma agree_set_lnk hs es s s1 sl p : agree hs es s s1 -> slot_ok hs es sl -> agree hs es s (set_lnk sl p s1).
Proof.
  intros [????] Hsl. destruct sl as [h|l]; split; unfold set_lnk in *; simpl in *; rewrite ?dom_alter_L; try done.
  - intros h' Hh'. rewrite lookup_alter_ne by set_solver. auto.
  - intros l' Hl'. rewrite lookup_alter_ne by set_solver. auto.
Qed.
Lemma agree_set_lst `{!Tails H E} hs es s s1 h sl : agree hs es s s1 -> h ∈ hs -> agree hs es s (set_lst h sl s1).
Proof.
  intros [????] Hh. split; unfold set_lst; simpl; rewrite ?dom_alter_L; try done. intros h' Hh'. rewrite lookup_alter_ne by set_solver. auto.
Qed.
Lemma agree_set_prv `{!Prevs H E} hs es s s1 l sl : agree hs es s s1 -> l ∈ es -> agree hs es s (set_prv l sl s1).
Proof.
  intros [????] Hl. split; unfold set_prv; simpl; rewrite ?dom_alter_L; try done. intros l' Hl'. rewrite lookup_alter_ne by set_solver. auto.
Qed.
Lemma slot_ok_last hs es h xs : h ∈ hs -> (forall l, l ∈ xs -> l ∈ es) -> slot_ok hs es (last_slot (SFirst h) xs).
Proof.
  intros Hh Hes. destruct (last_slot_cases (SFirst h) xs) as [[_ ->]|(ys & l & -> & ->)]; [done|].
  apply Hes, elem_of_app. right. left.
Qed.
Lemma agree_lnk hs es s s' sl : agree hs es s s' -> ~ slot_ok hs es sl -> lnk s' sl = lnk s sl.
Proof. intros Ha Hsl. unfold lnk. destruct sl; simpl in *; [by rewrite (ag_heads _ _ _ _ Ha)|by rewrite (ag_elems _ _ _ _ Ha)]. Qed.
Lemma agree_chain hs es s s' h xs p :
  agree hs es s s' -> (h ∉ hs) -> (forall l, l ∈ xs -> l ∉ es) ->
  chain (lnk s) (SFirst h) xs p -> chain (lnk s') (SFirst h) xs p.
Proof.
  intros Ha Hh Hes Hc. eapply chain_ext; [done|]. intros sl Hsl. eapply agree_lnk; [done|].
  destruct sl as [h'|l]; simpl; [by apply slots_first in Hsl as ->|]. apply slots_next in Hsl as [|]; [done|auto].
Qed.
End agree.

(** ** The interface of a family *)

Class Family (H E : Type) `{HL : !Links H E} := {
  listq : qmem H E -> loc -> list loc -> Prop;
  listq_chain s h xs : listq s h xs -> chain (lnk s) (SFirst h) xs PNull;
  listq_frame s s' hs es h xs : agree hs es s s' -> (h ∉ hs) -> (forall l, l ∈ xs -> l ∉ es) ->
    listq s h xs -> listq s' h xs;
}.

Section rep.
Context {H E : Type} `{HF : Family H E}.
Implicit Types s : qmem H E.

(** The memory [s] holds the lists [A], without a common element. *)
Record rep s (A : lists) : Prop := {
  rep_list h xs : A !! h = Some xs -> listq s h xs;
  rep_disj h1 h2 xs1 xs2 : h1 <> h2 -> A !! h1 = Some xs1 -> A !! h2 = Some xs2 -> xs1 ## xs2;
}.

(** Heads that are not initialised and elements in no list may have any contents. *)
Lemma rep_empty s : rep s ∅.
Proof. split; intros *; by rewrite lookup_empty. Qed.

Lemma rep_NoDup s A h xs : rep s A -> A !! h = Some xs -> NoDup xs.
Proof. intros Hr Hx. eapply chain_NoDup, listq_chain, rep_list; done. Qed.

(** An operation on one list, with the elements of that list and free ones. *)
Lemma rep_one s s' A h xs' es :
  rep s A -> agree [h] es s s' ->
  (forall l, l ∈ es -> l ∈ default [] (A !! h) \/ free A l) ->
  listq s' h xs' -> (forall l, l ∈ xs' -> l ∈ default [] (A !! h) \/ free A l) ->
  rep s' (<[h := xs']> A).
Proof.
  intros [Hl Hd] Ha Hes Hq Hxs.
  assert (forall h' xs l, h' <> h -> A !! h' = Some xs -> l ∈ xs -> l ∈ default [] (A !! h) \/ free A l -> False) as Hout.
  { intros h' xs l Hne Hx Hin [Hl'|Hl']; [|by eapply Hl'].
    destruct (A !! h) as [xs0|] eqn:E0; [|by apply elem_of_nil in Hl'].
    by apply (Hd h' h xs xs0 Hne Hx E0 l). }
  split.
  - intros h' xs. rewrite lookup_insert. case_decide as E'; [subst h'; by intros [= <-]|]. intros Hx.
    eapply listq_frame; [exact Ha| | |by apply Hl]; [set_solver|]. intros l Hin Hes'. eapply Hout; eauto.
  - intros h1 h2 xs1 xs2 Hne. rewrite !lookup_insert. repeat case_decide; simplify_eq; try done.
    + intros [= <-] H2 l H1' H2'. eapply Hout; eauto.
    + intros H1 [= <-] l H1' H2'. eapply Hout; eauto.
    + intros. by eapply (Hd h1 h2).
Qed.

(** An operation on two lists that only moves their elements. *)
Lemma rep_two s s' A h1 h2 xs1 xs2 xs1' xs2' es :
  rep s A -> h1 <> h2 -> A !! h1 = Some xs1 -> A !! h2 = Some xs2 -> agree [h1; h2] es s s' ->
  (forall l, l ∈ es -> l ∈ xs1 ++ xs2) -> listq s' h1 xs1' -> listq s' h2 xs2' -> xs1' ## xs2' ->
  (forall l, l ∈ xs1' ++ xs2' -> l ∈ xs1 ++ xs2) ->
  rep s' (<[h1 := xs1']> (<[h2 := xs2']> A)).
Proof.
  intros [Hl Hd] Hne H1 H2 Ha Hes Hq1 Hq2 Hdis Hsub.
  assert (forall h' xs l, h' <> h1 -> h' <> h2 -> A !! h' = Some xs -> l ∈ xs -> l ∈ xs1 ++ xs2 -> False) as Hout.
  { intros h' xs l Hn1 Hn2 Hx Hin [Hl'|Hl']%elem_of_app; [by apply (Hd h' h1 xs xs1 Hn1 Hx H1 l)|
      by apply (Hd h' h2 xs xs2 Hn2 Hx H2 l)]. }
  split.
  - intros h' xs. rewrite !lookup_insert. repeat case_decide; simplify_eq; try (by intros [= <-]).
    intros Hx. eapply listq_frame; [exact Ha| | |by apply Hl]; [set_solver|]. intros l Hin Hes'. eapply (Hout h'); eauto.
  - assert (forall l, l ∈ xs1' -> l ∈ xs1 ++ xs2) as Hs1 by (intros; apply Hsub; set_solver).
    assert (forall l, l ∈ xs2' -> l ∈ xs1 ++ xs2) as Hs2 by (intros; apply Hsub; set_solver).
    intros h h' xs xs' Hn. rewrite !lookup_insert. repeat case_decide; simplify_eq; try done.
    + by intros [= <-] [= <-].
    + intros [= <-] H' l Hl1 Hl2. eapply (Hout h'); eauto.
    + intros [= <-] [= <-]. intros l ??. by apply (Hdis l).
    + intros [= <-] H' l Hl1 Hl2. eapply (Hout h'); eauto.
    + intros H' [= <-] l Hl1 Hl2. eapply (Hout h); eauto.
    + intros H' [= <-] l Hl1 Hl2. eapply (Hout h); eauto.
    + intros. by eapply (Hd h h').
Qed.

(** *** What the macro for an operation must do, on the lists it is about *)

Lemma listq_size s h xs : listq s h xs -> length xs <= size (q_elems s).
Proof. intros. by eapply chain_size, listq_chain. Qed.
Lemma same_dom_size s s' : same_dom s s' -> size (q_elems s') = size (q_elems s).
Proof. intros [_ He]. by rewrite <- !size_dom, He. Qed.

Definition one (s : qmem H E) (h : loc) (es xs : list loc) : unit -> qmem H E -> Prop :=
  fun _ s' => listq s' h xs /\ agree [h] es s s'.
Definition two s (h1 h2 : loc) (xs ys : list loc) : unit -> qmem H E -> Prop :=
  fun _ s' => listq s' h1 xs /\ listq s' h2 ys /\ agree [h1; h2] (xs ++ ys) s s'.
Definition fresh s (l : loc) (xs : list loc) : Prop := is_Some (q_elems s !! l) /\ (l ∉ xs).
Definition op_spec (m : M (qmem H E) unit) (o : qop) s : Prop :=
  match o with
  | QInit h => is_Some (q_heads s !! h) -> wp m (one s h [] []) s
  | QInsertHead h l => forall xs, listq s h xs -> fresh s l xs -> wp m (one s h (l :: xs) (l :: xs)) s
  | QInsertTail h l => forall xs, listq s h xs -> fresh s l xs -> wp m (one s h (l :: xs) (xs ++ [l])) s
  | QInsertAfter h x l => forall xs ys, listq s h (xs ++ x :: ys) -> fresh s l (xs ++ x :: ys) ->
      wp m (one s h (l :: xs ++ x :: ys) (xs ++ x :: l :: ys)) s
  | QInsertBefore h x l => forall xs ys, listq s h (xs ++ x :: ys) -> fresh s l (xs ++ x :: ys) ->
      wp m (one s h (l :: xs ++ x :: ys) (xs ++ l :: x :: ys)) s
  | QRemoveHead h => forall x xs, listq s h (x :: xs) -> wp m (one s h (x :: xs) xs) s
  | QRemoveAfter h x => forall xs y ys, listq s h (xs ++ x :: y :: ys) ->
      wp m (one s h (xs ++ x :: y :: ys) (xs ++ x :: ys)) s
  | QRemove h x => forall xs ys, listq s h (xs ++ x :: ys) -> wp m (one s h (xs ++ x :: ys) (xs ++ ys)) s
  | QConcat h1 h2 => forall xs ys, listq s h1 xs -> listq s h2 ys -> h1 <> h2 -> ys ## xs ->
      wp m (two s h1 h2 (xs ++ ys) []) s
  | QSwap h1 h2 => forall xs ys, listq s h1 xs -> listq s h2 ys -> h1 <> h2 -> ys ## xs ->
      wp m (two s h1 h2 ys xs) s
  end.

(** The family [run], whose macros for the operations [ok] meet their specifications when its
    loops have fuel for all elements. *)
Class Implements (run : nat -> qop -> M (qmem H E) unit) (ok : qop -> bool) :=
  implements fuel o s : ok o = true -> size (q_elems s) <= fuel -> op_spec (run fuel o) o s.

Lemma fresh_link s l xs : fresh s l xs -> is_Some (lnk s (SNext l)).
Proof. intros [Hl _]. unfold lnk. by apply fmap_is_Some. Qed.
Lemma fresh_of s A h xs l : A !! h = Some xs -> insertable (dom (q_elems s)) A l = true -> fresh s l xs.
Proof.
  intros Hx [Hl%bool_decide_eq_true_1 Hf%bool_decide_eq_true_1]%andb_true_iff.
  split; [by apply elem_of_dom|by apply (Hf h)].
Qed.

(** One step, on all lists: an operation on one list uses its elements and free ones. *)
Lemma step_one m s A h xs es xs' :
  rep s A -> A !! h = Some xs \/ xs = [] /\ xs' = [] /\ es = [] ->
  (forall z, z ∈ es \/ z ∈ xs' -> z ∈ xs \/ free A z) -> wp m (one s h es xs') s ->
  wp m (fun _ s' => rep s' (<[h := xs']> A) /\ same_dom s s') s.
Proof.
  intros Hr Hh Hz Hwp. eapply wp_mono; [exact Hwp|]. intros _ s' [Hq Ha]. split; [|by eapply agree_dom].
  destruct Hh as [Hh|(-> & -> & ->)].
  - eapply rep_one; try done; rewrite Hh; simpl; intros l Hl; apply Hz; auto.
  - by eapply rep_one; try done; intros l Hl%elem_of_nil.
Qed.
Lemma step_two m s A h1 h2 xs1 xs2 xs1' xs2' :
  rep s A -> A !! h1 = Some xs1 -> A !! h2 = Some xs2 -> h1 <> h2 -> xs1' ## xs2' ->
  (forall z, z ∈ xs1' ++ xs2' -> z ∈ xs1 ++ xs2) -> wp m (two s h1 h2 xs1' xs2') s ->
  wp m (fun _ s' => rep s' (<[h1 := xs1']> (<[h2 := xs2']> A)) /\ same_dom s s') s.
Proof.
  intros Hr H1 H2 Hne Hd Hz Hwp. eapply wp_mono; [exact Hwp|]. intros _ s' (Hq1 & Hq2 & Ha).
  split; [|by eapply agree_dom]. eapply rep_two; try done.
Qed.

(** The elements of a list from which [x] is taken, or to which a free [l] is added. *)
Ltac members := clear; set_solver.

Lemma rep_split s A h xs x : rep s A -> A !! h = Some xs -> x ∈ xs -> exists ys zs, xs = ys ++ x :: zs /\ (x ∉ ys).
Proof.
  intros Hr Hx (ys & zs & ->)%list_elem_of_split. exists ys, zs. split; [done|].
  by destruct (NoDup_mid _ _ _ (rep_NoDup _ _ _ _ Hr Hx)).
Qed.
Lemma step_insert m s A h xs l xs' :
  rep s A -> A !! h = Some xs -> insertable (dom (q_elems s)) A l = true ->
  (forall z, z ∈ xs' -> z ∈ l :: xs) -> (fresh s l xs -> wp m (one s h (l :: xs) xs') s) ->
  wp m (fun _ s' => rep s' (<[h := xs']> A) /\ same_dom s s') s.
Proof.
  intros Hr Hx Hi Hz Hwp. eapply step_one; [done|by left| |by eapply Hwp, fresh_of].
  apply andb_true_iff in Hi as [_ Hf%bool_decide_eq_true_1].
  intros z [Hin|Hin%Hz]; apply elem_of_cons in Hin as [->|]; auto.
Qed.
Lemma step_remove m s A h xs xs' :
  rep s A -> A !! h = Some xs -> (forall z, z ∈ xs' -> z ∈ xs) -> wp m (one s h xs xs') s ->
  wp m (fun _ s' => rep s' (<[h := xs']> A) /\ same_dom s s') s.
Proof. intros Hr Hx Hz Hwp. eapply step_one; [done|by left| |done]. intros z [|]; auto. Qed.

Lemma implements_step `{HI : Implements run ok} fuel s A A' o :
  rep s A -> ok o = true -> size (q_elems s) <= fuel ->
  q_step (dom (q_heads s)) (dom (q_elems s)) o A = Some A' ->
  wp (run fuel o) (fun _ s' => rep s' A' /\ same_dom s s') s.
Proof.
  intros Hr Hok Hf Hq. pose proof (HI fuel o s Hok Hf) as Hs. pose proof (rep_list _ _ Hr) as Hl.
  destruct o as [h|h l|h l|h x l|h x l|h|h x|h x|h1 h2|h1 h2]; cbn [q_step op_spec] in *;
    [destruct (decide _) as [Hh|] in Hq; simplify_eq| | | | | | | | |];
    try (apply bind_Some in Hq as (xs & Hx & Hq));
    try (apply bind_Some in Hq as (ys & Hy & Hq)).
  - eapply (step_one _ _ _ _ []); [done|by right|set_solver|]. by apply Hs, elem_of_dom.
  - destruct (insertable _ _ _) eqn:Hi; simplify_eq. eapply step_insert; try done. by apply Hs, Hl.
  - destruct (insertable _ _ _) eqn:Hi; simplify_eq. eapply step_insert; [done..|members|]. by apply Hs, Hl.
  - destruct (insertable _ _ _) eqn:Hi; [|done]. case_bool_decide as Hin; simplify_eq/=.
    destruct (rep_split _ _ _ _ _ Hr Hx Hin) as (ys & zs & -> & Hn). rewrite add_after_split by done.
    eapply step_insert; [done..|members|]. by apply Hs, Hl.
  - destruct (insertable _ _ _) eqn:Hi; [|done]. case_bool_decide as Hin; simplify_eq/=.
    destruct (rep_split _ _ _ _ _ Hr Hx Hin) as (ys & zs & -> & Hn). rewrite add_before_split by done.
    eapply step_insert; [done..|members|]. by apply Hs, Hl.
  - destruct xs as [|x xs]; simplify_eq. eapply step_remove; [done..|members|]. by apply Hs, Hl.
  - apply succ_of_split in Hy as (xs1 & xs2 & ->). simplify_eq. rewrite cons_middle, app_assoc, del_split.
    + rewrite <- app_assoc. eapply step_remove; [done..|members|]. by apply Hs, Hl.
    + destruct (NoDup_mid2 _ _ _ _ (rep_NoDup _ _ _ _ Hr Hx)) as (_ & ? & _ & _ & ? & _). set_solver.
  - destruct (decide _) as [Hin|]; simplify_eq.
    destruct (rep_split _ _ _ _ _ Hr Hx Hin) as (ys & zs & -> & Hn). rewrite del_split by done.
    eapply step_remove; [done..|members|]. by apply Hs, Hl.
  - destruct (decide _) as [|Hne]; simplify_eq. assert (ys ## xs) by by eapply (rep_disj _ _ Hr h2 h1).
    eapply step_two; [done..|set_solver|rewrite app_nil_r; done|]. by apply Hs; auto.
  - destruct (decide _) as [|Hne]; simplify_eq. assert (ys ## xs) by by eapply (rep_disj _ _ Hr h2 h1).
    eapply step_two; [done..|members|]. by apply Hs; auto.
Qed.

(** Operations one after the other. *)
Fixpoint run_ops {O : Type} (run : O -> M (qmem H E) unit) (os : list O) : M (qmem H E) unit :=
  match os with [] => ret tt | o :: os => run o;; run_ops run os end.

Lemma run_ops_rep `{HI : Implements run ok} fuel os : forall s A A',
  rep s A -> forallb ok os = true -> size (q_elems s) <= fuel ->
  q_steps (dom (q_heads s)) (dom (q_elems s)) os A = Some A' ->
  wp (run_ops (run fuel) os) (fun _ s' => rep s' A' /\ same_dom s s') s.
Proof.
  induction os as [|o os IH]; intros s A A' Hr Hok Hf Hq; cbn [run_ops q_steps forallb] in *.
  - wp_steps. by injection Hq as <-.
  - apply andb_true_iff in Hok as [Ho Hok]. apply bind_Some in Hq as (A1 & Hq1 & Hq). wp_steps.
    eapply wp_mono; [by eapply implements_step|]. intros [] s1 [Hr1 [Eh Ee]].
    eapply wp_mono; [apply (IH s1 A1 A')|]; try done.
    + by rewrite (same_dom_size s s1).
    + by rewrite Eh, Ee.
    + intros _ s2 [? [? ?]]. split; [done|]. split; congruence.
Qed.

(** Then the lists hold what the family's other macros need to answer questions about them. *)
Lemma run_ops_after `{HI : Implements run ok} (after : qmem H E -> lists -> Prop) fuel os s A A' :
  (forall s A, rep s A -> size (q_elems s) <= fuel -> after s A) ->
  rep s A -> forallb ok os = true -> size (q_elems s) <= fuel ->
  q_steps (dom (q_heads s)) (dom (q_elems s)) os A = Some A' ->
  exists s', run_ops (run fuel) os s = Done (tt, s') /\ rep s' A' /\ after s' A'.
Proof.
  intros Hans Hr Hok Hf Hq. destruct (wp_Done _ _ _ (run_ops_rep fuel os s A A' Hr Hok Hf Hq)) as ([] & s' & E' & Hr' & Hd).
  exists s'. split; [done|]. split; [done|]. apply Hans; [done|]. by rewrite (same_dom_size s s').
Qed.
End rep.

(** Two elements differ because one is in a list that the other is not in. *)
Ltac elem_ne :=
  first [ congruence
        | let E := fresh in intros E;
          match goal with
          | H : ?x ∈ ?xs, H' : ?y ∉ ?ys |- False =>
              apply H'; first [rewrite <- E | rewrite E]; clear -H; set_solver
          | H' : ?y ∉ ?ys |- False => apply H'; first [rewrite <- E | rewrite E]; clear; set_solver
          end ].
Ltac agrees := repeat first
  [ apply agree_refl | apply agree_set_lst; [|clear; set_solver] | apply agree_set_prv; [|clear; set_solver]
  | match goal with Ha : agree _ _ _ ?s1 |- agree _ _ _ ?s1 =>
      eapply agree_trans; [|eapply agree_weaken; [exact Ha|clear; set_solver|clear; set_solver]] end
  | apply agree_set_lnk; [|first [ apply slot_ok_last; clear; set_solver | simpl; clear; set_solver ]] ].
