(* ===== verification/QueueLoops.v ===== *)
(** The loop macros of [server/src/queue.h] whose bodies change the lists.

    [visit_safe] is a [FOREACH_SAFE] loop: the next element is read before the body runs, so
    that the body may unlink the current one. [move] is such a body: it takes the
    element off its list and puts it at the front of another. [loop_moves] says what a
    loop with this body does, and [loop_moves_ok] proves it for every family of macros, in
    both directions, from the family's interface alone. *)

From S2P Require Import Prelude CMonad KHeap Queue QueueShape QueueSpec.
Local Open Scope cmonad_scope.

Lemma wp_done {S A} (m : M S A) a Q s s' : m s = Done (a, s') -> Q a s' -> wp m Q s.
Proof. unfold wp. by intros ->. Qed.

Section safe.
Context {H E : Type} `{HL : !Links H E}.
Implicit Types s : qmem H E.

(** [((var) ? (var) : first)], where a [FROM] loop starts. *)
Definition start_from (var : ptr) (first : M (qmem H E) ptr) : M (qmem H E) ptr :=
  if is_null var then first else ret var.

Fixpoint visit_safe (step : ptr -> M (qmem H E) ptr) (body : ptr -> M (qmem H E) unit) (fuel : nat) (var : ptr) :
    M (qmem H E) (list loc) :=
  match var with
  | PNull => ret []
  | PZero => mfault BadAccess
  | PLoc l =>
      match fuel with
      | O => mfault OutOfFuel
      | S fuel =>
          let! tvar := step var in
          body var;;
          let! ls := visit_safe step body fuel tvar in ret (l :: ls)
      end
  end.

(** With a body that does nothing it is a [FOREACH] loop. *)
Lemma visit_safe_skip step fuel : forall var s, visit_safe step (fun _ => ret tt) fuel var s = visit step fuel var s.
Proof.
  induction fuel as [|fuel IH]; intros [| |l] s; simpl; try done. unfold bind, ret.
  destruct (step (PLoc l) s) as [[tvar s1]|]; [|done]. by rewrite IH.
Qed.

(** A [FROM] loop that starts at an element visits it and those after it. *)
Lemma visit_from_ok s sl ys x zs fuel :
  chain (lnk s) sl (ys ++ x :: zs) PNull -> length (ys ++ x :: zs) <= fuel ->
  visit load_next fuel (PLoc x) s = Done (x :: zs, s).
Proof.
  intros [_ Hc]%chain_app Hf. rewrite length_app in Hf.
  change (PLoc x) with (first_of (x :: zs) PNull). eapply visit_ok; [exact Hc|lia].
Qed.
End safe.

Section move.
Context {H E : Type} `{HF : Family H E}.
Context {run : nat -> qop -> M (qmem H E) unit} {ok : qop -> bool} `{HI : !Implements run ok}.
Implicit Types s : qmem H E.

Definition move (fuel : nat) (h1 h2 : loc) (var : ptr) : M (qmem H E) unit :=
  match var with
  | PLoc l => run fuel (QRemove h1 l);; run fuel (QInsertHead h2 l)
  | _ => mfault BadAccess
  end.

(** The order in which a loop visits the elements of a list. *)
Record visiting (ord : list loc -> list loc) : Prop := {
  vis_nil : ord [] = [];
  vis_perm xs : ord xs ≡ₚ xs;
  vis_twice xs : ord (ord xs) = xs;
  vis_del x xs : (x ∉ xs) -> del x (ord (x :: xs)) = ord xs;
}.
Lemma visiting_id : visiting id.
Proof. split; intros; try done. simpl. by rewrite decide_True. Qed.
Lemma del_snoc x xs : (x ∉ xs) -> del x (xs ++ [x]) = xs.
Proof.
  intros Hx. rewrite del_split by done. by rewrite app_nil_r.
Qed.
Lemma visiting_reverse : visiting reverse.
Proof.
  split; [done|apply reverse_Permutation|apply reverse_involutive|].
  intros x xs Hx. rewrite reverse_cons. apply del_snoc. by rewrite elem_of_reverse.
Qed.

(** *** The loop with this body *)

Context {ord : list loc -> list loc} (Hord : visiting ord).
Context {step : ptr -> M (qmem H E) ptr}.
Context (Hstep : forall s h x vs, listq s h (ord (x :: vs)) -> step (PLoc x) s = Done (first_of vs PNull, s)).
Context (Hrem : forall h l, ok (QRemove h l) = true) (Hins : forall h l, ok (QInsertHead h l) = true).

Lemma move_wp fuel s A h1 h2 x vs ys :
  rep s A -> A !! h1 = Some (ord (x :: vs)) -> A !! h2 = Some ys -> h1 <> h2 -> size (q_elems s) <= fuel ->
  wp (move fuel h1 h2 (PLoc x)) (fun _ s' => rep s' (<[h1 := ord vs]> (<[h2 := x :: ys]> A)) /\ same_dom s s') s.
Proof using Hord Hrem Hins HI.
  intros Hr H1 H2 Hne Hf. unfold move. wp_steps. pose proof (vis_perm _ Hord (x :: vs)) as Hp.
  assert (x ∈ ord (x :: vs)) as Hx by (rewrite Hp; left).
  pose proof (rep_NoDup _ _ _ _ Hr H1) as Hnd. rewrite Hp in Hnd. apply NoDup_cons in Hnd as [Hxv _].
  eapply wp_mono.
  { eapply (implements_step _ _ A (<[h1 := ord vs]> A)); [done|apply Hrem|done|]. cbn [q_step]. rewrite H1. simpl.
    rewrite decide_True by done. by rewrite (vis_del _ Hord). }
  intros [] s1 [Hr1 [Eh Ee]]. eapply wp_mono.
  { eapply (implements_step _ _ (<[h1 := ord vs]> A) (<[h2 := x :: ys]> (<[h1 := ord vs]> A))); [done|apply Hins|by rewrite (same_dom_size s s1)|].
    cbn [q_step]. rewrite lookup_insert_ne, H2 by done. simpl. unfold insertable.
    rewrite !bool_decide_true; [done| |].
    - intros h xs. rewrite lookup_insert. case_decide as E1.
      + intros [= <-]. by rewrite (vis_perm _ Hord vs).
      + intros Hh Hin. by apply (rep_disj _ _ Hr h1 h _ _ E1 H1 Hh x).
    - rewrite Ee. pose proof (chain_elem_live _ _ _ _ x (listq_chain _ _ _ (rep_list _ _ Hr _ _ H1)) Hx) as Hlive.
      apply elem_of_dom. unfold lnk in Hlive. by apply fmap_is_Some in Hlive. }
  intros [] s2 [Hr2 [Eh2 Ee2]]. split; [by rewrite (insert_insert_ne A)|]. split; congruence.
Qed.

Lemma visit_safe_move vs : forall n fuel s A h1 h2 ys,
  rep s A -> A !! h1 = Some (ord vs) -> A !! h2 = Some ys -> h1 <> h2 -> size (q_elems s) <= fuel -> length vs <= n ->
  wp (visit_safe step (move fuel h1 h2) n (first_of vs PNull))
    (fun ls s' => ls = vs /\ rep s' (<[h1 := []]> (<[h2 := reverse vs ++ ys]> A))) s.
Proof using Hord Hstep Hrem Hins HI.
  induction vs as [|x vs IH]; intros n fuel s A h1 h2 ys Hr H1 H2 Hne Hf Hn; simpl.
  - destruct n; simpl; wp_steps; (split; [done|]); rewrite (vis_nil _ Hord) in H1; by rewrite insert_id, insert_id
      by (try done; rewrite ?lookup_insert_ne by done; done).
  - destruct n as [|n]; simpl in Hn; [lia|]. cbn [visit_safe first_of]. wp_steps.
    eapply wp_done; [exact (Hstep _ _ _ _ (rep_list _ _ Hr _ _ H1))|]. wp_steps.
    eapply wp_mono; [by eapply move_wp|]. intros [] s1 [Hr1 Hd1]. wp_steps.
    eapply wp_mono; [apply (IH n fuel s1 (<[h1 := ord vs]> (<[h2 := x :: ys]> A)) h1 h2 (x :: ys)); [exact Hr1|apply lookup_insert_eq| |done| |lia]|].
    + by rewrite lookup_insert_ne, lookup_insert_eq.
    + by rewrite (same_dom_size s s1).
    + intros ls s2 [-> Hr2]. wp_steps. split; [done|]. rewrite reverse_cons, <- app_assoc. simpl.
      by rewrite (insert_insert_ne _ h2 h1), !insert_insert_eq in Hr2 by done.
Qed.

(** What the loop [loop] does to two lists of [A]. *)
Definition loop_moves (loop : (ptr -> M (qmem H E) unit) -> nat -> loc -> M (qmem H E) (list loc)) (fuel : nat) s A : Prop :=
  forall h1 h2 xs ys, A !! h1 = Some xs -> A !! h2 = Some ys -> h1 <> h2 ->
    exists s', loop (move fuel h1 h2) fuel h1 s = Done (ord xs, s') /\ rep s' (<[h1 := []]> (<[h2 := reverse (ord xs) ++ ys]> A)).

Lemma loop_moves_ok loop fuel s A :
  (forall body h xs, listq s h xs -> loop body fuel h s = visit_safe step body fuel (first_of (ord xs) PNull) s) ->
  rep s A -> size (q_elems s) <= fuel -> loop_moves loop fuel s A.
Proof using Hord Hstep Hrem Hins HI.
  intros Hloop Hr Hf h1 h2 xs ys H1 H2 Hne. pose proof (rep_list _ _ Hr _ _ H1) as Hq.
  rewrite (Hloop _ _ _ Hq). pose proof (listq_size _ _ _ Hq) as Hsz.
  assert (wp (visit_safe step (move fuel h1 h2) fuel (first_of (ord xs) PNull))
    (fun ls s' => ls = ord xs /\ rep s' (<[h1 := []]> (<[h2 := reverse (ord xs) ++ ys]> A))) s) as Hwp.
  { eapply visit_safe_move; try done; [by rewrite (vis_twice _ Hord)|].
    rewrite (Permutation_length (vis_perm _ Hord xs)). lia. }
  apply wp_Done in Hwp as (ls & s' & Hrun & -> & Hr'). by exists s'.
Qed.
End move.

(** *** Loops from the first element on *)

Section forward.
Context {H E : Type} `{HF : Family H E}.
Context {run : nat -> qop -> M (qmem H E) unit} {ok : qop -> bool} `{HI : !Implements run ok}.
Implicit Types s : qmem H E.

Lemma forward_moves fuel s A :
  (forall h l, ok (QRemove h l) = true) -> (forall h l, ok (QInsertHead h l) = true) ->
  rep s A -> size (q_elems s) <= fuel ->
  loop_moves (run := run) (ord := id)
    (fun body fuel h => let! var := load_slot (SFirst h) in visit_safe load_next body fuel var) fuel s A.
Proof.
  intros Hrem Hins Hr Hf. eapply (loop_moves_ok visiting_id (step := load_next)); try done.
  - intros s' h x vs Hq. eapply (chain_load_next _ _ []). by apply (listq_chain _ _ _ Hq).
  - intros body h xs Hq. unfold bind. by erewrite chain_load_first by (by eapply listq_chain).
Qed.

(** A loop that starts at an element of a list, with a body that does nothing. *)
Lemma foreach_from_ok s h ys x zs fuel first :
  listq s h (ys ++ x :: zs) -> length (ys ++ x :: zs) <= fuel ->
  (let! var := start_from (PLoc x) first in visit load_next fuel var) s = Done (x :: zs, s) /\
  (let! var := start_from (PLoc x) first in visit_safe load_next (fun _ => ret tt) fuel var) s = Done (x :: zs, s).
Proof.
  intros Hq Hf. pose proof (visit_from_ok s _ ys x zs fuel (listq_chain _ _ _ Hq) Hf) as Hv.
  split; [exact Hv|]. exact (eq_trans (visit_safe_skip load_next fuel (PLoc x) s) Hv).
Qed.
End forward.
