(* ===== verification/TailQ.v ===== *)
(** Tail queues: the TAILQ macros of [server/src/queue.h].

    A macro is a computation over the memory of heads and entries; its element arguments are
    pointers and its head argument the address of a head. The tracing macros
    ([QMD_TRACE_...], [TRASHIT]) are empty, as they are when [QUEUE_MACRO_DEBUG] is not defined, and
    the checks of a build with [INVARIANTS] are in [QueueDebug]. *)

From S2P Require Import Prelude CMonad KHeap Queue QueueShape QueueSpec QueueLoops.
Local Open Scope cmonad_scope.

Record TAILQ_HEAD := TailqHead { tqh_first : ptr; tqh_last : slot }.
Record TAILQ_ENTRY := TailqEntry { tqe_next : ptr; tqe_prev : slot }.

#[export] Instance tailq_links : Links TAILQ_HEAD TAILQ_ENTRY.
Proof.
  refine (Build_Links _ _ tqh_first (fun p h => TailqHead p (tqh_last h))
            tqe_next (fun p e => TailqEntry p (tqe_prev e)) _ _); done.
Defined.
#[export] Instance tailq_tails : Tails TAILQ_HEAD TAILQ_ENTRY.
Proof. refine (Build_Tails _ _ _ tqh_last (fun sl h => TailqHead (tqh_first h) sl) _ _ _); done. Defined.
#[export] Instance tailq_prevs : Prevs TAILQ_HEAD TAILQ_ENTRY.
Proof. refine (Build_Prevs _ _ _ tqe_prev (fun sl e => TailqEntry (tqe_next e) sl) _ _ _); done. Defined.

Abbreviation TM := (M (qmem TAILQ_HEAD TAILQ_ENTRY)).

Definition TAILQ_FIRST (head : loc) : TM ptr := load_slot (SFirst head).
Definition TAILQ_EMPTY (head : loc) : TM bool := let! p := TAILQ_FIRST head in ret (is_null p).
Definition TAILQ_NEXT (elm : ptr) : TM ptr := load_next elm.

(** [((struct headname * )sl)->tqh_last]: the second field of the structure whose first field is
    at [sl], which is a head or the entry of an element. *)
Definition second_field (sl : slot) : TM slot :=
  match sl with SFirst h => load_last h | SNext l => load_prev (PLoc l) end.
Definition TAILQ_LAST (head : loc) : TM ptr :=
  let! sl := load_last head in let! sl := second_field sl in load_slot sl.
Definition TAILQ_PREV (elm : ptr) : TM ptr :=
  let! sl := load_prev elm in let! sl := second_field sl in load_slot sl.

Definition TAILQ_INIT (head : loc) : TM unit :=
  store_slot (SFirst head) PNull;;
  store_last head (SFirst head).

Definition TAILQ_INSERT_HEAD (head : loc) (elm : ptr) : TM unit :=
  let! first := TAILQ_FIRST head in
  store_next elm first;;
  (if negb (is_null first) then
     let! f := TAILQ_FIRST head in let! sl := addr_next elm in store_prev f sl
   else let! sl := addr_next elm in store_last head sl);;
  store_slot (SFirst head) elm;;
  store_prev elm (SFirst head).

Definition TAILQ_INSERT_TAIL (head : loc) (elm : ptr) : TM unit :=
  store_next elm PNull;;
  let! last := load_last head in
  store_prev elm last;;
  let! last := load_last head in
  store_slot last elm;;
  let! sl := addr_next elm in
  store_last head sl.

Definition TAILQ_INSERT_AFTER (head : loc) (listelm elm : ptr) : TM unit :=
  let! next := TAILQ_NEXT listelm in
  store_next elm next;;
  (if negb (is_null next) then
     let! n := TAILQ_NEXT elm in let! sl := addr_next elm in store_prev n sl
   else let! sl := addr_next elm in store_last head sl);;
  store_next listelm elm;;
  let! sl := addr_next listelm in
  store_prev elm sl.

Definition TAILQ_INSERT_BEFORE (listelm elm : ptr) : TM unit :=
  let! prev := load_prev listelm in
  store_prev elm prev;;
  store_next elm listelm;;
  let! prev := load_prev listelm in
  store_slot prev elm;;
  let! sl := addr_next elm in
  store_prev listelm sl.

Definition TAILQ_REMOVE (head : loc) (elm : ptr) : TM unit :=
  let! next := TAILQ_NEXT elm in
  let! prev := load_prev elm in
  (if negb (is_null next) then store_prev next prev else store_last head prev);;
  let! prev := load_prev elm in
  let! next := TAILQ_NEXT elm in
  store_slot prev next.

Definition TAILQ_CONCAT (head1 head2 : loc) : TM unit :=
  let! e := TAILQ_EMPTY head2 in
  if negb e then
    let! last1 := load_last head1 in
    let! first2 := TAILQ_FIRST head2 in
    store_slot last1 first2;;
    let! first2 := TAILQ_FIRST head2 in
    let! last1 := load_last head1 in
    store_prev first2 last1;;
    let! last2 := load_last head2 in
    store_last head1 last2;;
    TAILQ_INIT head2
  else ret tt.

(** The first element points back at its head; an empty queue's [tqh_last] does. *)
Definition reattach (head : loc) : TM unit :=
  let! first := TAILQ_FIRST head in
  if negb (is_null first) then store_prev first (SFirst head) else store_last head (SFirst head).
Definition TAILQ_SWAP (head1 head2 : loc) : TM unit :=
  let! swap_first := TAILQ_FIRST head1 in
  let! swap_last := load_last head1 in
  let! first2 := TAILQ_FIRST head2 in
  store_slot (SFirst head1) first2;;
  let! last2 := load_last head2 in
  store_last head1 last2;;
  store_slot (SFirst head2) swap_first;;
  store_last head2 swap_last;;
  reattach head1;;
  reattach head2.

Definition TAILQ_FOREACH (fuel : nat) (head : loc) : TM (list loc) :=
  let! var := TAILQ_FIRST head in visit TAILQ_NEXT fuel var.
Definition TAILQ_FOREACH_REVERSE (fuel : nat) (head : loc) : TM (list loc) :=
  let! var := TAILQ_LAST head in visit TAILQ_PREV fuel var.
(** Loops that start at [var], that let the body unlink the element, and both. *)
Definition TAILQ_FOREACH_FROM (fuel : nat) (head : loc) (var : ptr) : TM (list loc) :=
  let! var := start_from var (TAILQ_FIRST head) in visit TAILQ_NEXT fuel var.
Definition TAILQ_FOREACH_SAFE (body : ptr -> TM unit) (fuel : nat) (head : loc) : TM (list loc) :=
  let! var := TAILQ_FIRST head in visit_safe TAILQ_NEXT body fuel var.
Definition TAILQ_FOREACH_FROM_SAFE (body : ptr -> TM unit) (fuel : nat) (head : loc) (var : ptr) : TM (list loc) :=
  let! var := start_from var (TAILQ_FIRST head) in visit_safe TAILQ_NEXT body fuel var.

Definition TAILQ_FOREACH_REVERSE_FROM (fuel : nat) (head : loc) (var : ptr) : TM (list loc) :=
  let! var := start_from var (TAILQ_LAST head) in visit TAILQ_PREV fuel var.
Definition TAILQ_FOREACH_REVERSE_SAFE (body : ptr -> TM unit) (fuel : nat) (head : loc) : TM (list loc) :=
  let! var := TAILQ_LAST head in visit_safe TAILQ_PREV body fuel var.
Definition TAILQ_FOREACH_REVERSE_FROM_SAFE (body : ptr -> TM unit) (fuel : nat) (head : loc) (var : ptr) : TM (list loc) :=
  let! var := start_from var (TAILQ_LAST head) in visit_safe TAILQ_PREV body fuel var.

(** *** The queue a head represents *)

Definition tailq (s : qmem TAILQ_HEAD TAILQ_ENTRY) (h : loc) (xs : list loc) : Prop :=
  chain (lnk s) (SFirst h) xs PNull /\ lst s h = Some (last_slot (SFirst h) xs) /\ backs (prv s) (SFirst h) xs.

#[export] Instance tailq_family : Family TAILQ_HEAD TAILQ_ENTRY.
Proof.
  refine (Build_Family _ _ _ tailq _ _).
  - by intros s h xs (H & _).
  - intros s s' hs es h xs Ha Hh Hes (H1 & H2 & H3). split_and!.
    + by eapply agree_chain.
    + unfold lst in *. by rewrite (ag_heads _ _ _ _ Ha).
    + eapply backs_ext; [exact H3|]. intros l Hl. unfold prv. by rewrite (ag_elems _ _ _ _ Ha) by auto.
Defined.

(** *** One operation *)

Section ops.
Implicit Types s : qmem TAILQ_HEAD TAILQ_ENTRY.

Lemma tailq_init_ok s h : is_Some (lst s h) -> wp (TAILQ_INIT h) (fun _ s' => tailq s' h [] /\ agree [h] [] s s') s.
Proof.
  intros Hl. assert (is_Some (lnk s (SFirst h))) by (destruct Hl as [sl Hl]; by eapply lst_lnk).
  unfold TAILQ_INIT. wp_steps. apply store_slot_wp; [live|]. wp_steps. apply store_last_wp; [live|]. split.
  - split_and!; cbn; [by obs|by obs|done].
  - agrees.
Qed.

Lemma tailq_insert_head_ok s h xs l :
  tailq s h xs -> is_Some (lnk s (SNext l)) -> (l ∉ xs) ->
  wp (TAILQ_INSERT_HEAD h (PLoc l)) (fun _ s' => tailq s' h (l :: xs) /\ agree [h] (l :: xs) s s') s.
Proof.
  intros (Hc & Hl & Hb) Hlive Hn. unfold TAILQ_INSERT_HEAD, TAILQ_FIRST. wp_steps.
  eapply load_slot_wp; [by eapply chain_first|]. wp_steps. apply store_next_wp; [live|]. wp_steps.
  pose proof (chain_NoDup _ _ _ Hc) as Hnd. destruct xs as [|y ys]; simpl first_of.
  - change (negb (is_null PNull)) with false. cbn iota. cbn [chain last_slot] in *. wp_steps.
    apply store_last_wp; [live|]. wp_steps. apply store_slot_wp; [live|]. wp_steps. apply store_prev_wp; [live|].
    split; [|agrees]. split_and!; cbn; split_and?; try done; by obs.
  - change (negb (is_null (PLoc y))) with true. cbn iota. destruct Hc as [Hf Hc], Hb as [Hy Hb].
    apply NoDup_cons in Hnd as [Hyn _]. assert (y <> l) by elem_ne.
    assert (is_Some (prv s y)) by by eexists. wp_steps. eapply load_slot_wp; [by obs|].
    wp_steps. apply store_prev_wp; [live|]. wp_steps. apply store_slot_wp; [live|]. wp_steps.
    apply store_prev_wp; [live|]. split; [|agrees]. split_and!.
    + split; [by obs|]. split; [by obs|]. eapply chain_same; [exact Hc|]. intros z Hz. assert (z <> l) by elem_ne. by obs.
    + obs. exact Hl.
    + split; [by obs|]. split; [by obs|]. eapply backs_ext; [exact Hb|]. intros z Hz.
      assert (z <> l) by elem_ne. assert (z <> y) by elem_ne. by obs.
Qed.

Lemma tailq_insert_tail_ok s h xs l :
  tailq s h xs -> is_Some (lnk s (SNext l)) -> (l ∉ xs) ->
  wp (TAILQ_INSERT_TAIL h (PLoc l)) (fun _ s' => tailq s' h (xs ++ [l]) /\ agree [h] (l :: xs) s s') s.
Proof.
  intros (Hc & Hl & Hb) Hlive Hn. pose proof (chain_last _ _ _ _ Hc) as HL.
  pose proof (chain_NoDup _ _ _ Hc) as Hnd. pose proof (last_slot_ne h xs l Hn) as HLl.
  unfold TAILQ_INSERT_TAIL. wp_steps. apply store_next_wp; [live|]. wp_steps. eapply load_last_wp; [by obs|]. wp_steps.
  apply store_prev_wp; [live|]. wp_steps. eapply load_last_wp; [by obs|]. wp_steps.
  apply store_slot_wp; [live|]. wp_steps. apply store_last_wp; [live|]. split; [|agrees]. split_and!.
  - apply chain_app. split; [|cbn; split; by obs].
    eapply chain_retarget; [exact Hc|by apply slots_NoDup|by obs|].
    intros sl Hsl Hne. pose proof (slots_ne _ _ _ _ Hsl Hn). by obs.
  - rewrite last_slot_snoc. by obs.
  - apply backs_app. split; [|cbn; split; [by obs|done]].
    eapply backs_ext; [exact Hb|]. intros z Hz. assert (z <> l) by elem_ne. by obs.
Qed.

Lemma tailq_insert_after_ok s h xs x ys l :
  tailq s h (xs ++ x :: ys) -> is_Some (lnk s (SNext l)) -> (l ∉ xs ++ x :: ys) ->
  wp (TAILQ_INSERT_AFTER h (PLoc x) (PLoc l))
     (fun _ s' => tailq s' h (xs ++ x :: l :: ys) /\ agree [h] (l :: xs ++ x :: ys) s s') s.
Proof.
  intros (Hc & Hl & Hb) Hlive Hn. pose proof (chain_NoDup _ _ _ Hc) as Hnd.
  apply chain_app in Hc as [Hc1 [Hx Hc2]]. apply backs_app in Hb as [Hb1 [Hbx Hb2]].
  assert (x <> l) by elem_ne. pose proof (NoDup_mid _ _ _ Hnd) as (Hxx & Hxy & _ & _).
  unfold TAILQ_INSERT_AFTER, TAILQ_NEXT. wp_steps. eapply load_next_wp; [by eapply chain_first|]. wp_steps.
  apply store_next_wp; [live|]. wp_steps. assert (is_Some (lnk s (SNext x))) as Hlx by (eapply chain_live; [exact Hc2|left]).
  assert (forall s', (forall sl, sl ∈ slots (SFirst h) xs -> lnk s' sl = lnk s sl) ->
    lnk s' (last_slot (SFirst h) xs) = Some (PLoc x) /\ chain (lnk s') (SFirst h) xs (PLoc x)) as Hfront.
  { intros s' Hs'. split; [rewrite Hs'; [done|apply last_slot_in]|]. by eapply chain_ext. }
  destruct ys as [|y ys]; simpl first_of.
  - change (negb (is_null PNull)) with false. cbn iota. wp_steps. apply store_last_wp; [live|]. wp_steps.
    apply store_next_wp; [live|]. wp_steps. apply store_prev_wp; [live|]. split; [|agrees].
    match goal with |- tailq ?s' _ _ => destruct (Hfront s') as [E1 E2] end.
    { intros sl Hsl. pose proof (slots_ne _ _ _ l Hsl ltac:(set_solver)). pose proof (slots_ne _ _ _ x Hsl Hxx). by obs. }
    split_and!.
    + apply chain_app. split; [exact E2|]. cbn. split; [exact E1|]. split; by obs.
    + rewrite last_slot_app. cbn. by obs.
    + apply backs_app. split; [|cbn; split_and?; try done; by obs].
      eapply backs_ext; [exact Hb1|]. intros z Hz. assert (z <> l) by elem_ne. by obs.
  - change (negb (is_null (PLoc y))) with true. cbn iota. destruct Hc2 as [Hxy' Hc2], Hb2 as [Hy Hb2].
    assert (is_Some (prv s y)) by by eexists. assert (y <> l) by elem_ne. assert (y <> x) by elem_ne.
    wp_steps. eapply load_next_wp; [by obs|]. wp_steps. apply store_prev_wp; [live|]. wp_steps.
    apply store_next_wp; [live|]. wp_steps. apply store_prev_wp; [live|]. split; [|agrees].
    match goal with |- tailq ?s' _ _ => destruct (Hfront s') as [E1 E2] end.
    { intros sl Hsl. pose proof (slots_ne _ _ _ l Hsl ltac:(set_solver)). pose proof (slots_ne _ _ _ x Hsl Hxx). by obs. }
    destruct (NoDup_mid2 _ _ _ _ Hnd) as (_ & Hyx & _ & Hyy & _ & _ & _).
    split_and!.
    + apply chain_app. split; [exact E2|]. cbn [chain]. split; [exact E1|]. split; [by obs|]. split; [by obs|].
      eapply chain_same; [exact Hc2|]. intros z Hz. assert (z <> l) by elem_ne. assert (z <> x) by elem_ne. by obs.
    + rewrite last_slot_app in *. cbn [last_slot] in *. by obs.
    + apply backs_app. split.
      * eapply backs_ext; [exact Hb1|]. intros z Hz. assert (z <> l) by elem_ne. assert (z <> y) by elem_ne. by obs.
      * cbn [backs]. split_and!; [by obs|by obs|by obs|]. eapply backs_ext; [exact Hb2|]. intros z Hz.
        assert (z <> l) by elem_ne. assert (z <> y) by elem_ne. by obs.
Qed.

Lemma tailq_insert_before_ok s h xs x ys l :
  tailq s h (xs ++ x :: ys) -> is_Some (lnk s (SNext l)) -> (l ∉ xs ++ x :: ys) ->
  wp (TAILQ_INSERT_BEFORE (PLoc x) (PLoc l))
     (fun _ s' => tailq s' h (xs ++ l :: x :: ys) /\ agree [h] (l :: xs ++ x :: ys) s s') s.
Proof.
  intros (Hc & Hl & Hb) Hlive Hn. pose proof (chain_NoDup _ _ _ Hc) as Hnd.
  apply chain_app in Hc as [Hc1 [Hx Hc2]]. apply backs_app in Hb as [Hb1 [Hbx Hb2]]. simpl in Hc1.
  assert (x <> l) by elem_ne. destruct (NoDup_mid _ _ _ Hnd) as (Hxx & Hxy & Hndx & Hdis).
  assert (l ∉ xs) as Hlx by (intros Hin; apply Hn, elem_of_app; by left).
  pose proof (last_slot_ne h xs l Hlx) as HLl. pose proof (last_slot_ne h xs x Hxx) as HLx.
  assert (is_Some (prv s x)) by by eexists.
  unfold TAILQ_INSERT_BEFORE. wp_steps. eapply load_prev_wp; [done|]. wp_steps. apply store_prev_wp; [live|]. wp_steps.
  apply store_next_wp; [live|]. wp_steps. eapply load_prev_wp; [by obs|]. wp_steps. apply store_slot_wp; [live|]. wp_steps.
  apply store_prev_wp; [live|]. split; [|agrees]. split_and!.
  - apply chain_app. split.
    + eapply chain_redirect; [exact Hc1|done|by obs|]. intros sl Hsl Hne. pose proof (slots_ne _ _ _ _ Hsl Hlx). by obs.
    + cbn [chain]. split; [by obs|]. split; [by obs|]. eapply chain_same; [exact Hc2|].
      intros z Hz. assert (z <> l) by elem_ne. assert (last_slot (SFirst h) xs <> SNext z); [|by obs].
      apply last_slot_ne. apply elem_of_cons in Hz as [->|Hz]; [done|by apply Hdis].
  - rewrite last_slot_app in *. cbn [last_slot] in *. by obs.
  - apply backs_app. split.
    + eapply backs_ext; [exact Hb1|]. intros z Hz. assert (z <> l) by elem_ne. assert (z <> x) by elem_ne. by obs.
    + cbn [backs]. split_and!; [by obs|by obs|]. eapply backs_ext; [exact Hb2|].
      intros z Hz. assert (z <> l) by elem_ne. assert (z <> x) by elem_ne. by obs.
Qed.

(** Removing an element leaves its own links as they are. *)
Lemma tailq_remove_kept s h xs x ys :
  tailq s h (xs ++ x :: ys) ->
  wp (TAILQ_REMOVE h (PLoc x)) (one s h (xs ++ ys) (xs ++ ys)) s.
Proof.
  intros (Hc & Hl & Hb). pose proof (chain_NoDup _ _ _ Hc) as Hnd.
  apply chain_app in Hc as [Hc1 [Hx Hc2]]. apply backs_app in Hb as [Hb1 [Hbx Hb2]]. simpl in Hc1.
  destruct (NoDup_mid _ _ _ Hnd) as (Hxx & Hxy & Hndx & Hdis).
  pose proof (last_slot_ne h xs x Hxx) as HLx. pose proof (chain_first _ _ _ _ Hc2) as Hnx.
  unfold TAILQ_REMOVE, TAILQ_NEXT. wp_steps. eapply load_next_wp; [exact Hnx|]. wp_steps.
  eapply load_prev_wp; [done|]. wp_steps. destruct ys as [|y ys]; simpl first_of in *.
  - change (negb (is_null PNull)) with false. cbn iota. apply store_last_wp; [live|]. wp_steps.
    eapply load_prev_wp; [by obs|]. wp_steps. eapply load_next_wp; [by obs|]. wp_steps.
    apply store_slot_wp; [live|]. split; [|agrees]. rewrite app_nil_r. split_and!.
    + eapply chain_redirect; [exact Hc1|done|by obs|]. intros sl Hsl Hne. by obs.
    + by obs.
    + eapply backs_ext; [exact Hb1|]. intros z Hz. by obs.
  - change (negb (is_null (PLoc y))) with true. cbn iota. destruct Hc2 as [_ Hc2], Hb2 as [Hy Hb2].
    destruct (NoDup_mid2 _ _ _ _ Hnd) as (_ & Hyx & _ & Hyy & _ & _ & _).
    assert (is_Some (prv s y)) by by eexists. assert (x <> y) by elem_ne.
    apply store_prev_wp; [live|]. wp_steps. eapply load_prev_wp; [by obs|]. wp_steps.
    eapply load_next_wp; [by obs|]. wp_steps. apply store_slot_wp; [live|]. split; [|agrees]. split_and!.
    + apply chain_app. split.
      * eapply chain_redirect; [exact Hc1|done|by obs|]. intros sl Hsl Hne. by obs.
      * cbn [chain]. split; [by obs|]. eapply chain_same; [exact Hc2|]. intros z Hz.
        assert (last_slot (SFirst h) xs <> SNext z); [|by obs]. by apply last_slot_ne, Hdis.
    + rewrite last_slot_app in *. cbn [last_slot] in *. by obs.
    + apply backs_app. split.
      * eapply backs_ext; [exact Hb1|]. intros z Hz. assert (z <> y) by elem_ne. by obs.
      * cbn [backs]. split; [by obs|]. eapply backs_ext; [exact Hb2|]. intros z Hz. assert (z <> y) by elem_ne. by obs.
Qed.
Lemma tailq_remove_ok s h xs x ys :
  tailq s h (xs ++ x :: ys) -> wp (TAILQ_REMOVE h (PLoc x)) (one s h (xs ++ x :: ys) (xs ++ ys)) s.
Proof.
  intros Hq. eapply wp_mono; [by apply tailq_remove_kept|]. intros [] s' [Hq' Ha]. split; [done|].
  eapply agree_weaken; [exact Ha|done|]. clear. set_solver.
Qed.

(** Two queues without a common element. *)
Lemma tailq_concat_ok s h1 h2 xs ys :
  tailq s h1 xs -> tailq s h2 ys -> h1 <> h2 -> (forall z, z ∈ ys -> z ∉ xs) ->
  wp (TAILQ_CONCAT h1 h2)
     (fun _ s' => tailq s' h1 (xs ++ ys) /\ tailq s' h2 [] /\ agree [h1; h2] (xs ++ ys) s s') s.
Proof.
  intros H1 H2 Hne Hdis. pose proof H1 as (Hc1 & Hl1 & Hb1). pose proof H2 as (Hc2 & Hl2 & Hb2).
  pose proof (chain_NoDup _ _ _ Hc1) as Hndx. pose proof (chain_NoDup _ _ _ Hc2) as Hnd.
  unfold TAILQ_CONCAT, TAILQ_EMPTY, TAILQ_FIRST. wp_steps.
  eapply load_slot_wp; [by eapply chain_first|]. wp_steps. destruct ys as [|y ys]; simpl first_of.
  { change (negb (is_null PNull)) with false. cbn iota. wp_steps. rewrite app_nil_r. split_and!; [done|done|agrees]. }
  change (negb (is_null (PLoc y))) with true. cbn iota. wp_steps. eapply load_last_wp; [done|]. wp_steps.
  destruct Hc2 as [Hf2 Hc2], Hb2 as [Hy Hb2]. apply NoDup_cons in Hnd as [Hyy _].
  assert (is_Some (prv s y)) by by eexists. assert (y ∉ xs) as Hyx by (apply Hdis; left).
  pose proof (chain_last _ _ _ _ Hc1) as HL. pose proof (last_slot_ne_first h1 h2 xs Hne) as HL2.
  eapply load_slot_wp; [done|]. wp_steps. apply store_slot_wp; [live|]. wp_steps.
  eapply load_slot_wp; [by obs|]. wp_steps. eapply load_last_wp; [by obs|]. wp_steps.
  apply store_prev_wp; [live|]. wp_steps. eapply load_last_wp; [by obs|]. wp_steps. apply store_last_wp; [live|]. wp_steps.
  unfold TAILQ_INIT. wp_steps. apply store_slot_wp; [live|]. wp_steps. apply store_last_wp; [live|].
  split_and!; [| |agrees].
  - split_and!.
    + apply chain_app. split.
      * eapply chain_redirect; [exact Hc1|done|by obs|]. intros sl Hsl Hn.
        assert (SFirst h2 <> sl) by (intros <-; apply slots_first in Hsl; congruence). by obs.
      * cbn [chain]. split; [by obs|]. eapply chain_same; [exact Hc2|]. intros z Hz.
        assert (last_slot (SFirst h1) xs <> SNext z); [|by obs]. by apply last_slot_ne, Hdis.
    + rewrite last_slot_app. cbn [last_slot] in *. by obs.
    + apply backs_app. split.
      * eapply backs_ext; [exact Hb1|]. intros z Hz. assert (z <> y) by elem_ne. by obs.
      * cbn [backs]. split; [by obs|]. eapply backs_ext; [exact Hb2|]. intros z Hz. assert (z <> y) by elem_ne. by obs.
  - split_and!; cbn; [by obs|by obs|done].
Qed.

(** After the fields were exchanged, the first element of each queue is told where it hangs. *)
Lemma reattach_ok s h xs :
  chain (lnk s) (SFirst h) xs PNull -> is_Some (lst s h) -> (xs <> [] -> exists h', lst s h = Some (last_slot (SFirst h') xs)) ->
  (exists sl, backs (prv s) sl xs) ->
  wp (reattach h) (fun _ s' => tailq s' h xs /\ agree [h] xs s s') s.
Proof.
  intros Hc Hlive Hl [sl Hb]. unfold reattach, TAILQ_FIRST. wp_steps. eapply load_slot_wp; [by eapply chain_first|].
  pose proof (chain_NoDup _ _ _ Hc) as Hnd. destruct xs as [|x xs]; simpl first_of.
  - change (negb (is_null PNull)) with false. cbn iota. apply store_last_wp; [live|]. split; [|agrees].
    split_and!; cbn; [by obs|by obs|done].
  - change (negb (is_null (PLoc x))) with true. cbn iota. destruct (Hl ltac:(done)) as [h' Hl']. pose proof Hb as [Hx _].
    apply NoDup_cons in Hnd as [Hn _]. assert (is_Some (prv s x)) by by eexists.
    apply store_prev_wp; [live|]. split; [|agrees]. split_and!.
    + eapply chain_ext; [exact Hc|]. intros sl' _. by obs.
    + obs. exact Hl'.
    + eapply backs_cons_ext; [exact Hb| |by obs]. intros z Hz. assert (z <> x) by elem_ne. by obs.
Qed.

Lemma tailq_swap_ok s h1 h2 xs ys :
  tailq s h1 xs -> tailq s h2 ys -> h1 <> h2 -> ys ## xs ->
  wp (TAILQ_SWAP h1 h2) (fun _ s' => tailq s' h1 ys /\ tailq s' h2 xs /\ agree [h1; h2] (ys ++ xs) s s') s.
Proof.
  intros (Hc1 & Hl1 & Hb1) (Hc2 & Hl2 & Hb2) Hne Hdis. unfold TAILQ_SWAP, TAILQ_FIRST. wp_steps.
  eapply load_slot_wp; [by eapply chain_first|]. wp_steps. eapply load_last_wp; [done|]. wp_steps.
  eapply load_slot_wp; [by eapply chain_first|]. wp_steps.
  pose proof (chain_live _ _ _ _ (SFirst h1) Hc1 ltac:(left)). pose proof (chain_live _ _ _ _ (SFirst h2) Hc2 ltac:(left)).
  apply store_slot_wp; [live|]. wp_steps. eapply load_last_wp; [by obs|]. wp_steps. apply store_last_wp; [live|]. wp_steps.
  apply store_slot_wp; [live|]. wp_steps. apply store_last_wp; [live|]. wp_steps.
  set (s1 := set_lst h2 _ _). assert (agree [h1; h2] [] s s1) as Ha by agrees.
  assert (forall l, lnk s1 (SNext l) = lnk s (SNext l)) as Hn by (intros l; subst s1; by obs).
  assert (forall l, prv s1 l = prv s l) as Hp by (intros l; subst s1; by obs).
  eapply wp_mono; [apply (reattach_ok _ h1 ys)|].
  - eapply chain_moved; [exact Hc2| |by intros; apply Hn]. subst s1. obs. symmetry. by eapply chain_first.
  - subst s1. live.
  - exists h2. subst s1. by obs.
  - exists (SFirst h2). eapply backs_ext; [exact Hb2|]. intros; apply Hp.
  - intros [] s2 [Hq1 Ha2]. assert (forall l, l ∈ xs -> l ∉ ys) as Hxs by (intros l ??; by apply (Hdis l)).
    eapply wp_mono; [apply (reattach_ok s2 h2 xs)|].
    + assert (chain (lnk s1) (SFirst h2) xs PNull) as Hc.
      { eapply chain_moved; [exact Hc1| |by intros; apply Hn]. subst s1. obs. symmetry. by eapply chain_first. }
      eapply agree_chain; [exact Ha2|set_solver|done|done].
    + unfold lst. rewrite (ag_heads _ _ _ _ Ha2) by set_solver. change (is_Some (lst s1 h2)). subst s1. live.
    + exists h1. unfold lst. rewrite (ag_heads _ _ _ _ Ha2) by set_solver.
      change (lst s1 h2 = Some (last_slot (SFirst h1) xs)). subst s1. by obs.
    + exists (SFirst h1). eapply backs_ext; [exact Hb1|]. intros l Hl. rewrite <- Hp. unfold prv.
      by rewrite (ag_elems _ _ _ _ Ha2) by auto.
    + intros [] s3 [Hq2 Ha3]. split; [|split; [done|]].
      * change (listq s3 h1 ys). eapply (listq_frame s2 s3); [exact Ha3|set_solver| |exact Hq1]. intros l ??. by apply (Hdis l).
      * eapply agree_trans; [|eapply agree_trans]; eapply agree_weaken; try done; clear; set_solver.
Qed.

(** *** Questions *)

(** [((struct headname * )sl)->tqh_last] finds the element before, or NULL at the end of the
    queue, because the fields of a head and of an entry have the same types. *)
Lemma second_field_ok s h xs ys :
  tailq s h (xs ++ ys) -> wp (let! sl := second_field (last_slot (SFirst h) xs) in load_slot sl) (fun p s' => p = last_of xs /\ s' = s) s.
Proof.
  intros (Hc & Hl & Hb). unfold last_of. destruct xs as [|x xs _] using rev_ind; simpl.
  - wp_steps. eapply load_last_wp; [done|]. by eapply load_slot_wp; [by eapply chain_last|].
  - rewrite last_slot_snoc, last_snoc. rewrite <- app_assoc in *. apply backs_app in Hb as [_ [Hx _]].
    apply chain_app in Hc as [_ [Hf _]]. simpl. wp_steps. eapply load_prev_wp; [done|]. by eapply load_slot_wp.
Qed.
Lemma tailq_last_ok s h xs : tailq s h xs -> TAILQ_LAST h s = Done (last_of xs, s).
Proof.
  intros Hq. apply wp_eq. pose proof Hq as (_ & Hl & _). unfold TAILQ_LAST. wp_steps. eapply load_last_wp; [done|].
  eapply second_field_ok. by rewrite app_nil_r.
Qed.
Lemma tailq_prev_ok s h xs x ys : tailq s h (xs ++ x :: ys) -> TAILQ_PREV (PLoc x) s = Done (last_of xs, s).
Proof.
  intros Hq. apply wp_eq. pose proof Hq as (_ & _ & [_ [Hx _]]%backs_app). unfold TAILQ_PREV. wp_steps.
  eapply load_prev_wp; [done|]. by eapply second_field_ok.
Qed.
Lemma visit_prev_ok s h xs ys fuel : tailq s h (xs ++ ys) -> length xs <= fuel ->
  visit TAILQ_PREV fuel (last_of xs) s = Done (reverse xs, s).
Proof.
  revert ys fuel. induction xs as [|x xs IH] using rev_ind; intros ys fuel Hq Hf; [by destruct fuel|].
  unfold last_of. rewrite last_snoc, length_app in *. simpl in *. destruct fuel as [|fuel]; [lia|]. simpl.
  rewrite <- app_assoc in Hq. unfold bind at 1. erewrite tailq_prev_ok by exact Hq. unfold bind.
  by erewrite IH, reverse_snoc by (done || lia).
Qed.
End ops.

(** *** The family *)

Definition tailq_run (fuel : nat) (o : qop) : TM unit :=
  match o with
  | QInit h => TAILQ_INIT h
  | QInsertHead h l => TAILQ_INSERT_HEAD h (PLoc l)
  | QInsertTail h l => TAILQ_INSERT_TAIL h (PLoc l)
  | QInsertAfter h x l => TAILQ_INSERT_AFTER h (PLoc x) (PLoc l)
  | QInsertBefore h x l => TAILQ_INSERT_BEFORE (PLoc x) (PLoc l)
  | QRemove h l => TAILQ_REMOVE h (PLoc l)
  | QConcat h1 h2 => TAILQ_CONCAT h1 h2
  | QSwap h1 h2 => TAILQ_SWAP h1 h2
  | QRemoveHead _ | QRemoveAfter _ _ => ret tt
  end.
(** There is no macro for these two. *)
Definition tailq_op (o : qop) : bool := match o with QRemoveHead _ | QRemoveAfter _ _ => false | _ => true end.

#[export] Instance tailq_implements : Implements tailq_run tailq_op.
Proof.
  intros fuel o s Hok _. destruct o as [h|h l|h l|h x l|h x l|h|h x|h x|h1 h2|h1 h2]; try done; unfold op_spec, one, two.
  - intros Hh. apply tailq_init_ok. unfold lst. by apply fmap_is_Some.
  - intros xs Hq Hl. by apply tailq_insert_head_ok; [|eapply fresh_link|destruct Hl].
  - intros xs Hq Hl. by apply tailq_insert_tail_ok; [|eapply fresh_link|destruct Hl].
  - intros xs ys Hq Hl. by apply tailq_insert_after_ok; [|eapply fresh_link|destruct Hl].
  - intros xs ys Hq Hl. by apply tailq_insert_before_ok; [|eapply fresh_link|destruct Hl].
  - intros xs ys Hq. by apply tailq_remove_ok.
  - intros xs ys H1 H2 Hne Hd. rewrite app_nil_r. by apply tailq_concat_ok.
  - intros xs ys H1 H2 Hne Hd. by apply tailq_swap_ok.
Qed.

(** What the macros that do not change a queue say about it. *)
Definition tailq_answers (fuel : nat) (s : qmem TAILQ_HEAD TAILQ_ENTRY) (h : loc) (xs : list loc) : Prop :=
  TAILQ_EMPTY h s = Done (bool_decide (xs = []), s) /\
  TAILQ_FIRST h s = Done (first_of xs PNull, s) /\
  TAILQ_LAST h s = Done (last_of xs, s) /\
  TAILQ_FOREACH fuel h s = Done (xs, s) /\
  TAILQ_FOREACH_REVERSE fuel h s = Done (reverse xs, s) /\
  forall ys x zs, xs = ys ++ x :: zs ->
    TAILQ_NEXT (PLoc x) s = Done (first_of zs PNull, s) /\ TAILQ_PREV (PLoc x) s = Done (last_of ys, s) /\
    (TAILQ_FOREACH_FROM fuel h (PLoc x) s = Done (x :: zs, s) /\
     TAILQ_FOREACH_FROM_SAFE (fun _ => ret tt) fuel h (PLoc x) s = Done (x :: zs, s)) /\
    TAILQ_FOREACH_REVERSE_FROM fuel h (PLoc x) s = Done (x :: reverse ys, s) /\
    TAILQ_FOREACH_REVERSE_FROM_SAFE (fun _ => ret tt) fuel h (PLoc x) s = Done (x :: reverse ys, s).
(** What a loop does whose body moves each element to the front of another queue. *)
Definition tailq_loops (fuel : nat) (s : qmem TAILQ_HEAD TAILQ_ENTRY) (A : lists) : Prop :=
  loop_moves (run := tailq_run) (ord := id) TAILQ_FOREACH_SAFE fuel s A /\
  loop_moves (run := tailq_run) (ord := id) (fun body fuel h => TAILQ_FOREACH_FROM_SAFE body fuel h PNull) fuel s A /\
  loop_moves (run := tailq_run) (ord := reverse) TAILQ_FOREACH_REVERSE_SAFE fuel s A /\
  loop_moves (run := tailq_run) (ord := reverse) (fun body fuel h => TAILQ_FOREACH_REVERSE_FROM_SAFE body fuel h PNull) fuel s A.

Lemma tailq_answers_ok fuel s h xs : tailq s h xs -> size (q_elems s) <= fuel -> tailq_answers fuel s h xs.
Proof.
  intros Hq Hf. pose proof (listq_size _ _ _ Hq) as Hsz. pose proof Hq as (Hc & _ & _).
  assert (TAILQ_FIRST h s = Done (first_of xs PNull, s)) as Hfirst by by eapply chain_load_first.
  split_and!; [|done|by apply tailq_last_ok| | |].
  - unfold TAILQ_EMPTY, bind. rewrite Hfirst. by destruct xs.
  - unfold TAILQ_FOREACH, bind. rewrite Hfirst. eapply visit_ok; [done|lia].
  - unfold TAILQ_FOREACH_REVERSE, bind. rewrite (tailq_last_ok _ _ _ Hq).
    apply (visit_prev_ok _ h _ []); [by rewrite app_nil_r|lia].
  - intros ys x zs ->. split; [by eapply chain_load_next|]. split; [by eapply tailq_prev_ok|].
    split; [eapply foreach_from_ok; [exact Hq|lia]|].
    assert (visit TAILQ_PREV fuel (PLoc x) s = Done (x :: reverse ys, s)) as Hv.
    { rewrite <- reverse_snoc. replace (PLoc x) with (last_of (ys ++ [x])) by (unfold last_of; by rewrite last_snoc).
      apply (visit_prev_ok _ h _ zs); [by rewrite <- app_assoc|]. rewrite length_app in Hsz |- *. simpl in *. lia. }
    split; [exact Hv|]. exact (eq_trans (visit_safe_skip TAILQ_PREV fuel (PLoc x) s) Hv).
Qed.
Lemma last_of_reverse vs : last_of (reverse vs) = first_of vs PNull.
Proof. destruct vs; [done|]. unfold last_of. by rewrite reverse_cons, last_snoc. Qed.
Lemma reverse_moves fuel s A : rep s A -> size (q_elems s) <= fuel ->
  loop_moves (run := tailq_run) (ord := reverse) TAILQ_FOREACH_REVERSE_SAFE fuel s A.
Proof.
  intros Hr Hf. eapply (loop_moves_ok visiting_reverse (step := TAILQ_PREV)); try done.
  - intros s' h x vs Hq. rewrite reverse_cons in Hq. erewrite tailq_prev_ok by exact Hq. by rewrite last_of_reverse.
  - intros body h xs Hq. unfold TAILQ_FOREACH_REVERSE_SAFE, bind. erewrite tailq_last_ok by exact Hq.
    by rewrite <- last_of_reverse, reverse_involutive.
Qed.
Lemma tailq_loops_ok fuel s A : rep s A -> size (q_elems s) <= fuel -> tailq_loops fuel s A.
Proof. intros Hr Hf. split_and!; first [by apply forward_moves|by apply reverse_moves]. Qed.

(** C23: for every sequence of tail queue operations that the specification of lists permits, from
    heads and entries with any contents, the macros run without touching memory that is not a
    head or an entry, leave the queues that the specification gives, pairwise disjoint, and
    then FIRST, LAST, EMPTY, NEXT, PREV and the traversals in both directions agree with them,
    and a SAFE traversal may move every element it visits to another queue. *)
Theorem tailq_refines (fuel : nat) (os : list qop) (s : qmem TAILQ_HEAD TAILQ_ENTRY) (A A' : lists) :
  rep s A -> forallb tailq_op os = true -> size (q_elems s) <= fuel ->
  q_steps (dom (q_heads s)) (dom (q_elems s)) os A = Some A' ->
  exists s', run_ops (tailq_run fuel) os s = Done (tt, s') /\ rep s' A' /\
    (forall h xs, A' !! h = Some xs -> tailq_answers fuel s' h xs) /\ tailq_loops fuel s' A'.
Proof.
  intros Hr Hok Hf Hq.
  apply (run_ops_after (fun s A => (forall h xs, A !! h = Some xs -> tailq_answers fuel s h xs) /\ tailq_loops fuel s A) fuel os s A);
    try done. intros s1 A1 Hr1 Hf1. split; [|by apply tailq_loops_ok].
  intros h xs Hx. apply tailq_answers_ok; [by apply (rep_list _ _ Hr1)|done].
Qed.

(** *** Witness: two queues, exchanged and joined *)

Definition sample_tailqs : qmem TAILQ_HEAD TAILQ_ENTRY :=
  let e := TailqEntry PZero (SFirst 9) in
  QMem {[1%positive := TailqHead PZero (SFirst 9); 2%positive := TailqHead (PLoc 3) (SNext 3)]}
       {[1%positive := e; 2%positive := e; 3%positive := e; 4%positive := e]}.
Definition sample_tailq_ops : list qop :=
  [QInit 1; QInit 2; QInsertTail 1 1; QInsertHead 1 2; QInsertAfter 1 2 3; QInsertBefore 1 1 4; QRemove 1 1;
   QInsertTail 2 1; QSwap 1 2; QConcat 1 2; QRemove 1 3]%positive.

Lemma tailq_refines_witness :
  exists s', run_ops (tailq_run 4) sample_tailq_ops sample_tailqs = Done (tt, s') /\
    rep s' {[1%positive := [1; 2; 4]%positive; 2%positive := []]} /\
    (forall h xs, ({[1%positive := [1; 2; 4]%positive; 2%positive := []]} : lists) !! h = Some xs -> tailq_answers 4 s' h xs) /\
    tailq_loops 4 s' {[1%positive := [1; 2; 4]%positive; 2%positive := []]}.
Proof. apply (tailq_refines 4 sample_tailq_ops sample_tailqs ∅); [apply rep_empty|reflexivity|vm_compute; lia|vm_compute; reflexivity]. Defined.
