(* ===== verification/StailQ.v ===== *)
(** Singly linked tail queues: the STAILQ macros of [server/src/queue.h].

    A head holds the first element and the address of the last [next] field; entries only have
    a [next] field, so that STAILQ_REMOVE must look for the element before. *)

From S2P Require Import Prelude CMonad KHeap Queue QueueShape QueueSpec QueueLoops.
Local Open Scope cmonad_scope.

Record STAILQ_HEAD := StailqHead { stqh_first : ptr; stqh_last : slot }.
Record STAILQ_ENTRY := StailqEntry { stqe_next : ptr }.

#[export] Instance stailq_links : Links STAILQ_HEAD STAILQ_ENTRY.
Proof.
  refine (Build_Links _ _ stqh_first (fun p h => StailqHead p (stqh_last h)) stqe_next (fun p _ => StailqEntry p) _ _); done.
Defined.
#[export] Instance stailq_tails : Tails STAILQ_HEAD STAILQ_ENTRY.
Proof. refine (Build_Tails _ _ _ stqh_last (fun sl h => StailqHead (stqh_first h) sl) _ _ _); done. Defined.

Abbreviation SM := (M (qmem STAILQ_HEAD STAILQ_ENTRY)).

Definition STAILQ_FIRST (head : loc) : SM ptr := load_slot (SFirst head).
Definition STAILQ_EMPTY (head : loc) : SM bool := let! p := STAILQ_FIRST head in ret (is_null p).
Definition STAILQ_NEXT (elm : ptr) : SM ptr := load_next elm.
Definition STAILQ_LAST (head : loc) : SM ptr :=
  let! e := STAILQ_EMPTY head in
  if (e : bool) then ret PNull else let! sl := load_last head in containerof sl.

Definition STAILQ_INIT (head : loc) : SM unit :=
  store_slot (SFirst head) PNull;;
  store_last head (SFirst head).

Definition STAILQ_INSERT_HEAD (head : loc) (elm : ptr) : SM unit :=
  let! first := STAILQ_FIRST head in
  store_next elm first;;
  mwhen (is_null first) (let! sl := addr_next elm in store_last head sl);;
  store_slot (SFirst head) elm.

Definition STAILQ_INSERT_TAIL (head : loc) (elm : ptr) : SM unit :=
  store_next elm PNull;;
  let! last := load_last head in
  store_slot last elm;;
  let! sl := addr_next elm in
  store_last head sl.

Definition STAILQ_INSERT_AFTER (head : loc) (tqelm elm : ptr) : SM unit :=
  let! next := STAILQ_NEXT tqelm in
  store_next elm next;;
  mwhen (is_null next) (let! sl := addr_next elm in store_last head sl);;
  store_next tqelm elm.

Definition STAILQ_REMOVE_HEAD (head : loc) : SM unit :=
  let! first := STAILQ_FIRST head in
  let! next := STAILQ_NEXT first in
  store_slot (SFirst head) next;;
  mwhen (is_null next) (store_last head (SFirst head)).

Definition STAILQ_REMOVE_AFTER (head : loc) (elm : ptr) : SM unit :=
  let! next := STAILQ_NEXT elm in
  let! next2 := STAILQ_NEXT next in
  store_next elm next2;;
  mwhen (is_null next2) (let! sl := addr_next elm in store_last head sl).

Definition STAILQ_REMOVE (fuel : nat) (head : loc) (elm : ptr) : SM unit :=
  let! first := STAILQ_FIRST head in
  if bool_decide (first = elm) then STAILQ_REMOVE_HEAD head
  else
    let! curelm := STAILQ_FIRST head in
    let! curelm := find_before fuel curelm elm in
    STAILQ_REMOVE_AFTER head curelm.

Definition STAILQ_CONCAT (head1 head2 : loc) : SM unit :=
  let! e := STAILQ_EMPTY head2 in
  if negb e then
    let! last1 := load_last head1 in
    let! first2 := STAILQ_FIRST head2 in
    store_slot last1 first2;;
    let! last2 := load_last head2 in
    store_last head1 last2;;
    STAILQ_INIT head2
  else ret tt.

Definition STAILQ_SWAP (head1 head2 : loc) : SM unit :=
  let! swap_first := STAILQ_FIRST head1 in
  let! swap_last := load_last head1 in
  let! first2 := STAILQ_FIRST head2 in
  store_slot (SFirst head1) first2;;
  let! last2 := load_last head2 in
  store_last head1 last2;;
  store_slot (SFirst head2) swap_first;;
  store_last head2 swap_last;;
  let! e1 := STAILQ_EMPTY head1 in
  mwhen e1 (store_last head1 (SFirst head1));;
  let! e2 := STAILQ_EMPTY head2 in
  mwhen e2 (store_last head2 (SFirst head2)).

Definition STAILQ_FOREACH (fuel : nat) (head : loc) : SM (list loc) :=
  let! var := STAILQ_FIRST head in visit STAILQ_NEXT fuel var.
(** Loops that start at [var], that let the body unlink the element, and both. *)
Definition STAILQ_FOREACH_FROM (fuel : nat) (head : loc) (var : ptr) : SM (list loc) :=
  let! var := start_from var (STAILQ_FIRST head) in visit STAILQ_NEXT fuel var.
Definition STAILQ_FOREACH_SAFE (body : ptr -> SM unit) (fuel : nat) (head : loc) : SM (list loc) :=
  let! var := STAILQ_FIRST head in visit_safe STAILQ_NEXT body fuel var.
Definition STAILQ_FOREACH_FROM_SAFE (body : ptr -> SM unit) (fuel : nat) (head : loc) (var : ptr) : SM (list loc) :=
  let! var := start_from var (STAILQ_FIRST head) in visit_safe STAILQ_NEXT body fuel var.

(** *** The queue a head represents *)

Definition stailq (s : qmem STAILQ_HEAD STAILQ_ENTRY) (h : loc) (xs : list loc) : Prop :=
  chain (lnk s) (SFirst h) xs PNull /\ lst s h = Some (last_slot (SFirst h) xs).

#[export] Instance stailq_family : Family STAILQ_HEAD STAILQ_ENTRY.
Proof.
  refine (Build_Family _ _ _ stailq _ _).
  - by intros s h xs [H _].
  - intros s s' hs es h xs Ha Hh Hes [H1 H2]. split.
    + by eapply agree_chain.
    + unfold lst in *. by rewrite (ag_heads _ _ _ _ Ha).
Defined.

(** *** One operation *)

Section ops.
Implicit Types s : qmem STAILQ_HEAD STAILQ_ENTRY.

(** [if (next == NULL) head->stqh_last = sl;] where [sl] now leads to the elements [ys]. *)
Lemma settle_wp s h ys sl0 sl Q :
  lst s h = Some (last_slot sl0 ys) ->
  (forall s', (forall sl', lnk s' sl' = lnk s sl') -> lst s' h = Some (last_slot sl ys) ->
    (forall h', h' <> h -> lst s' h' = lst s h') -> agree [h] [] s s' -> Q tt s') ->
  wp (mwhen (is_null (first_of ys PNull)) (store_last h sl)) Q s.
Proof.
  intros Hl HQ. destruct ys as [|y ys]; simpl first_of; (apply wp_when; [intros Hn|intros Hn]); try done.
  - apply store_last_wp; [live|]. apply HQ; [intros; by obs|cbn; by obs|intros; by obs|agrees].
  - by apply HQ.
Qed.

Lemma stailq_init_ok s h : is_Some (lst s h) -> wp (STAILQ_INIT h) (one s h [] []) s.
Proof.
  intros Hl. assert (is_Some (lnk s (SFirst h))) by (destruct Hl as [sl Hl]; by eapply lst_lnk).
  unfold STAILQ_INIT. wp_steps. apply store_slot_wp; [live|]. wp_steps. apply store_last_wp; [live|]. split; [|agrees].
  split; cbn; by obs.
Qed.

Lemma stailq_insert_head_ok s h xs l : stailq s h xs -> fresh s l xs -> wp (STAILQ_INSERT_HEAD h (PLoc l)) (one s h (l :: xs) (l :: xs)) s.
Proof.
  intros [Hc Hl] Hf. pose proof (fresh_link _ _ _ Hf). destruct Hf as [_ Hn]. unfold STAILQ_INSERT_HEAD, STAILQ_FIRST.
  wp_steps. eapply load_slot_wp; [by eapply chain_first|]. wp_steps. apply store_next_wp; [live|]. wp_steps.
  pose proof (chain_first _ _ _ _ Hc).
  eapply (settle_wp _ h xs (SFirst h)); [by obs|]. intros s1 Hk Hl1 Ho Ha. wp_steps. apply store_slot_wp; [rewrite Hk; live|].
  split; [|agrees]. split; [|by obs]. split; [by rewrite lnk_set_eq by (rewrite Hk; live)|].
  eapply chain_moved; [exact Hc| |]; [|intros z Hz; assert (z <> l) by elem_ne]; rewrite lnk_set_ne, Hk by done; by obs.
Qed.

Lemma stailq_insert_tail_ok s h xs l : stailq s h xs -> fresh s l xs -> wp (STAILQ_INSERT_TAIL h (PLoc l)) (one s h (l :: xs) (xs ++ [l])) s.
Proof.
  intros [Hc Hl] Hf. pose proof (fresh_link _ _ _ Hf). destruct Hf as [_ Hn].
  pose proof (chain_last _ _ _ _ Hc) as HL. pose proof (chain_NoDup _ _ _ Hc) as Hnd. pose proof (last_slot_ne h xs l Hn) as HLl.
  unfold STAILQ_INSERT_TAIL. wp_steps. apply store_next_wp; [live|]. wp_steps. eapply load_last_wp; [by obs|]. wp_steps.
  apply store_slot_wp; [live|]. wp_steps. apply store_last_wp; [live|]. split; [|agrees]. split.
  - apply chain_app. split; [|cbn; split; by obs]. eapply chain_redirect; [exact Hc|done|by obs|].
    intros sl Hsl Hne. pose proof (slots_ne _ _ _ _ Hsl Hn). by obs.
  - rewrite last_slot_snoc. by obs.
Qed.

Lemma stailq_insert_after_ok s h xs x ys l :
  stailq s h (xs ++ x :: ys) -> fresh s l (xs ++ x :: ys) ->
  wp (STAILQ_INSERT_AFTER h (PLoc x) (PLoc l)) (one s h (l :: xs ++ x :: ys) (xs ++ x :: l :: ys)) s.
Proof.
  intros [Hc Hl] Hf. pose proof (fresh_link _ _ _ Hf). destruct Hf as [_ Hn]. pose proof (chain_NoDup _ _ _ Hc) as Hnd.
  apply chain_app in Hc as [Hc1 [Hx Hc2]]. destruct (NoDup_mid _ _ _ Hnd) as (Hxx & Hxy & _ & _). assert (x <> l) by elem_ne.
  pose proof (chain_first _ _ _ _ Hc2) as Hnx. unfold STAILQ_INSERT_AFTER, STAILQ_NEXT. wp_steps.
  eapply load_next_wp; [done|]. wp_steps. apply store_next_wp; [live|]. wp_steps. rewrite last_slot_app in Hl.
  eapply (settle_wp _ h ys (SNext x)); [by obs|]. intros s1 Hk Hl1 Ho Ha. apply store_next_wp; [rewrite Hk; live|].
  split; [|agrees]. split.
  - apply chain_app. split.
    + eapply chain_ext; [exact Hc1|]. intros sl Hsl. pose proof (slots_ne _ _ _ x Hsl Hxx).
      pose proof (slots_ne _ _ _ l Hsl ltac:(set_solver)). rewrite lnk_set_ne, Hk by done. by obs.
    + cbn [chain]. pose proof (last_slot_ne h xs x Hxx). pose proof (last_slot_ne h xs l ltac:(set_solver)).
      split; [rewrite lnk_set_ne, Hk by done; by obs|]. split; [by rewrite lnk_set_eq by (rewrite Hk; live)|].
      eapply chain_moved; [exact Hc2| |]; [|intros z Hz; assert (z <> l) by elem_ne; assert (z <> x) by elem_ne];
        rewrite lnk_set_ne, Hk by congruence; by obs.
  - rewrite last_slot_app. cbn. by obs.
Qed.

Lemma stailq_remove_head_ok s h x xs : stailq s h (x :: xs) -> wp (STAILQ_REMOVE_HEAD h) (one s h (x :: xs) xs) s.
Proof.
  intros [[Hf Hc] Hl]. pose proof (chain_first _ _ _ _ Hc) as Hnx. unfold STAILQ_REMOVE_HEAD, STAILQ_FIRST, STAILQ_NEXT.
  wp_steps. eapply load_slot_wp; [done|]. wp_steps. eapply load_next_wp; [done|]. wp_steps. apply store_slot_wp; [live|].
  wp_steps. eapply (settle_wp _ h xs (SNext x)); [by obs|]. intros s1 Hk Hl1 Ho Ha. split; [|agrees]. split; [|done].
  eapply chain_moved; [exact Hc| |]; intros; rewrite Hk; by obs.
Qed.

Lemma stailq_remove_after_ok s h xs x y ys :
  stailq s h (xs ++ x :: y :: ys) -> wp (STAILQ_REMOVE_AFTER h (PLoc x)) (one s h (xs ++ x :: y :: ys) (xs ++ x :: ys)) s.
Proof.
  intros [Hc Hl]. pose proof (chain_NoDup _ _ _ Hc) as Hnd. apply chain_app in Hc as (Hc1 & Hx & Hy & Hc2).
  destruct (NoDup_mid2 _ _ _ _ Hnd) as (Hxx & _ & Hxy & _ & Hne & _ & _). pose proof (chain_first _ _ _ _ Hc2) as Hny.
  unfold STAILQ_REMOVE_AFTER, STAILQ_NEXT. wp_steps. eapply load_next_wp; [done|]. wp_steps. eapply load_next_wp; [done|].
  wp_steps. apply store_next_wp; [live|]. wp_steps. rewrite last_slot_app in Hl. cbn [last_slot] in Hl.
  eapply (settle_wp _ h ys (SNext y)); [by obs|]. intros s1 Hk Hl1 Ho Ha. split; [|agrees]. split.
  - apply chain_app. split.
    + eapply chain_ext; [exact Hc1|]. intros sl Hsl. pose proof (slots_ne _ _ _ x Hsl Hxx). rewrite Hk. by obs.
    + cbn [chain]. pose proof (last_slot_ne h xs x Hxx). split; [rewrite Hk; by obs|].
      eapply chain_moved; [exact Hc2| |]; [|intros z Hz; assert (z <> x) by elem_ne]; rewrite Hk; by obs.
  - rewrite last_slot_app. done.
Qed.

Lemma stailq_remove_ok fuel s h xs x ys :
  stailq s h (xs ++ x :: ys) -> length xs <= fuel ->
  wp (STAILQ_REMOVE fuel h (PLoc x)) (one s h (xs ++ x :: ys) (xs ++ ys)) s.
Proof.
  intros Hq Hf. pose proof Hq as [Hc _]. pose proof (chain_NoDup _ _ _ Hc) as Hnd.
  destruct (NoDup_mid _ _ _ Hnd) as (Hxx & _). unfold STAILQ_REMOVE. wp_steps. unfold STAILQ_FIRST at 1.
  eapply load_slot_wp; [by eapply chain_first|]. destruct xs as [|k xs _] using rev_ind.
  - cbn [app first_of]. rewrite bool_decide_true by done. by apply stailq_remove_head_ok.
  - rewrite length_app in Hf. simpl in Hf. rewrite bool_decide_false.
    2: { destruct xs; simpl; intros [= ->]; apply Hxx; [left|left]. }
    wp_steps. eapply load_slot_wp; [by eapply chain_first|]. wp_steps.
    assert (first_of ((xs ++ [k]) ++ x :: ys) PNull = first_of (xs ++ [k]) (PLoc x)) as -> by by destruct xs.
    apply chain_app in Hc as [Hc _]. eapply find_before_wp; [exact Hc|by apply ploc_not_in|lia|].
    rewrite <- !app_assoc in *. by apply stailq_remove_after_ok.
Qed.

(** Two queues without a common element. *)
Lemma stailq_concat_ok s h1 h2 xs ys :
  stailq s h1 xs -> stailq s h2 ys -> h1 <> h2 -> ys ## xs -> wp (STAILQ_CONCAT h1 h2) (two s h1 h2 (xs ++ ys) []) s.
Proof.
  intros H1 H2 Hne Hdis. pose proof H1 as [Hc1 Hl1]. pose proof H2 as [Hc2 Hl2].
  unfold STAILQ_CONCAT, STAILQ_EMPTY, STAILQ_FIRST. wp_steps.
  eapply load_slot_wp; [by eapply chain_first|]. wp_steps. destruct ys as [|y ys]; simpl first_of.
  { change (negb (is_null PNull)) with false. cbn iota. wp_steps. rewrite app_nil_r. split_and!; [done|done|agrees]. }
  change (negb (is_null (PLoc y))) with true. cbn iota. wp_steps. eapply load_last_wp; [done|]. wp_steps.
  pose proof (chain_NoDup _ _ _ Hc1) as Hnd. destruct Hc2 as [Hf2 Hc2].
  pose proof (chain_last _ _ _ _ Hc1) as HL. pose proof (last_slot_ne_first h1 h2 xs Hne) as HL2.
  eapply load_slot_wp; [done|]. wp_steps. apply store_slot_wp; [live|]. wp_steps.
  eapply load_last_wp; [by obs|]. wp_steps. apply store_last_wp; [live|]. wp_steps.
  unfold STAILQ_INIT. wp_steps. apply store_slot_wp; [live|]. wp_steps. apply store_last_wp; [live|].
  split_and!; [| |agrees]; split.
  - apply chain_app. split.
    + eapply chain_redirect; [exact Hc1|done|by obs|]. intros sl Hsl Hn.
      assert (SFirst h2 <> sl) by (intros <-; apply slots_first in Hsl; congruence). by obs.
    + cbn [chain]. split; [by obs|]. eapply chain_same; [exact Hc2|]. intros z Hz.
      assert (last_slot (SFirst h1) xs <> SNext z); [|by obs]. apply last_slot_ne. intros Hin. by apply (Hdis z).
  - rewrite last_slot_app. cbn [last_slot] in *. by obs.
  - cbn. by obs.
  - cbn. by obs.
Qed.

Lemma stailq_swap_ok s h1 h2 xs ys :
  stailq s h1 xs -> stailq s h2 ys -> h1 <> h2 -> ys ## xs -> wp (STAILQ_SWAP h1 h2) (two s h1 h2 ys xs) s.
Proof.
  intros [Hc1 Hl1] [Hc2 Hl2] Hne Hdis. unfold STAILQ_SWAP, STAILQ_EMPTY, STAILQ_FIRST. wp_steps.
  pose proof (chain_first _ _ _ _ Hc1) as Hf1. pose proof (chain_first _ _ _ _ Hc2) as Hf2.
  eapply load_slot_wp; [done|]. wp_steps. eapply load_last_wp; [done|]. wp_steps.
  eapply load_slot_wp; [done|]. wp_steps. apply store_slot_wp; [live|]. wp_steps. eapply load_last_wp; [by obs|]. wp_steps.
  apply store_last_wp; [live|]. wp_steps. apply store_slot_wp; [live|]. wp_steps. apply store_last_wp; [live|]. wp_steps.
  eapply load_slot_wp; [by obs|]. wp_steps. eapply (settle_wp _ h1 ys (SFirst h2)); [by obs|]. intros s1 Hk1 Hm1 Ho1 Ha1.
  wp_steps. eapply load_slot_wp; [rewrite Hk1; by obs|]. wp_steps.
  eapply (settle_wp _ h2 xs (SFirst h1)). { rewrite Ho1 by done. by obs. } intros s2 Hk2 Hm2 Ho2 Ha2.
  split_and!; [| |agrees]; split.
  - eapply chain_moved; [exact Hc2| |]; intros; rewrite Hk2, Hk1; by obs.
  - by rewrite Ho2.
  - eapply chain_moved; [exact Hc1| |]; intros; rewrite Hk2, Hk1; by obs.
  - done.
Qed.

(** *** Questions *)

Lemma stailq_last_ok s h xs : stailq s h xs -> STAILQ_LAST h s = Done (last_of xs, s).
Proof.
  intros [Hc Hl]. apply wp_eq. unfold STAILQ_LAST, STAILQ_EMPTY, STAILQ_FIRST, last_of. wp_steps.
  eapply load_slot_wp; [by eapply chain_first|]. wp_steps. destruct xs as [|x xs _] using rev_ind; [done|].
  rewrite last_slot_snoc, last_snoc in *. assert (is_null (first_of (xs ++ [x]) PNull) = false) as -> by by destruct xs.
  wp_steps. by eapply load_last_wp.
Qed.
End ops.

(** *** The family *)

Definition stailq_run (fuel : nat) (o : qop) : SM unit :=
  match o with
  | QInit h => STAILQ_INIT h
  | QInsertHead h l => STAILQ_INSERT_HEAD h (PLoc l)
  | QInsertTail h l => STAILQ_INSERT_TAIL h (PLoc l)
  | QInsertAfter h x l => STAILQ_INSERT_AFTER h (PLoc x) (PLoc l)
  | QRemoveHead h => STAILQ_REMOVE_HEAD h
  | QRemoveAfter h x => STAILQ_REMOVE_AFTER h (PLoc x)
  | QRemove h l => STAILQ_REMOVE fuel h (PLoc l)
  | QConcat h1 h2 => STAILQ_CONCAT h1 h2
  | QSwap h1 h2 => STAILQ_SWAP h1 h2
  | QInsertBefore _ _ _ => ret tt
  end.
(** There is no macro to insert before an element. *)
Definition stailq_op (o : qop) : bool := match o with QInsertBefore _ _ _ => false | _ => true end.

#[export] Instance stailq_implements : Implements stailq_run stailq_op.
Proof.
  intros fuel o s Hok Hf. destruct o as [h|h l|h l|h x l|h x l|h|h x|h x|h1 h2|h1 h2]; try done; unfold op_spec.
  - intros Hh. apply stailq_init_ok. unfold lst. by apply fmap_is_Some.
  - intros xs Hq Hl. by apply stailq_insert_head_ok.
  - intros xs Hq Hl. by apply stailq_insert_tail_ok.
  - intros xs ys Hq Hl. by apply stailq_insert_after_ok.
  - intros x xs Hq. by apply stailq_remove_head_ok.
  - intros xs y ys Hq. by apply stailq_remove_after_ok.
  - intros xs ys Hq. apply stailq_remove_ok; [done|]. apply listq_size in Hq. rewrite length_app in Hq. lia.
  - intros xs ys H1 H2 Hne Hd. by apply stailq_concat_ok.
  - intros xs ys H1 H2 Hne Hd. by apply stailq_swap_ok.
Qed.

(** What the macros that do not change a queue say about it. *)
Definition stailq_answers (fuel : nat) (s : qmem STAILQ_HEAD STAILQ_ENTRY) (h : loc) (xs : list loc) : Prop :=
  STAILQ_EMPTY h s = Done (bool_decide (xs = []), s) /\
  STAILQ_FIRST h s = Done (first_of xs PNull, s) /\
  STAILQ_LAST h s = Done (last_of xs, s) /\
  STAILQ_FOREACH fuel h s = Done (xs, s) /\
  forall ys x zs, xs = ys ++ x :: zs ->
    STAILQ_NEXT (PLoc x) s = Done (first_of zs PNull, s) /\
    STAILQ_FOREACH_FROM fuel h (PLoc x) s = Done (x :: zs, s) /\
    STAILQ_FOREACH_FROM_SAFE (fun _ => ret tt) fuel h (PLoc x) s = Done (x :: zs, s).
(** What a loop does whose body moves each element to the front of another queue. *)
Definition stailq_loops (fuel : nat) (s : qmem STAILQ_HEAD STAILQ_ENTRY) (A : lists) : Prop :=
  loop_moves (run := stailq_run) (ord := id) STAILQ_FOREACH_SAFE fuel s A /\
  loop_moves (run := stailq_run) (ord := id) (fun body fuel h => STAILQ_FOREACH_FROM_SAFE body fuel h PNull) fuel s A.

Lemma stailq_answers_ok fuel s h xs : stailq s h xs -> size (q_elems s) <= fuel -> stailq_answers fuel s h xs.
Proof.
  intros Hq Hf. pose proof (listq_size _ _ _ Hq) as Hsz. pose proof Hq as [Hc _].
  assert (STAILQ_FIRST h s = Done (first_of xs PNull, s)) as Hfirst by by eapply chain_load_first.
  split_and!; [|done|by apply stailq_last_ok| |].
  - unfold STAILQ_EMPTY, bind. rewrite Hfirst. by destruct xs.
  - unfold STAILQ_FOREACH, bind. rewrite Hfirst. eapply visit_ok; [done|lia].
  - intros ys x zs ->. split; [by eapply chain_load_next|]. eapply foreach_from_ok; [exact Hq|lia].
Qed.
Lemma stailq_loops_ok fuel s A : rep s A -> size (q_elems s) <= fuel -> stailq_loops fuel s A.
Proof. intros Hr Hf. split; by apply forward_moves. Qed.

(** C25: for every sequence of STAILQ operations that the specification of lists permits, from
    heads and entries with any contents, the macros run, the search loop of STAILQ_REMOVE
    included, without touching memory that is not a head or an entry, leave the queues that the
    specification gives, and then FIRST, LAST, EMPTY, NEXT, FOREACH and FOREACH_FROM agree with
    them, and a FOREACH_SAFE loop may move every element it visits to another queue. *)
Theorem stailq_refines (fuel : nat) (os : list qop) (s : qmem STAILQ_HEAD STAILQ_ENTRY) (A A' : lists) :
  rep s A -> forallb stailq_op os = true -> size (q_elems s) <= fuel ->
  q_steps (dom (q_heads s)) (dom (q_elems s)) os A = Some A' ->
  exists s', run_ops (stailq_run fuel) os s = Done (tt, s') /\ rep s' A' /\
    (forall h xs, A' !! h = Some xs -> stailq_answers fuel s' h xs) /\ stailq_loops fuel s' A'.
Proof.
  intros Hr Hok Hf Hq.
  apply (run_ops_after (fun s A => (forall h xs, A !! h = Some xs -> stailq_answers fuel s h xs) /\ stailq_loops fuel s A) fuel os s A);
    try done. intros s1 A1 Hr1 Hf1. split; [|by apply stailq_loops_ok].
  intros h xs Hx. apply stailq_answers_ok; [by apply (rep_list _ _ Hr1)|done].
Qed.

(** *** Witness: two queues, exchanged and joined *)

Definition sample_stailqs : qmem STAILQ_HEAD STAILQ_ENTRY :=
  let e := StailqEntry PZero in
  QMem {[1%positive := StailqHead PZero (SFirst 9); 2%positive := StailqHead (PLoc 3) (SNext 3)]}
       {[1%positive := e; 2%positive := e; 3%positive := e; 4%positive := e]}.
Definition sample_stailq_ops : list qop :=
  [QInit 1; QInit 2; QInsertTail 1 1; QInsertHead 1 2; QInsertAfter 1 1 3; QInsertHead 2 4; QRemove 1 1;
   QSwap 1 2; QConcat 1 2; QRemoveAfter 1 4; QInsertTail 1 2; QRemoveHead 1]%positive.

Lemma stailq_refines_witness :
  exists s', run_ops (stailq_run 4) sample_stailq_ops sample_stailqs = Done (tt, s') /\
    rep s' {[1%positive := [3; 2]%positive; 2%positive := []]} /\
    (forall h xs, ({[1%positive := [3; 2]%positive; 2%positive := []]} : lists) !! h = Some xs -> stailq_answers 4 s' h xs) /\
    stailq_loops 4 s' {[1%positive := [3; 2]%positive; 2%positive := []]}.
Proof. apply (stailq_refines 4 sample_stailq_ops sample_stailqs ∅); [apply rep_empty|reflexivity|vm_compute; lia|vm_compute; reflexivity]. Defined.

