(* ===== verification/ListQ.v ===== *)
(** Doubly linked lists: the LIST macros of [server/src/queue.h].

    A head holds the first element; an entry holds the next element and the address of the
    [next] field, or of the head, that leads to it. *)

From S2P Require Import Prelude CMonad KHeap Queue QueueShape QueueSpec QueueLoops.
Local Open Scope cmonad_scope.

Record LIST_HEAD := ListHead { lh_first : ptr }.
Record LIST_ENTRY := ListEntry { le_next : ptr; le_prev : slot }.

#[export] Instance list_links : Links LIST_HEAD LIST_ENTRY.
Proof.
  refine (Build_Links _ _ lh_first (fun p _ => ListHead p) le_next (fun p e => ListEntry p (le_prev e)) _ _); done.
Defined.
#[export] Instance list_prevs : Prevs LIST_HEAD LIST_ENTRY.
Proof. refine (Build_Prevs _ _ _ le_prev (fun sl e => ListEntry (le_next e) sl) _ _ _); done. Defined.

Abbreviation LM := (M (qmem LIST_HEAD LIST_ENTRY)).

Definition LIST_FIRST (head : loc) : LM ptr := load_slot (SFirst head).
Definition LIST_EMPTY (head : loc) : LM bool := let! p := LIST_FIRST head in ret (is_null p).
Definition LIST_NEXT (elm : ptr) : LM ptr := load_next elm.
Definition LIST_PREV (elm : ptr) (head : loc) : LM ptr :=
  let! prev := load_prev elm in
  if bool_decide (prev = SFirst head) then ret PNull else containerof prev.

Definition LIST_INIT (head : loc) : LM unit := store_slot (SFirst head) PNull.

Definition LIST_INSERT_HEAD (head : loc) (elm : ptr) : LM unit :=
  let! first := LIST_FIRST head in
  store_next elm first;;
  mwhen (negb (is_null first))
    (let! f := LIST_FIRST head in let! sl := addr_next elm in store_prev f sl);;
  store_slot (SFirst head) elm;;
  store_prev elm (SFirst head).

Definition LIST_INSERT_AFTER (listelm elm : ptr) : LM unit :=
  let! next := LIST_NEXT listelm in
  store_next elm next;;
  mwhen (negb (is_null next))
    (let! n := LIST_NEXT listelm in let! sl := addr_next elm in store_prev n sl);;
  store_next listelm elm;;
  let! sl := addr_next listelm in
  store_prev elm sl.

Definition LIST_INSERT_BEFORE (listelm elm : ptr) : LM unit :=
  let! prev := load_prev listelm in
  store_prev elm prev;;
  store_next elm listelm;;
  let! prev := load_prev listelm in
  store_slot prev elm;;
  let! sl := addr_next elm in
  store_prev listelm sl.

Definition LIST_REMOVE (elm : ptr) : LM unit :=
  let! next := LIST_NEXT elm in
  mwhen (negb (is_null next))
    (let! n := LIST_NEXT elm in let! prev := load_prev elm in store_prev n prev);;
  let! prev := load_prev elm in
  let! next := LIST_NEXT elm in
  store_slot prev next.

Definition LIST_CONCAT (fuel : nat) (head1 head2 : loc) : LM unit :=
  let! curelm := LIST_FIRST head1 in
  if is_null curelm then
    let! first2 := LIST_FIRST head2 in
    store_slot (SFirst head1) first2;;
    mwhen (negb (is_null first2))
      (let! f := LIST_FIRST head2 in store_prev f (SFirst head1);; LIST_INIT head2)
  else
    let! first2 := LIST_FIRST head2 in
    mwhen (negb (is_null first2))
      (let! curelm := find_before fuel curelm PNull in
       let! first2 := LIST_FIRST head2 in
       store_next curelm first2;;
       let! first2 := LIST_FIRST head2 in
       let! sl := addr_next curelm in
       store_prev first2 sl;;
       LIST_INIT head2).

Definition LIST_SWAP (head1 head2 : loc) : LM unit :=
  let! swap_tmp := LIST_FIRST head1 in
  let! first2 := LIST_FIRST head2 in
  store_slot (SFirst head1) first2;;
  store_slot (SFirst head2) swap_tmp;;
  let! swap_tmp := LIST_FIRST head1 in
  mwhen (negb (is_null swap_tmp)) (store_prev swap_tmp (SFirst head1));;
  let! swap_tmp := LIST_FIRST head2 in
  mwhen (negb (is_null swap_tmp)) (store_prev swap_tmp (SFirst head2)).

Definition LIST_FOREACH (fuel : nat) (head : loc) : LM (list loc) :=
  let! var := LIST_FIRST head in visit LIST_NEXT fuel var.
(** Loops that start at [var], that let the body unlink the element, and both. *)
Definition LIST_FOREACH_FROM (fuel : nat) (head : loc) (var : ptr) : LM (list loc) :=
  let! var := start_from var (LIST_FIRST head) in visit LIST_NEXT fuel var.
Definition LIST_FOREACH_SAFE (body : ptr -> LM unit) (fuel : nat) (head : loc) : LM (list loc) :=
  let! var := LIST_FIRST head in visit_safe LIST_NEXT body fuel var.
Definition LIST_FOREACH_FROM_SAFE (body : ptr -> LM unit) (fuel : nat) (head : loc) (var : ptr) : LM (list loc) :=
  let! var := start_from var (LIST_FIRST head) in visit_safe LIST_NEXT body fuel var.

(** *** The list a head represents *)

Definition listl (s : qmem LIST_HEAD LIST_ENTRY) (h : loc) (xs : list loc) : Prop :=
  chain (lnk s) (SFirst h) xs PNull /\ backs (prv s) (SFirst h) xs.

#[export] Instance list_family : Family LIST_HEAD LIST_ENTRY.
Proof.
  refine (Build_Family _ _ _ listl _ _).
  - by intros s h xs [H _].
  - intros s s' hs es h xs Ha Hh Hes [H1 H2]. split; [by eapply agree_chain|].
    eapply backs_ext; [exact H2|]. intros l Hl. unfold prv. by rewrite (ag_elems _ _ _ _ Ha) by auto.
Defined.

(** *** One operation *)

Section ops.
Implicit Types s : qmem LIST_HEAD LIST_ENTRY.

(** [if (next != NULL) next->le_prev = sl;] where [next] is the first of [ys] and [m] is the
    store, preceded by loads: afterwards [sl] leads to [ys] in the back pointers. *)
Lemma relink_wp s (m : LM unit) ys sl0 sl Q :
  backs (prv s) sl0 ys -> NoDup ys ->
  (forall y Q', is_Some (prv s y) -> first_of ys PNull = PLoc y -> Q' tt (set_prv y sl s) -> wp m Q' s) ->
  (forall s', (forall sl', lnk s' sl' = lnk s sl') -> backs (prv s') sl ys ->
     (forall z, (z ∉ ys) -> prv s' z = prv s z) -> agree [] ys s s' -> Q tt s') ->
  wp (mwhen (negb (is_null (first_of ys PNull))) m) Q s.
Proof.
  intros Hb Hnd Hm HQ. apply wp_when; intros Hn; (destruct ys as [|y ys]; [|try discriminate Hn]); try discriminate Hn.
  - pose proof Hb as [Hy _]. assert (is_Some (prv s y)) by by eexists. apply NoDup_cons in Hnd as [Hyn _].
    apply (Hm y); [done|done|]. apply HQ.
    + intros. by obs.
    + eapply backs_cons_ext; [exact Hb| |by obs]. intros z Hz. assert (z <> y) by elem_ne. by obs.
    + intros z Hz. assert (z <> y) by elem_ne. by obs.
    + agrees.
  - by apply HQ.
Qed.

Lemma list_init_ok s h : is_Some (lnk s (SFirst h)) -> wp (LIST_INIT h) (one s h [] []) s.
Proof.
  intros Hl. unfold LIST_INIT. apply store_slot_wp; [live|]. split; [|agrees]. split; [|done]. cbn. by obs.
Qed.

(** The element of a store whose links are those of another. *)
Lemma prv_same s s' l : (forall sl, lnk s' sl = lnk s sl) -> is_Some (lnk s (SNext l)) -> is_Some (prv s' l).
Proof. intros Hk Hl. apply prv_lnk. by rewrite Hk. Qed.

Lemma list_insert_head_ok s h xs l : listl s h xs -> fresh s l xs -> wp (LIST_INSERT_HEAD h (PLoc l)) (one s h (l :: xs) (l :: xs)) s.
Proof.
  intros [Hc Hb] Hf. pose proof (fresh_link _ _ _ Hf) as Hlive. destruct Hf as [_ Hn]. pose proof (chain_first _ _ _ _ Hc) as Hf0.
  unfold LIST_INSERT_HEAD, LIST_FIRST. wp_steps. eapply load_slot_wp; [done|]. wp_steps. apply store_next_wp; [live|]. wp_steps.
  eapply (relink_wp _ _ xs (SFirst h) (SNext l)).
  - eapply backs_ext; [exact Hb|]. intros. by obs.
  - by eapply chain_NoDup.
  - intros y Q' Hy E HQ. wp_steps. apply load_slot_wp with (p := PLoc y); [rewrite <- E; by obs|].
    wp_steps. by apply store_prev_wp.
  - intros s1 Hk Hb1 Ho Ha. wp_steps. apply store_slot_wp; [rewrite Hk; live|]. wp_steps.
    assert (is_Some (prv s1 l)) by (eapply prv_same; [exact Hk|live]).
    apply store_prev_wp; [live|]. split; [|agrees]. split; cbn [chain backs]; (split; [obs|]).
    + by rewrite lnk_set_eq by (rewrite Hk; live).
    + eapply chain_moved; [exact Hc| |]; [|intros z Hz; assert (z <> l) by elem_ne];
        rewrite lnk_set_prv, lnk_set_ne, Hk by done; by obs.
    + done.
    + eapply backs_ext; [exact Hb1|]. intros z Hz. assert (z <> l) by elem_ne. by obs.
Qed.

Lemma list_insert_after_ok s h xs x ys l :
  listl s h (xs ++ x :: ys) -> fresh s l (xs ++ x :: ys) ->
  wp (LIST_INSERT_AFTER (PLoc x) (PLoc l)) (one s h (l :: xs ++ x :: ys) (xs ++ x :: l :: ys)) s.
Proof.
  intros [Hc Hb] Hf. pose proof (fresh_link _ _ _ Hf) as Hlive. destruct Hf as [_ Hn]. pose proof (chain_NoDup _ _ _ Hc) as Hnd.
  apply chain_app in Hc as [Hc1 [Hx Hc2]]. apply backs_app in Hb as [Hb1 [Hbx Hb2]].
  destruct (NoDup_mid _ _ _ Hnd) as (Hxx & Hxy & _ & Hdis). assert (x <> l) by elem_ne.
  pose proof (chain_first _ _ _ _ Hc2) as Hnx. pose proof (last_slot_ne h xs x Hxx). pose proof (last_slot_ne h xs l ltac:(set_solver)).
  unfold LIST_INSERT_AFTER, LIST_NEXT. wp_steps. eapply load_next_wp; [done|]. wp_steps. apply store_next_wp; [live|]. wp_steps.
  eapply (relink_wp _ _ ys (SNext x) (SNext l)).
  - eapply backs_ext; [exact Hb2|]. intros. by obs.
  - by apply NoDup_app in Hnd as (_ & _ & [_ ?]%NoDup_cons).
  - intros y Q' Hy E HQ. wp_steps. apply load_next_wp with (p := PLoc y); [rewrite <- E; by obs|].
    wp_steps. by apply store_prev_wp.
  - intros s1 Hk Hb1' Ho Ha. wp_steps. apply store_next_wp; [rewrite Hk; live|]. wp_steps.
    assert (is_Some (prv s1 l)) by (eapply prv_same; [exact Hk|live]).
    apply store_prev_wp; [live|]. split; [|agrees]. split.
    + apply chain_app. split; cbn [chain].
      * eapply chain_ext; [exact Hc1|]. intros sl Hsl. pose proof (slots_ne _ _ _ x Hsl Hxx).
        pose proof (slots_ne _ _ _ l Hsl ltac:(set_solver)). rewrite lnk_set_prv, lnk_set_ne, Hk by done. by obs.
      * rewrite !lnk_set_prv, lnk_set_ne, Hk by done. split; [by obs|]. split; [by rewrite lnk_set_eq by (rewrite Hk; live)|].
        eapply chain_moved; [exact Hc2| |]; [|intros z Hz; assert (z <> l) by elem_ne; assert (z <> x) by elem_ne];
          rewrite lnk_set_prv, lnk_set_ne, Hk by congruence; by obs.
    + assert (forall z, z ∈ xs \/ z = x -> prv s1 z = prv s z) as Hold.
      { intros z Hz. rewrite Ho; [by obs|]. intros Hin. destruct Hz as [Hz| ->]; [by eapply Hdis|done]. }
      apply backs_app. split; [|cbn [backs]; split_and!].
      * eapply backs_ext; [exact Hb1|]. intros z Hz. assert (z <> l) by elem_ne. obs. apply Hold. by left.
      * obs. rewrite Hold; [done|by right].
      * by obs.
      * eapply backs_ext; [exact Hb1'|]. intros z Hz. assert (z <> l) by elem_ne. by obs.
Qed.

Lemma list_insert_before_ok s h xs x ys l :
  listl s h (xs ++ x :: ys) -> fresh s l (xs ++ x :: ys) ->
  wp (LIST_INSERT_BEFORE (PLoc x) (PLoc l)) (one s h (l :: xs ++ x :: ys) (xs ++ l :: x :: ys)) s.
Proof.
  intros [Hc Hb] Hf. pose proof (fresh_link _ _ _ Hf) as Hlive. destruct Hf as [_ Hn]. pose proof (chain_NoDup _ _ _ Hc) as Hnd.
  apply chain_app in Hc as [Hc1 [Hx Hc2]]. apply backs_app in Hb as [Hb1 [Hbx Hb2]]. simpl in Hc1.
  assert (x <> l) by elem_ne. destruct (NoDup_mid _ _ _ Hnd) as (Hxx & Hxy & Hndx & Hdis).
  assert (l ∉ xs) as Hlx by (intros Hin; apply Hn, elem_of_app; by left).
  pose proof (last_slot_ne h xs l Hlx) as HLl. pose proof (last_slot_ne h xs x Hxx) as HLx.
  assert (is_Some (prv s x)) by by eexists.
  unfold LIST_INSERT_BEFORE. wp_steps. eapply load_prev_wp; [done|]. wp_steps. apply store_prev_wp; [live|]. wp_steps.
  apply store_next_wp; [live|]. wp_steps. eapply load_prev_wp; [by obs|]. wp_steps. apply store_slot_wp; [live|]. wp_steps.
  apply store_prev_wp; [live|]. split; [|agrees]. split.
  - apply chain_app. split.
    + eapply chain_redirect; [exact Hc1|done|by obs|]. intros sl Hsl Hne. pose proof (slots_ne _ _ _ _ Hsl Hlx). by obs.
    + cbn [chain]. split; [by obs|]. split; [by obs|]. eapply chain_same; [exact Hc2|].
      intros z Hz. assert (z <> l) by elem_ne. assert (last_slot (SFirst h) xs <> SNext z); [|by obs].
      apply last_slot_ne. apply elem_of_cons in Hz as [->|Hz]; [done|by apply Hdis].
  - apply backs_app. split.
    + eapply backs_ext; [exact Hb1|]. intros z Hz. assert (z <> l) by elem_ne. assert (z <> x) by elem_ne. by obs.
    + cbn [backs]. split_and!; [by obs|by obs|]. eapply backs_ext; [exact Hb2|].
      intros z Hz. assert (z <> l) by elem_ne. assert (z <> x) by elem_ne. by obs.
Qed.

(** Removing an element leaves its own links as they are. *)
Lemma list_remove_kept s h xs x ys :
  listl s h (xs ++ x :: ys) -> wp (LIST_REMOVE (PLoc x)) (one s h (xs ++ ys) (xs ++ ys)) s.
Proof.
  intros [Hc Hb]. pose proof (chain_NoDup _ _ _ Hc) as Hnd.
  apply chain_app in Hc as [Hc1 [Hx Hc2]]. apply backs_app in Hb as [Hb1 [Hbx Hb2]]. simpl in Hc1.
  destruct (NoDup_mid _ _ _ Hnd) as (Hxx & Hxy & Hndx & Hdis). pose proof (chain_first _ _ _ _ Hc2) as Hnx.
  pose proof (last_slot_ne h xs x Hxx) as HLx. unfold LIST_REMOVE, LIST_NEXT. wp_steps. eapply load_next_wp; [done|]. wp_steps.
  eapply (relink_wp _ _ ys (SNext x) (last_slot (SFirst h) xs)); [done| | |].
  - by apply NoDup_app in Hnd as (_ & _ & [_ ?]%NoDup_cons).
  - intros y Q' Hy E HQ. wp_steps. apply load_next_wp with (p := PLoc y); [by rewrite <- E|].
    wp_steps. eapply load_prev_wp; [done|]. wp_steps. by apply store_prev_wp.
  - intros s1 Hk Hb1' Ho Ha. wp_steps. eapply load_prev_wp; [by rewrite Ho|]. wp_steps.
    eapply load_next_wp; [by rewrite Hk|]. wp_steps. apply store_slot_wp; [rewrite Hk; live|]. split; [|agrees]. split.
    + apply chain_app. split.
      * eapply chain_redirect; [exact Hc1|done|by rewrite lnk_set_eq by (rewrite Hk; live)|].
        intros sl Hsl Hne. by rewrite lnk_set_ne, Hk.
      * eapply chain_moved; [exact Hc2| |]; [by rewrite lnk_set_eq by (rewrite Hk; live)|].
        intros z Hz. rewrite lnk_set_ne, Hk; [done|]. by apply last_slot_ne, Hdis.
    + apply backs_app. split.
      * eapply backs_ext; [exact Hb1|]. intros z Hz. obs. apply Ho. intros Hin. by eapply Hdis.
      * eapply backs_ext; [exact Hb1'|]. intros z Hz. by obs.
Qed.
Lemma list_remove_ok s h xs x ys :
  listl s h (xs ++ x :: ys) -> wp (LIST_REMOVE (PLoc x)) (one s h (xs ++ x :: ys) (xs ++ ys)) s.
Proof.
  intros Hq. eapply wp_mono; [by apply list_remove_kept|]. intros [] s' [Hq' Ha]. split; [done|].
  eapply agree_weaken; [exact Ha|done|]. clear. set_solver.
Qed.

(** The last slot of the first list leads to the second: the second is handed over. *)
Lemma hand_over_ok s h1 h2 xs y ys L :
  listl s h1 xs -> listl s h2 (y :: ys) -> h1 <> h2 -> (y :: ys) ## xs -> L = last_slot (SFirst h1) xs ->
  wp (store_prev (PLoc y) L;; LIST_INIT h2) (two s h1 h2 (xs ++ y :: ys) []) (set_lnk L (PLoc y) s).
Proof.
  intros [Hc1 Hb1] [Hc2 Hb2] Hne Hdis ->. pose proof (chain_NoDup _ _ _ Hc1) as Hnd. pose proof (chain_NoDup _ _ _ Hc2) as Hnd2.
  destruct Hc2 as [Hf2 Hc2], Hb2 as [Hy Hb2]. apply NoDup_cons in Hnd2 as [Hyy _]. assert (is_Some (prv s y)) by by eexists.
  pose proof (chain_last _ _ _ _ Hc1) as HL. pose proof (last_slot_ne_first h1 h2 xs Hne) as HL2.
  assert (forall z, z ∈ y :: ys -> z ∉ xs) as Hd by (intros z ??; by apply (Hdis z)).
  assert (y ∉ xs) as Hyx by (apply Hd; left).
  wp_steps. apply store_prev_wp; [live|]. unfold LIST_INIT. apply store_slot_wp; [live|].
  split; [|split; [|agrees]]; split.
  - apply chain_app. split.
    + eapply chain_redirect; [exact Hc1|done|by obs|]. intros sl Hsl Hn.
      assert (SFirst h2 <> sl) by (intros <-; apply slots_first in Hsl; congruence). by obs.
    + cbn [chain]. split; [by obs|]. eapply chain_same; [exact Hc2|]. intros z Hz.
      assert (last_slot (SFirst h1) xs <> SNext z); [|by obs]. by apply last_slot_ne, Hd.
  - apply backs_app. split; [|cbn [backs]; split; [by obs|]]; (eapply backs_ext; [done|]); intros z Hz; assert (z <> y) by elem_ne; by obs.
  - cbn. by obs.
  - done.
Qed.

Lemma list_concat_ok fuel s h1 h2 xs ys :
  listl s h1 xs -> listl s h2 ys -> h1 <> h2 -> ys ## xs -> length xs <= fuel ->
  wp (LIST_CONCAT fuel h1 h2) (two s h1 h2 (xs ++ ys) []) s.
Proof.
  intros H1 H2 Hne Hdis Hfuel. pose proof H1 as [Hc1 _]. pose proof H2 as [Hc2 _].
  pose proof (chain_first _ _ _ _ Hc1) as Hf1. pose proof (chain_first _ _ _ _ Hc2) as Hf2.
  unfold LIST_CONCAT, LIST_FIRST. wp_steps. eapply load_slot_wp; [done|]. destruct xs as [|x xs _] using rev_ind.
  - simpl first_of. change (is_null PNull) with true. cbn iota. wp_steps. eapply load_slot_wp; [done|]. wp_steps.
    apply store_slot_wp; [live|]. destruct ys as [|y ys]; (apply wp_when; [intros Hn|intros Hn]); try discriminate Hn.
    + split; [|split; [|agrees]]; (split; [|done]); cbn; by obs.
    + apply wp_bind. eapply load_slot_wp; [by obs|]. cbn beta. by apply (hand_over_ok s h1 h2 []).
  - rewrite length_app in Hfuel. simpl in Hfuel. assert (is_null (first_of (xs ++ [x]) PNull) = false) as -> by by destruct xs.
    wp_steps. eapply load_slot_wp; [done|]. destruct ys as [|y ys]; (apply wp_when; [intros Hn|intros Hn]); try discriminate Hn.
    + rewrite app_nil_r. split; [done|]. split; [done|agrees].
    + apply wp_bind. eapply find_before_wp; [exact Hc1|apply null_not_in|lia|]. cbn beta.
      apply wp_bind. eapply load_slot_wp; [done|]. cbn beta. pose proof (chain_last _ _ _ _ Hc1) as HL. rewrite last_slot_snoc in HL.
      apply wp_bind, store_next_wp; [live|]. apply wp_bind. eapply load_slot_wp; [by obs|]. cbn beta.
      unfold addr_next. apply wp_bind, wp_ret. apply (hand_over_ok s h1 h2 (xs ++ [x])); try done. by rewrite last_slot_snoc.
Qed.

Lemma list_swap_ok s h1 h2 xs ys :
  listl s h1 xs -> listl s h2 ys -> h1 <> h2 -> ys ## xs -> wp (LIST_SWAP h1 h2) (two s h1 h2 ys xs) s.
Proof.
  intros [Hc1 Hb1] [Hc2 Hb2] Hne Hdis. unfold LIST_SWAP, LIST_FIRST. wp_steps.
  pose proof (chain_first _ _ _ _ Hc1) as Hf1. pose proof (chain_first _ _ _ _ Hc2) as Hf2.
  eapply load_slot_wp; [done|]. wp_steps. eapply load_slot_wp; [done|]. wp_steps. apply store_slot_wp; [live|]. wp_steps.
  apply store_slot_wp; [live|]. wp_steps. eapply load_slot_wp; [by obs|]. wp_steps.
  eapply (relink_wp _ _ ys (SFirst h2) (SFirst h1)).
  - eapply backs_ext; [exact Hb2|]. intros. by obs.
  - by eapply chain_NoDup.
  - intros y Q' Hy E HQ. rewrite (f_equal store_prev E). by apply store_prev_wp.
  - intros s1 Hk1 Hm1 Ho1 Ha1. wp_steps. eapply load_slot_wp; [rewrite Hk1; by obs|]. wp_steps.
    assert (forall z, z ∈ xs -> z ∉ ys) as Hd1 by (intros z ??; by apply (Hdis z)).
    eapply (relink_wp _ _ xs (SFirst h1) (SFirst h2)).
    + eapply backs_ext; [exact Hb1|]. intros z Hz. rewrite Ho1 by auto. by obs.
    + by eapply chain_NoDup.
    + intros y Q' Hy E HQ. rewrite (f_equal store_prev E). by apply store_prev_wp.
    + intros s2 Hk2 Hm2 Ho2 Ha2. split; [|split; [|agrees]]; split; try done.
      * eapply chain_moved; [exact Hc2| |]; intros; rewrite Hk2, Hk1; by obs.
      * eapply backs_ext; [exact Hm1|]. intros z Hz. apply Ho2. intros Hin. by eapply Hd1.
      * eapply chain_moved; [exact Hc1| |]; intros; rewrite Hk2, Hk1; by obs.
Qed.

(** *** Questions *)

Lemma list_prev_ok s h xs x ys : listl s h (xs ++ x :: ys) -> LIST_PREV (PLoc x) h s = Done (last_of xs, s).
Proof.
  intros [_ [_ [Hx _]]%backs_app]. apply wp_eq. unfold LIST_PREV, last_of. wp_steps. eapply load_prev_wp; [done|].
  destruct xs as [|k xs _] using rev_ind; [by rewrite bool_decide_true|].
  rewrite last_slot_snoc, last_snoc, bool_decide_false by done. done.
Qed.
End ops.

(** *** The family *)

Definition list_run (fuel : nat) (o : qop) : LM unit :=
  match o with
  | QInit h => LIST_INIT h
  | QInsertHead h l => LIST_INSERT_HEAD h (PLoc l)
  | QInsertAfter h x l => LIST_INSERT_AFTER (PLoc x) (PLoc l)
  | QInsertBefore h x l => LIST_INSERT_BEFORE (PLoc x) (PLoc l)
  | QRemove h l => LIST_REMOVE (PLoc l)
  | QConcat h1 h2 => LIST_CONCAT fuel h1 h2
  | QSwap h1 h2 => LIST_SWAP h1 h2
  | QInsertTail _ _ | QRemoveHead _ | QRemoveAfter _ _ => ret tt
  end.
(** There are no macros for these three. *)
Definition list_op (o : qop) : bool :=
  match o with QInsertTail _ _ | QRemoveHead _ | QRemoveAfter _ _ => false | _ => true end.

#[export] Instance list_implements : Implements list_run list_op.
Proof.
  intros fuel o s Hok Hf. destruct o as [h|h l|h l|h x l|h x l|h|h x|h x|h1 h2|h1 h2]; try done; unfold op_spec.
  - intros Hh. apply list_init_ok. unfold lnk. by apply fmap_is_Some.
  - intros xs Hq Hl. by apply list_insert_head_ok.
  - intros xs ys Hq Hl. by apply list_insert_after_ok.
  - intros xs ys Hq Hl. by apply list_insert_before_ok.
  - intros xs ys Hq. by apply list_remove_ok.
  - intros xs ys H1 H2 Hne Hd. apply list_concat_ok; try done. apply listq_size in H1. lia.
  - intros xs ys H1 H2 Hne Hd. by apply list_swap_ok.
Qed.

(** What the macros that do not change a list say about it. *)
Definition list_answers (fuel : nat) (s : qmem LIST_HEAD LIST_ENTRY) (h : loc) (xs : list loc) : Prop :=
  LIST_EMPTY h s = Done (bool_decide (xs = []), s) /\
  LIST_FIRST h s = Done (first_of xs PNull, s) /\
  LIST_FOREACH fuel h s = Done (xs, s) /\
  forall ys x zs, xs = ys ++ x :: zs ->
    LIST_NEXT (PLoc x) s = Done (first_of zs PNull, s) /\ LIST_PREV (PLoc x) h s = Done (last_of ys, s) /\
    LIST_FOREACH_FROM fuel h (PLoc x) s = Done (x :: zs, s) /\
    LIST_FOREACH_FROM_SAFE (fun _ => ret tt) fuel h (PLoc x) s = Done (x :: zs, s).
(** What a loop does whose body moves each element to the front of another list. *)
Definition list_loops (fuel : nat) (s : qmem LIST_HEAD LIST_ENTRY) (A : lists) : Prop :=
  loop_moves (run := list_run) (ord := id) LIST_FOREACH_SAFE fuel s A /\
  loop_moves (run := list_run) (ord := id) (fun body fuel h => LIST_FOREACH_FROM_SAFE body fuel h PNull) fuel s A.

Lemma list_answers_ok fuel s h xs : listl s h xs -> size (q_elems s) <= fuel -> list_answers fuel s h xs.
Proof.
  intros Hq Hf. pose proof (listq_size _ _ _ Hq) as Hsz. pose proof Hq as [Hc _].
  assert (LIST_FIRST h s = Done (first_of xs PNull, s)) as Hfirst by by eapply chain_load_first.
  split_and!; [|done| |].
  - unfold LIST_EMPTY, bind. rewrite Hfirst. by destruct xs.
  - unfold LIST_FOREACH, bind. rewrite Hfirst. eapply visit_ok; [done|lia].
  - intros ys x zs ->. split; [by eapply chain_load_next|]. split; [by eapply list_prev_ok|].
    eapply foreach_from_ok; [exact Hq|lia].
Qed.
Lemma list_loops_ok fuel s A : rep s A -> size (q_elems s) <= fuel -> list_loops fuel s A.
Proof. intros Hr Hf. split; by apply forward_moves. Qed.

(** C26: for every sequence of LIST operations that the specification of lists permits, from
    heads and entries with any contents, the macros run, the loop of LIST_CONCAT included,
    without touching memory that is not a head or an entry, leave the lists that the
    specification gives, and then FIRST, EMPTY, NEXT, PREV, FOREACH and FOREACH_FROM agree with
    them, and a FOREACH_SAFE loop may move every element it visits to another list. *)
Theorem list_refines (fuel : nat) (os : list qop) (s : qmem LIST_HEAD LIST_ENTRY) (A A' : lists) :
  rep s A -> forallb list_op os = true -> size (q_elems s) <= fuel ->
  q_steps (dom (q_heads s)) (dom (q_elems s)) os A = Some A' ->
  exists s', run_ops (list_run fuel) os s = Done (tt, s') /\ rep s' A' /\
    (forall h xs, A' !! h = Some xs -> list_answers fuel s' h xs) /\ list_loops fuel s' A'.
Proof.
  intros Hr Hok Hf Hq.
  apply (run_ops_after (fun s A => (forall h xs, A !! h = Some xs -> list_answers fuel s h xs) /\ list_loops fuel s A) fuel os s A);
    try done. intros s1 A1 Hr1 Hf1. split; [|by apply list_loops_ok].
  intros h xs Hx. apply list_answers_ok; [by apply (rep_list _ _ Hr1)|done].
Qed.

(** *** Witness: two lists, exchanged and joined *)

Definition sample_lists : qmem LIST_HEAD LIST_ENTRY :=
  let e := ListEntry PZero (SFirst 9) in
  QMem {[1%positive := ListHead PZero; 2%positive := ListHead (PLoc 3)]}
       {[1%positive := e; 2%positive := e; 3%positive := e; 4%positive := e]}.
Definition sample_list_ops : list qop :=
  [QInit 1; QInit 2; QInsertHead 1 1; QInsertHead 1 2; QInsertAfter 1 2 3; QInsertBefore 1 2 4; QRemove 1 2;
   QInsertHead 2 2; QSwap 1 2; QConcat 1 2; QRemove 1 3]%positive.

Lemma list_refines_witness :
  exists s', run_ops (list_run 4) sample_list_ops sample_lists = Done (tt, s') /\
    rep s' {[1%positive := [2; 4; 1]%positive; 2%positive := []]} /\
    (forall h xs, ({[1%positive := [2; 4; 1]%positive; 2%positive := []]} : lists) !! h = Some xs -> list_answers 4 s' h xs) /\
    list_loops 4 s' {[1%positive := [2; 4; 1]%positive; 2%positive := []]}.
Proof. apply (list_refines 4 sample_list_ops sample_lists ∅); [apply rep_empty|reflexivity|vm_compute; lia|vm_compute; reflexivity]. Defined.
