(* ===== verification/SListQ.v ===== *)
(** The SLIST macros as a family of list macros.

    The computations of [SList] over a store, here over the memory of heads and elements of
    [Queue], so that sequences of them are checked against the specification of lists like
    those of the other families. *)

From S2P Require Import Prelude CMonad KHeap SList Queue QueueShape QueueSpec QueueLoops.
Local Open Scope cmonad_scope.

Section slistq.
Context {A : Type} `{HA : SListEntry A}.

(** [struct slisthead]: the one field [slh_first]. *)
#[local] Instance slist_links : Links ptr A.
Proof. refine (Build_Links _ _ id (fun p _ => p) sle_next set_sle_next _ _); [done|apply sle_next_set]. Defined.
Implicit Types s : qmem ptr A.

(** A macro with a head argument, with two, or with none. *)
Definition on_head (h : loc) (f : gmap loc A -> ptr -> outcome (gmap loc A * ptr)) : M (qmem ptr A) unit :=
  let! s := mget in
  let! head := mopt BadAccess (q_heads s !! h) in
  let! r := mlift (f (q_elems s) head) in
  mput (QMem (<[h := r.2]> (q_heads s)) r.1).
Definition on_heads (h1 h2 : loc) (f : gmap loc A -> ptr -> ptr -> outcome (gmap loc A * ptr * ptr)) : M (qmem ptr A) unit :=
  let! s := mget in
  let! head1 := mopt BadAccess (q_heads s !! h1) in
  let! head2 := mopt BadAccess (q_heads s !! h2) in
  let! r := mlift (f (q_elems s) head1 head2) in
  mput (QMem (<[h1 := r.1.2]> (<[h2 := r.2]> (q_heads s))) r.1.1).
Definition on_store (f : gmap loc A -> outcome (gmap loc A)) : M (qmem ptr A) unit :=
  let! s := mget in
  let! m := mlift (f (q_elems s)) in
  mput (QMem (q_heads s) m).

Definition slist_run (fuel : nat) (o : qop) : M (qmem ptr A) unit :=
  match o with
  | QInit h => on_head h (fun m _ => Done (m, SLIST_INIT))
  | QInsertHead h l => on_head h (fun m head => SLIST_INSERT_HEAD m head (PLoc l))
  | QInsertAfter h x l => on_store (fun m => SLIST_INSERT_AFTER m (PLoc x) (PLoc l))
  | QRemoveHead h => on_head h (fun m head =>
      match SLIST_REMOVE_HEAD m head with Done head => Done (m, head) | Fault f => Fault f end)
  | QRemoveAfter h x => on_store (fun m => SLIST_REMOVE_AFTER m (PLoc x))
  | QRemove h l => on_head h (fun m head => SLIST_REMOVE m head (PLoc l))
  | QConcat h1 h2 => on_heads h1 h2 SLIST_CONCAT
  | QSwap h1 h2 => on_heads h1 h2 (fun m head1 head2 =>
      let '(head1, head2) := SLIST_SWAP head1 head2 in Done (m, head1, head2))
  | QInsertTail _ _ | QInsertBefore _ _ _ => ret tt
  end.
(** There are no macros for these two. *)
Definition slist_op (o : qop) : bool := match o with QInsertTail _ _ | QInsertBefore _ _ _ => false | _ => true end.

(** The loops, over the links of this memory; [SLIST_FOREACH_PREVPTR] also gives its body the
    address of the link to the element. *)
Definition slist_first (h : loc) : M (qmem ptr A) ptr := load_slot (SFirst h).
Definition slist_next (elm : ptr) : M (qmem ptr A) ptr := load_next elm.
Definition SLIST_FOREACH_FROM (fuel : nat) (head : loc) (var : ptr) : M (qmem ptr A) (list loc) :=
  let! var := start_from var (slist_first head) in visit slist_next fuel var.
Definition SLIST_FOREACH_SAFE (body : ptr -> M (qmem ptr A) unit) (fuel : nat) (head : loc) : M (qmem ptr A) (list loc) :=
  let! var := slist_first head in visit_safe slist_next body fuel var.
Definition SLIST_FOREACH_FROM_SAFE (body : ptr -> M (qmem ptr A) unit) (fuel : nat) (head : loc) (var : ptr) :
    M (qmem ptr A) (list loc) :=
  let! var := start_from var (slist_first head) in visit_safe slist_next body fuel var.
Fixpoint prevptr_loop (fuel : nat) (varp : slot) : M (qmem ptr A) (list (slot * loc)) :=
  let! var := load_slot varp in
  match var with
  | PNull => ret []
  | PZero => mfault BadAccess
  | PLoc l =>
      match fuel with
      | O => mfault OutOfFuel
      | S fuel => let! ls := prevptr_loop fuel (SNext l) in ret ((varp, l) :: ls)
      end
  end.
Definition SLIST_FOREACH_PREVPTR (fuel : nat) (head : loc) : M (qmem ptr A) (list (slot * loc)) :=
  prevptr_loop fuel (SFirst head).

(** *** The list at a head *)

Definition slistq s (h : loc) (xs : list loc) : Prop := exists p, q_heads s !! h = Some p /\ slist (q_elems s) p xs.

Lemma slist_chain s sl p xs : lnk s sl = Some p -> slist (q_elems s) p xs -> chain (lnk s) sl xs PNull.
Proof.
  unfold slist. revert sl p. induction xs as [|x xs IH]; intros sl p Hsl; simpl; [by intros ->|].
  intros (-> & a & Ha & Hs). split; [done|]. eapply IH; [|done]. unfold lnk. by rewrite Ha.
Qed.
Lemma slist_near m m' p es xs : near es m m' -> (forall l, l ∈ xs -> l ∉ es) -> slist m p xs -> slist m' p xs.
Proof.
  intros Hn. unfold slist. revert p. induction xs as [|x xs IH]; intros p Hes; simpl; [done|]. intros (-> & a & Ha & Hs).
  split; [done|]. exists a. split; [by rewrite (nr_out _ _ _ Hn) by (apply Hes; left)|].
  apply IH; [|done]. intros l Hl. apply Hes. by right.
Qed.

#[local] Instance slist_family : Family ptr A.
Proof.
  refine (Build_Family _ _ _ slistq _ _).
  - intros s h xs (p & Hp & Hs). eapply slist_chain; [|done]. unfold lnk. by rewrite Hp.
  - intros s s' hs es h xs [Hh He _ Hd] Hn Hes (p & Hp & Hs). exists p. split; [by rewrite Hh|].
    eapply (slist_near _ _ _ es); [|done|done]. by split.
Defined.

(** *** One operation *)

Lemma agree_one s h p es m : is_Some (q_heads s !! h) -> near es (q_elems s) m -> agree [h] es s (QMem (<[h := p]> (q_heads s)) m).
Proof.
  intros Hh%elem_of_dom [Hd Ho]. split; simpl; try done; [|rewrite dom_insert_L; set_solver].
  intros h' Hh'. rewrite lookup_insert_ne by set_solver. done.
Qed.
Lemma agree_two s h1 h2 p1 p2 es m :
  is_Some (q_heads s !! h1) -> is_Some (q_heads s !! h2) -> near es (q_elems s) m ->
  agree [h1; h2] es s (QMem (<[h1 := p1]> (<[h2 := p2]> (q_heads s))) m).
Proof.
  intros H1%elem_of_dom H2%elem_of_dom [Hd Ho]. split; simpl; try done; [|rewrite !dom_insert_L; set_solver].
  intros h' Hh'. rewrite !lookup_insert_ne by set_solver. done.
Qed.
Lemma agree_store s h es m : near es (q_elems s) m -> agree [h] es s (QMem (q_heads s) m).
Proof. intros [Hd Ho]. by split. Qed.

Lemma on_head_wp s h f es xs :
  (forall p, q_heads s !! h = Some p -> exists m p', f (q_elems s) p = Done (m, p') /\ slist m p' xs /\ near es (q_elems s) m) ->
  is_Some (q_heads s !! h) -> wp (on_head h f) (one s h es xs) s.
Proof.
  intros Hf [p Hp]. destruct (Hf p Hp) as (m & p' & Hr & Hs & Hn). unfold on_head. wp_steps.
  eapply wp_opt; [exact Hp|]. wp_steps. eapply wp_lift; [exact Hr|]. wp_steps. split.
  - exists p'. simpl. by rewrite lookup_insert_eq.
  - apply agree_one; [by eexists|done].
Qed.
Lemma on_store_wp s h f es xs :
  (forall p, q_heads s !! h = Some p -> exists m, f (q_elems s) = Done m /\ slist m p xs /\ near es (q_elems s) m) ->
  is_Some (q_heads s !! h) -> wp (on_store f) (one s h es xs) s.
Proof.
  intros Hf [p Hp]. destruct (Hf p Hp) as (m & Hr & Hs & Hn). unfold on_store. wp_steps.
  eapply wp_lift; [exact Hr|]. wp_steps. split; [by exists p|by apply agree_store].
Qed.
Lemma on_heads_wp s h1 h2 p1 p2 f xs ys m p1' p2' :
  q_heads s !! h1 = Some p1 -> q_heads s !! h2 = Some p2 -> h1 <> h2 -> f (q_elems s) p1 p2 = Done (m, p1', p2') ->
  slist m p1' xs -> slist m p2' ys -> near (xs ++ ys) (q_elems s) m -> wp (on_heads h1 h2 f) (two s h1 h2 xs ys) s.
Proof.
  intros H1 H2 Hne Hr Hs1 Hs2 Hn. unfold on_heads. wp_steps. eapply wp_opt; [exact H1|]. wp_steps.
  eapply wp_opt; [exact H2|]. wp_steps. eapply wp_lift; [exact Hr|]. wp_steps. split; [|split].
  - exists p1'. simpl. by rewrite lookup_insert_eq.
  - exists p2'. simpl. by rewrite lookup_insert_ne, lookup_insert_eq.
  - apply agree_two; [by eexists|by eexists|done].
Qed.

Lemma slistq_live s h xs : slistq s h xs -> is_Some (q_heads s !! h).
Proof. intros (p & Hp & _). by eexists. Qed.
Lemma slistq_at s h xs p : slistq s h xs -> q_heads s !! h = Some p -> slist (q_elems s) p xs.
Proof. intros (p' & Hp' & Hs) Hp. congruence. Qed.

#[local] Instance slist_implements : Implements slist_run slist_op.
Proof.
  intros fuel o s Hok _. destruct o as [h|h l|h l|h x l|h x l|h|h x|h x|h1 h2|h1 h2]; try done; unfold op_spec; cbn [slist_run].
  - intros Hh. apply on_head_wp; [|done]. intros p _. by eexists _, _.
  - intros xs Hq [[a Ha] Hn]. apply on_head_wp; [|by eapply slistq_live]. intros p Hp.
    destruct (insert_head_ok _ _ _ _ _ (slistq_at _ _ _ _ Hq Hp) Ha Hn) as [Hr Hs]. eexists _, _.
    split; [exact Hr|]. split; [exact Hs|]. apply near_insert; [done|left|by eexists].
  - intros xs ys Hq [[a Ha] Hn]. apply (on_store_wp _ h); [|by eapply slistq_live]. intros p Hp.
    destruct (insert_after_ok _ _ _ _ _ _ _ (slistq_at _ _ _ _ Hq Hp) Ha Hn) as (m & Hr & Hs & Hnear). exists m.
    split; [done|]. split; [done|]. eapply near_weaken; [done|]. clear. set_solver.
  - intros x xs Hq. apply on_head_wp; [|by eapply slistq_live]. intros p Hp.
    destruct (remove_head_ok _ _ _ _ (slistq_at _ _ _ _ Hq Hp)) as (p' & -> & Hs). by eexists _, _.
  - intros xs y ys Hq. apply (on_store_wp _ h); [|by eapply slistq_live]. intros p Hp.
    destruct (remove_after_ok _ _ _ _ _ _ (slistq_at _ _ _ _ Hq Hp)) as (m & Hr & Hs & Hnear). exists m.
    split; [done|]. split; [done|]. eapply near_weaken; [done|]. clear. set_solver.
  - intros xs ys Hq. apply on_head_wp; [|by eapply slistq_live]. intros p Hp.
    destruct (slist_remove_ok _ _ _ _ _ (slistq_at _ _ _ _ Hq Hp)) as (m & p' & Hr & Hs & Hnear). exists m, p'.
    split; [done|]. split; [done|]. eapply near_weaken; [done|]. clear. set_solver.
  - intros xs ys (p1 & Hp1 & Hs1) (p2 & Hp2 & Hs2) Hne Hd.
    destruct (slist_concat_ok _ _ _ _ _ Hs1 Hs2) as (m & p1' & p2' & Hr & Hs1' & Hs2' & Hnear); [intros l ??; by apply (Hd l)|].
    eapply on_heads_wp; [exact Hp1|exact Hp2|done|exact Hr|done|done|]. eapply near_weaken; [done|]. clear. set_solver.
  - intros xs ys (p1 & Hp1 & Hs1) (p2 & Hp2 & Hs2) Hne Hd.
    eapply on_heads_wp; [exact Hp1|exact Hp2|done|reflexivity|done|done|done].
Qed.

(** What the macros that do not change a list say about it. *)
Definition slist_answers (fuel : nat) s (h : loc) (xs : list loc) : Prop :=
  exists head, q_heads s !! h = Some head /\ SLIST_EMPTY head = bool_decide (xs = []) /\
    SLIST_FIRST head = first_of xs PNull /\ SLIST_FOREACH (S fuel) (q_elems s) head = Done xs /\
    SLIST_FOREACH_PREVPTR fuel h s = Done (zip (slots (SFirst h) xs) xs, s) /\
    forall ys x zs, xs = ys ++ x :: zs ->
      SLIST_NEXT (q_elems s) (PLoc x) = Done (first_of zs PNull) /\
      SLIST_FOREACH_FROM fuel h (PLoc x) s = Done (x :: zs, s) /\
      SLIST_FOREACH_FROM_SAFE (fun _ => ret tt) fuel h (PLoc x) s = Done (x :: zs, s).
(** What a loop does whose body moves each element to the front of another list. *)
Definition slist_loops (fuel : nat) s (X : lists) : Prop :=
  loop_moves (run := slist_run) (ord := id) SLIST_FOREACH_SAFE fuel s X /\
  loop_moves (run := slist_run) (ord := id) (fun body fuel h => SLIST_FOREACH_FROM_SAFE body fuel h PNull) fuel s X.

Lemma prevptr_ok s sl xs fuel : chain (lnk s) sl xs PNull -> length xs <= fuel ->
  prevptr_loop fuel sl s = Done (zip (slots sl xs) xs, s).
Proof.
  revert sl fuel. induction xs as [|x xs IH]; intros sl fuel Hc Hf.
  - destruct fuel; simpl; unfold bind; by erewrite chain_load_first by exact Hc.
  - destruct fuel as [|fuel]; simpl in Hf; [lia|]. simpl. unfold bind at 1. erewrite chain_load_first by exact Hc.
    destruct Hc as [_ Hc]. cbn [first_of]. unfold bind. rewrite (IH _ _ Hc) by lia. done.
Qed.

Lemma slist_answers_ok fuel s h xs : slistq s h xs -> size (q_elems s) <= fuel -> slist_answers fuel s h xs.
Proof.
  intros Hq Hf. pose proof (listq_size _ _ _ Hq) as Hsz. pose proof Hq as (p & Hp & Hs). exists p. split_and!.
  - done.
  - by eapply SLIST_EMPTY_ok.
  - destruct xs; [done|by destruct Hs].
  - eapply foreach_ok; [done|lia].
  - eapply prevptr_ok; [by apply listq_chain|lia].
  - intros ys x zs ->. split; [|eapply foreach_from_ok; [exact Hq|lia]].
    apply lseg_app in Hs as (r & _ & -> & a & Ha & Hs). rewrite (next_ok _ _ _ Ha).
    destruct zs; [by apply slist_nil_inv in Hs as ->|by destruct Hs as [-> _]].
Qed.
Lemma slist_loops_ok fuel s X : rep s X -> size (q_elems s) <= fuel -> slist_loops fuel s X.
Proof. intros Hr Hf. split; by apply forward_moves. Qed.

(** C24: for every sequence of SLIST operations that the specification of lists permits, from heads
    and elements with any contents, the macros run, the search loops of SLIST_REMOVE and
    SLIST_CONCAT included, without touching memory that is not an element, leave the lists that
    the specification gives, and then FIRST, EMPTY, NEXT, FOREACH, FOREACH_FROM and
    FOREACH_PREVPTR agree with them, and a FOREACH_SAFE loop may move every element it visits
    to another list. *)
Theorem slist_refines (fuel : nat) (os : list qop) s (X X' : lists) :
  rep s X -> forallb slist_op os = true -> size (q_elems s) <= fuel ->
  q_steps (dom (q_heads s)) (dom (q_elems s)) os X = Some X' ->
  exists s', run_ops (slist_run fuel) os s = Done (tt, s') /\ rep s' X' /\
    (forall h xs, X' !! h = Some xs -> slist_answers fuel s' h xs) /\ slist_loops fuel s' X'.
Proof.
  intros Hr Hok Hf Hq.
  apply (run_ops_after (fun s X => (forall h xs, X !! h = Some xs -> slist_answers fuel s h xs) /\ slist_loops fuel s X) fuel os s X);
    try done. intros s1 X1 Hr1 Hf1. split; [|by apply slist_loops_ok].
  intros h xs Hx. apply slist_answers_ok; [by apply (rep_list _ _ Hr1)|done].
Qed.
End slistq.

(** ** Witness: nodes that carry a number *)

#[export] Instance pair_slist_entry : SListEntry (Z * ptr).
Proof. refine (Build_SListEntry _ snd (fun p a => (a.1, p)) _ _); done. Defined.

Definition sample_slists : qmem ptr (Z * ptr) :=
  QMem {[1%positive := PZero; 2%positive := PLoc 3]}
       {[1%positive := (10%Z, PZero); 2%positive := (20%Z, PLoc 2); 3%positive := (30%Z, PZero); 4%positive := (40%Z, PZero)]}.
Definition sample_slist_ops : list qop :=
  [QInit 1; QInit 2; QInsertHead 1 1; QInsertHead 1 2; QInsertAfter 1 1 3; QInsertHead 2 4; QRemove 1 1;
   QSwap 1 2; QConcat 1 2; QRemoveAfter 1 4; QInsertHead 1 2; QRemoveHead 1]%positive.

Lemma slist_refines_witness :
  exists s', run_ops (slist_run 4) sample_slist_ops sample_slists = Done (tt, s') /\
    rep (HF := slist_family) s' {[1%positive := [4; 3]%positive; 2%positive := []]} /\
    (forall h xs, ({[1%positive := [4; 3]%positive; 2%positive := []]} : lists) !! h = Some xs -> slist_answers 4 s' h xs) /\
    slist_loops 4 s' {[1%positive := [4; 3]%positive; 2%positive := []]}.
Proof.
  apply (slist_refines 4 sample_slist_ops sample_slists ∅); [apply rep_empty|reflexivity|vm_compute; lia|vm_compute; reflexivity].
Defined.
