(* ===== verification/QueueDebug.v ===== *)
(** The checks and static initialisers of [server/src/queue.h].

    In a kernel built with [INVARIANTS] the macros of the doubly linked lists and of the tail
    queues first check the links around the place of the operation and panic if they are not
    consistent; without it the checks are empty, as in [ListQ] and [TailQ]. Here they are
    what they say. [queue_debug_correct]: no permitted sequence of operations is
    changed by them, and removing an element twice panics. All of them together accept exactly
    the well-formed lists, but of the tail queues also those whose [tqh_last] points to another
    link that is NULL ([stale_last_accepted]). *)

From S2P Require Import Prelude CMonad KHeap Queue QueueShape QueueSpec QueueLoops ListQ TailQ StailQ SListQ.
Local Open Scope cmonad_scope.

(** [if (bad) panic(...)] *)
Definition panic_if {S} (bad : bool) : M S unit := if bad then mfault Aborted else ret tt.

(** ** The checks *)

Definition QMD_LIST_CHECK_HEAD (head : loc) : LM unit :=
  let! first := LIST_FIRST head in
  mwhen (negb (is_null first))
    (let! first := LIST_FIRST head in
     let! prev := load_prev first in
     panic_if (negb (bool_decide (prev = SFirst head)))).
Definition QMD_LIST_CHECK_NEXT (elm : ptr) : LM unit :=
  let! next := LIST_NEXT elm in
  mwhen (negb (is_null next))
    (let! next := LIST_NEXT elm in
     let! prev := load_prev next in
     let! sl := addr_next elm in
     panic_if (negb (bool_decide (prev = sl)))).
Definition QMD_LIST_CHECK_PREV (elm : ptr) : LM unit :=
  let! prev := load_prev elm in
  let! p := load_slot prev in
  panic_if (negb (bool_decide (p = elm))).

Definition QMD_TAILQ_CHECK_HEAD (head : loc) : TM unit :=
  let! empty := TAILQ_EMPTY head in
  mwhen (negb empty)
    (let! first := TAILQ_FIRST head in
     let! prev := load_prev first in
     panic_if (negb (bool_decide (prev = SFirst head)))).
Definition QMD_TAILQ_CHECK_TAIL (head : loc) : TM unit :=
  let! last := load_last head in
  let! p := load_slot last in
  panic_if (negb (is_null p)).
Definition QMD_TAILQ_CHECK_NEXT (elm : ptr) : TM unit :=
  let! next := TAILQ_NEXT elm in
  mwhen (negb (is_null next))
    (let! next := TAILQ_NEXT elm in
     let! prev := load_prev next in
     let! sl := addr_next elm in
     panic_if (negb (bool_decide (prev = sl)))).
Definition QMD_TAILQ_CHECK_PREV (elm : ptr) : TM unit :=
  let! prev := load_prev elm in
  let! p := load_slot prev in
  panic_if (negb (bool_decide (p = elm))).

(** What each macro checks before it does anything else. *)
Definition list_checks (o : qop) : LM unit :=
  match o with
  | QInsertHead h _ => QMD_LIST_CHECK_HEAD h
  | QInsertAfter _ x _ => QMD_LIST_CHECK_NEXT (PLoc x)
  | QInsertBefore _ x _ => QMD_LIST_CHECK_PREV (PLoc x)
  | QRemove _ x => QMD_LIST_CHECK_NEXT (PLoc x);; QMD_LIST_CHECK_PREV (PLoc x)
  | _ => ret tt
  end.
Definition tailq_checks (o : qop) : TM unit :=
  match o with
  | QInsertHead h _ => QMD_TAILQ_CHECK_HEAD h
  | QInsertTail h _ => QMD_TAILQ_CHECK_TAIL h
  | QInsertAfter _ x _ => QMD_TAILQ_CHECK_NEXT (PLoc x)
  | QInsertBefore _ x _ => QMD_TAILQ_CHECK_PREV (PLoc x)
  | QRemove _ x => QMD_TAILQ_CHECK_NEXT (PLoc x);; QMD_TAILQ_CHECK_PREV (PLoc x)
  | _ => ret tt
  end.

(** The macros with [INVARIANTS]. *)
Definition list_run_debug (fuel : nat) (o : qop) : LM unit := list_checks o;; list_run fuel o.
Definition tailq_run_debug (fuel : nat) (o : qop) : TM unit := tailq_checks o;; tailq_run fuel o.

(** ** Static initialisers *)

Definition SLIST_HEAD_INITIALIZER : ptr := PNull.
Definition STAILQ_HEAD_INITIALIZER (head : loc) : STAILQ_HEAD := StailqHead PNull (SFirst head).
Definition LIST_HEAD_INITIALIZER : LIST_HEAD := ListHead PNull.
Definition TAILQ_HEAD_INITIALIZER (head : loc) : TAILQ_HEAD := TailqHead PNull (SFirst head).

(** ** What the checks say about the links *)

Section links.
Context {H E : Type} `{HL : !Links H E} `{HP : !Prevs H E}.
Implicit Types s : qmem H E.

(** The check of the link that leads from a slot to the rest of a list. *)
Definition check_link (load : M (qmem H E) ptr) (sl : slot) : M (qmem H E) unit :=
  let! next := load in
  mwhen (negb (is_null next))
    (let! next := load in let! prev := load_prev next in panic_if (negb (bool_decide (prev = sl)))).
Definition check_prev (elm : ptr) : M (qmem H E) unit :=
  let! prev := load_prev elm in
  let! p := load_slot prev in
  panic_if (negb (bool_decide (p = elm))).

(** It passes exactly if the next element points back. *)
Definition points_back s (sl : slot) (ys : list loc) : bool :=
  match ys with [] => true | y :: _ => bool_decide (prv s y = Some sl) end.
Lemma check_link_eq s load sl ys :
  load s = Done (first_of ys PNull, s) -> Forall (fun y => is_Some (prv s y)) ys ->
  check_link load sl s = if points_back s sl ys then Done (tt, s) else Fault Aborted.
Proof.
  intros Hl Hlive. unfold check_link, mwhen, bind. rewrite Hl. destruct ys as [|y ys]; [done|].
  change (negb (is_null (first_of (y :: ys) PNull))) with true. cbv beta iota. rewrite Hl.
  apply Forall_cons in Hlive as [[sl' Hy] _]. unfold load_prev, bind, mget, mopt. simpl. rewrite Hy. simpl.
  unfold panic_if. do 2 case_bool_decide; first [done|congruence].
Qed.
Lemma check_link_ok s load sl ys :
  load s = Done (first_of ys PNull, s) -> backs (prv s) sl ys -> check_link load sl s = Done (tt, s).
Proof.
  intros Hl Hb. rewrite (check_link_eq _ _ _ ys); [|done|].
  - destruct ys as [|y ys]; [done|]. simpl. by rewrite bool_decide_true by apply Hb.
  - revert sl Hb. clear. induction ys as [|y ys IH]; intros sl; simpl; [constructor|]. intros [Hy Hb].
    constructor; [by eexists|by eapply IH].
Qed.
Lemma check_prev_ok s x sl p : prv s x = Some sl -> lnk s sl = Some p ->
  check_prev (PLoc x) s = if decide (p = PLoc x) then Done (tt, s) else Fault Aborted.
Proof.
  intros Hx Hp. unfold check_prev, load_prev, load_slot, bind, mget, mopt. rewrite Hx. simpl. rewrite Hp. simpl.
  unfold panic_if. by case_bool_decide; case_decide.
Qed.

Lemma chain_prv_live s sl xs p : chain (lnk s) sl xs p -> Forall (fun y => is_Some (prv s y)) xs.
Proof. intros Hc. apply Forall_forall. intros y Hy. apply prv_lnk. by eapply chain_elem_live. Qed.

(** If every link passes, the back pointers are right. *)
Lemma links_backs s sl xs load :
  chain (lnk s) sl xs PNull -> load s = Done (first_of xs PNull, s) ->
  check_link load sl s = Done (tt, s) ->
  (forall x, x ∈ xs -> check_link (load_next (PLoc x)) (SNext x) s = Done (tt, s)) -> backs (prv s) sl xs.
Proof.
  intros Hc Hl Hck. pose proof (chain_prv_live _ _ _ _ Hc) as Hlive. revert sl load Hc Hl Hck Hlive.
  induction xs as [|x xs IH]; intros sl load Hc Hl Hck Hlive Hall; [done|].
  rewrite (check_link_eq _ _ _ (x :: xs)) in Hck by done. simpl in Hck. case_bool_decide as Hd; [|done]. split; [done|]. destruct Hc as [_ Hc]. apply Forall_cons in Hlive as [_ Hlive].
  apply (IH (SNext x) (load_next (PLoc x))); try done.
  - apply wp_eq. eapply load_next_wp; [by eapply chain_first|done].
  - apply Hall. left.
  - intros y Hy. apply Hall. by right.
Qed.

(** A family with its checks, which pass wherever the specification permits the operation. *)
Class Checked `{!Family H E} (checks : qop -> M (qmem H E) unit) (ok : qop -> bool) :=
  checks_pass o s A A' : ok o = true -> rep s A -> q_step (dom (q_heads s)) (dom (q_elems s)) o A = Some A' ->
    checks o s = Done (tt, s).

Lemma run_ops_checked `{!Family H E} `{HI : !Implements run ok} `{HC : !Checked checks ok} fuel os : forall s A A',
  rep s A -> forallb ok os = true -> size (q_elems s) <= fuel ->
  q_steps (dom (q_heads s)) (dom (q_elems s)) os A = Some A' ->
  run_ops (fun o => checks o;; run fuel o) os s = run_ops (run fuel) os s.
Proof.
  induction os as [|o os IH]; intros s A A' Hr Hok Hf Hq; [done|]. cbn [run_ops q_steps forallb] in *.
  apply andb_true_iff in Hok as [Ho Hok]. apply bind_Some in Hq as (A1 & Hq1 & Hq).
  destruct (wp_Done _ _ _ (implements_step fuel s A A1 o Hr Ho Hf Hq1)) as ([] & s1 & E1 & Hr1 & [Eh Ee]).
  pose proof (checks_pass o s A A1 Ho Hr Hq1) as Ec.
  transitivity (run_ops (fun o => checks o;; run fuel o) os s1); [unfold bind at 1, bind at 1; by rewrite Ec, E1|].
  transitivity (run_ops (run fuel) os s1); [|unfold bind; by rewrite E1]. apply (IH s1 A1 A'); try done.
  - by rewrite (same_dom_size s s1).
  - by rewrite Eh, Ee.
Qed.

(** Each kind of check, for an operation the specification permits. *)
Lemma rep_mid `{!Family H E} s A h xs x :
  rep s A -> A !! h = Some xs -> x ∈ xs -> exists ys zs, xs = ys ++ x :: zs /\ listq s h (ys ++ x :: zs).
Proof.
  intros Hr Hx Hin. destruct (rep_split _ _ _ _ _ Hr Hx Hin) as (ys & zs & -> & _). exists ys, zs. split; [done|].
  by apply (rep_list _ _ Hr).
Qed.
End links.

Lemma list_check_head_ok s h xs : listl s h xs -> QMD_LIST_CHECK_HEAD h s = Done (tt, s).
Proof. intros [Hc Hb]. eapply (check_link_ok s (LIST_FIRST h)); [by eapply chain_load_first|exact Hb]. Qed.
Lemma list_check_next_ok s h xs x ys : listl s h (xs ++ x :: ys) -> QMD_LIST_CHECK_NEXT (PLoc x) s = Done (tt, s).
Proof.
  intros [Hc [_ [_ Hb]]%backs_app]. eapply (check_link_ok s (LIST_NEXT (PLoc x))); [by eapply chain_load_next|exact Hb].
Qed.
Lemma list_check_prev_ok s h xs x ys : listl s h (xs ++ x :: ys) -> QMD_LIST_CHECK_PREV (PLoc x) s = Done (tt, s).
Proof.
  intros [[_ [Hx _]]%chain_app [_ [Hb _]]%backs_app]. refine (eq_trans (check_prev_ok s x _ _ Hb Hx) _). by rewrite decide_True.
Qed.

#[export] Instance list_checked : Checked list_checks list_op.
Proof.
  intros o s A A' Ho Hr Hq.
  destruct o as [h|h l|h l|h x l|h x l|h|h x|h x|h1 h2|h1 h2]; try done; cbn [q_step list_checks] in *;
    apply bind_Some in Hq as (xs & Hx & Hq).
  - eapply list_check_head_ok. by apply (rep_list _ _ Hr).
  - destruct (insertable _ _ _); [|done]. case_bool_decide as Hin; [|done].
    destruct (rep_mid _ _ _ _ _ Hr Hx Hin) as (ys & zs & _ & Hl). by eapply list_check_next_ok.
  - destruct (insertable _ _ _); [|done]. case_bool_decide as Hin; [|done].
    destruct (rep_mid _ _ _ _ _ Hr Hx Hin) as (ys & zs & _ & Hl). by eapply list_check_prev_ok.
  - case_decide as Hin; [|done]. destruct (rep_mid _ _ _ _ _ Hr Hx Hin) as (ys & zs & _ & Hl). unfold bind.
    erewrite list_check_next_ok by exact Hl. by eapply list_check_prev_ok.
Qed.

Lemma tailq_check_head_eq s h : QMD_TAILQ_CHECK_HEAD h s = check_link (TAILQ_FIRST h) (SFirst h) s.
Proof. unfold QMD_TAILQ_CHECK_HEAD, TAILQ_EMPTY, check_link, bind, ret. by destruct (TAILQ_FIRST h s) as [[]|]. Qed.
Lemma tailq_check_head_ok s h xs :
  chain (lnk s) (SFirst h) xs PNull -> backs (prv s) (SFirst h) xs -> QMD_TAILQ_CHECK_HEAD h s = Done (tt, s).
Proof.
  intros Hc Hb. rewrite tailq_check_head_eq. eapply (check_link_ok s (TAILQ_FIRST h)); [by eapply chain_load_first|exact Hb].
Qed.
(** The check of the tail: [tqh_last] points to a link that is NULL. *)
Definition last_null (s : qmem TAILQ_HEAD TAILQ_ENTRY) (h : loc) : Prop :=
  exists sl, lst s h = Some sl /\ lnk s sl = Some PNull.
Lemma tailq_check_tail_iff s h : QMD_TAILQ_CHECK_TAIL h s = Done (tt, s) <-> last_null s h.
Proof.
  unfold QMD_TAILQ_CHECK_TAIL, load_last, load_slot, last_null, bind, mget, mopt.
  destruct (lst s h) as [sl|]; simpl; [|split; [done|by intros (? & ? & _)]].
  unfold panic_if, is_null. destruct (lnk s sl) as [p|] eqn:E; simpl; [|split; [done|intros (? & [= <-] & ?); congruence]].
  case_bool_decide as Hp; simpl; split; try done.
  - intros _. exists sl. by rewrite E, Hp.
  - intros (? & [= <-] & ?); congruence.
Qed.
Lemma tailq_check_tail_ok s h xs : tailq s h xs -> QMD_TAILQ_CHECK_TAIL h s = Done (tt, s).
Proof. intros (Hc & Hl & _). apply tailq_check_tail_iff. eexists. split; [exact Hl|by eapply chain_last]. Qed.
Lemma tailq_check_next_ok s h xs x ys :
  chain (lnk s) (SFirst h) (xs ++ x :: ys) PNull -> backs (prv s) (SFirst h) (xs ++ x :: ys) ->
  QMD_TAILQ_CHECK_NEXT (PLoc x) s = Done (tt, s).
Proof.
  intros Hc [_ [_ Hb]]%backs_app. eapply (check_link_ok s (TAILQ_NEXT (PLoc x))); [by eapply chain_load_next|exact Hb].
Qed.
Lemma tailq_check_prev_ok s h xs x ys :
  chain (lnk s) (SFirst h) (xs ++ x :: ys) PNull -> backs (prv s) (SFirst h) (xs ++ x :: ys) ->
  QMD_TAILQ_CHECK_PREV (PLoc x) s = Done (tt, s).
Proof.
  intros [_ [Hx _]]%chain_app [_ [Hb _]]%backs_app. refine (eq_trans (check_prev_ok s x _ _ Hb Hx) _).
  by rewrite decide_True.
Qed.

#[export] Instance tailq_checked : Checked tailq_checks tailq_op.
Proof.
  intros o s A A' Ho Hr Hq.
  destruct o as [h|h l|h l|h x l|h x l|h|h x|h x|h1 h2|h1 h2]; try done; cbn [q_step tailq_checks] in *;
    apply bind_Some in Hq as (xs & Hx & Hq).
  - destruct (rep_list _ _ Hr _ _ Hx) as (Hc & _ & Hb). by eapply tailq_check_head_ok.
  - eapply tailq_check_tail_ok. by apply (rep_list _ _ Hr).
  - destruct (insertable _ _ _); [|done]. case_bool_decide as Hin; [|done].
    destruct (rep_mid _ _ _ _ _ Hr Hx Hin) as (ys & zs & _ & Hc & _ & Hb). by eapply tailq_check_next_ok.
  - destruct (insertable _ _ _); [|done]. case_bool_decide as Hin; [|done].
    destruct (rep_mid _ _ _ _ _ Hr Hx Hin) as (ys & zs & _ & Hc & _ & Hb). by eapply tailq_check_prev_ok.
  - case_decide as Hin; [|done]. destruct (rep_mid _ _ _ _ _ Hr Hx Hin) as (ys & zs & _ & Hc & _ & Hb). unfold bind.
    erewrite tailq_check_next_ok by done. by eapply tailq_check_prev_ok.
Qed.

(** ** All checks together *)

(** The checks of a head and of the elements behind it, each from where the macros make it. *)
Definition list_accepted s (h : loc) (xs : list loc) : Prop :=
  QMD_LIST_CHECK_HEAD h s = Done (tt, s) /\
  forall x, x ∈ xs -> QMD_LIST_CHECK_NEXT (PLoc x) s = Done (tt, s) /\ QMD_LIST_CHECK_PREV (PLoc x) s = Done (tt, s).
Definition tailq_accepted s (h : loc) (xs : list loc) : Prop :=
  (QMD_TAILQ_CHECK_HEAD h s = Done (tt, s) /\ QMD_TAILQ_CHECK_TAIL h s = Done (tt, s)) /\
  forall x, x ∈ xs -> QMD_TAILQ_CHECK_NEXT (PLoc x) s = Done (tt, s) /\ QMD_TAILQ_CHECK_PREV (PLoc x) s = Done (tt, s).

(** A tail queue, but for the place [tqh_last] points to, where there is only some NULL link. *)
Definition loose_tailq s (h : loc) (xs : list loc) : Prop :=
  chain (lnk s) (SFirst h) xs PNull /\ backs (prv s) (SFirst h) xs /\ last_null s h.

Lemma list_accepted_iff s h xs : chain (lnk s) (SFirst h) xs PNull -> list_accepted s h xs <-> listl s h xs.
Proof.
  intros Hc. split.
  - intros [Hh Hn]. split; [done|]. eapply links_backs; [done|by eapply chain_load_first|exact Hh|]. intros x Hx. by apply Hn.
  - intros Hl. split; [by eapply list_check_head_ok|]. intros x (ys & zs & ->)%list_elem_of_split.
    split; [by eapply list_check_next_ok|by eapply list_check_prev_ok].
Qed.
Lemma tailq_accepted_iff s h xs : chain (lnk s) (SFirst h) xs PNull -> tailq_accepted s h xs <-> loose_tailq s h xs.
Proof.
  intros Hc. unfold tailq_accepted. rewrite tailq_check_tail_iff, tailq_check_head_eq. split.
  - intros [[Hh Hl] Hn]. split; [done|]. split; [|done].
    eapply links_backs; [done|by eapply chain_load_first|exact Hh|]. intros x Hx. by apply Hn.
  - intros (_ & Hb & Hl). rewrite <-tailq_check_head_eq. split; [split; [by eapply tailq_check_head_ok|done]|].
    intros x (ys & zs & ->)%list_elem_of_split. split; [by eapply tailq_check_next_ok|by eapply tailq_check_prev_ok].
Qed.
(** What they leave open is [tqh_last]. *)
Lemma tailq_loose_iff s h xs : tailq s h xs <-> loose_tailq s h xs /\ lst s h = Some (last_slot (SFirst h) xs).
Proof.
  split; [|intros [(Hc & Hb & _) Hl]; by split].
  intros (Hc & Hl & Hb). split; [|done]. split; [done|]. split; [done|]. eexists. split; [exact Hl|by eapply chain_last].
Qed.

(** ** An element that was removed *)

Section stale.
Context {H E : Type} `{HL : !Links H E} `{HP : !Prevs H E}.
Implicit Types s : qmem H E.

(** Its links are still there, but the list goes past it. *)
Lemma stale_panics s h xs x ys :
  chain (lnk s) (SFirst h) (xs ++ ys) PNull -> backs (prv s) (SFirst h) (xs ++ ys) -> (x ∉ xs ++ ys) ->
  lnk s (SNext x) = Some (first_of ys PNull) -> prv s x = Some (last_slot (SFirst h) xs) ->
  (check_link (load_next (PLoc x)) (SNext x);; check_prev (PLoc x)) s = Fault Aborted.
Proof.
  intros Hc Hb Hx Hn Hp. apply chain_app in Hc as [Hc1 Hc2]. apply backs_app in Hb as [_ Hb2].
  assert (load_next (PLoc x) s = Done (first_of ys PNull, s)) as Hl by (apply wp_eq; by eapply load_next_wp).
  unfold bind. rewrite (check_link_eq s _ _ ys Hl) by by eapply chain_prv_live.
  assert (last_slot (SFirst h) xs <> SNext x) as Hne by (apply last_slot_ne; set_solver).
  destruct ys as [|y ys]; simpl points_back.
  - exact (check_prev_ok s x _ _ Hp Hc2).
  - destruct Hb2 as [Hy _]. rewrite bool_decide_false by congruence. done.
Qed.

Lemma agree_kept hs es s s' x : agree hs es s s' -> (x ∉ es) -> lnk s' (SNext x) = lnk s (SNext x) /\ prv s' x = prv s x.
Proof. intros Ha Hx. unfold lnk, prv. by rewrite (ag_elems _ _ _ _ Ha). Qed.
End stale.

Lemma NoDup_gone (x : loc) xs ys : NoDup (xs ++ x :: ys) -> (x ∉ xs ++ ys).
Proof. intros (H1 & H2 & _)%NoDup_mid. set_solver. Qed.

Lemma list_removed_twice s h xs x ys :
  listl s h (xs ++ x :: ys) -> exists s', LIST_REMOVE (PLoc x) s = Done (tt, s') /\ list_checks (QRemove h x) s' = Fault Aborted.
Proof.
  intros Hq. pose proof Hq as [Hc Hb]. destruct (wp_Done _ _ _ (list_remove_kept _ _ _ _ _ Hq)) as ([] & s' & E & [Hc' Hb'] & Ha).
  exists s'. split; [done|]. pose proof (NoDup_gone _ _ _ (chain_NoDup _ _ _ Hc)) as Hx. destruct (agree_kept _ _ _ _ x Ha Hx) as [Hk Hp].
  apply chain_app in Hc as [_ [_ Hc]]. apply backs_app in Hb as [_ [Hb _]].
  apply (stale_panics s' h xs x ys); [done|done|done| |congruence]. rewrite Hk. by eapply chain_first.
Qed.
Lemma tailq_removed_twice s h xs x ys :
  tailq s h (xs ++ x :: ys) -> exists s', TAILQ_REMOVE h (PLoc x) s = Done (tt, s') /\ tailq_checks (QRemove h x) s' = Fault Aborted.
Proof.
  intros Hq. pose proof Hq as (Hc & _ & Hb). destruct (wp_Done _ _ _ (tailq_remove_kept _ _ _ _ _ Hq)) as ([] & s' & E & (Hc' & _ & Hb') & Ha).
  exists s'. split; [done|]. pose proof (NoDup_gone _ _ _ (chain_NoDup _ _ _ Hc)) as Hx. destruct (agree_kept _ _ _ _ x Ha Hx) as [Hk Hp].
  apply chain_app in Hc as [_ [_ Hc]]. apply backs_app in Hb as [_ [Hb _]].
  apply (stale_panics s' h xs x ys); [done|done|done| |congruence]. rewrite Hk. by eapply chain_first.
Qed.

(** ** The theorem *)

(** What the checks of a family are good for, at a memory [s] with the lists [A]. *)
Record debugged {H E} `{HF : Family H E} (run debug : nat -> qop -> M (qmem H E) unit) (ok : qop -> bool)
    (accepted wanted : qmem H E -> loc -> list loc -> Prop) (fuel : nat) (s : qmem H E) (A : lists) : Prop := {
  db_unchanged os A' : forallb ok os = true -> size (q_elems s) <= fuel ->
    q_steps (dom (q_heads s)) (dom (q_elems s)) os A = Some A' -> run_ops (debug fuel) os s = run_ops (run fuel) os s;
  db_accepted h xs : chain (lnk s) (SFirst h) xs PNull -> accepted s h xs <-> wanted s h xs;
  db_twice h xs x : A !! h = Some xs -> x ∈ xs ->
    exists s', debug fuel (QRemove h x) s = Done (tt, s') /\ debug fuel (QRemove h x) s' = Fault Aborted;
}.

(** C30: the checks of a build with INVARIANTS, for the doubly linked lists and the tail queues. They
    never panic in a sequence of operations that the specification permits, and change nothing
    of what it does; an element that is removed a second time makes the macro panic before it
    writes anything. A chain of elements from a head to NULL, with any back pointers, passes all
    the checks of its head and of its elements exactly if it is a well-formed list; in a tail
    queue exactly if it is one but for tqh_last, which may point to any link that is NULL, so
    that a tail queue is well-formed if it passes and tqh_last points to its last link. *)
Theorem queue_debug_correct (fuel : nat) (s : qmem LIST_HEAD LIST_ENTRY) (t : qmem TAILQ_HEAD TAILQ_ENTRY) (A B : lists) :
  rep s A -> rep t B ->
  debugged list_run list_run_debug list_op list_accepted listl fuel s A /\
  debugged tailq_run tailq_run_debug tailq_op tailq_accepted loose_tailq fuel t B /\
  (forall h xs, tailq t h xs <-> loose_tailq t h xs /\ lst t h = Some (last_slot (SFirst h) xs)).
Proof.
  intros Hs Ht. split; [|split; [|intros h xs; apply tailq_loose_iff]]; split.
  - intros os A' Hok Hf Hq. by eapply (run_ops_checked (checks := list_checks) fuel os s A A').
  - intros h xs. apply list_accepted_iff.
  - intros h xs x Hx Hin. destruct (rep_mid _ _ _ _ _ Hs Hx Hin) as (ys & zs & -> & Hl).
    destruct (list_removed_twice _ _ _ _ _ Hl) as (s' & E & E'). exists s'. unfold list_run_debug, bind.
    rewrite E'. split; [|done]. cbn [list_checks]. unfold bind.
    erewrite list_check_next_ok by exact Hl. by erewrite list_check_prev_ok by exact Hl.
  - intros os A' Hok Hf Hq. by eapply (run_ops_checked (checks := tailq_checks) fuel os t B A').
  - intros h xs. apply tailq_accepted_iff.
  - intros h xs x Hx Hin. destruct (rep_mid _ _ _ _ _ Ht Hx Hin) as (ys & zs & -> & Hl).
    destruct (tailq_removed_twice _ _ _ _ _ Hl) as (s' & E & E'). exists s'. unfold tailq_run_debug, bind.
    rewrite E'. split; [|done]. cbn [tailq_checks]. unfold bind. destruct Hl as (Hc & _ & Hb).
    erewrite tailq_check_next_ok by done. by erewrite tailq_check_prev_ok by done.
Qed.

(** A head with its static initialiser is an empty list. *)
Lemma list_initialized s h : q_heads s !! h = Some LIST_HEAD_INITIALIZER -> listl s h [].
Proof. intros Hh. split; [|done]. simpl. unfold lnk. by rewrite Hh. Qed.
Lemma tailq_initialized s h : q_heads s !! h = Some (TAILQ_HEAD_INITIALIZER h) -> tailq s h [].
Proof. intros Hh. split; [|split; [|done]]; simpl; unfold lnk, lst; by rewrite Hh. Qed.
Lemma stailq_initialized s h : q_heads s !! h = Some (STAILQ_HEAD_INITIALIZER h) -> stailq s h [].
Proof. intros Hh. split; simpl; unfold lnk, lst; by rewrite Hh. Qed.
Lemma slist_initialized {A} `{!SList.SListEntry A} (s : qmem ptr A) h :
  q_heads s !! h = Some SLIST_HEAD_INITIALIZER -> slistq s h [].
Proof. intros Hh. by exists PNull. Qed.

(** *** Witness: two elements, of which the first is removed twice *)

Definition two_elements : list qop := [QInit 1; QInsertHead 1 1; QInsertHead 1 2]%positive.
Definition debug_list : qmem LIST_HEAD LIST_ENTRY :=
  match run_ops (list_run 4) two_elements sample_lists with Done (_, s) => s | Fault _ => sample_lists end.
Definition debug_tailq : qmem TAILQ_HEAD TAILQ_ENTRY :=
  match run_ops (tailq_run 4) two_elements sample_tailqs with Done (_, s) => s | Fault _ => sample_tailqs end.
Lemma debug_list_rep : rep debug_list {[1%positive := [2; 1]%positive]}.
Proof.
  assert (wp (run_ops (list_run 4) two_elements) (fun _ s' => rep s' {[1%positive := [2; 1]%positive]} /\ same_dom sample_lists s') sample_lists) as H.
  { apply (run_ops_rep 4 two_elements sample_lists ∅); [apply rep_empty|reflexivity|vm_compute; lia|vm_compute; reflexivity]. }
  exact (proj1 H).
Qed.
Lemma debug_tailq_rep : rep debug_tailq {[1%positive := [2; 1]%positive]}.
Proof.
  assert (wp (run_ops (tailq_run 4) two_elements) (fun _ s' => rep s' {[1%positive := [2; 1]%positive]} /\ same_dom sample_tailqs s') sample_tailqs) as H.
  { apply (run_ops_rep 4 two_elements sample_tailqs ∅); [apply rep_empty|reflexivity|vm_compute; lia|vm_compute; reflexivity]. }
  exact (proj1 H).
Qed.

(** A tail queue that passes every check although its [tqh_last] points to the link of the
    element 2, which is not in it: the macro that inserts at the tail goes on, and the element 3 it
    inserts is not in the queue afterwards. *)
Definition stale_tailq : qmem TAILQ_HEAD TAILQ_ENTRY :=
  QMem {[1%positive := TailqHead (PLoc 1) (SNext 2)]}
       {[1%positive := TailqEntry PNull (SFirst 1); 2%positive := TailqEntry PNull (SNext 1);
         3%positive := TailqEntry PNull (SNext 1)]}.
Example stale_last_accepted :
  tailq_accepted stale_tailq 1 [1%positive] /\ ~ tailq stale_tailq 1 [1%positive] /\
  exists t, tailq_run_debug 4 (QInsertTail 1 3) stale_tailq = Done (tt, t) /\
            chain (lnk t) (SFirst 1) [1%positive] PNull.
Proof.
  assert (chain (lnk stale_tailq) (SFirst 1) [1%positive] PNull) as Hc by (vm_compute; auto).
  split; [apply tailq_accepted_iff; [done|]|split].
  - split; [done|]. split; [by split|]. by exists (SNext 2).
  - by intros (_ & Hl & _).
  - eexists. split; [reflexivity|]. vm_compute. auto.
Qed.

Lemma queue_debug_correct_witness :
  (exists s', list_run_debug 4 (QRemove 1 1) debug_list = Done (tt, s') /\ list_run_debug 4 (QRemove 1 1) s' = Fault Aborted) /\
  exists t', tailq_run_debug 4 (QRemove 1 2) debug_tailq = Done (tt, t') /\ tailq_run_debug 4 (QRemove 1 2) t' = Fault Aborted.
Proof.
  destruct (queue_debug_correct 4 debug_list debug_tailq _ _ debug_list_rep debug_tailq_rep) as (H1 & H2 & _). split.
  - apply (db_twice _ _ _ _ _ _ _ _ H1 1%positive [2; 1]%positive); [reflexivity|]. by right; left.
  - apply (db_twice _ _ _ _ _ _ _ _ H2 1%positive [2; 1]%positive); [reflexivity|]. by left.
Defined.
