(* ===== verification/ConnectionManager.v ===== *)
(** The connection manager ([server/src/connection_manager.c], built with
    [USE_AESD_CHAR_DEVICE] as the Makefile does).

    The [server] state adds to the process the [connection_ctx_t] objects, the
    [connection_manager_t] objects and the threads. [thread_routine] is written as the
    steps of a machine, [thread_step], whose program counter names the places
    of the function; running the steps of one thread to the end is the function,
    and interleaving the steps of several threads is the concurrent server. *)

From S2P Require Import Prelude CMonad KHeap Libc DeviceSpec FileDev Process TcpConnection SList.
Local Open Scope Z_scope.
Local Open Scope cmonad_scope.

(** [connection_ctx_t] and [connection_manager_t]; the mutex is its locked flag. *)
Record connection_ctx := ConnectionCtx {
  ctx_manager : ptr;
  ctx_connection : ptr;
  ctx_thread : Z;
  ctx_nodes : ptr;
}.
Record connection_manager := ConnectionManager {
  cm_filename : ptr;
  cm_file_mutex : bool;
  cm_close_connections : bool;
  cm_connection_ctx_list : ptr;
}.

#[export] Instance ctx_slist_entry : SListEntry connection_ctx.
Proof.
  refine (Build_SListEntry _ ctx_nodes
    (fun p x => ConnectionCtx (ctx_manager x) (ctx_connection x) (ctx_thread x) p) _ _); done.
Defined.

(** Where a thread is in [thread_routine], with the local variables in use there. *)
Inductive thread_pc :=
  | T_Start                         (** line 174 *)
  | T_While                         (** the loop condition *)
  | T_Receive                       (** [tcp_connection_receive_message] *)
  | T_Open (message : ptr)          (** [fopen] *)
  | T_Lock (fd : Z) (message : ptr)
  | T_Handle (fd : Z) (message : ptr)
  | T_Send (fd : Z) (message : ptr) (** a round of [tcp_connection_send_file] *)
  | T_Unlock (fd : Z) (message : ptr)
  | T_Close (fd : Z) (message : ptr)
  | T_Exit                          (** after the loop *)
  | T_Done.

#[export] Instance thread_pc_eq_dec : EqDecision thread_pc.
Proof. solve_decision. Defined.

(** A thread: its argument, the local variable [connection], and where it is. *)
Record thread := Thread { th_ctx : ptr; th_connection : ptr; th_pc : thread_pc }.

Record server `{FD : FileDev} := Server {
  sv_proc : proc;
  sv_ctxs : gmap loc connection_ctx;
  sv_managers : gmap loc connection_manager;
  sv_threads : gmap Z thread;
}.

(** [pthread_create]: the identifier of a new thread, or an error. *)
Class Pthreads := pthread_new : gset Z -> option Z.
Class PthreadsLaws (P : Pthreads) : Prop := {
  pthread_new_fresh ts t : pthread_new ts = Some t -> t ∉ ts;
}.

Definition IOC_PREFIX : bytes := str "AESDCHAR_IOCSEEKTO:".

(** [message] is the string at the pointer. *)
Definition decode_ioctl_command (message : bytes) : option aesd_seekto :=
  if strncmp_eq message IOC_PREFIX (length IOC_PREFIX) then
    match scan_u_u (drop (length IOC_PREFIX) message) with
    | Some (a, b) => Some (AesdSeekto a b)
    | None => None
    end
  else None.

Section connection_manager.
Context `{FD : FileDev} {L : Libc} {N : Sockets} {St : Stdio} {P : Pthreads}.

Definition set_proc (p : proc) (s : server) : server :=
  Server _ p (sv_ctxs s) (sv_managers s) (sv_threads s).
Definition set_ctxs (c : gmap loc connection_ctx) (s : server) : server :=
  Server _ (sv_proc s) c (sv_managers s) (sv_threads s).
Definition set_managers (m : gmap loc connection_manager) (s : server) : server :=
  Server _ (sv_proc s) (sv_ctxs s) m (sv_threads s).
Definition set_threads (t : gmap Z thread) (s : server) : server :=
  Server _ (sv_proc s) (sv_ctxs s) (sv_managers s) t.

Definition on_proc {A} (m : M proc A) : M server A := fun s =>
  match m (sv_proc s) with
  | Done (a, p) => Done (a, set_proc p s)
  | Fault f => Fault f
  end.

Definition get_ctx (p : ptr) : M server connection_ctx :=
  match p with
  | PLoc l => let! s := mget in mopt BadAccess (sv_ctxs s !! l)
  | _ => mfault BadAccess
  end.
Definition set_ctx (p : ptr) (x : connection_ctx) : M server unit :=
  match p with
  | PLoc l => mmodify (fun s => set_ctxs (<[l := x]> (sv_ctxs s)) s)
  | _ => mfault BadAccess
  end.
Definition get_manager (p : ptr) : M server connection_manager :=
  match p with
  | PLoc l => let! s := mget in mopt BadAccess (sv_managers s !! l)
  | _ => mfault BadAccess
  end.
Definition set_manager (p : ptr) (m : connection_manager) : M server unit :=
  match p with
  | PLoc l => mmodify (fun s => set_managers (<[l := m]> (sv_managers s)) s)
  | _ => mfault BadAccess
  end.

(** *** Messages *)

Definition handle_message (fd : Z) (message : ptr) : M proc Z :=
  let! m := do_string message in
  match decode_ioctl_command m with
  | Some seekto => do_ioctl_seekto fd seekto
  | None =>
      let! r := do_fprintf fd (m ++ [NL]) in
      let '(retval, buffered) := r in
      do_fflush fd buffered;;
      ret retval
  end.

(** *** Threads *)

Definition pthread_mutex_lock (manager : ptr) : M server unit :=
  let! m := get_manager manager in
  if cm_file_mutex m then mfault Blocked
  else set_manager manager (ConnectionManager (cm_filename m) true (cm_close_connections m)
                              (cm_connection_ctx_list m)).
Definition pthread_mutex_unlock (manager : ptr) : M server unit :=
  let! m := get_manager manager in
  if cm_file_mutex m
  then set_manager manager (ConnectionManager (cm_filename m) false (cm_close_connections m)
                              (cm_connection_ctx_list m))
  else mfault LockFault.

(** What a thread does from one place of [thread_routine] to the next. *)
Definition thread_step (ctx connection : ptr) (pc : thread_pc) : M server thread_pc :=
  let! x := get_ctx ctx in
  match pc with
  | T_Start => ret T_While
  | T_While =>
      let! is_open := on_proc (tcp_connection_is_open connection) in
      if is_open then
        let! m := get_manager (ctx_manager x) in
        ret (if cm_close_connections m then T_Exit else T_Receive)
      else ret T_Exit
  | T_Receive =>
      let! r := on_proc (tcp_connection_receive_message connection NL) in
      let '(ok, message) := r in
      ret (if (ok : bool) then T_Open message else T_While)
  | T_Open message =>
      let! m := get_manager (ctx_manager x) in
      let! _ := on_proc (do_string (cm_filename m)) in
      let! fd := on_proc do_fopen in
      ret (match fd with Some fd => T_Lock fd message | None => T_While end)
  | T_Lock fd message =>
      pthread_mutex_lock (ctx_manager x);; ret (T_Handle fd message)
  | T_Handle fd message =>
      let! r := on_proc (handle_message fd message) in
      ret (if 0 <=? r then T_Send fd message else T_Unlock fd message)
  | T_Send fd message =>
      let! r := on_proc (send_file_round connection fd) in
      ret (match r with None => T_Send fd message | Some _ => T_Unlock fd message end)
  | T_Unlock fd message =>
      pthread_mutex_unlock (ctx_manager x);; ret (T_Close fd message)
  | T_Close fd message =>
      on_proc (do_free message);; on_proc (do_fclose fd);; ret T_While
  | T_Exit =>
      let! c := on_proc (get_conn (ctx_connection x)) in
      let! _ := on_proc (do_string (c_client_address c)) in
      on_proc (tcp_connection_destroy (ctx_connection x));;
      set_ctx ctx (ConnectionCtx (ctx_manager x) PNull (ctx_thread x) (ctx_nodes x));;
      ret T_Done
  | T_Done => mfault Blocked
  end.

(** The first statement reads [connection] from the argument. *)
Definition thread_connection (ctx connection : ptr) (pc : thread_pc) : M server ptr :=
  match pc with
  | T_Start => let! x := get_ctx ctx in ret (ctx_connection x)
  | _ => ret connection
  end.

(** [fuel] steps of one thread, or fewer if it ends. *)
Fixpoint thread_run (fuel : nat) (ctx connection : ptr) (pc : thread_pc) : M server unit :=
  match pc with
  | T_Done => ret tt
  | _ =>
      match fuel with
      | O => mfault OutOfFuel
      | S fuel =>
          let! connection' := thread_connection ctx connection pc in
          let! pc' := thread_step ctx connection' pc in
          thread_run fuel ctx connection' pc'
      end
  end.
Definition thread_routine (fuel : nat) (ctx : ptr) : M server unit := thread_run fuel ctx PNull T_Start.

(** One step of the thread [tid] of the server. *)
Definition run_thread (tid : Z) : M server unit :=
  let! s := mget in
  let! t := mopt BadAccess (sv_threads s !! tid) in
  let! connection := thread_connection (th_ctx t) (th_connection t) (th_pc t) in
  let! pc := thread_step (th_ctx t) connection (th_pc t) in
  mmodify (fun s => set_threads (<[tid := Thread (th_ctx t) connection pc]> (sv_threads s)) s).

(** Bytes, the end of the stream or an error arrive on a socket. *)
Definition arrive (fd : Z) (evs : list recv_event) (s : server) : server :=
  set_proc (set_in (<[fd := in_of (sv_proc s) fd ++ evs]> (p_in (sv_proc s))) (sv_proc s)) s.

(** *** The manager's life *)

Definition malloc_manager : M server ptr :=
  let! s := mget in
  match malloc (sv_managers s) 64 with
  | Some l =>
      mput (set_managers (<[l := ConnectionManager PNull false false PNull]> (sv_managers s)) s);;
      ret (PLoc l)
  | None => ret PNull
  end.

(** Neither allocation is checked: a NULL is dereferenced. *)
Definition connection_manager_create (filename : bytes) : M server ptr :=
  let! manager := malloc_manager in
  let! m := get_manager manager in
  let! name := on_proc (do_malloc (zlen filename + 1)) in
  set_manager manager (ConnectionManager name (cm_file_mutex m) (cm_close_connections m)
                         (cm_connection_ctx_list m));;
  on_proc (do_store name 0 (filename ++ [NUL]));;
  set_manager manager (ConnectionManager name false false SLIST_INIT);;
  ret manager.

Definition pthread_join (tid : Z) : M server unit :=
  let! s := mget in
  let! t := mopt BadAccess (sv_threads s !! tid) in
  match th_pc t with
  | T_Done => mput (set_threads (delete tid (sv_threads s)) s)
  | _ => mfault Blocked
  end.
Definition free_ctx (p : ptr) : M server unit :=
  match p with
  | PLoc l =>
      let! s := mget in
      let! _ := mopt BadFree (sv_ctxs s !! l) in
      mput (set_ctxs (delete l (sv_ctxs s)) s)
  | PNull => ret tt
  | PZero => mfault BadFree
  end.
Definition free_manager (p : ptr) : M server unit :=
  match p with
  | PLoc l =>
      let! s := mget in
      let! _ := mopt BadFree (sv_managers s !! l) in
      mput (set_managers (delete l (sv_managers s)) s)
  | PNull => ret tt
  | PZero => mfault BadFree
  end.

(** Where the main thread is in [connection_manager_destroy]; threads run between its steps. *)
Inductive destroy_pc :=
  | D_Start
  | D_While                (** the loop condition, and [SLIST_FIRST] *)
  | D_Join (ctx : ptr)     (** [pthread_join] *)
  | D_Remove (ctx : ptr)   (** [SLIST_REMOVE_HEAD] and [free] *)
  | D_End                  (** after the loop *)
  | D_Done.

Definition destroy_step (manager : ptr) (pc : destroy_pc) : M server destroy_pc :=
  match pc with
  | D_Start =>
      let! m := get_manager manager in
      set_manager manager (ConnectionManager (cm_filename m) (cm_file_mutex m) true
                             (cm_connection_ctx_list m));;
      ret D_While
  | D_While =>
      let! m := get_manager manager in
      ret (if SLIST_EMPTY (cm_connection_ctx_list m) then D_End
           else D_Join (SLIST_FIRST (cm_connection_ctx_list m)))
  | D_Join ctx =>
      let! x := get_ctx ctx in
      pthread_join (ctx_thread x);; ret (D_Remove ctx)
  | D_Remove ctx =>
      let! m := get_manager manager in
      let! s := mget in
      let! head := mlift (SLIST_REMOVE_HEAD (sv_ctxs s) (cm_connection_ctx_list m)) in
      set_manager manager (ConnectionManager (cm_filename m) (cm_file_mutex m)
                             (cm_close_connections m) head);;
      free_ctx ctx;; ret D_While
  | D_End =>
      let! m := get_manager manager in
      (if cm_file_mutex m then mfault LockFault else ret tt);;
      on_proc (do_free (cm_filename m));;
      set_manager manager (ConnectionManager PNull (cm_file_mutex m) (cm_close_connections m)
                             (cm_connection_ctx_list m));;
      free_manager manager;; ret D_Done
  | D_Done => mfault Blocked
  end.

(** The steps one after the other. *)
Fixpoint destroy_run (fuel : nat) (manager : ptr) (pc : destroy_pc) : M server unit :=
  match pc with
  | D_Done => ret tt
  | _ =>
      match fuel with
      | O => mfault OutOfFuel
      | S fuel => let! pc' := destroy_step manager pc in destroy_run fuel manager pc'
      end
  end.
(** Each of the contexts takes three steps. *)
Definition connection_manager_destroy (manager : ptr) : M server unit :=
  if is_null manager then ret tt
  else let! s := mget in destroy_run (3 * size (sv_ctxs s) + 3)%nat manager D_Start.

Definition malloc_ctx : M server ptr :=
  let! s := mget in
  match malloc (sv_ctxs s) 32 with
  | Some l => mput (set_ctxs (<[l := ConnectionCtx PNull PNull 0 PNull]> (sv_ctxs s)) s);; ret (PLoc l)
  | None => ret PNull
  end.

(** The new thread may run before the caller goes on: it reads only the two fields set
    before [pthread_create]. *)
Definition connection_manager_register_connection (manager connection : ptr) : M server bool :=
  let! ctx := malloc_ctx in
  let! x := get_ctx ctx in
  set_ctx ctx (ConnectionCtx (ctx_manager x) connection (ctx_thread x) (ctx_nodes x));;
  set_ctx ctx (ConnectionCtx manager connection (ctx_thread x) (ctx_nodes x));;
  let! s := mget in
  match pthread_new (dom (sv_threads s)) with
  | Some tid =>
      mput (set_threads (<[tid := Thread ctx PNull T_Start]> (sv_threads s)) s);;
      set_ctx ctx (ConnectionCtx manager connection tid (ctx_nodes x));;
      let! m := get_manager manager in
      let! s := mget in
      let! r := mlift (SLIST_INSERT_HEAD (sv_ctxs s) (cm_connection_ctx_list m) ctx) in
      let '(ctxs, head) := r in
      mmodify (set_ctxs ctxs);;
      set_manager manager (ConnectionManager (cm_filename m) (cm_file_mutex m)
                             (cm_close_connections m) head);;
      ret true
  | None => ret false
  end.
End connection_manager.

#[global] Arguments get_ctx : simpl never.
#[global] Arguments set_ctx : simpl never.
#[global] Arguments get_manager : simpl never.
#[global] Arguments set_manager : simpl never.
