(* ===== verification/ServerSpec.v ===== *)
(** What the server promises a client, without threads, sockets or buffers.

    A client sends lines. The line [m] either is a seek command, which is answered with
    the contents of the device from that place on, or is stored with its
    newline and answered with the whole contents. [serve_all] does so for every line
    of a session. *)

From S2P Require Import Prelude CMonad KHeap Libc DeviceSpec FileDev SList ConnectionManager.
Local Open Scope Z_scope.

(** The device and the answer after the line [m], a C string without its newline. *)
Definition serve (a : dstate) (m : bytes) : dstate * bytes :=
  match decode_ioctl_command m with
  | Some arg =>
      (a, match d_seek a (write_cmd arg) (write_cmd_offset arg) with
          | Some pos => drop (Z.to_nat pos) (d_content a)
          | None => []
          end)
  | None => let a' := d_write a (m ++ [NL]) in (a', d_content a')
  end.

(** A whole session: a received line is cut at its first NUL. *)
Fixpoint serve_all (a : dstate) (lines : list bytes) : dstate * bytes :=
  match lines with
  | [] => (a, [])
  | m :: lines =>
      let '(a', r) := serve a (cstr m) in
      let '(a'', rs) := serve_all a' lines in
      (a'', r ++ rs)
  end.

(** The device has room for the line, behind what is pending. *)
Definition line_fits (mx : Z) (a : dstate) (m : bytes) : Prop :=
  zlen (pending a ++ cstr m ++ [NL]) <= mx.
Fixpoint lines_fit (mx : Z) (a : dstate) (lines : list bytes) : Prop :=
  match lines with
  | [] => True
  | m :: lines => line_fits mx a m /\ lines_fit mx (fst (serve a (cstr m))) lines
  end.

(** *** Writing in chunks *)

Lemma ends_in_newline_in bs : ends_in_newline bs = true -> NL ∈ bs.
Proof.
  unfold ends_in_newline. rewrite bool_decide_eq_true. intros [k ->]%last_Some. set_solver.
Qed.

(** However a line is cut into writes, the device sees one line. *)
Lemma foldl_d_write cs a m :
  Forall (fun c => c <> []) cs -> concat cs = m ++ [NL] -> (NL ∉ m) -> (ends_in_newline (pending a) = false) ->
  foldl d_write a cs = d_write a (m ++ [NL]).
Proof.
  revert a m. induction cs as [|c cs IH]; intros a m HF Hc Hm Ha; simpl in *; [by destruct m|].
  apply Forall_cons in HF as [Hne HF]. destruct cs as [|c2 cs].
  - simpl in *. rewrite app_nil_r in Hc. by rewrite Hc.
  - assert (exists m', m = c ++ m' /\ concat (c2 :: cs) = m' ++ [NL]) as (m' & -> & Hc').
    { destruct (concat (c2 :: cs)) as [|x k] eqn:E using rev_ind.
      - apply Forall_cons in HF as [Hne2 _]. destruct c2; [done|]. simpl in E. done.
      - rewrite app_assoc in Hc. apply app_inj_tail in Hc as [<- ->]. by exists k. }
    assert (ends_in_newline (pending a ++ c) = false) as Hnl.
    { rewrite ends_in_newline_app by done. apply not_true_is_false. intros H%ends_in_newline_in. set_solver. }
    rewrite (IH _ m'); [|done|done|set_solver|unfold d_write; by rewrite Hnl].
    unfold d_write. rewrite Hnl. simpl. by rewrite !app_assoc.
Qed.

Lemma serve_seek_or_write a m :
  (exists arg, decode_ioctl_command m = Some arg) \/
  decode_ioctl_command m = None /\ serve a m = (d_write a (m ++ [NL]), d_content (d_write a (m ++ [NL]))).
Proof. unfold serve. destruct (decode_ioctl_command m); [left|right]; eauto. Qed.

Lemma scan_u_range bs n rest : scan_u bs = Some (n, rest) -> 0 <= n < 2 ^ 32.
Proof.
  unfold scan_u. destruct (scan_sign _) as [neg [|c l]]; [done|]. destruct (isdigit c); [|done].
  destruct (scan_digits 0 (c :: l)). intros [= <- _]. apply u32_range.
Qed.

(** The decoded numbers are 32-bit. *)
Lemma decode_range m arg : decode_ioctl_command m = Some arg ->
  0 <= write_cmd arg < 2 ^ 32 /\ 0 <= write_cmd_offset arg < 2 ^ 32.
Proof.
  unfold decode_ioctl_command, scan_u_u. destruct (strncmp_eq _ _ _); [|done].
  destruct (scan_u (drop _ m)) as [[x r]|] eqn:E1; [|done].
  destruct (scan_comma r) as [r'|]; [|done].
  destruct (scan_u r') as [[y r2]|] eqn:E2; [|done].
  intros [= <-]. split; by eapply scan_u_range.
Qed.
