(* ===== verification/HandleMessage.v ===== *)
(** What [handle_message] does to the device, over the device's interface. *)

From S2P Require Import Prelude CMonad KHeap Libc DeviceSpec FileDev Process TcpConnection SList ConnectionManager ServerSpec.
Local Open Scope Z_scope.
Local Open Scope cmonad_scope.

Lemma pending_d_write a c : zlen (pending (d_write a c)) <= zlen (pending a) + zlen c.
Proof.
  unfold d_write. destruct (ends_in_newline _); simpl; rewrite ?zlen_app, ?zlen_nil; [|lia].
  pose proof (zlen_nonneg (pending a)). pose proof (zlen_nonneg c). lia.
Qed.

Lemma pending_foldl cs a : zlen (pending (foldl d_write a cs)) <= zlen (pending a) + zlen (concat cs).
Proof.
  revert a. induction cs as [|c cs IH]; intros a; simpl; [rewrite zlen_nil; lia|].
  pose proof (IH (d_write a c)). pose proof (pending_d_write a c). rewrite zlen_app. lia.
Qed.

Section handle.
Context `{FD : FileDev} {L : Libc} {N : Sockets} {St : Stdio} {P : Pthreads}.
Context {FDL : FileDevLaws FD} {StL : StdioLaws St}.

Lemma set_dev_set_dev d d' s : set_dev d (set_dev d' s) = set_dev d s.
Proof. done. Qed.

(** Writes that fit are all accepted. *)
Lemma write_chunks_wp fd cs : forall s a ps Q,
  dev_reliable FD FDL -> dev_is (p_dev s) a ps -> is_Some (ps !! fd) ->
  Forall (fun c => c <> []) cs -> zlen (pending a) + zlen (concat cs) <= dev_max ->
  (forall d, dev_is d (foldl d_write a cs) ps -> Q 0 (set_dev d s)) ->
  wp (write_chunks fd cs) Q s.
Proof.
  induction cs as [|c cs IH]; intros s a ps Q Hr Hd Hfd HF Hlen HQ; simpl.
  - wp_steps. replace s with (set_dev (p_dev s) s) by by destruct s. by apply HQ.
  - apply Forall_cons in HF as [Hc HF]. simpl in Hlen. rewrite zlen_app in Hlen.
    pose proof (zlen_nonneg (concat cs)). pose proof (zlen_nonneg (pending a)). pose proof (zlen_nonneg c).
    pose proof dev_max_small as Hmx. wp_steps.
    pose proof (reliable_write _ _ Hr (p_dev s) a ps fd c Hd Hfd Hc) as Hok.
    rewrite zlen_app in Hok. specialize (Hok ltac:(lia)).
    destruct (dev_write_spec (p_dev s) a ps fd c Hd Hfd Hc) as [[? _]|[Hn Hd']]; [lia|].
    destruct (dev_write fd c (p_dev s)) as [r d]. simpl in *. wp_steps.
    rewrite (proj2 (Z.ltb_ge _ _)) by lia. eapply (IH _ (d_write a c)); [done..| |done].
    pose proof (pending_d_write a c). lia.
Qed.

(** *** The two kinds of message *)

Lemma do_string_wp s p m Q : read_cstr (p_heap s) p = Done m -> Q m s -> wp (do_string p) Q s.
Proof. intros Hm HQ. unfold do_string. wp_steps. by apply (wp_lift _ m). Qed.

Lemma handle_seek_wp s fd p m arg a ps pos Q :
  read_cstr (p_heap s) p = Done m -> decode_ioctl_command m = Some arg ->
  dev_is (p_dev s) a ps -> ps !! fd = Some pos ->
  (forall r d, match d_seek a (write_cmd arg) (write_cmd_offset arg) with
               | Some pos' => r = 0 /\ dev_is d a (<[fd := pos']> ps)
               | None => r < 0 /\ dev_is d a ps
               end -> Q r (set_dev d s)) ->
  wp (handle_message fd p) Q s.
Proof.
  intros Hm Harg Hd Hfd HQ. unfold handle_message. wp_steps. eapply do_string_wp; [done|].
  rewrite Harg. unfold do_ioctl_seekto. wp_steps.
  destruct (decode_range m arg Harg) as [H1 H2].
  pose proof (dev_seekto_spec (p_dev s) a ps fd pos arg Hd Hfd H1 H2) as H.
  destruct (dev_seekto fd arg (p_dev s)) as [r d]. wp_steps. by apply HQ.
Qed.

Lemma handle_write_wp s fd p m a ps Q :
  dev_reliable FD FDL ->
  read_cstr (p_heap s) p = Done m -> (NL ∉ m) -> decode_ioctl_command m = None ->
  dev_is (p_dev s) a ps -> is_Some (ps !! fd) -> line_fits dev_max a m -> cstr m = m ->
  (forall d, dev_is d (d_write a (m ++ [NL])) ps -> Q (zlen (m ++ [NL])) (set_dev d s)) ->
  wp (handle_message fd p) Q s.
Proof.
  intros Hr Hm Hnl Harg Hd Hfd Hfit Hcs HQ. unfold handle_message. wp_steps.
  eapply do_string_wp; [done|]. rewrite Harg. wp_steps. unfold line_fits in Hfit. rewrite Hcs in Hfit.
  unfold do_fprintf. pose proof (stdio_concat (m ++ [NL])) as Hcat.
  pose proof (stdio_nonempty (m ++ [NL])) as Hne.
  destruct (stdio_chunks (m ++ [NL])) as [now later]. simpl in *.
  rewrite concat_app in Hcat. pose proof Hne as [Hne1 Hne2]%Forall_app.
  assert (zlen (concat now) + zlen (concat later) = zlen (m ++ [NL])) as Hlen by by rewrite <- Hcat, zlen_app.
  rewrite zlen_app in Hfit. pose proof (zlen_nonneg (concat later)).
  wp_steps. eapply write_chunks_wp; [done..|lia|]. intros d Hd1. simpl. wp_steps.
  unfold do_fflush. wp_steps. eapply (write_chunks_wp _ _ _ (foldl d_write a now)); [done..| |].
  - pose proof (pending_foldl now a). lia.
  - intros d' Hd2. simpl. wp_steps. rewrite set_dev_set_dev. apply HQ.
    rewrite <- foldl_app in Hd2. rewrite (foldl_d_write (now ++ later) a m) in Hd2; [done|done| |done|].
    + by rewrite concat_app.
    + apply (ok_pending _ _ (dev_is_ok _ _ _ Hd)).
Qed.
End handle.
