(* ===== verification/Session.v ===== *)
(** One thread serving its client: from the steps of [thread_routine] to [serve_all].

    [thread_wp ctx c pc Q s] says that the thread, run alone from [pc], ends and that its
    final state satisfies [Q]. [serving s ctx lc lm fd la addr ln x m] collects what the
    thread relies on between two messages. *)

From S2P Require Import Prelude CMonad KHeap Libc DeviceSpec FileDev Process TcpConnection TcpReceive TcpSend SList ConnectionManager ServerSpec HandleMessage.
Local Open Scope Z_scope.
Local Open Scope cmonad_scope.

Section session.
Context `{FD : FileDev} {L : Libc} {N : Sockets} {St : Stdio} {P : Pthreads}.

Lemma wp_on_proc {A} (m : M proc A) Q (s : server) :
  wp m (fun a p => Q a (set_proc p s)) (sv_proc s) -> wp (on_proc m) Q s.
Proof. unfold wp, on_proc. by destruct (m (sv_proc s)) as [[]|]. Qed.

Lemma get_ctx_wp s l x Q : sv_ctxs s !! l = Some x -> Q x s -> wp (get_ctx (PLoc l)) Q s.
Proof. intros Hx HQ. unfold get_ctx. wp_steps. by eapply wp_opt. Qed.
Lemma get_manager_wp s l m Q : sv_managers s !! l = Some m -> Q m s -> wp (get_manager (PLoc l)) Q s.
Proof. intros Hx HQ. unfold get_manager. wp_steps. by eapply wp_opt. Qed.

(** *** Running a thread alone *)

Definition thread_wp (ctx c : ptr) (pc : thread_pc) (Q : server -> Prop) (s : server) : Prop :=
  exists n, wp (thread_run n ctx c pc) (fun _ => Q) s.

Lemma thread_wp_done ctx c (Q : server -> Prop) s : Q s -> thread_wp ctx c T_Done Q s.
Proof. intros HQ. by exists O. Qed.

(** Steps compose; this is where [thread_run] is unfolded. *)
Lemma thread_wp_step ctx c pc Q s :
  pc <> T_Start -> pc <> T_Done ->
  wp (thread_step ctx c pc) (fun pc' => thread_wp ctx c pc' Q) s -> thread_wp ctx c pc Q s.
Proof.
  intros Hs Hd H. apply wp_Done in H as (pc' & s' & Hrun & n & Hn). exists (S n).
  destruct pc; try done; simpl thread_run; apply wp_bind; apply wp_ret; apply wp_bind;
    unfold wp; rewrite Hrun; exact Hn.
Qed.

Lemma thread_wp_start ctx c l x (Q : server -> Prop) s :
  ctx = PLoc l -> sv_ctxs s !! l = Some x ->
  thread_wp ctx (ctx_connection x) T_While Q s -> thread_wp ctx c T_Start Q s.
Proof.
  intros -> Hx [n Hn]. exists (S n). simpl thread_run. apply wp_bind. apply wp_bind.
  eapply get_ctx_wp; [done|]. apply wp_ret. apply wp_bind. apply wp_bind.
  eapply get_ctx_wp; [done|]. by apply wp_ret.
Qed.

Lemma thread_run_S n ctx c pc :
  pc <> T_Done ->
  thread_run (S n) ctx c pc =
  bind (thread_connection ctx c pc) (fun c' => bind (thread_step ctx c' pc) (thread_run n ctx c')).
Proof. by destruct pc. Qed.

(** More fuel than needed does not change the result. *)
Lemma thread_run_mono n k ctx c pc s r :
  thread_run n ctx c pc s = Done r -> thread_run (n + k) ctx c pc s = Done r.
Proof.
  revert c pc s. induction n as [|n IH]; intros c pc s.
  { destruct pc; simpl; try done. by destruct k. }
  destruct (decide (pc = T_Done)) as [->|Hpc]; [done|].
  change (S n + k)%nat with (S (n + k)). rewrite !thread_run_S by done. unfold bind.
  destruct (thread_connection ctx c pc s) as [[c' s1]|]; [|done].
  destruct (thread_step ctx c' pc s1) as [[pc' s2]|]; [apply IH|done].
Qed.

Lemma thread_wp_run ctx c pc Q s :
  thread_wp ctx c pc Q s -> exists n s', (forall k, (n <= k)%nat -> thread_run k ctx c pc s = Done (tt, s')) /\ Q s'.
Proof.
  intros [n Hn]. apply wp_Done in Hn as ([] & s' & Hrun & HQ). exists n, s'. split; [|done].
  intros k Hk. replace k with (n + (k - n))%nat by lia. by apply thread_run_mono.
Qed.

(** *** What the thread relies on *)

Context {LL : LibcLaws L} {FDL : FileDevLaws FD} {StL : StdioLaws St}.

Record serving (s : server) (ctx lc lm : loc) (fd : Z) (la : loc) (addr : bytes) : Prop := {
  sg_ctx : exists tid nodes, sv_ctxs s !! ctx = Some (ConnectionCtx (PLoc lm) (PLoc lc) tid nodes);
  sg_manager : exists ln head name, sv_managers s !! lm = Some (ConnectionManager (PLoc ln) false false head) /\
     read_cstr (p_heap (sv_proc s)) (PLoc ln) = Done name;
  sg_conn : conn_open (sv_proc s) lc fd (PLoc la);
  sg_addr : p_heap (sv_proc s) !! la = Some (addr ++ [NUL]);
}.

(** Only memory, connections and open sockets matter to it. *)
Lemma serving_proc s p ctx lc lm fd la addr :
  serving s ctx lc lm fd la addr -> p_heap p = p_heap (sv_proc s) -> p_conns p = p_conns (sv_proc s) ->
  p_fds p = p_fds (sv_proc s) -> serving (set_proc p s) ctx lc lm fd la addr.
Proof.
  intros [Hx Hm [Hc Hf] Ha] Eh Ec Ef. split; simpl; rewrite ?Eh; try done.
  split; simpl; by rewrite ?Ec, ?Ef.
Qed.

Lemma read_cstr_insert_ne h l bs p m :
  h !! l = None -> read_cstr h p = Done m -> read_cstr (<[l := bs]> h) p = Done m.
Proof.
  unfold read_cstr. destruct p as [| |l']; try done. intros Hl.
  destruct (decide (l = l')) as [->|Hne]; [by rewrite Hl|by rewrite lookup_insert_ne].
Qed.

Section message.
Context {s : server} {ctx lc lm : loc} {fd : Z} {la : loc} {addr : bytes}.
Context (Hs : serving s ctx lc lm fd la addr).
Context (Hmem : malloc_succeeds L) (Hnet : net_reliable N) (Hdev : dev_reliable FD FDL).

Lemma while_open_wp Q :
  thread_wp (PLoc ctx) (PLoc lc) T_Receive Q s -> thread_wp (PLoc ctx) (PLoc lc) T_While Q s.
Proof.
  intros HQ. apply thread_wp_step; [done..|]. unfold thread_step. wp_steps.
  destruct (sg_ctx _ _ _ _ _ _ _ Hs) as (tid & nodes & Hx). eapply get_ctx_wp; [done|]. wp_steps.
  apply wp_on_proc. unfold tcp_connection_is_open, get_conn. wp_steps.
  eapply wp_opt; [apply (sg_conn _ _ _ _ _ _ _ Hs)|]. wp_steps. simpl c_is_open. cbn iota. wp_steps.
  destruct (sg_manager _ _ _ _ _ _ _ Hs) as (ln & head & name & Hm & _).
  simpl ctx_manager. eapply get_manager_wp; [done|]. wp_steps. by destruct s.
Qed.

(** The rounds of [tcp_connection_send_file], up to the unlock. *)
Lemma send_rounds_wp n : forall t msg f c fd' a pos st ps Q x,
  sv_ctxs t !! ctx = Some x -> conn_open (sv_proc t) c fd' a ->
  dev_is (p_dev (sv_proc t)) st ps -> ps !! f = Some pos -> 0 <= pos ->
  zlen (drop (Z.to_nat pos) (d_content st)) <= Z.of_nat n ->
  (forall d pos', dev_is d st (<[f := pos']> ps) ->
     thread_wp (PLoc ctx) (PLoc c) (T_Unlock f msg) Q
       (set_proc (send_state (sv_proc t) fd' (drop (Z.to_nat pos) (d_content st)) d) t)) ->
  thread_wp (PLoc ctx) (PLoc c) (T_Send f msg) Q t.
Proof using Hnet.
  induction n as [|n IH]; intros t msg f c fd' a pos st ps Q x Hx Hopen Hd Hf Hpos Hn HQ;
    (apply thread_wp_step; [done..|]); unfold thread_step; wp_steps;
    (eapply get_ctx_wp; [done|]); wp_steps; apply wp_on_proc;
    (eapply send_file_round_wp; [by eapply conn_open_sock|done..|]); intros d bs Hd';
    pose proof (d_read_rest st pos 4096 Hpos) as Hrest; fold bs in Hrest;
    pose proof (zlen_nonneg bs); case_bool_decide as Hbs; wp_steps.
  1, 3: rewrite Hbs; rewrite (d_read_nil st pos 4096) in HQ by (done || lia); by eapply HQ.
  - rewrite Hrest, zlen_app in Hn. pose proof (zlen_pos bs Hbs).
    pose proof (zlen_nonneg (drop (Z.to_nat (pos + zlen bs)) (d_content st))). lia.
  - eapply (IH _ msg f c fd' a (pos + zlen bs) st (<[f := pos + zlen bs]> ps)).
    + done.
    + by apply conn_open_send.
    + exact Hd'.
    + by rewrite lookup_insert_eq.
    + lia.
    + rewrite Hrest, zlen_app in Hn. pose proof (zlen_pos bs Hbs). lia.
    + intros d' pos' Hd2. rewrite insert_insert_eq in Hd2. simpl sv_proc.
      rewrite send_state_app, <- Hrest. by eapply HQ.
Qed.

Lemma unlock_wp t f msg Q x m c :
  sv_ctxs t !! ctx = Some x -> ctx_manager x = PLoc lm -> sv_managers t !! lm = Some m ->
  cm_file_mutex m = true ->
  thread_wp (PLoc ctx) c (T_Close f msg) Q
    (set_managers (<[lm := ConnectionManager (cm_filename m) false (cm_close_connections m)
                            (cm_connection_ctx_list m)]> (sv_managers t)) t) ->
  thread_wp (PLoc ctx) c (T_Unlock f msg) Q t.
Proof.
  intros Hx Hlm Hm Hmut HQ. apply thread_wp_step; [done..|]. unfold thread_step. wp_steps.
  eapply get_ctx_wp; [done|]. wp_steps. rewrite Hlm. unfold pthread_mutex_unlock. wp_steps.
  eapply get_manager_wp; [done|]. rewrite Hmut. unfold set_manager. wp_steps. exact HQ.
Qed.

(** The critical section serves the message as the specification says. *)
Lemma critical_wp t f msg mm a ps Q x m :
  sv_ctxs t !! ctx = Some x -> ctx_manager x = PLoc lm -> sv_managers t !! lm = Some m ->
  cm_file_mutex m = false -> conn_open (sv_proc t) lc fd (PLoc la) ->
  read_cstr (p_heap (sv_proc t)) msg = Done mm -> (NL ∉ mm) -> cstr mm = mm ->
  dev_is (p_dev (sv_proc t)) a ps -> ps !! f = Some 0 -> line_fits dev_max a mm ->
  (forall d pos', dev_is d (fst (serve a mm)) (<[f := pos']> ps) ->
     thread_wp (PLoc ctx) (PLoc lc) (T_Close f msg) Q
       (set_proc (send_state (sv_proc t) fd (snd (serve a mm)) d) t)) ->
  thread_wp (PLoc ctx) (PLoc lc) (T_Lock f msg) Q t.
Proof using Hnet Hdev StL.
  intros Hx Hlm Hm Hmut Hopen Hmsg Hnl Hcs Hd Hf Hfit HQ.
  set (m1 := ConnectionManager (cm_filename m) true (cm_close_connections m) (cm_connection_ctx_list m)).
  set (t1 := set_managers (<[lm := m1]> (sv_managers t)) t).
  assert (forall d pos', dev_is d (fst (serve a mm)) (<[f := pos']> ps) ->
    thread_wp (PLoc ctx) (PLoc lc) (T_Unlock f msg) Q
      (set_proc (send_state (sv_proc t) fd (snd (serve a mm)) d) t1)) as Hun.
  { intros d pos' Hd'. eapply (unlock_wp _ f msg Q x m1); [done|done|apply lookup_insert_eq|done|].
    specialize (HQ d pos' Hd'). unfold set_managers, set_proc in *. simpl in *.
    rewrite insert_insert_eq, insert_id; [exact HQ|]. by rewrite Hm, <- Hmut; destruct m. }
  apply thread_wp_step; [done..|]. unfold thread_step at 1. wp_steps. eapply get_ctx_wp; [done|]. wp_steps.
  rewrite Hlm. unfold pthread_mutex_lock. wp_steps. eapply get_manager_wp; [done|]. rewrite Hmut.
  unfold set_manager. wp_steps. fold m1. fold t1.
  apply thread_wp_step; [done..|]. unfold thread_step at 1. wp_steps. eapply get_ctx_wp; [done|]. wp_steps.
  apply wp_on_proc. change (sv_proc t1) with (sv_proc t). unfold serve in Hun.
  destruct (decode_ioctl_command mm) as [arg|] eqn:Harg; simpl in Hun.
  - eapply handle_seek_wp; [done..|]. intros r d Hr. wp_steps.
    destruct (d_seek a _ _) as [pos'|] eqn:Eseek; destruct Hr as [Hr Hd'].
    + subst r. simpl. assert (0 <= pos') by (eapply d_seek_nonneg, Eseek; apply (decode_range mm), Harg).
      eapply (send_rounds_wp _ (set_proc (set_dev d (sv_proc t)) t1) msg f lc fd (PLoc la) pos' a
                (<[f := pos']> ps));
        [done|exact Hopen|done|apply lookup_insert_eq|done|by apply Z.eq_le_incl|].
      intros d' pos2 Hd2. rewrite insert_insert_eq in Hd2.
      rewrite <- (send_state_nil _ fd). simpl sv_proc. rewrite send_state_app. by eapply Hun.
    + rewrite (proj2 (Z.leb_gt _ _)) by lia. rewrite <- (send_state_nil _ fd). apply (Hun d 0).
      by rewrite insert_id.
  - eapply handle_write_wp; [done..| |done|done|]; [by eexists|].
    intros d Hd'. wp_steps. rewrite (proj2 (Z.leb_le _ _)) by apply zlen_nonneg.
    eapply (send_rounds_wp _ (set_proc (set_dev d (sv_proc t)) t1) msg f lc fd (PLoc la) 0
              (d_write a (mm ++ [NL])) ps);
      [done|exact Hopen|done|done|done|by apply Z.eq_le_incl|].
    intros d' pos2 Hd2. rewrite <- (send_state_nil _ fd). simpl sv_proc. rewrite send_state_app.
    by eapply Hun.
Qed.

(** The process after a message was received, served and cleaned up. *)
Definition served (p : proc) (evs : list recv_event) (resp : bytes) (d : dev) : proc :=
  send_state (set_in (<[fd := evs]> (p_in p)) p) fd resp d.

Lemma cleanup_state p evs l buf resp d1 d2 d3 :
  p_heap p !! l = None ->
  let p1 := send_state (set_dev d1 (recv_state p fd evs l buf (p_heap p))) fd resp d2 in
  p_heap p1 = <[l := buf]> (p_heap p) /\
  set_dev d3 (set_heap (delete l (<[l := buf]> (p_heap p))) p1) = served p evs resp d3.
Proof.
  intros Hl. rewrite delete_insert_id by done.
  unfold served, send_state, add_out, set_dev, set_heap, set_in, recv_state, set_out.
  case_bool_decide; simpl; done.
Qed.

(** Around the critical section: the line is received, the file opened, and in the end the
    buffer is freed and the file closed. *)
Lemma around_critical_wp m evs f d1 Q :
  p_in (sv_proc s) !! fd = Some ((RecvByte <$> m) ++ RecvByte NL :: evs) ->
  (NL ∉ m) -> zlen m < 2 ^ 30 -> dev_fopen (p_dev (sv_proc s)) = Some (f, d1) ->
  (forall l rest, let p1 := set_dev d1 (recv_state (sv_proc s) fd evs l (m ++ NUL :: rest) (p_heap (sv_proc s))) in
     read_cstr (p_heap p1) (PLoc l) = Done (cstr m) -> conn_open p1 lc fd (PLoc la) ->
     (forall d2 resp, thread_wp (PLoc ctx) (PLoc lc) T_While Q (set_proc (served (sv_proc s) evs resp (dev_close f d2)) s) ->
        thread_wp (PLoc ctx) (PLoc lc) (T_Close f (PLoc l)) Q (set_proc (send_state p1 fd resp d2) s)) ->
     thread_wp (PLoc ctx) (PLoc lc) (T_Lock f (PLoc l)) Q (set_proc p1 s)) ->
  thread_wp (PLoc ctx) (PLoc lc) T_While Q s.
Proof using Hs Hmem LL.
  clear Hnet Hdev StL FDL. intros Hin Hnl Hlen Hfo HQ. apply while_open_wp.
  destruct (sg_ctx _ _ _ _ _ _ _ Hs) as (tid & nodes & Hx).
  destruct (sg_manager _ _ _ _ _ _ _ Hs) as (ln & head & name & Hm & Hname).
  pose proof (sg_conn _ _ _ _ _ _ _ Hs) as Hopen.
  apply thread_wp_step; [done..|]. unfold thread_step at 1. wp_steps. eapply get_ctx_wp; [done|]. wp_steps.
  apply wp_on_proc. eapply receive_message_wp; [done..|]. intros l rest Hl. wp_steps. cbn iota.
  specialize (HQ l rest). set (buf := m ++ NUL :: rest) in *. set (p1 := recv_state _ _ _ _ _ _).
  apply thread_wp_step; [done..|]. unfold thread_step at 1. wp_steps. eapply get_ctx_wp; [done|]. wp_steps.
  eapply get_manager_wp; [done|]. wp_steps. apply wp_on_proc. simpl cm_filename.
  eapply do_string_wp; [apply read_cstr_insert_ne, Hname; done|]. wp_steps.
  apply wp_on_proc. unfold do_fopen. wp_steps.
  match goal with |- context [dev_fopen ?d] => change d with (p_dev (sv_proc s)) end. rewrite Hfo. wp_steps.
  apply HQ; [|exact Hopen|].
  - simpl. rewrite lookup_insert_eq, bool_decide_true by (unfold buf; set_solver).
    unfold buf. by rewrite cstr_app_nul.
  - intros d2 resp Hw. destruct (cleanup_state (sv_proc s) evs l buf resp d1 d2 (dev_close f d2) Hl) as [Hh Hfin].
    apply thread_wp_step; [done..|]. unfold thread_step at 1. wp_steps. eapply get_ctx_wp; [done|]. wp_steps.
    apply wp_on_proc. unfold do_free. wp_steps. simpl sv_proc. rewrite Hh.
    eapply wp_opt; [apply lookup_insert_eq|]. wp_steps. apply wp_on_proc. unfold do_fclose. wp_steps.
    simpl sv_proc. rewrite <- Hfin in Hw.
    replace (p_dev (set_heap _ (send_state _ fd _ d2))) with d2; [exact Hw|].
    unfold send_state; by case_bool_decide.
Qed.

(** One line: received, stored or sought, answered; nothing else changes. *)
Lemma serve_message_wp m evs a ps Q :
  p_in (sv_proc s) !! fd = Some ((RecvByte <$> m) ++ RecvByte NL :: evs) ->
  (NL ∉ m) -> zlen m < 2 ^ 30 ->
  dev_is (p_dev (sv_proc s)) a ps -> line_fits dev_max a m ->
  (forall d, dev_is d (fst (serve a (cstr m))) ps ->
     thread_wp (PLoc ctx) (PLoc lc) T_While Q
       (set_proc (served (sv_proc s) evs (snd (serve a (cstr m))) d) s)) ->
  thread_wp (PLoc ctx) (PLoc lc) T_While Q s.
Proof using Hs Hmem Hnet Hdev LL StL.
  intros Hin Hnl Hlen Hd Hfit HQ.
  destruct (reliable_fopen _ _ Hdev (p_dev (sv_proc s)) a ps Hd) as [[f d1] Hfo].
  destruct (dev_fopen_spec (p_dev (sv_proc s)) a ps f d1 Hd Hfo) as [Hfresh Hd1].
  eapply around_critical_wp; [done..|]. intros l rest p1 Hmsg Hopen Hclose.
  destruct (sg_ctx _ _ _ _ _ _ _ Hs) as (tid & nodes & Hx).
  destruct (sg_manager _ _ _ _ _ _ _ Hs) as (ln & head & name & Hm & _).
  eapply (critical_wp _ f (PLoc l) (cstr m) a (<[f := 0]> ps)).
  - exact Hx.
  - done.
  - exact Hm.
  - done.
  - exact Hopen.
  - exact Hmsg.
  - destruct (cstr_prefix m) as [r Hr]. intros Hin'. apply Hnl. rewrite Hr. apply elem_of_app. by left.
  - apply cstr_id, cstr_no_nul.
  - exact Hd1.
  - apply lookup_insert_eq.
  - unfold line_fits in *. by rewrite cstr_id by apply cstr_no_nul.
  - intros d2 pos' Hd2. rewrite insert_insert_eq in Hd2. apply Hclose, HQ.
    pose proof (dev_close_spec d2 _ _ f Hd2) as Hcl. by rewrite delete_insert_eq, delete_id in Hcl.
Qed.

(** The server once the thread has ended with the process [p]. *)
Definition ended (p : proc) : server :=
  set_ctxs (match sv_ctxs s !! ctx with
            | Some x => <[ctx := ConnectionCtx (ctx_manager x) PNull (ctx_thread x) (ctx_nodes x)]> (sv_ctxs s)
            | None => sv_ctxs s
            end)
    (set_proc (set_conns (delete lc (p_conns p)) (set_heap (delete la (p_heap p))
                 (set_fds (p_fds p ∖ {[fd]}) p))) s).

(** The client hangs up: the loop ends and the connection is destroyed. *)
Lemma hang_up_wp pre evs (Q : server -> Prop) :
  p_in (sv_proc s) !! fd = Some ((RecvByte <$> pre) ++ RecvEof :: evs) -> (NL ∉ pre) -> zlen pre < 2 ^ 30 ->
  Q (ended (served (sv_proc s) (RecvEof :: evs) [] (p_dev (sv_proc s)))) ->
  thread_wp (PLoc ctx) (PLoc lc) T_While Q s.
Proof using Hs Hmem LL.
  clear Hnet Hdev StL FDL. intros Hin Hnl Hlen HQ. apply while_open_wp.
  destruct (sg_ctx _ _ _ _ _ _ _ Hs) as (tid & nodes & Hx).
  pose proof (sg_conn _ _ _ _ _ _ _ Hs) as Hopen. pose proof (sg_addr _ _ _ _ _ _ _ Hs) as Ha.
  apply thread_wp_step; [done..|]. unfold thread_step at 1. wp_steps. eapply get_ctx_wp; [done|]. wp_steps.
  apply wp_on_proc. eapply receive_end_wp; [done..|by left|]. wp_steps. cbn iota. simpl closed_by.
  apply thread_wp_step; [done..|]. unfold thread_step at 1. wp_steps. eapply get_ctx_wp; [done|]. wp_steps.
  apply wp_on_proc. unfold tcp_connection_is_open, get_conn. wp_steps.
  eapply wp_opt; [apply lookup_insert_eq|]. wp_steps. simpl c_is_open. cbn iota. wp_steps.
  apply thread_wp_step; [done..|]. unfold thread_step at 1. wp_steps. eapply get_ctx_wp; [done|]. wp_steps.
  apply wp_on_proc. unfold get_conn at 1. wp_steps. simpl ctx_connection.
  eapply wp_opt; [apply lookup_insert_eq|]. wp_steps. apply wp_on_proc.
  eapply (do_string_wp _ _ (cstr addr)).
  { simpl. rewrite Ha, bool_decide_true by set_solver. by rewrite cstr_app_nul. }
  wp_steps. apply wp_on_proc. eapply destroy_wp; [apply lookup_insert_eq|exact Ha|]. wp_steps.
  unfold set_ctx. wp_steps. apply thread_wp_done.
  unfold ended, served, send_state in HQ. rewrite Hx in HQ. simpl in HQ. simpl.
  rewrite delete_insert_eq. exact HQ.
Qed.
End message.

(** *** A whole session *)

Lemma served_served p fd e1 r1 d1 e2 r2 d2 :
  served (fd := fd) (served (fd := fd) p e1 r1 d1) e2 r2 d2 = served (fd := fd) p e2 (r1 ++ r2) d2.
Proof.
  unfold served. rewrite <- (send_state_app _ fd r1 r2 d1 d2).
  unfold send_state, add_out, set_dev, set_in, set_out, out_of.
  repeat case_bool_decide; simpl; by rewrite insert_insert_eq.
Qed.

Lemma served_same p fd e r d :
  p_heap (served (fd := fd) p e r d) = p_heap p /\ p_conns (served (fd := fd) p e r d) = p_conns p /\
  p_fds (served (fd := fd) p e r d) = p_fds p /\ p_dev (served (fd := fd) p e r d) = d /\
  p_in (served (fd := fd) p e r d) = <[fd := e]> (p_in p).
Proof. unfold served, send_state. by case_bool_decide. Qed.

(** What arrives on the socket when the client sends these lines. *)
Definition lines_in (lines : list bytes) : list recv_event :=
  concat ((fun m => (RecvByte <$> m) ++ [RecvByte NL]) <$> lines).

Lemma session_wp lines : forall s ctx lc lm fd la addr pre evs a ps Q,
  serving s ctx lc lm fd la addr -> malloc_succeeds L -> net_reliable N -> dev_reliable FD FDL ->
  p_in (sv_proc s) !! fd = Some (lines_in lines ++ (RecvByte <$> pre) ++ RecvEof :: evs) ->
  Forall (fun m => (NL ∉ m) /\ zlen m < 2 ^ 30) (pre :: lines) ->
  dev_is (p_dev (sv_proc s)) a ps -> lines_fit dev_max a lines ->
  (forall d, dev_is d (fst (serve_all a lines)) ps ->
     Q (ended (s := s) (ctx := ctx) (lc := lc) (fd := fd) (la := la)
          (served (fd := fd) (sv_proc s) (RecvEof :: evs) (snd (serve_all a lines)) d))) ->
  thread_wp (PLoc ctx) (PLoc lc) T_While Q s.
Proof.
  induction lines as [|m lines IH]; intros s ctx lc lm fd la addr pre evs a ps Q Hs Hmem Hnet Hdev Hin HF Hd Hfit HQ.
  - apply Forall_cons in HF as [[Hnl Hlen] _]. eapply (hang_up_wp Hs); [done|exact Hin|done..|].
    by apply HQ.
  - apply Forall_cons in HF as [Hpre HF]. apply Forall_cons in HF as [[Hnl Hlen] HF].
    destruct Hfit as [Hfit1 Hfit2]. simpl in HQ.
    destruct (serve a (cstr m)) as [a1 r1] eqn:E1. destruct (serve_all a1 lines) as [a2 r2] eqn:E2. simpl in HQ.
    eapply (serve_message_wp Hs Hmem Hnet Hdev m (lines_in lines ++ (RecvByte <$> pre) ++ RecvEof :: evs) a ps).
    + rewrite Hin. unfold lines_in. simpl. by rewrite <- !app_assoc.
    + done.
    + done.
    + done.
    + done.
    + rewrite E1. simpl. intros d Hd1.
      set (p1 := served (sv_proc s) _ r1 d). set (t := set_proc p1 s).
      pose proof (served_same (sv_proc s) fd (lines_in lines ++ (RecvByte <$> pre) ++ RecvEof :: evs) r1 d)
        as (H1 & H2 & H3 & H4 & H5). fold p1 in H1, H2, H3, H4, H5.
      eapply (IH t ctx lc lm fd la addr pre evs a1 ps).
      * by eapply serving_proc.
      * done.
      * done.
      * done.
      * change (sv_proc t) with p1. rewrite H5. apply lookup_insert_eq.
      * by constructor.
      * change (sv_proc t) with p1. by rewrite H4.
      * exact Hfit2.
      * rewrite E2. simpl. intros d' Hd2. specialize (HQ d' Hd2).
        unfold p1 in t. subst t. rewrite <- (served_served (sv_proc s) fd (lines_in lines ++ (RecvByte <$> pre) ++ RecvEof :: evs) r1 d) in HQ.
        exact HQ.
Qed.
End session.
