(* ===== verification/PlainFile.v ===== *)
(** The server's file when it is a plain one: the build without [USE_AESD_CHAR_DEVICE].

    [plain_file] is a file on a disk with the descriptors that are open on it, and
    [file_dev] the operations of [FileDev] on it: [fopen] with mode "r+" does not create
    the file, every descriptor has its own offset, a write goes over what is there, and
    the seek command of the driver is not known. The disk's choices are the interface
    [Disk]. [file_serve] says what a line does to such a file, and [file_session_wp]
    that the thread of [ConnectionManager] does it. *)

From S2P Require Import Prelude CMonad KHeap Libc DeviceSpec FileDev Process TcpConnection TcpReceive TcpSend SList ConnectionManager ServerSpec HandleMessage Session.
Local Open Scope Z_scope.
Local Open Scope cmonad_scope.

(** Whether a file opens beside these descriptors, whether one can be created, and whether
    one may have this many bytes. *)
Class Disk := {
  disk_opens : gset Z -> bool;
  disk_creates : bool;
  disk_room : Z -> bool;
}.
Record disk_reliable (D : Disk) : Prop := {
  opens_always fds : disk_opens fds = true;
  creates_always : disk_creates = true;
  room_always n : disk_room n = true;
}.

(** An open descriptor: opened for appending, and its offset. *)
Record file_desc := FileDesc { fl_append : bool; fl_pos : Z }.
Record plain_file := PlainFile { f_content : option bytes; f_fds : gmap Z file_desc }.

(** [bs] at [pos] over the bytes there, behind a gap of zeros if the end is before [pos]. *)
Definition overwrite (c : bytes) (pos : Z) (bs : bytes) : bytes :=
  take (Z.to_nat pos) (c ++ replicate (Z.to_nat pos - length c) NUL) ++ bs ++ drop (Z.to_nat pos + length bs) c.

Section file_dev.
Context {D : Disk}.

(** [open] for reading and writing, and [open] for appending, which creates the file. *)
Definition file_open (d : plain_file) : option (Z * plain_file) :=
  match f_content d with
  | Some c =>
      if disk_opens (dom (f_fds d))
      then Some (next_fd (f_fds d), PlainFile (Some c) (<[next_fd (f_fds d) := FileDesc false 0]> (f_fds d)))
      else None
  | None => None
  end.
Definition file_open_append (d : plain_file) : option (Z * plain_file) :=
  if disk_opens (dom (f_fds d)) && (disk_creates || bool_decide (is_Some (f_content d)))
  then Some (next_fd (f_fds d),
             PlainFile (Some (default [] (f_content d))) (<[next_fd (f_fds d) := FileDesc true 0]> (f_fds d)))
  else None.
Definition file_write (fd : Z) (bs : bytes) (d : plain_file) : Z * plain_file :=
  match f_fds d !! fd, f_content d with
  | Some (FileDesc app pos), Some c =>
      let at_ := if app : bool then zlen c else pos in
      let c' := overwrite c at_ bs in
      if disk_room (zlen c')
      then (zlen bs, PlainFile (Some c') (<[fd := FileDesc app (at_ + zlen bs)]> (f_fds d)))
      else (-28, d)
  | _, _ => (-9, d)
  end.
Definition file_read (fd n : Z) (d : plain_file) : Z * bytes * plain_file :=
  match f_fds d !! fd, f_content d with
  | Some (FileDesc app pos), Some c =>
      let bs := take (Z.to_nat n) (drop (Z.to_nat pos) c) in
      (zlen bs, bs, PlainFile (Some c) (<[fd := FileDesc app (pos + zlen bs)]> (f_fds d)))
  | _, _ => (-9, [], d)
  end.
(** A plain file has no such request: ENOTTY. *)
Definition file_seekto (fd : Z) (arg : aesd_seekto) (d : plain_file) : Z * plain_file := (-25, d).
Definition file_close (fd : Z) (d : plain_file) : plain_file :=
  PlainFile (f_content d) (delete fd (f_fds d)).

#[export] Instance file_dev : FileDev := {|
  dev := plain_file;
  dev_fopen := file_open;
  dev_write := file_write;
  dev_read := file_read;
  dev_seekto := file_seekto;
  dev_close := file_close;
|}.
End file_dev.

(** *** What a line does *)

(** The file and the answer: a seek command is refused; any other line is written over the
    beginning of the file, and answered with what is behind it. *)
Definition file_serve (c m : bytes) : bytes * bytes :=
  match decode_ioctl_command m with
  | Some _ => (c, [])
  | None => let t := m ++ [NL] in (t ++ drop (length t) c, drop (length t) c)
  end.
Fixpoint file_serve_all (c : bytes) (lines : list bytes) : bytes * bytes :=
  match lines with
  | [] => (c, [])
  | m :: lines =>
      let '(c', r) := file_serve c (cstr m) in
      let '(c'', rs) := file_serve_all c' lines in
      (c'', r ++ rs)
  end.

Lemma overwrite_inside c pos bs :
  0 <= pos <= zlen c -> overwrite c pos bs = take (Z.to_nat pos) c ++ bs ++ drop (Z.to_nat pos + length bs) c.
Proof. intros H. unfold zlen in H. unfold overwrite. by rewrite take_app_le by lia. Qed.
Lemma overwrite_app c pos b1 b2 :
  0 <= pos <= zlen c -> overwrite (overwrite c pos b1) (pos + zlen b1) b2 = overwrite c pos (b1 ++ b2).
Proof.
  intros [H0 Hpos]. rewrite !(overwrite_inside c) by done. set (n := Z.to_nat pos). unfold zlen in Hpos.
  assert (length (take n c) = n) as Hn by (rewrite length_take; lia). rewrite overwrite_inside.
  - replace (Z.to_nat (pos + zlen b1)) with (length (take n c ++ b1)) by (rewrite length_app; unfold zlen; lia).
    rewrite (app_assoc (take n c) b1), take_app_length, <- !app_assoc. do 3 f_equal.
    rewrite (app_assoc (take n c) b1), drop_app_ge, drop_drop by lia. f_equal. rewrite !length_app. lia.
  - unfold zlen. rewrite !length_app. lia.
Qed.
Lemma overwrite_start c bs : overwrite c 0 bs = bs ++ drop (length bs) c.
Proof. unfold overwrite. by rewrite Z2Nat.inj_0, take_0. Qed.
Lemma overwrite_end c bs : overwrite c (zlen c) bs = c ++ bs.
Proof.
  unfold overwrite. rewrite zlen_to_nat, Nat.sub_diag. simpl.
  rewrite app_nil_r, firstn_all, drop_ge by lia. by rewrite app_nil_r.
Qed.
Lemma zlen_overwrite c pos bs : 0 <= pos <= zlen c -> pos + zlen bs <= zlen (overwrite c pos bs).
Proof.
  intros H. unfold overwrite, zlen in *. rewrite !length_app, length_take, length_app, length_replicate. lia.
Qed.

(** What a read of [tcp_connection_send_file] gets, and what is left behind it. *)
Lemma file_piece (c : bytes) pos (bs := take 4096 (drop (Z.to_nat pos) c)) : 0 <= pos ->
  drop (Z.to_nat pos) c = bs ++ drop (Z.to_nat (pos + zlen bs)) c /\ (bs = [] -> drop (Z.to_nat pos) c = []).
Proof.
  intros Hpos. pose proof (zlen_nonneg bs). split.
  - unfold bs. rewrite <- (take_drop 4096 (drop (Z.to_nat pos) c)) at 1. f_equal. rewrite drop_drop.
    destruct (decide (4096 <= length (drop (Z.to_nat pos) c))%nat) as [Hle|Hgt].
    + f_equal. unfold zlen. rewrite length_take. lia.
    + rewrite length_drop in Hgt. rewrite !drop_ge; [done| |lia]. unfold zlen. rewrite length_take, length_drop. lia.
  - intros Hbs. apply nil_length_inv. apply (f_equal length) in Hbs. unfold bs in Hbs. rewrite length_take in Hbs.
    change (length (@nil ascii)) with O in Hbs. lia.
Qed.

(** *** The thread *)

Section session.
Context {D : Disk} {L : Libc} {N : Sockets} {St : Stdio} {P : Pthreads}.
Context {StL : StdioLaws St}.

(** All the text gets to the file: at the descriptor's offset, or at the end. *)
Definition write_at (app : bool) (c : bytes) (pos : Z) : Z := if app then zlen c else pos.

Lemma file_chunks_wp cs : forall (s : @proc file_dev) fd app pos c fds Q,
  (forall n, disk_room n = true) -> p_dev s = PlainFile (Some c) fds -> fds !! fd = Some (FileDesc app pos) ->
  0 <= write_at app c pos <= zlen c ->
  (forall pos', (app = false -> pos' = pos + zlen (concat cs)) ->
     Q 0 (set_dev (PlainFile (Some (overwrite c (write_at app c pos) (concat cs))) (<[fd := FileDesc app pos']> fds) : @dev file_dev) s)) ->
  wp (write_chunks fd cs) Q s.
Proof.
  induction cs as [|bs cs IH]; intros s fd app pos c fds Q Hr Hd Hfd Hat HQ; simpl.
  - wp_steps. specialize (HQ pos). rewrite insert_id in HQ by done. simpl in HQ.
    rewrite overwrite_inside in HQ by done. simpl in HQ. rewrite Nat.add_0_r, take_drop, <- Hd in HQ.
    rewrite <- (set_dev_id s). apply HQ. rewrite zlen_nil. lia.
  - wp_steps. unfold file_write. rewrite Hd. simpl. rewrite Hfd. fold (write_at app c pos).
    rewrite Hr. wp_steps. pose proof (zlen_nonneg bs).
    rewrite (proj2 (Z.ltb_ge _ _)) by done. pose proof (zlen_overwrite c _ bs Hat) as Hlen.
    assert (write_at app (overwrite c (write_at app c pos) bs) (write_at app c pos + zlen bs) =
            write_at app c pos + zlen bs) as Eat.
    { destruct app; [|done]. simpl. by rewrite overwrite_end, zlen_app. }
    eapply (IH _ fd app (write_at app c pos + zlen bs)); [done|reflexivity|apply lookup_insert_eq| |]; rewrite Eat; [lia|].
    intros pos' Hpos'. rewrite insert_insert_eq, overwrite_app by done. apply HQ.
    intros ->. rewrite Hpos' by done. simpl. rewrite zlen_app. lia.
Qed.

Lemma file_seek_wp (s : @proc file_dev) fd p m arg Q :
  read_cstr (p_heap s) p = Done m -> decode_ioctl_command m = Some arg -> Q (-25) s ->
  wp (handle_message fd p) Q s.
Proof.
  intros Hm Harg HQ. unfold handle_message. wp_steps. eapply do_string_wp; [done|]. rewrite Harg.
  unfold do_ioctl_seekto. wp_steps. simpl. unfold file_seekto. wp_steps. by rewrite set_dev_id.
Qed.

Lemma file_print_wp (s : @proc file_dev) fd p m pos c fds Q :
  (forall n, disk_room n = true) -> read_cstr (p_heap s) p = Done m -> decode_ioctl_command m = None ->
  p_dev s = PlainFile (Some c) fds -> fds !! fd = Some (FileDesc false pos) -> 0 <= pos <= zlen c ->
  Q (zlen (m ++ [NL])) (set_dev (PlainFile (Some (overwrite c pos (m ++ [NL])))
                         (<[fd := FileDesc false (pos + zlen (m ++ [NL]))]> fds) : @dev file_dev) s) ->
  wp (handle_message fd p) Q s.
Proof.
  intros Hr Hm Harg Hd Hfd Hpos HQ. unfold handle_message. wp_steps.
  eapply do_string_wp; [done|]. rewrite Harg. wp_steps. unfold do_fprintf.
  pose proof (stdio_concat (m ++ [NL])) as Hcat. destruct (stdio_chunks (m ++ [NL])) as [now later].
  simpl in Hcat. rewrite concat_app in Hcat. wp_steps.
  eapply file_chunks_wp; [exact Hr|done..|]. intros pos1 E1. rewrite E1 by done. simpl. wp_steps. unfold do_fflush. wp_steps.
  pose proof (zlen_nonneg (concat now)). pose proof (zlen_overwrite c pos (concat now) Hpos).
  eapply file_chunks_wp; [exact Hr|reflexivity|apply lookup_insert_eq|simpl; lia|]. intros pos2 E2. rewrite E2 by done.
  simpl. wp_steps. rewrite insert_insert_eq, overwrite_app, set_dev_set_dev, Hcat by done.
  by rewrite <- Z.add_assoc, <- zlen_app, Hcat.
Qed.

(** A read of [tcp_connection_send_file], and what it sends. *)
Lemma file_round_wp (s : @proc file_dev) lc fd f pos c fds Q :
  conn_sock s lc fd -> net_reliable N -> p_dev s = PlainFile (Some c) fds -> fds !! f = Some (FileDesc false pos) ->
  (let bs := take 4096 (drop (Z.to_nat pos) c) in
   Q (if bool_decide (bs = []) then Some true else None)
     (send_state s fd bs (PlainFile (Some c) (<[f := FileDesc false (pos + zlen bs)]> fds) : @dev file_dev))) ->
  wp (send_file_round (PLoc lc) f) Q s.
Proof.
  intros Hc Hn Hd Hf HQ. unfold send_file_round, do_read. wp_steps. simpl. unfold file_read. rewrite Hd. simpl. rewrite Hf.
  wp_steps. change (Z.to_nat 4096) with 4096%nat. set (bs := take 4096 (drop (Z.to_nat pos) c)) in *. cbv zeta in HQ.
  case_bool_decide as Hbs.
  - rewrite Hbs in *. simpl. wp_steps. by rewrite <- (send_state_nil s fd).
  - rewrite (proj2 (Z.ltb_lt _ _)) by by apply zlen_pos. wp_steps.
    eapply send_message_ok; [done..|]. wp_steps.
    by replace (send_state (set_dev _ s) fd bs _)
      with (send_state s fd bs (PlainFile (Some c) (<[f := FileDesc false (pos + zlen bs)]> fds) : @dev file_dev))
      by (unfold send_state; by case_bool_decide).
Qed.

(** The rounds send the rest of the file. *)
Lemma file_rounds_wp n : forall (t : @server file_dev) ctx x msg f lc fd a pos c fds Q,
  net_reliable N -> sv_ctxs t !! ctx = Some x -> conn_open (sv_proc t) lc fd a ->
  p_dev (sv_proc t) = PlainFile (Some c) fds -> fds !! f = Some (FileDesc false pos) -> 0 <= pos ->
  (length (drop (Z.to_nat pos) c) <= n)%nat ->
  (forall pos', thread_wp (PLoc ctx) (PLoc lc) (T_Unlock f msg) Q
       (set_proc (send_state (sv_proc t) fd (drop (Z.to_nat pos) c)
                   (PlainFile (Some c) (<[f := FileDesc false pos']> fds) : @dev file_dev)) t)) ->
  thread_wp (PLoc ctx) (PLoc lc) (T_Send f msg) Q t.
Proof.
  induction n as [|n IH]; intros t ctx x msg f lc fd a pos c fds Q Hnet Hx Hopen Hd Hf Hpos Hn HQ;
    (apply thread_wp_step; [done..|]); unfold thread_step; wp_steps; (eapply get_ctx_wp; [done|]); wp_steps;
    apply wp_on_proc; (eapply file_round_wp; [by eapply conn_open_sock|done..|]); cbv zeta.
  { destruct (drop (Z.to_nat pos) c) as [|b rest] eqn:E; [|simpl in Hn; lia]. rewrite take_nil, bool_decide_true by done.
    wp_steps. apply HQ. }
  destruct (file_piece c pos Hpos) as [Hrest Hend]. set (bs := take 4096 (drop (Z.to_nat pos) c)) in *. pose proof (zlen_nonneg bs).
  case_bool_decide as Hbs; wp_steps.
  - rewrite Hbs, Hend in * by done. apply HQ.
  - eapply (IH _ ctx x msg f lc fd a (pos + zlen bs) c (<[f := FileDesc false (pos + zlen bs)]> fds)); [done|done| | | |lia| |].
    + by apply conn_open_send.
    + exact (proj2 (proj2 (proj2 (proj2 (send_state_same (sv_proc t) fd bs
        (PlainFile (Some c) (<[f := FileDesc false (pos + zlen bs)]> fds) : @dev file_dev)))))).
    + by rewrite lookup_insert_eq.
    + rewrite Hrest, length_app in Hn. pose proof (zlen_pos bs Hbs). unfold zlen in *. lia.
    + intros pos'. rewrite insert_insert_eq. simpl sv_proc. rewrite send_state_app, <- Hrest. apply HQ.
Qed.

(** The critical section, with the file just opened. *)
Lemma file_critical_wp (t : @server file_dev) ctx x lm m lc fd a f msg mm c fds Q :
  disk_reliable D -> net_reliable N ->
  sv_ctxs t !! ctx = Some x -> ctx_manager x = PLoc lm -> sv_managers t !! lm = Some m ->
  cm_file_mutex m = false -> conn_open (sv_proc t) lc fd a -> read_cstr (p_heap (sv_proc t)) msg = Done mm ->
  p_dev (sv_proc t) = PlainFile (Some c) fds -> fds !! f = Some (FileDesc false 0) ->
  (forall pos', thread_wp (PLoc ctx) (PLoc lc) (T_Close f msg) Q
     (set_proc (send_state (sv_proc t) fd (snd (file_serve c mm))
        (PlainFile (Some (fst (file_serve c mm))) (<[f := FileDesc false pos']> fds) : @dev file_dev)) t)) ->
  thread_wp (PLoc ctx) (PLoc lc) (T_Lock f msg) Q t.
Proof.
  intros Hr Hnet Hx Hlm Hm Hmut Hopen Hmsg Hd Hf HQ.
  set (m1 := ConnectionManager (cm_filename m) true (cm_close_connections m) (cm_connection_ctx_list m)).
  set (t1 := set_managers (<[lm := m1]> (sv_managers t)) t).
  assert (forall pos', thread_wp (PLoc ctx) (PLoc lc) (T_Unlock f msg) Q
    (set_proc (send_state (sv_proc t) fd (snd (file_serve c mm))
        (PlainFile (Some (fst (file_serve c mm))) (<[f := FileDesc false pos']> fds) : @dev file_dev)) t1)) as Hun.
  { intros pos'. eapply (unlock_wp _ f msg Q x m1); [done|done|apply lookup_insert_eq|done|].
    specialize (HQ pos'). unfold set_managers, set_proc in *. simpl in *.
    rewrite insert_insert_eq, (insert_id (sv_managers t)); [exact HQ|]. by rewrite Hm, <- Hmut; destruct m. }
  apply thread_wp_step; [done..|]. unfold thread_step at 1. wp_steps. eapply get_ctx_wp; [done|]. wp_steps.
  rewrite Hlm. unfold pthread_mutex_lock. wp_steps. eapply get_manager_wp; [done|]. rewrite Hmut.
  unfold set_manager. wp_steps. fold m1. fold t1.
  apply thread_wp_step; [done..|]. unfold thread_step at 1. wp_steps. eapply get_ctx_wp; [done|]. wp_steps.
  apply wp_on_proc. change (sv_proc t1) with (sv_proc t). unfold file_serve in Hun.
  destruct (decode_ioctl_command mm) as [arg|] eqn:Harg; simpl in Hun.
  - eapply file_seek_wp; [done..|]. wp_steps. simpl. specialize (Hun 0). rewrite insert_id, <- Hd in Hun by done.
    by rewrite send_state_nil, set_dev_id in Hun.
  - eapply file_print_wp; [apply room_always, Hr|done..|pose proof (zlen_nonneg c); lia|]. wp_steps.
    rewrite (proj2 (Z.leb_le _ _)) by apply zlen_nonneg. rewrite overwrite_start, Z.add_0_l.
    eapply (file_rounds_wp _ (set_proc (set_dev _ (sv_proc t)) t1) ctx x msg f lc fd a (zlen (mm ++ [NL])));
      [done|done|exact Hopen|reflexivity|apply lookup_insert_eq|apply zlen_nonneg|reflexivity|].
    intros pos'. rewrite insert_insert_eq, zlen_to_nat, drop_app_length. rewrite <- (send_state_nil _ fd).
    simpl sv_proc. rewrite send_state_app. apply Hun.
Qed.

(** A session of one thread over the file. *)
Context {LL : LibcLaws L}.

Lemma file_session_wp lines : forall (s : @server file_dev) ctx lc lm fd la addr pre evs c fds Q,
  serving s ctx lc lm fd la addr -> malloc_succeeds L -> net_reliable N -> disk_reliable D ->
  p_in (sv_proc s) !! fd = Some (lines_in lines ++ (RecvByte <$> pre) ++ RecvEof :: evs) ->
  Forall (fun m => (NL ∉ m) /\ zlen m < 2 ^ 30) (pre :: lines) ->
  p_dev (sv_proc s) = PlainFile (Some c) fds ->
  Q (ended (s := s) (ctx := ctx) (lc := lc) (fd := fd) (la := la)
       (served (fd := fd) (sv_proc s) (RecvEof :: evs) (snd (file_serve_all c lines))
          (PlainFile (Some (fst (file_serve_all c lines))) fds : @dev file_dev))) ->
  thread_wp (PLoc ctx) (PLoc lc) T_While Q s.
Proof.
  induction lines as [|m lines IH]; intros s ctx lc lm fd la addr pre evs c fds Q Hs Hmem Hnet Hr Hin HF Hd HQ.
  - apply Forall_cons in HF as [[Hnl Hlen] _]. eapply (hang_up_wp Hs); [done|exact Hin|done..|].
    simpl in HQ. by rewrite <- Hd in HQ.
  - apply Forall_cons in HF as [Hpre HF]. apply Forall_cons in HF as [[Hnl Hlen] HF]. simpl in HQ.
    destruct (file_serve c (cstr m)) as [c1 r1] eqn:E1. destruct (file_serve_all c1 lines) as [c2 r2] eqn:E2. simpl in HQ.
    pose proof (next_fd_fresh fds) as Hfresh. set (evs1 := lines_in lines ++ (RecvByte <$> pre) ++ RecvEof :: evs).
    eapply (around_critical_wp Hs Hmem m evs1 (next_fd fds)); [|done|done| |].
    { rewrite Hin. unfold evs1, lines_in. simpl. by rewrite <- !app_assoc. }
    { simpl. rewrite Hd. unfold file_open. simpl. by rewrite (opens_always _ Hr). }
    intros l rest p1 Hmsg Hopen Hclose.
    destruct (sg_ctx _ _ _ _ _ _ _ Hs) as (tid & nodes & Hx).
    destruct (sg_manager _ _ _ _ _ _ _ Hs) as (ln & head & name & Hm & _).
    eapply (file_critical_wp _ ctx _ lm _ lc fd);
      [done|done|exact Hx|done|exact Hm|done|exact Hopen|exact Hmsg|reflexivity|apply lookup_insert_eq|].
    intros pos'. rewrite E1, insert_insert_eq. simpl snd. simpl fst. apply Hclose.
    simpl. unfold file_close. simpl. rewrite delete_insert_id by done.
    set (d := PlainFile (Some c1) fds : @dev (file_dev (D := D))). set (t := set_proc (served (sv_proc s) evs1 r1 d) s).
    pose proof (served_same (sv_proc s) fd evs1 r1 d) as (H1 & H2 & H3 & H4 & H5).
    eapply (IH t ctx lc lm fd la addr pre evs c1 fds); [by eapply serving_proc|done|done|done| |by constructor|exact H4|].
    + change (sv_proc t) with (served (fd := fd) (sv_proc s) evs1 r1 d). rewrite H5. apply lookup_insert_eq.
    + rewrite E2. simpl. rewrite <- (served_served (sv_proc s) fd evs1 r1 d) in HQ. exact HQ.
Qed.
End session.
