(* ===== verification/TimerVariant.v ===== *)
(** The build without [USE_AESD_CHAR_DEVICE]: the manager with its timer
    ([server/src/connection_manager.c], lines 55-77, 99-101 and 212-239), over a plain file.

    A [timed] state is a server over [PlainFile] with the timers of the process and the
    callbacks that are running: a timer that has expired runs [thread_timer] in a thread of
    its own ([SIGEV_THREAD]). The callback is written as steps, like [thread_routine], and
    [connection_manager_destroy] as the steps of [ConnectionManager] with the timer's. *)

From S2P Require Import Prelude CMonad KHeap Libc DeviceSpec FileDev Process TcpConnection SList ConnectionManager PlainFile.
Local Open Scope Z_scope.
Local Open Scope cmonad_scope.

(** Where a callback is in [thread_timer]; [buffered] is what [fprintf] left in the stream. *)
Inductive timer_pc :=
  | TM_Lock
  | TM_Open
  | TM_Print (fd : Z)
  | TM_Close (fd : Z) (buffered : list bytes)
  | TM_Unlock
  | TM_Done.

(** [sigval.sival_ptr], the text that [strftime] wrote to [outstr], and the place. *)
Record callback := Callback { cb_manager : ptr; cb_outstr : bytes; cb_pc : timer_pc }.

(** An armed timer: [sev.sigev_value.sival_ptr] and the seconds of [its]. *)
Record itimer := Itimer { it_value : ptr; it_first : Z; it_interval : Z }.

(** [timer_create]: the identifier of a new timer, or an error. *)
Class Timers := timer_new : gset Z -> option Z.

Definition timestamp (outstr : bytes) : bytes := str "timestamp: " ++ outstr ++ [NL].

Section timer.
Context {D : Disk} {L : Libc} {St : Stdio} {TM : Timers}.

(** The server, the timers, the [timerid] field of each manager, and the callbacks. *)
Record timed := Timed {
  td_server : @server file_dev;
  td_timers : gmap Z itimer;
  td_timerid : gmap loc Z;
  td_callbacks : gmap Z callback;
}.
Definition set_server (sv : @server file_dev) (s : timed) : timed :=
  Timed sv (td_timers s) (td_timerid s) (td_callbacks s).
Definition set_timers (t : gmap Z itimer) (s : timed) : timed :=
  Timed (td_server s) t (td_timerid s) (td_callbacks s).
Definition set_timerid (i : gmap loc Z) (s : timed) : timed :=
  Timed (td_server s) (td_timers s) i (td_callbacks s).
Definition set_callbacks (c : gmap Z callback) (s : timed) : timed :=
  Timed (td_server s) (td_timers s) (td_timerid s) c.

Definition on_server {A} (m : M (@server file_dev) A) : M timed A := fun s =>
  match m (td_server s) with
  | Done (a, sv) => Done (a, set_server sv s)
  | Fault f => Fault f
  end.

(** [fopen(name, "a")] *)
Definition do_fopen_append : M (@proc file_dev) (option Z) :=
  let! s := mget in
  match file_open_append (p_dev (FD := file_dev (D := D)) s) with
  | Some (fd, d) => mput (set_dev (FD := file_dev (D := D)) d s);; ret (Some fd)
  | None => ret None
  end.

(** *** The callback *)

Definition timer_step (manager : ptr) (outstr : bytes) (pc : timer_pc) : M (@server file_dev) timer_pc :=
  match pc with
  | TM_Lock => pthread_mutex_lock manager;; ret TM_Open
  | TM_Open =>
      let! m := get_manager manager in
      let! _ := on_proc (do_string (cm_filename m)) in
      let! fd := on_proc do_fopen_append in
      match fd with Some fd => ret (TM_Print fd) | None => mfault Exited end
  | TM_Print fd =>
      let! r := on_proc (do_fprintf fd (timestamp outstr)) in ret (TM_Close fd (snd r))
  | TM_Close fd buffered =>
      on_proc (do_fflush fd buffered);; on_proc (do_fclose fd);; ret TM_Unlock
  | TM_Unlock => pthread_mutex_unlock manager;; ret TM_Done
  | TM_Done => mfault Blocked
  end.
Fixpoint timer_run (fuel : nat) (manager : ptr) (outstr : bytes) (pc : timer_pc) : M (@server file_dev) unit :=
  match pc with
  | TM_Done => ret tt
  | _ =>
      match fuel with
      | O => mfault OutOfFuel
      | S fuel => let! pc' := timer_step manager outstr pc in timer_run fuel manager outstr pc'
      end
  end.
(** There are five steps and no loop. *)
Definition thread_timer (manager : ptr) (outstr : bytes) : M (@server file_dev) unit :=
  timer_run 5 manager outstr TM_Lock.

(** One step of the callback [n], and the expiry of the armed timer [id] as a new callback. *)
Definition run_callback (n : Z) : M timed unit :=
  let! s := mget in
  let! c := mopt BadAccess (td_callbacks s !! n) in
  let! pc := on_server (timer_step (cb_manager c) (cb_outstr c) (cb_pc c)) in
  mmodify (fun s => set_callbacks (<[n := Callback (cb_manager c) (cb_outstr c) pc]> (td_callbacks s)) s).
Definition expire (id : Z) (outstr : bytes) : M timed Z :=
  let! s := mget in
  let! t := mopt Blocked (td_timers s !! id) in
  if it_first t =? 0 then mfault Blocked
  else
    let n := next_fd (td_callbacks s) in
    mput (set_callbacks (<[n := Callback (it_value t) outstr TM_Lock]> (td_callbacks s)) s);; ret n.

(** *** The manager's life *)

(** A timer is created disarmed; [timer_settime] arms it. *)
Definition timer_create (value : ptr) : M timed (option Z) :=
  let! s := mget in
  match timer_new (dom (td_timers s)) with
  | Some id => mput (set_timers (<[id := Itimer value 0 0]> (td_timers s)) s);; ret (Some id)
  | None => ret None
  end.
Definition timer_settime (id first interval : Z) : M timed unit :=
  let! s := mget in
  let! t := mopt BadAccess (td_timers s !! id) in
  mput (set_timers (<[id := Itimer (it_value t) first interval]> (td_timers s)) s).
Definition put_timerid (manager : ptr) (id : Z) : M timed unit :=
  match manager with
  | PLoc l => mmodify (fun s => set_timerid (<[l := id]> (td_timerid s)) s)
  | _ => mfault BadAccess
  end.

Definition timed_manager_create (filename : bytes) : M timed ptr :=
  let! manager := on_server (connection_manager_create filename) in
  let! r := timer_create manager in
  match r with
  | None => mfault Exited
  | Some timerid =>
      put_timerid manager timerid;; timer_settime timerid 10 10;; ret manager
  end.

Definition timer_delete (manager : ptr) : M timed unit :=
  match manager with
  | PLoc l =>
      let! s := mget in
      let! timerid := mopt BadAccess (td_timerid s !! l) in
      mmodify (fun s => set_timers (delete timerid (td_timers s)) s)
  | _ => mfault BadAccess
  end.

(** [pthread_mutex_destroy] and what follows it; the loop before it is the same. *)
Definition timed_destroy_step (manager : ptr) (pc : destroy_pc) : M timed destroy_pc :=
  match pc with
  | D_End =>
      let! m := on_server (get_manager manager) in
      (if cm_file_mutex m then mfault LockFault else ret tt);;
      timer_delete manager;;
      on_server (on_proc (do_free (cm_filename m)));;
      on_server (set_manager manager (ConnectionManager PNull (cm_file_mutex m) (cm_close_connections m)
                                        (cm_connection_ctx_list m)));;
      on_server (free_manager manager);; ret D_Done
  | _ => on_server (destroy_step manager pc)
  end.
Fixpoint timed_destroy_run (fuel : nat) (manager : ptr) (pc : destroy_pc) : M timed unit :=
  match pc with
  | D_Done => ret tt
  | _ =>
      match fuel with
      | O => mfault OutOfFuel
      | S fuel => let! pc' := timed_destroy_step manager pc in timed_destroy_run fuel manager pc'
      end
  end.
Definition timed_manager_destroy (manager : ptr) : M timed unit :=
  if is_null manager then ret tt
  else let! s := mget in timed_destroy_run (3 * size (sv_ctxs (td_server s)) + 3)%nat manager D_Start.
End timer.
