(* ===== verification/SavePacket.v ===== *)
(** [save_packet] of [server/src/tcp_server.c], which no other code calls: a packet and a newline
    at the end of the plain file, which is created if there is none. *)

From S2P Require Import Prelude CMonad KHeap Libc DeviceSpec FileDev Process PlainFile TimerVariant.
Local Open Scope Z_scope.
Local Open Scope cmonad_scope.

Section save_packet.
Context {D : Disk} {St : Stdio} {StL : StdioLaws St}.

Definition save_packet (packet : ptr) : M (@proc file_dev) unit :=
  let! fd := do_fopen_append in
  match fd with
  | None => mfault Exited
  | Some fd =>
      let! m := do_string packet in
      let! r := do_fprintf fd (m ++ [NL]) in
      do_fflush fd (snd r);;
      do_fclose fd
  end.

(** On a disk with room it appends the line and leaves no descriptor; it ends the process if the file
    cannot be opened. *)
Lemma save_packet_correct (s : @proc file_dev) packet m c fds :
  (forall n, disk_room n = true) -> read_cstr (p_heap s) packet = Done m -> p_dev s = PlainFile c fds ->
  save_packet packet s =
    if disk_opens (dom fds) && (disk_creates || bool_decide (is_Some c)) then
      Done (tt, set_dev (FD := file_dev (D := D)) (PlainFile (Some (default [] c ++ m ++ [NL])) fds) s)
    else Fault Exited.
Proof.
  intros Hroom Hm Hd. unfold save_packet, do_fopen_append. unfold bind at 1, mget at 1. unfold bind at 1. rewrite Hd.
  unfold file_open_append. simpl. destruct (_ && _); [|done]. apply wp_eq. pose proof (next_fd_fresh fds) as Hfresh.
  unfold mput. wp_steps. unfold do_string. wp_steps. apply (wp_lift _ m); [exact Hm|]. wp_steps.
  unfold do_fprintf. pose proof (stdio_concat (m ++ [NL])) as Hcat. destruct (stdio_chunks (m ++ [NL])) as [now later].
  simpl in Hcat. rewrite concat_app in Hcat. wp_steps. pose proof (zlen_nonneg (default [] c)).
  eapply file_chunks_wp; [done|reflexivity|apply lookup_insert_eq|simpl; lia|]. intros pos1 _. simpl.
  rewrite overwrite_end, insert_insert_eq. wp_steps. unfold do_fflush. wp_steps.
  pose proof (zlen_nonneg (default [] c ++ concat now)).
  eapply file_chunks_wp; [done|reflexivity|apply lookup_insert_eq|simpl; lia|]. intros pos2 _. simpl.
  rewrite overwrite_end, insert_insert_eq, <- app_assoc, Hcat. wp_steps. unfold do_fclose. wp_steps.
  simpl. unfold file_close. simpl. by rewrite delete_insert_id.
Qed.
End save_packet.
