(* ===== verification/ManagerLife.v ===== *)
(** The connection manager's list of threads: registration and shutdown. *)

From S2P Require Import Prelude CMonad KHeap Libc DeviceSpec FileDev Process TcpConnection SList ConnectionManager ServerSpec HandleMessage Session.
Local Open Scope Z_scope.
Local Open Scope cmonad_scope.

Section life.
Context `{FD : FileDev} {L : Libc} {N : Sockets} {St : Stdio} {P : Pthreads}.

(** The context at [xt.1] belongs to the finished thread [xt.2]. *)
Definition joinable (s : server) (xt : loc * Z) : Prop :=
  exists x t, sv_ctxs s !! xt.1 = Some x /\ ctx_thread x = xt.2 /\
    sv_threads s !! xt.2 = Some t /\ th_pc t = T_Done.

Definition with_list (m : connection_manager) (head : ptr) : connection_manager :=
  ConnectionManager (cm_filename m) (cm_file_mutex m) (cm_close_connections m) head.

Definition joined (xs : list (loc * Z)) (lm : loc) (m : connection_manager) (s s' : server) : Prop :=
  sv_proc s' = sv_proc s /\
  sv_managers s' = <[lm := with_list m PNull]> (sv_managers s) /\
  (forall l, sv_ctxs s' !! l = if decide (l ∈ xs.*1) then None else sv_ctxs s !! l) /\
  (forall tid, sv_threads s' !! tid = if decide (tid ∈ xs.*2) then None else sv_threads s !! tid).

(** Joining every thread of the list empties it and frees its elements. *)
Lemma join_loop_wp xs : forall fuel s lm m (Q : server -> Prop),
  sv_managers s !! lm = Some m -> slist (sv_ctxs s) (cm_connection_ctx_list m) xs.*1 ->
  Forall (joinable s) xs -> NoDup xs.*2 -> (3 * length xs + 1 < fuel)%nat ->
  (forall s' fuel', joined xs lm m s s' -> (0 < fuel')%nat -> wp (destroy_run fuel' (PLoc lm) D_End) (fun _ => Q) s') ->
  wp (destroy_run fuel (PLoc lm) D_While) (fun _ => Q) s.
Proof.
  induction xs as [|[l tid] xs IH]; intros fuel s lm m Q Hm Hl HF Hnd Hfuel HQ.
  - destruct fuel as [|fuel]; [simpl in Hfuel; lia|]. cbn [destroy_run destroy_step]. wp_steps.
    eapply get_manager_wp; [exact Hm|]. wp_steps. rewrite (SLIST_EMPTY_ok _ _ _ Hl). simpl.
    apply HQ; [|simpl in Hfuel; lia]. split; [done|]. split; [|by split].
    rewrite insert_id; [done|]. rewrite Hm. apply slist_nil_inv in Hl. f_equal. rewrite <- Hl. by destruct m.
  - do 3 (destruct fuel as [|fuel]; [simpl in Hfuel; lia|]). pose proof (slist_NoDup _ _ _ Hl) as Hndl.
    apply Forall_cons in HF as [(x & t & Hx & Htid & Ht & Hdone) HF]. simpl in *.
    apply NoDup_cons in Hnd as [Hnt Hnd]. apply NoDup_cons in Hndl as [Hnl Hndl].
    pose proof Hl as [Hhead _]. destruct (remove_head_ok _ _ _ _ Hl) as (head & Hrem & Hl').
    cbn [destroy_run destroy_step]. wp_steps. eapply get_manager_wp; [done|]. wp_steps.
    rewrite (SLIST_EMPTY_ok _ _ _ Hl). simpl. unfold SLIST_FIRST. rewrite Hhead in *. cbn [destroy_run destroy_step]. wp_steps.
    eapply get_ctx_wp; [done|]. wp_steps. rewrite Htid. unfold pthread_join. wp_steps.
    eapply wp_opt; [done|]. rewrite Hdone. wp_steps. cbn [destroy_run destroy_step]. wp_steps.
    eapply get_manager_wp; [exact Hm|]. wp_steps. simpl. rewrite Hhead. eapply wp_lift; [exact Hrem|]. unfold set_manager, free_ctx. wp_steps.
    eapply wp_opt; [exact Hx|]. wp_steps.
    eapply (IH _ _ lm (with_list m head)).
    + apply lookup_insert_eq.
    + apply lseg_delete; [done|exact Hl'].
    + rewrite Forall_forall in *. intros [l2 tid2] Hin. destruct (HF _ Hin) as (x2 & t2 & H1 & H2 & H3 & H4).
      assert (l2 ∈ xs.*1) by (apply list_elem_of_fmap; by exists (l2, tid2)).
      assert (tid2 ∈ xs.*2) by (apply list_elem_of_fmap; by exists (l2, tid2)).
      exists x2, t2. simpl. split_and!; [|done| |done]; (rewrite lookup_delete_ne; [done|by intros ->]).
    + done.
    + lia.
    + intros s' fuel' (H1 & H2 & H3 & H4). apply HQ. split; [done|]. split; [|split].
      * rewrite H2. simpl. by rewrite insert_insert_eq.
      * intros l2. rewrite H3. apply lookup_delete_list.
      * intros t2. rewrite H4. apply lookup_delete_list.
Qed.

(** The whole of [connection_manager_destroy]. *)
Lemma destroy_manager_wp xs s lm m ln name (Q : server -> Prop) :
  sv_managers s !! lm = Some m -> cm_file_mutex m = false -> cm_filename m = PLoc ln ->
  p_heap (sv_proc s) !! ln = Some name ->
  slist (sv_ctxs s) (cm_connection_ctx_list m) xs.*1 -> Forall (joinable s) xs -> NoDup xs.*2 ->
  (forall s', sv_proc s' = set_heap (delete ln (p_heap (sv_proc s))) (sv_proc s) ->
     sv_managers s' = delete lm (sv_managers s) ->
     (forall l, sv_ctxs s' !! l = if decide (l ∈ xs.*1) then None else sv_ctxs s !! l) ->
     (forall tid, sv_threads s' !! tid = if decide (tid ∈ xs.*2) then None else sv_threads s !! tid) -> Q s') ->
  wp (connection_manager_destroy (PLoc lm)) (fun _ => Q) s.
Proof.
  intros Hm Hmut Hln Hname Hl HF Hnd HQ. unfold connection_manager_destroy. rewrite is_null_loc. wp_steps.
  pose proof (slist_size _ _ _ Hl) as Hsz. rewrite length_fmap in Hsz.
  destruct (3 * size (sv_ctxs s) + 3)%nat as [|fuel] eqn:Ef; [lia|]. cbn [destroy_run destroy_step]. wp_steps.
  eapply get_manager_wp; [done|]. unfold set_manager. wp_steps. set (m1 := ConnectionManager _ _ true _).
  eapply (join_loop_wp xs _ _ lm m1); [apply lookup_insert_eq|exact Hl|exact HF|done|lia|].
  intros s' fuel' (H1 & H2 & H3 & H4) Hf'. simpl in H1, H2. rewrite insert_insert_eq in H2.
  destruct fuel' as [|fuel']; [lia|]. cbn [destroy_run destroy_step]. wp_steps.
  eapply get_manager_wp; [rewrite H2; apply lookup_insert_eq|]. wp_steps. simpl cm_file_mutex. rewrite Hmut.
  wp_steps. apply wp_on_proc. simpl cm_filename. rewrite Hln. unfold do_free. wp_steps. rewrite H1.
  eapply wp_opt; [exact Hname|]. wp_steps. unfold free_manager. unfold set_manager. wp_steps. simpl sv_managers.
  rewrite H2. eapply wp_opt; [apply lookup_insert_eq|]. wp_steps.
  assert (forall fuel, destroy_run fuel (PLoc lm) D_Done = ret tt) as -> by by intros [].
  apply wp_ret. apply HQ; simpl; try done. by rewrite !delete_insert_eq.
Qed.

(** *** Registration *)

Context {LL : LibcLaws L}.

Lemma register_wp s lm m xs c (Q : bool -> server -> Prop) :
  malloc_succeeds L -> sv_managers s !! lm = Some m -> slist (sv_ctxs s) (cm_connection_ctx_list m) xs ->
  (forall l, sv_ctxs s !! l = None ->
     match pthread_new (dom (sv_threads s)) with
     | Some tid =>
         forall ctxs, ctxs = <[l := ConnectionCtx (PLoc lm) c tid (cm_connection_ctx_list m)]> (sv_ctxs s) ->
         slist ctxs (PLoc l) (l :: xs) ->
         Q true (Server _ (sv_proc s) ctxs (<[lm := with_list m (PLoc l)]> (sv_managers s))
                   (<[tid := Thread (PLoc l) PNull T_Start]> (sv_threads s)))
     | None => Q false (set_ctxs (<[l := ConnectionCtx (PLoc lm) c 0 PNull]> (sv_ctxs s)) s)
     end) ->
  wp (connection_manager_register_connection (PLoc lm) c) Q s.
Proof.
  intros Hmem Hm Hl HQ. unfold connection_manager_register_connection, malloc_ctx, set_ctx. wp_steps.
  destruct (Hmem _ (sv_ctxs s) 32 ltac:(lia)) as [l Hmal]. rewrite Hmal. wp_steps.
  apply malloc_fresh in Hmal. specialize (HQ l Hmal).
  eapply get_ctx_wp; [apply lookup_insert_eq|]. wp_steps. simpl sv_threads. simpl sv_ctxs.
  rewrite !insert_insert_eq. destruct (pthread_new (dom (sv_threads s))) as [tid|].
  - wp_steps. eapply get_manager_wp; [exact Hm|]. wp_steps. simpl sv_ctxs. rewrite !insert_insert_eq.
    assert (l ∉ xs) as Hnl.
    { intros Hin. destruct (slist_live _ _ _ _ Hl Hin) as [y Hy]. by rewrite Hmal in Hy. }
    set (x := ConnectionCtx (PLoc lm) c tid (ctx_nodes _)).
    destruct (insert_head_ok (<[l := x]> (sv_ctxs s)) (cm_connection_ctx_list m) xs l x) as [Hins Hs'];
      [by apply lseg_insert|apply lookup_insert_eq|done|].
    eapply wp_lift; [exact Hins|]. unfold set_manager. wp_steps. rewrite insert_insert_eq in *.
    apply (HQ _ eq_refl). exact Hs'.
  - wp_steps. exact HQ.
Qed.

(** *** Creation *)

(** A new manager, unlocked, with an empty list and a copy of the file name. *)
Lemma create_manager_wp s name (Q : ptr -> server -> Prop) :
  malloc_succeeds L -> zlen name + 1 < 2 ^ 31 ->
  (forall lm ln, sv_managers s !! lm = None -> p_heap (sv_proc s) !! ln = None ->
     Q (PLoc lm) (set_managers (<[lm := ConnectionManager (PLoc ln) false false PNull]> (sv_managers s))
                    (set_proc (set_heap (<[ln := name ++ [NUL]]> (p_heap (sv_proc s))) (sv_proc s)) s))) ->
  wp (connection_manager_create name) Q s.
Proof.
  intros Hmem Hlen HQ. pose proof (zlen_nonneg name). unfold connection_manager_create, malloc_manager, set_manager. wp_steps.
  destruct (Hmem _ (sv_managers s) 64 ltac:(lia)) as [lm Hlm]. rewrite Hlm. apply malloc_fresh in Hlm. wp_steps.
  eapply get_manager_wp; [apply lookup_insert_eq|]. wp_steps. apply wp_on_proc. unfold do_malloc. wp_steps. simpl sv_proc.
  destruct (Hmem _ (p_heap (sv_proc s)) (zlen name + 1) ltac:(lia)) as [ln Hln]. rewrite Hln. apply malloc_fresh in Hln.
  wp_steps. apply wp_on_proc. unfold do_store. wp_steps.
  pose proof (uninit_length ln (zlen name + 1) ltac:(lia)) as Hu. eapply wp_lift.
  { apply (write_range_ok _ _ _ _ (uninit ln (zlen name + 1))); [apply lookup_insert_eq|lia|zlen_simp]. }
  wp_steps. rewrite splice_full by (apply zlen_inj; rewrite Hu, zlen_app; reflexivity).
  unfold set_managers, set_proc, set_heap. simpl. rewrite !insert_insert_eq. by apply HQ.
Qed.
End life.
