(* ===== verification/ServerProperties.v ===== *)
(** The connection manager's theorems. *)

From S2P Require Import Prelude CMonad KHeap Libc DeviceSpec FileDev Process TcpConnection TcpReceive TcpSend SList ConnectionManager ServerSpec HandleMessage Session ManagerLife TcpProperties.
Local Open Scope Z_scope.
Local Open Scope cmonad_scope.

(** C6: a thread that serves a client alone, from its start until the client hangs up,
    ends, and does what the specification says for the lines the client sent: the
    client receives exactly the answers, in order, the device ends in the specified
    state with every descriptor closed, the connection and all message buffers are
    freed, the socket is closed, the mutex is free again and nothing else changed.
    This needs memory, a network that takes what is sent, and a reliable device. *)
Theorem session_refines (FD : FileDev) (L : Libc) (N : Sockets) (St : Stdio)
    (LL : LibcLaws L) (FDL : FileDevLaws FD) (StL : StdioLaws St)
    s ctx lc lm fd la addr lines pre evs a ps :
  serving s ctx lc lm fd la addr -> malloc_succeeds L -> net_reliable N -> dev_reliable FD FDL ->
  p_in (sv_proc s) !! fd = Some (lines_in lines ++ (RecvByte <$> pre) ++ RecvEof :: evs) ->
  Forall (fun m => (NL ∉ m) /\ zlen m < 2 ^ 30) (pre :: lines) ->
  dev_is (p_dev (sv_proc s)) a ps -> lines_fit dev_max a lines ->
  exists n s', (forall fuel, (n <= fuel)%nat -> thread_routine fuel (PLoc ctx) s = Done (tt, s')) /\
    let p := sv_proc s in let p' := sv_proc s' in
    out_of p' fd = out_of p fd ++ snd (serve_all a lines) /\
    dev_is (p_dev p') (fst (serve_all a lines)) ps /\
    p_heap p' = delete la (p_heap p) /\ p_conns p' = delete lc (p_conns p) /\ p_fds p' = p_fds p ∖ {[fd]} /\
    sv_managers s' = sv_managers s /\ sv_threads s' = sv_threads s /\
    (forall fd', fd' <> fd -> out_of p' fd' = out_of p fd').
Proof.
  intros Hs Hmem Hnet Hdev Hin HF Hd Hfit.
  assert (thread_wp (PLoc ctx) PNull T_Start (fun s' => exists d, dev_is d (fst (serve_all a lines)) ps /\
     s' = ended (s := s) (ctx := ctx) (lc := lc) (fd := fd) (la := la)
            (served (fd := fd) (sv_proc s) (RecvEof :: evs) (snd (serve_all a lines)) d)) s) as Hwp.
  { destruct (sg_ctx _ _ _ _ _ _ _ Hs) as (tid & nodes & Hx).
    eapply thread_wp_start; [done|exact Hx|]. simpl ctx_connection.
    eapply (session_wp lines); [done..|]. intros d Hd'. by exists d. }
  destruct (thread_wp_run _ _ _ _ _ Hwp) as (n & s' & Hrun & d & Hd' & ->).
  exists n. eexists. split; [exact Hrun|].
  destruct (served_same (sv_proc s) fd (RecvEof :: evs) (snd (serve_all a lines)) d) as (H1 & H2 & H3 & H4 & H5).
  assert (out_of (served (fd := fd) (sv_proc s) (RecvEof :: evs) (snd (serve_all a lines)) d) fd =
          out_of (sv_proc s) fd ++ snd (serve_all a lines)) as H6 by (unfold served; by rewrite send_state_out).
  assert (forall fd', fd' <> fd -> out_of (served (fd := fd) (sv_proc s) (RecvEof :: evs) (snd (serve_all a lines)) d) fd' =
          out_of (sv_proc s) fd') as H7 by (intros; unfold served; by rewrite send_state_out_ne).
  cbv zeta. set (p1 := served _ _ _ d) in *. rewrite <- H1, <- H2, <- H3. rewrite <- H4 in Hd'. split_and!; try done.
Qed.

(** C22: a message is taken for a seek command exactly when it starts with the prefix and two
    numbers follow; the command a client prints with "%u,%u" is decoded to the same two
    numbers, whatever follows that is not a digit. *)
Theorem decode_ioctl_command_correct m c o :
  (decode_ioctl_command m = Some (AesdSeekto c o) <->
     exists rest, m = IOC_PREFIX ++ rest /\ scan_u_u rest = Some (c, o)) /\
  (forall rest, 0 <= c < 2 ^ 32 -> 0 <= o < 2 ^ 32 -> forallb (fun ch => negb (isdigit ch)) (take 1 rest) = true ->
     decode_ioctl_command (IOC_PREFIX ++ print_u c ++ str "," ++ print_u o ++ rest) = Some (AesdSeekto c o)).
Proof.
  split; [|intros rest Hc Ho Hr]; unfold decode_ioctl_command.
  - destruct (strncmp_eq m IOC_PREFIX (length IOC_PREFIX)) eqn:E.
    + apply strncmp_prefix in E as [rest ->]. rewrite drop_app_length. split.
      * destruct (scan_u_u rest) as [[x y]|] eqn:E2; [|done]. intros [= <- <-]. by exists rest.
      * intros (rest' & E & Hscan). apply app_inv_head in E as <-. by rewrite Hscan.
    + split; [done|]. intros (rest & -> & _).
      by rewrite (proj2 (strncmp_prefix (IOC_PREFIX ++ rest) IOC_PREFIX)) in E by by eexists.
  - rewrite (proj2 (strncmp_prefix _ _)) by by eexists. rewrite drop_app_length.
    unfold scan_u_u. rewrite (scan_u_print c) by done.
    change (scan_comma (str "," ++ print_u o ++ rest)) with (Some (print_u o ++ rest)). cbv iota.
    by rewrite (scan_u_print o).
Qed.

(** The result of [fflush] is not looked at: when the text of a message is still in the
    stream's buffer and the device refuses it, the message is lost, the device is as it
    was, and [handle_message] reports the length of the message all the same. *)
Theorem fflush_failure_ignored (FD : FileDev) (St : Stdio) (StL : StdioLaws St) (FDL : FileDevLaws FD)
    s fd p m a ps :
  read_cstr (p_heap s) p = Done m -> decode_ioctl_command m = None ->
  dev_is (p_dev s) a ps -> is_Some (ps !! fd) ->
  stdio_chunks (m ++ [NL]) = ([], [m ++ [NL]]) -> fst (dev_write fd (m ++ [NL]) (p_dev s)) < 0 ->
  exists s', handle_message fd p s = Done (zlen (m ++ [NL]), s') /\ 0 < zlen (m ++ [NL]) /\
    dev_is (p_dev s') a ps.
Proof.
  intros Hm Harg Hd Hfd Hst Hrefuse.
  exists (set_dev (snd (dev_write fd (m ++ [NL]) (p_dev s))) s). split; [|split].
  - apply wp_eq. unfold handle_message, do_fprintf, do_fflush. wp_steps. eapply do_string_wp; [done|].
    rewrite Harg, Hst. cbn [write_chunks]. wp_steps. change (0 <? 0) with false. cbv iota. wp_steps.
    cbn [write_chunks]. wp_steps. destruct (dev_write fd (m ++ [NL]) (p_dev s)) as [r d]. cbn [fst] in Hrefuse.
    wp_steps. rewrite (proj2 (Z.ltb_lt r 0)) by done. by wp_steps.
  - pose proof (zlen_nonneg m). zlen_simp.
  - simpl. assert (m ++ [NL] <> []) as Hne by by destruct m.
    destruct (dev_write_spec (p_dev s) a ps fd (m ++ [NL]) Hd Hfd Hne) as [[_ H]|[E _]]; [done|].
    pose proof (zlen_nonneg (m ++ [NL])). lia.
Qed.

(** When [fopen] fails, the received message is dropped with its buffer still
    allocated: the loop goes on and overwrites the only pointer to it. *)
Theorem fopen_failure_leaks (FD : FileDev) (L : Libc) (N : Sockets) (St : Stdio)
    s ctx x m lm ln name c l msg :
  sv_ctxs s !! ctx = Some x -> ctx_manager x = PLoc lm -> sv_managers s !! lm = Some m ->
  cm_filename m = PLoc ln -> read_cstr (p_heap (sv_proc s)) (PLoc ln) = Done name ->
  p_heap (sv_proc s) !! l = Some msg -> dev_fopen (p_dev (sv_proc s)) = None ->
  exists s', thread_step (PLoc ctx) c (T_Open (PLoc l)) s = Done (T_While, s') /\
    p_heap (sv_proc s') !! l = Some msg.
Proof.
  intros Hx Hlm Hm Hln Hname Hl Hf. exists s. split; [|done]. apply wp_eq. unfold thread_step. wp_steps.
  eapply get_ctx_wp; [done|]. wp_steps. rewrite Hlm. eapply get_manager_wp; [done|]. wp_steps.
  apply wp_on_proc. rewrite Hln. eapply do_string_wp; [done|]. wp_steps.
  apply wp_on_proc. unfold do_fopen. wp_steps. simpl sv_proc. rewrite Hf. wp_steps. split; [done|]. by destruct s.
Qed.

(** C28: registering a connection starts one thread with a new context for it and puts the
    context at the head of the manager's list, in front of the others; if the thread
    cannot be created the result is false, and the new context stays allocated though
    it is on no list, and the connection stays open. *)
Theorem register_connection_correct (FD : FileDev) (L : Libc) (LL : LibcLaws L) (P : Pthreads) s lm m xs c :
  malloc_succeeds L -> sv_managers s !! lm = Some m -> slist (sv_ctxs s) (cm_connection_ctx_list m) xs ->
  exists r s', connection_manager_register_connection (PLoc lm) c s = Done (r, s') /\
    sv_proc s' = sv_proc s /\
    exists l, sv_ctxs s !! l = None /\
    match pthread_new (dom (sv_threads s)) with
    | Some tid =>
        r = true /\ sv_threads s' = <[tid := Thread (PLoc l) PNull T_Start]> (sv_threads s) /\
        sv_ctxs s' !! l = Some (ConnectionCtx (PLoc lm) c tid (cm_connection_ctx_list m)) /\
        sv_managers s' = <[lm := with_list m (PLoc l)]> (sv_managers s) /\
        slist (sv_ctxs s') (PLoc l) (l :: xs)
    | None =>
        r = false /\ sv_threads s' = sv_threads s /\ sv_managers s' = sv_managers s /\
        sv_ctxs s' = <[l := ConnectionCtx (PLoc lm) c 0 PNull]> (sv_ctxs s)
    end.
Proof.
  intros Hmem Hm Hl. apply (wp_Done _ (fun r s' => sv_proc s' = sv_proc s /\ _)).
  eapply register_wp; [done..|]. intros l Hfresh.
  destruct (pthread_new (dom (sv_threads s))) as [tid|].
  - intros ctxs -> Hs'. split; [done|]. exists l. split_and!; try done. simpl. apply lookup_insert_eq.
  - split; [done|]. by exists l.
Qed.

(** When the threads of the list have all ended, destroying the manager joins each of
    them once, frees every context, the file name and the manager, and leaves the
    other objects and threads alone; its loop ends. *)
Theorem destroy_manager_correct (FD : FileDev) xs s lm m ln name :
  sv_managers s !! lm = Some m -> cm_file_mutex m = false -> cm_filename m = PLoc ln ->
  p_heap (sv_proc s) !! ln = Some name ->
  slist (sv_ctxs s) (cm_connection_ctx_list m) xs.*1 -> Forall (joinable s) xs -> NoDup xs.*2 ->
  exists s', connection_manager_destroy (PLoc lm) s = Done (tt, s') /\
    sv_proc s' = set_heap (delete ln (p_heap (sv_proc s))) (sv_proc s) /\
    sv_managers s' = delete lm (sv_managers s) /\
    (forall l, sv_ctxs s' !! l = if decide (l ∈ xs.*1) then None else sv_ctxs s !! l) /\
    (forall tid, sv_threads s' !! tid = if decide (tid ∈ xs.*2) then None else sv_threads s !! tid).
Proof.
  intros Hm Hmut Hln Hname Hl HF Hnd.
  assert (wp (connection_manager_destroy (PLoc lm)) (fun _ s' =>
    sv_proc s' = set_heap (delete ln (p_heap (sv_proc s))) (sv_proc s) /\
    sv_managers s' = delete lm (sv_managers s) /\
    (forall l, sv_ctxs s' !! l = if decide (l ∈ xs.*1) then None else sv_ctxs s !! l) /\
    (forall tid, sv_threads s' !! tid = if decide (tid ∈ xs.*2) then None else sv_threads s !! tid)) s) as Hwp.
  { eapply destroy_manager_wp; [done..|]. by intros. }
  apply wp_Done in Hwp as ([] & s' & Hrun & H). by exists s'.
Qed.

(** Destroying the manager waits for the newest thread as long as that thread has not
    ended, whatever it is doing: [close_connections] is looked at only between messages,
    so a client that stays connected without sending keeps the server from exiting. *)
Theorem destroy_waits_for_thread (FD : FileDev) s lm m l x t :
  sv_managers s !! lm = Some m -> cm_connection_ctx_list m = PLoc l ->
  sv_ctxs s !! l = Some x -> sv_threads s !! ctx_thread x = Some t -> th_pc t <> T_Done ->
  connection_manager_destroy (PLoc lm) s = Fault Blocked.
Proof.
  intros Hm Hhead Hx Ht Hpc.
  assert (exists n, 3 * size (sv_ctxs s) + 3 = S (S (S n)))%nat as [n Hn] by (exists (3 * size (sv_ctxs s))%nat; lia).
  unfold connection_manager_destroy. rewrite is_null_loc. unfold bind at 1, mget at 1. rewrite Hn. cbn [destroy_run destroy_step].
  unfold get_manager, set_manager, bind, mget, mopt, mmodify, ret. simpl. rewrite Hm. simpl.
  unfold get_manager, bind, mget, mopt, ret. simpl. rewrite lookup_insert_eq. simpl.
  unfold SLIST_EMPTY, SLIST_FIRST. rewrite Hhead, is_null_loc.
  cbn [destroy_step]. unfold get_ctx, pthread_join, bind, mget, mopt, ret. simpl. rewrite Hx. simpl. rewrite Ht.
  by destruct (th_pc t).
Qed.

(** ** Witnesses *)

#[export] Instance sample_pthreads : Pthreads := fun ts => Some 200.

Definition sample_name : bytes := str "/dev/aesdchar".
Definition sample_lines : list bytes := [str "hi"; str "AESDCHAR_IOCSEEKTO:0,1"].
Definition sample_manager : connection_manager := ConnectionManager (PLoc 2) false false (PLoc 1).

(** A client on socket 4 that stores a line, seeks, and hangs up in the middle of a line. *)
Definition sample_server (pc : thread_pc) : server :=
  Server spec_dev
    (Proc spec_dev {[1%positive := sample_addr ++ [NUL]; 2%positive := sample_name ++ [NUL]]}
       {[1%positive := TcpConnection 4 (PLoc 1) true]} {[4]}
       {[4 := lines_in sample_lines ++ (RecvByte <$> str "x") ++ [RecvEof]]} ∅ (sample_dstate, ∅))
    {[1%positive := ConnectionCtx (PLoc 1) (PLoc 1) 100 PNull]}
    {[1%positive := sample_manager]}
    {[100 := Thread (PLoc 1) PNull pc]}.

Lemma sample_serving pc : serving (sample_server pc) 1 1 1 4 1 sample_addr.
Proof.
  split.
  - by exists 100, PNull.
  - by exists 2%positive, (PLoc 1), sample_name.
  - split; [done|]. simpl. set_solver.
  - done.
Qed.

Lemma session_refines_witness :
  let s := sample_server T_Start in
  exists n s', (forall fuel, (n <= fuel)%nat -> thread_routine fuel (PLoc 1) s = Done (tt, s')) /\
    let p := sv_proc s in let p' := sv_proc s' in
    out_of p' 4 = str "abc" ++ [NL] ++ str "hi" ++ [NL] ++ str "bc" ++ [NL] ++ str "hi" ++ [NL] /\
    dev_is (p_dev p') (DState [str "abc" ++ [NL]; str "hi" ++ [NL]] []) ∅ /\
    p_heap p' = delete 1%positive (p_heap p) /\ p_conns p' = delete 1%positive (p_conns p) /\
    p_fds p' = p_fds p ∖ {[4]} /\
    sv_managers s' = sv_managers s /\ sv_threads s' = sv_threads s /\
    (forall fd', fd' <> 4 -> out_of p' fd' = out_of p fd').
Proof.
  apply (session_refines spec_dev sample_libc sample_sockets buffered_stdio sample_libc_laws spec_dev_laws
           buffered_stdio_laws (sample_server T_Start) 1 1 1 4 1 sample_addr sample_lines (str "x") [] sample_dstate ∅).
  - apply sample_serving.
  - apply sample_malloc_succeeds.
  - apply sample_net_reliable.
  - apply spec_dev_reliable.
  - reflexivity.
  - repeat constructor; by apply not_elem_of_list_b.
  - split; [done|apply sample_dstate_ok].
  - repeat split; vm_compute; congruence.
Defined.

Lemma decode_ioctl_command_correct_witness :
  decode_ioctl_command (str "AESDCHAR_IOCSEEKTO:12,4294967295") = Some (AesdSeekto 12 4294967295).
Proof. apply (proj2 (decode_ioctl_command_correct [] 12 4294967295) []); [lia|lia|reflexivity]. Defined.

(** A device that is full: it refuses every write, and cannot be opened again. *)
Definition full_dev : FileDev := {|
  dev := dstate * gmap Z Z;
  dev_fopen d := None;
  dev_write fd bs d := (-12, d);
  dev_read := spec_read;
  dev_seekto := spec_seekto;
  dev_close fd d := (d.1, delete fd d.2);
|}.

Definition full_dev_laws : FileDevLaws full_dev.
Proof.
  refine (Build_FileDevLaws full_dev spec_is spec_max _ _ _ _ _ _ _).
  - unfold spec_max. lia.
  - by intros d a ps [_ H].
  - done.
  - intros d a ps fd bs H _ _. by left.
  - apply spec_dev_laws.
  - apply spec_dev_laws.
  - apply spec_dev_laws.
Defined.

Definition full_proc : @proc full_dev :=
  Proc full_dev {[1%positive := str "hi" ++ [NUL]; 2%positive := sample_name ++ [NUL]]} ∅ ∅ ∅ ∅
    (sample_dstate, {[3 := 0]}).

Lemma fflush_failure_ignored_witness :
  exists s', handle_message (FD := full_dev) (St := buffered_stdio) 3 (PLoc 1) full_proc = Done (3, s') /\ 0 < 3 /\
    dev_is (FileDevLaws := full_dev_laws) (p_dev s') sample_dstate {[3 := 0]}.
Proof.
  apply (fflush_failure_ignored full_dev buffered_stdio buffered_stdio_laws full_dev_laws full_proc 3 (PLoc 1)
           (str "hi") sample_dstate {[3 := 0]});
    [reflexivity|reflexivity|split; [reflexivity|apply sample_dstate_ok]|by eexists
    |reflexivity|vm_compute; reflexivity].
Defined.

Definition full_server : @server full_dev :=
  Server full_dev full_proc {[1%positive := ConnectionCtx (PLoc 1) (PLoc 1) 100 PNull]}
    {[1%positive := sample_manager]} ∅.

Lemma fopen_failure_leaks_witness :
  exists s', thread_step (FD := full_dev) (PLoc 1) (PLoc 1) (T_Open (PLoc 1)) full_server = Done (T_While, s') /\
    p_heap (sv_proc s') !! 1%positive = Some (str "hi" ++ [NUL]).
Proof.
  apply (fopen_failure_leaks full_dev sample_libc sample_sockets buffered_stdio full_server 1
           (ConnectionCtx (PLoc 1) (PLoc 1) 100 PNull) sample_manager 1 2 sample_name (PLoc 1) 1 (str "hi" ++ [NUL]));
    reflexivity.
Defined.

Lemma register_connection_correct_witness :
  exists r s', connection_manager_register_connection (PLoc 1) (PLoc 7) (sample_server T_Start) = Done (r, s') /\
    sv_proc s' = sv_proc (sample_server T_Start) /\
    exists l, sv_ctxs (sample_server T_Start) !! l = None /\
      r = true /\ sv_threads s' = <[200 := Thread (PLoc l) PNull T_Start]> (sv_threads (sample_server T_Start)) /\
      sv_ctxs s' !! l = Some (ConnectionCtx (PLoc 1) (PLoc 7) 200 (PLoc 1)) /\
      sv_managers s' = <[1%positive := with_list sample_manager (PLoc l)]> (sv_managers (sample_server T_Start)) /\
      slist (sv_ctxs s') (PLoc l) [l; 1%positive].
Proof.
  apply (register_connection_correct spec_dev sample_libc sample_libc_laws sample_pthreads (sample_server T_Start) 1
           sample_manager [1%positive] (PLoc 7));
    [apply sample_malloc_succeeds|reflexivity|].
  split; [reflexivity|]. eexists. by split.
Defined.

Lemma destroy_manager_correct_witness :
  exists s', connection_manager_destroy (PLoc 1) (sample_server T_Done) = Done (tt, s') /\
    sv_proc s' = set_heap (delete 2%positive (p_heap (sv_proc (sample_server T_Done)))) (sv_proc (sample_server T_Done)) /\
    sv_managers s' = delete 1%positive (sv_managers (sample_server T_Done)) /\
    (forall l, sv_ctxs s' !! l = if decide (l ∈ [1%positive]) then None else sv_ctxs (sample_server T_Done) !! l) /\
    (forall tid, sv_threads s' !! tid = if decide (tid ∈ [100]) then None else sv_threads (sample_server T_Done) !! tid).
Proof.
  apply (destroy_manager_correct spec_dev [(1%positive, 100)] (sample_server T_Done) 1 sample_manager 2
           (sample_name ++ [NUL])); [reflexivity|reflexivity|reflexivity|reflexivity| | |].
  - split; [reflexivity|]. eexists. by split.
  - constructor; [|constructor]. eexists _, _. by repeat split.
  - apply NoDup_singleton.
Defined.

Lemma destroy_waits_for_thread_witness :
  connection_manager_destroy (PLoc 1) (sample_server T_Receive) = Fault Blocked.
Proof.
  apply (destroy_waits_for_thread spec_dev (sample_server T_Receive) 1 sample_manager 1
           (ConnectionCtx (PLoc 1) (PLoc 1) 100 PNull) (Thread (PLoc 1) PNull T_Receive)); done.
Defined.
