(* ===== verification/TimerProperties.v ===== *)
(** The plain-file build: sessions over the file, the timestamps, and the timer's end. *)

From S2P Require Import Prelude CMonad KHeap Libc DeviceSpec FileDev Process TcpConnection TcpReceive TcpSend SList ConnectionManager ServerSpec HandleMessage Session PlainFile TimerVariant TcpProperties ServerProperties.
Local Open Scope Z_scope.
Local Open Scope cmonad_scope.

(** C29: in the plain-file build a thread that serves a client alone ends and does what
    [file_serve_all] says: every line that is no seek command is written over the beginning
    of the file, and the client is sent only what lies behind it; seek commands are refused
    and not answered. The descriptors, the buffers, the connection and the mutex are as
    after a session over the driver. *)
Theorem file_session_refines (D : Disk) (L : Libc) (N : Sockets) (St : Stdio) (LL : LibcLaws L) (StL : StdioLaws St)
    (s : @server file_dev) ctx lc lm fd la addr lines pre evs c fds :
  serving s ctx lc lm fd la addr -> malloc_succeeds L -> net_reliable N -> disk_reliable D ->
  p_in (sv_proc s) !! fd = Some (lines_in lines ++ (RecvByte <$> pre) ++ RecvEof :: evs) ->
  Forall (fun m => (NL ∉ m) /\ zlen m < 2 ^ 30) (pre :: lines) ->
  p_dev (sv_proc s) = PlainFile (Some c) fds ->
  exists n s', (forall fuel, (n <= fuel)%nat -> thread_routine fuel (PLoc ctx) s = Done (tt, s')) /\
    let p := sv_proc s in let p' := sv_proc s' in
    out_of p' fd = out_of p fd ++ snd (file_serve_all c lines) /\
    p_dev p' = PlainFile (Some (fst (file_serve_all c lines))) fds /\
    p_heap p' = delete la (p_heap p) /\ p_conns p' = delete lc (p_conns p) /\ p_fds p' = p_fds p ∖ {[fd]} /\
    sv_managers s' = sv_managers s /\ sv_threads s' = sv_threads s.
Proof.
  intros Hs Hmem Hnet Hr Hin HF Hd. set (d := PlainFile (Some (fst (file_serve_all c lines))) fds : @dev (file_dev (D := D))).
  assert (thread_wp (PLoc ctx) PNull T_Start (fun s' =>
     s' = ended (s := s) (ctx := ctx) (lc := lc) (fd := fd) (la := la)
            (served (fd := fd) (sv_proc s) (RecvEof :: evs) (snd (file_serve_all c lines)) d)) s) as Hwp.
  { destruct (sg_ctx _ _ _ _ _ _ _ Hs) as (tid & nodes & Hx).
    eapply thread_wp_start; [done|exact Hx|]. simpl ctx_connection. by eapply (file_session_wp lines). }
  destruct (thread_wp_run _ _ _ _ _ Hwp) as (n & s' & Hrun & ->). exists n. eexists. split; [exact Hrun|].
  destruct (served_same (sv_proc s) fd (RecvEof :: evs) (snd (file_serve_all c lines)) d) as (H1 & H2 & H3 & H4 & H5).
  assert (out_of (served (fd := fd) (sv_proc s) (RecvEof :: evs) (snd (file_serve_all c lines)) d) fd =
          out_of (sv_proc s) fd ++ snd (file_serve_all c lines)) as H6 by (unfold served; by rewrite send_state_out).
  cbv zeta. rewrite <- H1, <- H2, <- H3. split_and!; done.
Qed.

(** *** The callback *)

Definition with_mutex (locked : bool) (m : connection_manager) : connection_manager :=
  ConnectionManager (cm_filename m) locked (cm_close_connections m) (cm_connection_ctx_list m).
Definition locked_state `{FD : FileDev} (lm : loc) (m : connection_manager) (s : server) : server :=
  set_managers (<[lm := with_mutex true m]> (sv_managers s)) s.

Lemma timer_lock `{D : Disk} `{St : Stdio} (s : @server file_dev) lm m outstr :
  sv_managers s !! lm = Some m ->
  timer_step (PLoc lm) outstr TM_Lock s =
    if cm_file_mutex m then Fault Blocked else Done (TM_Open, locked_state lm m s).
Proof.
  intros Hm. unfold timer_step, pthread_mutex_lock, get_manager, set_manager, bind, mget, mopt, ret, mmodify.
  rewrite Hm. by destruct (cm_file_mutex m).
Qed.

Lemma timer_open `{D : Disk} `{St : Stdio} (s : @server file_dev) lm m name outstr d :
  sv_managers s !! lm = Some m -> read_cstr (p_heap (sv_proc s)) (cm_filename m) = Done name ->
  p_dev (sv_proc s) = d ->
  timer_step (PLoc lm) outstr TM_Open s =
    match file_open_append d with
    | Some (fd, d') => Done (TM_Print fd, set_proc (set_dev (FD := file_dev (D := D)) d' (sv_proc s)) s)
    | None => Fault Exited
    end.
Proof.
  intros Hm Hname <-. unfold timer_step, get_manager, on_proc, do_string, do_fopen_append, bind, mget, mopt, mlift, ret, mput.
  rewrite Hm, Hname. destruct s as [[] ? ? ?]. simpl. by destruct (file_open_append _) as [[]|].
Qed.

(** What is printed gets to the end of the file; the file is closed and the mutex freed. *)
Lemma timer_print_wp `{D : Disk} `{St : Stdio} (StL : StdioLaws St) (s : @server file_dev) lm m fd outstr c fds Q :
  (forall n, disk_room n = true) -> sv_managers s !! lm = Some m -> cm_file_mutex m = true -> fds !! fd = None ->
  p_dev (sv_proc s) = PlainFile (Some c) (<[fd := FileDesc true 0]> fds) ->
  Q tt (set_managers (<[lm := with_mutex false m]> (sv_managers s))
         (set_proc (set_dev (FD := file_dev (D := D)) (PlainFile (Some (c ++ timestamp outstr)) fds) (sv_proc s)) s)) ->
  wp (timer_run 3 (PLoc lm) outstr (TM_Print fd)) Q s.
Proof.
  intros Hroom Hm Hmut Hfresh Hd HQ. cbn [timer_run timer_step]. wp_steps. apply wp_on_proc. unfold do_fprintf.
  pose proof (stdio_concat (timestamp outstr)) as Hcat. destruct (stdio_chunks (timestamp outstr)) as [now later].
  simpl in Hcat. rewrite concat_app in Hcat. wp_steps. pose proof (zlen_nonneg c).
  eapply file_chunks_wp; [done|exact Hd|apply lookup_insert_eq|simpl; lia|]. intros pos1 _. simpl.
  rewrite overwrite_end, insert_insert_eq. wp_steps. cbn [timer_run timer_step snd]. wp_steps.
  apply wp_on_proc. unfold do_fflush. wp_steps. pose proof (zlen_nonneg (c ++ concat now)).
  eapply file_chunks_wp; [done|reflexivity|apply lookup_insert_eq|simpl; lia|]. intros pos2 _. simpl.
  rewrite overwrite_end, insert_insert_eq, <- app_assoc, Hcat. wp_steps. apply wp_on_proc. unfold do_fclose. wp_steps.
  simpl. unfold file_close. simpl. rewrite delete_insert_id by done. cbn [timer_run timer_step]. wp_steps.
  unfold pthread_mutex_unlock. wp_steps. eapply get_manager_wp; [exact Hm|]. rewrite Hmut. unfold set_manager. wp_steps.
  exact HQ.
Qed.

(** The timer's callback, from its start to its end: with the mutex free and a disk with
    room it adds the timestamp to the end of the file, which it creates if there is none, and
    leaves everything else as it was, the mutex free and its descriptor closed; it waits
    while the mutex is taken, and ends the process, without unlocking, when the file cannot be
    opened. *)
Theorem thread_timer_correct (D : Disk) (St : Stdio) (StL : StdioLaws St)
    (s : @server file_dev) lm m name outstr c fds :
  (forall n, disk_room n = true) -> sv_managers s !! lm = Some m ->
  read_cstr (p_heap (sv_proc s)) (cm_filename m) = Done name -> p_dev (sv_proc s) = PlainFile c fds ->
  thread_timer (PLoc lm) outstr s =
    if cm_file_mutex m then Fault Blocked
    else if disk_opens (dom fds) && (disk_creates || bool_decide (is_Some c)) then
      Done (tt, set_proc (set_dev (FD := file_dev (D := D))
                  (PlainFile (Some (default [] c ++ timestamp outstr)) fds) (sv_proc s)) s)
    else Fault Exited.
Proof.
  intros Hroom Hm Hname Hd. unfold thread_timer. cbn [timer_run]. unfold bind at 1.
  rewrite (timer_lock _ _ m) by done. destruct (cm_file_mutex m) eqn:Hmut; [done|].
  cbn [timer_run]. unfold bind at 1.
  rewrite (timer_open _ _ (with_mutex true m) name _ (PlainFile c fds)) by (simpl; first [apply lookup_insert_eq|done]).
  unfold file_open_append. simpl. destruct (_ && _); [|done]. cbv beta iota. apply wp_eq.
  eapply (timer_print_wp StL _ lm (with_mutex true m)); [done|apply lookup_insert_eq|done|apply next_fd_fresh|reflexivity|].
  split; [done|]. destruct s as [[] ? ? ?]. unfold set_managers, set_proc, set_dev. simpl in *.
  rewrite insert_insert_eq. unfold with_mutex. simpl. rewrite insert_id; [done|]. rewrite Hm, <- Hmut. by destruct m.
Qed.

(** The state after the last step of destroying the manager at [lm]. *)
Definition destroyed `{D : Disk} (lm ln : loc) (id : Z) (s : timed) : timed :=
  let sv := td_server s in
  set_timers (delete id (td_timers s))
    (set_server (set_managers (delete lm (sv_managers sv))
                   (set_proc (set_heap (delete ln (p_heap (sv_proc sv))) (sv_proc sv)) sv)) s).

(** Destroying the manager does not wait for the timer's callbacks: the last step of
    [connection_manager_destroy] disarms the timer and frees the manager, after which a
    callback that had been started accesses freed memory in its next step; if the callback
    already holds the mutex, the step destroys a locked mutex. *)
Theorem timer_outlives_manager (D : Disk) (St : Stdio) (s : timed) lm m ln name id n outstr :
  sv_managers (td_server s) !! lm = Some m -> cm_filename m = PLoc ln ->
  p_heap (sv_proc (td_server s)) !! ln = Some name -> td_timerid s !! lm = Some id ->
  td_callbacks s !! n = Some (Callback (PLoc lm) outstr TM_Lock) ->
  timed_destroy_step (PLoc lm) D_End s =
    (if cm_file_mutex m then Fault LockFault else Done (D_Done, destroyed lm ln id s)) /\
  td_timers (destroyed lm ln id s) !! id = None /\ run_callback n (destroyed lm ln id s) = Fault BadAccess.
Proof.
  intros Hm Hln Hname Hid Hn. split; [|split].
  - destruct s as [[[] ? ? ?] ? ? ?]. simpl in *.
    unfold timed_destroy_step, timer_delete, on_server, on_proc, get_manager, set_manager, free_manager, do_free,
      bind, mget, mput, mopt, mmodify, ret. simpl. rewrite Hm. destruct (cm_file_mutex m) eqn:Hmut; [done|].
    simpl. rewrite Hid, Hln. simpl. rewrite Hname. simpl. rewrite lookup_insert_eq. simpl.
    unfold destroyed. simpl. unfold set_managers, set_proc, set_heap. simpl. by rewrite delete_insert_eq.
  - apply lookup_delete_eq.
  - unfold run_callback, on_server, timer_step, pthread_mutex_lock, get_manager, bind, mget, mopt.
    simpl. rewrite Hn. simpl. by rewrite lookup_delete_eq.
Qed.

(** ** Witnesses *)

(** A disk that always has room, a file of two lines, and the next timer identifier. *)
#[local] Instance sample_disk : Disk := {| disk_opens fds := true; disk_creates := true; disk_room n := true |}.
#[local] Instance sample_timers : Timers := fun ids => Some 7.
Definition sample_file : bytes := str "abc" ++ [NL] ++ str "def" ++ [NL].

Lemma sample_disk_reliable : disk_reliable sample_disk.
Proof. done. Qed.

Definition file_server (pc : thread_pc) (c : option bytes) : @server file_dev :=
  Server file_dev
    (Proc file_dev {[1%positive := sample_addr ++ [NUL]; 2%positive := str "/var/tmp/aesdsocketdata" ++ [NUL]]}
       {[1%positive := TcpConnection 4 (PLoc 1) true]} {[4]}
       {[4 := lines_in sample_lines ++ (RecvByte <$> str "x") ++ [RecvEof]]} ∅ (PlainFile c ∅))
    {[1%positive := ConnectionCtx (PLoc 1) (PLoc 1) 100 PNull]}
    {[1%positive := sample_manager]}
    {[100 := Thread (PLoc 1) PNull pc]}.

Lemma file_serving pc c : serving (file_server pc c) 1 1 1 4 1 sample_addr.
Proof.
  split.
  - by exists 100, PNull.
  - by exists 2%positive, (PLoc 1), (str "/var/tmp/aesdsocketdata").
  - split; [done|]. simpl. set_solver.
  - done.
Qed.

(** "hi" replaces the first three bytes, and the answer starts behind them. *)
Lemma file_session_refines_witness :
  let s := file_server T_Start (Some sample_file) in
  exists n s', (forall fuel, (n <= fuel)%nat -> thread_routine fuel (PLoc 1) s = Done (tt, s')) /\
    let p := sv_proc s in let p' := sv_proc s' in
    out_of p' 4 = [NL] ++ str "def" ++ [NL] /\
    p_dev p' = PlainFile (Some (str "hi" ++ [NL; NL] ++ str "def" ++ [NL])) ∅ /\
    p_heap p' = delete 1%positive (p_heap p) /\ p_conns p' = delete 1%positive (p_conns p) /\ p_fds p' = p_fds p ∖ {[4]} /\
    sv_managers s' = sv_managers s /\ sv_threads s' = sv_threads s.
Proof.
  apply (file_session_refines sample_disk sample_libc sample_sockets buffered_stdio sample_libc_laws buffered_stdio_laws
           (file_server T_Start (Some sample_file)) 1 1 1 4 1 sample_addr sample_lines (str "x") [] sample_file ∅).
  - apply file_serving.
  - apply sample_malloc_succeeds.
  - apply sample_net_reliable.
  - apply sample_disk_reliable.
  - reflexivity.
  - repeat constructor; by apply not_elem_of_list_b.
  - reflexivity.
Defined.

(** The first timestamp makes the file. *)
Lemma thread_timer_correct_witness :
  thread_timer (PLoc 1) (str "2024-01-01 00:00:00") (file_server T_Start None) =
    Done (tt, file_server T_Start (Some (str "timestamp: 2024-01-01 00:00:00" ++ [NL]))).
Proof.
  apply (thread_timer_correct sample_disk buffered_stdio buffered_stdio_laws (file_server T_Start None) 1 sample_manager
           (str "/var/tmp/aesdsocketdata") (str "2024-01-01 00:00:00") None ∅); reflexivity.
Defined.

(** A server that has just started, and the timer of its new manager has just expired. *)
Definition started : timed :=
  Timed (Server file_dev (Proc file_dev ∅ ∅ ∅ ∅ ∅ (PlainFile None ∅)) ∅ ∅ ∅) ∅ ∅ ∅.
Definition expired : timed :=
  match (let! manager := timed_manager_create (str "log") in expire 7 (str "now"))%cm started with
  | Done (_, s) => s
  | Fault _ => started
  end.

Lemma timer_outlives_manager_witness :
  timed_manager_destroy (PLoc 2) expired = Done (tt, destroyed 2 2 7 expired) /\
  run_callback 3 (destroyed 2 2 7 expired) = Fault BadAccess.
Proof.
  split; [vm_compute; reflexivity|].
  apply (timer_outlives_manager sample_disk buffered_stdio expired 2 (ConnectionManager (PLoc 2) false false PNull)
           2 (str "log" ++ [NUL]) 7 3 (str "now")); vm_compute; reflexivity.
Defined.
