(* ===== verification/EndToEnd.v ===== *)
(** The server on top of the driver: both halves of the repository in one statement. *)

From S2P Require Import Prelude CMonad KHeap CircularBuffer KernelApi DeviceSpec CharDriver DriverRep DriverRefinement DriverProperties Libc FileDev DriverDevice Process TcpConnection TcpReceive TcpSend SList ConnectionManager ServerSpec HandleMessage Session.
Local Open Scope Z_scope.
Local Open Scope cmonad_scope.

(** A client's session with the server whose device is the character driver: the thread
    ends, the client has received, in order, exactly the specified answers (for a line,
    the last ten commands; for a seek command, the contents from that byte on), and the
    driver's circular buffer and kernel memory represent the specified device again, with
    nothing leaked in the kernel and no file left open. *)
Theorem server_over_driver (K : Kernel) (KL : KernelLaws K) (L : Libc) (N : Sockets) (St : Stdio)
    (LL : LibcLaws L) (StL : StdioLaws St) F
    (s : @server driver_dev) ctx lc lm fd la addr lines (pre : bytes) evs a :
  serving s ctx lc lm fd la addr -> malloc_succeeds L -> net_reliable N -> kmalloc_succeeds ->
  p_in (sv_proc s) !! fd = Some (lines_in lines ++ (RecvByte <$> pre) ++ RecvEof :: evs) ->
  Forall (fun m => (NL ∉ m) /\ zlen m < 2 ^ 30) (pre :: lines) ->
  dev_rep a F (p_dev (sv_proc s)) -> w_files (p_dev (sv_proc s)) = ∅ ->
  lines_fit KMALLOC_MAX_SIZE a lines ->
  exists n s', (forall fuel, (n <= fuel)%nat -> thread_routine fuel (PLoc ctx) s = Done (tt, s')) /\
    out_of (sv_proc s') fd = out_of (sv_proc s) fd ++ snd (serve_all a lines) /\
    dev_rep (fst (serve_all a lines)) F (p_dev (sv_proc s')) /\ w_files (p_dev (sv_proc s')) = ∅.
Proof.
  intros Hs Hmem Hnet Hk Hin HF Hrep Hfiles Hfit.
  assert (driver_is F (p_dev (sv_proc s)) a ∅) as Hd.
  { split; [done| |done]. intros filp. by rewrite Hfiles, !lookup_empty. }
  pose proof (driver_dev_reliable F Hk) as Hrel.
  assert (thread_wp (FD := driver_dev) (PLoc ctx) PNull T_Start (fun s' =>
     out_of (sv_proc s') fd = out_of (sv_proc s) fd ++ snd (serve_all a lines) /\
     dev_rep (fst (serve_all a lines)) F (p_dev (sv_proc s')) /\ w_files (p_dev (sv_proc s')) = ∅) s) as Hwp.
  { destruct (sg_ctx _ _ _ _ _ _ _ Hs) as (tid & nodes & Hx).
    eapply thread_wp_start; [done|exact Hx|]. simpl ctx_connection.
    eapply (session_wp (FDL := driver_dev_laws F) lines s ctx lc lm fd la addr pre evs a ∅); [done..|].
    intros d Hd'.
    destruct (served_same (FD := driver_dev) (sv_proc s) fd (RecvEof :: evs) (snd (serve_all a lines)) d) as (_ & _ & _ & Hdev & _).
    assert (out_of (served (FD := driver_dev) (fd := fd) (sv_proc s) (RecvEof :: evs) (snd (serve_all a lines)) d) fd =
            out_of (sv_proc s) fd ++ snd (serve_all a lines)) as Hout by (unfold served; by rewrite send_state_out).
    set (p1 := served _ _ _ d) in *. rewrite <- Hdev in Hd'. split; [exact Hout|].
    split; [apply Hd'|]. apply map_eq. intros filp. rewrite lookup_empty.
    pose proof (di_files _ _ _ _ Hd' filp) as H. by rewrite lookup_empty in H. }
  destruct (thread_wp_run _ _ _ _ _ Hwp) as (n & s' & Hrun & H). by exists n, s'.
Qed.

(** ** Witness: the sample driver, with three bytes staged from an earlier writer *)

Definition driver_lines : list bytes := [str "tial"; str "AESDCHAR_IOCSEEKTO:1,3"].

Definition driver_proc : @proc driver_dev :=
  Proc driver_dev {[1%positive := str "::1" ++ [NUL]; 2%positive := str "/dev/aesdchar" ++ [NUL]]}
    {[1%positive := TcpConnection 4 (PLoc 1) true]} {[4]}
    {[4 := lines_in driver_lines ++ [RecvEof]]} ∅ (with_files ∅ sample_world).

Definition driver_server : @server driver_dev :=
  Server driver_dev driver_proc {[1%positive := ConnectionCtx (PLoc 1) (PLoc 1) 100 PNull]}
    {[1%positive := ConnectionManager (PLoc 2) false false (PLoc 1)]}
    {[100 := Thread (PLoc 1) PNull T_Start]}.

Lemma server_over_driver_witness :
  exists n s', (forall fuel, (n <= fuel)%nat ->
      thread_routine (FD := driver_dev) (N := sample_sockets) (St := buffered_stdio) fuel (PLoc 1) driver_server =
      Done (tt, s')) /\
    out_of (sv_proc s') 4 = str "hello" ++ [NL] ++ str "partial" ++ [NL] ++ str "tial" ++ [NL] /\
    dev_rep (DState [sample_cmd; str "partial" ++ [NL]] []) ∅ (p_dev (sv_proc s')) /\
    w_files (p_dev (sv_proc s')) = ∅.
Proof.
  apply (server_over_driver sample_kernel sample_kernel_laws sample_libc sample_sockets buffered_stdio
           sample_libc_laws buffered_stdio_laws ∅ driver_server 1 1 1 4 1 (str "::1") driver_lines [] []
           sample_state).
  - split; [by exists 100, PNull|by exists 2%positive, (PLoc 1), (str "/dev/aesdchar")| |done].
    split; [done|]. simpl. set_solver.
  - apply sample_malloc_succeeds.
  - apply sample_net_reliable.
  - apply sample_kmalloc_succeeds.
  - reflexivity.
  - repeat constructor; apply not_elem_of_list_b; reflexivity.
  - split; [eapply dev_mem_env; [apply sample_rep|done..]|apply sample_rep].
  - reflexivity.
  - repeat split; vm_compute; congruence.
Defined.
