(* ===== verification/ThreadFrame.v ===== *)
(** What one step of a server thread can change.

    [footprint] bounds the effect of a step by the thread's own context, connection, socket
    and device descriptor, the mutex and, inside the critical section, the device's
    contents. The invariants of the concurrent server need nothing else about the code. *)

From S2P Require Import Prelude CMonad KHeap Libc DeviceSpec FileDev Process TcpConnection TcpReceive TcpSend SList ConnectionManager ServerSpec HandleMessage Session.
Local Open Scope Z_scope.
Local Open Scope cmonad_scope.

(** The descriptor a thread has open, and whether it is in the critical section. *)
Definition open_fd (pc : thread_pc) : option Z :=
  match pc with
  | T_Lock f _ | T_Handle f _ | T_Send f _ | T_Unlock f _ | T_Close f _ => Some f
  | _ => None
  end.
(** The descriptor a thread has opened and not yet used. *)
Definition start_fd (pc : thread_pc) : option Z :=
  match pc with T_Lock f _ | T_Handle f _ => Some f | _ => None end.
Definition critical (pc : thread_pc) : bool :=
  match pc with T_Handle _ _ | T_Send _ _ | T_Unlock _ _ => true | _ => false end.

Definition positions_ok (ps : gmap Z Z) : Prop := forall f pos, ps !! f = Some pos -> 0 <= pos.

Section frame.
Context `{FD : FileDev} {L : Libc} {N : Sockets} {St : Stdio} {P : Pthreads}.
Context {FT : FileTable FD} {StL : StdioLaws St}.

(** How much of the contents the descriptor [f] has before it. *)
Definition remaining (a : ft_state) (ps : gmap Z Z) (f : Z) : nat := Z.to_nat (ft_size a - default 0 (ps !! f)).

Lemma remaining_less a ps f pos pos' :
  ps !! f = Some pos -> pos < pos' <= ft_size a -> (remaining a (<[f := pos']> ps) f < remaining a ps f)%nat.
Proof. intros Hf Hp. unfold remaining. rewrite lookup_insert_eq, Hf. simpl. lia. Qed.

(** *** The device's part *)

(** From [a], [ps] to [a'], [ps']: only handling a message changes the contents, and only the
    thread's descriptor is opened, moved or closed; a round of sending gets on. *)
Record dev_effect (pc pc' : thread_pc) (a a' : ft_state) (ps ps' : gmap Z Z) : Prop := {
  de_state : (forall f q, pc <> T_Handle f q) -> a' = a;
  de_other f : open_fd pc <> Some f -> is_Some (ps !! f) -> ps' !! f = ps !! f;
  de_open f : open_fd pc' = Some f -> is_Some (ps' !! f) /\ (open_fd pc = Some f \/ ps !! f = None);
  de_start f : start_fd pc' = Some f -> (start_fd pc = Some f -> ps !! f = Some 0) -> ps' !! f = Some 0;
  de_closed f : is_Some (ps' !! f) -> open_fd pc' = Some f \/ open_fd pc <> Some f /\ is_Some (ps !! f);
  de_pos : positions_ok ps';
  de_rounds f q q' : pc = T_Send f q -> pc' = T_Send f q' -> (remaining a' ps' f < remaining a ps f)%nat;
}.

(** Handling is critical. *)
Lemma calm_handle pc : critical pc = false -> forall f q, pc <> T_Handle f q.
Proof. intros H f q ->. done. Qed.

Definition dev_step (pc pc' : thread_pc) (d d' : dev) : Prop :=
  forall a ps, ft_is d a ps -> positions_ok ps -> (forall f, open_fd pc = Some f -> is_Some (ps !! f)) ->
    exists a' ps', ft_is d' a' ps' /\ dev_effect pc pc' a a' ps ps'.

Lemma dev_step_same pc pc' d :
  open_fd pc' = open_fd pc -> (start_fd pc' = None \/ start_fd pc' = start_fd pc) ->
  (forall f q, pc' <> T_Send f q) -> dev_step pc pc' d d.
Proof.
  intros Hpc Hst Hns a ps Hd Hp Hf. exists a, ps. split; [done|]. split; try done.
  - intros f Hf'. rewrite Hpc in Hf'. split; [by apply Hf|by left].
  - intros f Hs H0. apply H0. destruct Hst as [E|E]; congruence.
  - intros f Hs. rewrite Hpc. destruct (decide (open_fd pc = Some f)); auto.
  - intros f q q' _ E. by destruct (Hns f q').
Qed.

(** Moving the thread's own descriptor. *)
Lemma dev_effect_move pc pc' f pos a a' ps :
  open_fd pc = Some f -> open_fd pc' = Some f -> start_fd pc' = None -> ((forall f q, pc <> T_Handle f q) -> a' = a) -> 0 <= pos ->
  positions_ok ps ->
  (forall q q', pc = T_Send f q -> pc' = T_Send f q' -> (remaining a' (<[f := pos]> ps) f < remaining a ps f)%nat) ->
  dev_effect pc pc' a a' ps (<[f := pos]> ps).
Proof.
  intros E E' Es Ha Hpos Hp Hr. split; [done| | | | | |].
  - intros f' Hne _. rewrite lookup_insert_ne; [done|]. intros <-. done.
  - intros f'. rewrite E'. intros [= <-]. rewrite lookup_insert_eq. split; [by eexists|by left].
  - congruence.
  - intros f'. rewrite lookup_insert, E, E'. case_decide; [subst; by left|]. right. split; [congruence|done].
  - intros f' pos'. rewrite lookup_insert. case_decide; [by intros [= <-]|apply Hp].
  - intros f' q q' Hq Hq'. assert (f' = f) as -> by (rewrite Hq in E; by injection E). by eapply Hr.
Qed.

(** *** The footprint *)

Record footprint (lm lx lc : loc) (fd : Z) (pc pc' : thread_pc) (s s' : server) : Prop := {
  fp_threads : sv_threads s' = sv_threads s;
  fp_ctxs l : l <> lx -> sv_ctxs s' !! l = sv_ctxs s !! l;
  fp_conns l : l <> lc -> p_conns (sv_proc s') !! l = p_conns (sv_proc s) !! l;
  fp_fds fd' : fd' <> fd -> fd' ∈ p_fds (sv_proc s) -> fd' ∈ p_fds (sv_proc s');
  fp_fds_less : p_fds (sv_proc s') ⊆ p_fds (sv_proc s);
  fp_ended : pc' = T_Done -> p_conns (sv_proc s') !! lc = None /\ fd ∉ p_fds (sv_proc s');
  fp_out fd' : fd' <> fd -> out_of (sv_proc s') fd' = out_of (sv_proc s) fd';
  fp_ctx_self : pc' <> T_Done -> sv_ctxs s' !! lx = sv_ctxs s !! lx;
  fp_conn_self c : pc' <> T_Done -> p_conns (sv_proc s) !! lc = Some c ->
    exists c', p_conns (sv_proc s') !! lc = Some c' /\ c_socket c' = c_socket c;
  fp_fd_self : pc' <> T_Done -> fd ∈ p_fds (sv_proc s) -> fd ∈ p_fds (sv_proc s');
  fp_lock m : sv_managers s !! lm = Some m -> exists m', sv_managers s' !! lm = Some m' /\
    if eqb (critical pc) (critical pc') then cm_file_mutex m' = cm_file_mutex m
    else cm_file_mutex m = critical pc /\ cm_file_mutex m' = critical pc';
  fp_dev : dev_step pc pc' (p_dev (sv_proc s)) (p_dev (sv_proc s'));
}.

(** A step that changes the process only, within the connection and the device. *)
Record proc_frame (lc : loc) (fd : Z) (p p' : proc) : Prop := {
  pf_conns l : l <> lc -> p_conns p' !! l = p_conns p !! l;
  pf_conn c : p_conns p !! lc = Some c -> exists c', p_conns p' !! lc = Some c' /\ c_socket c' = c_socket c;
  pf_fds : p_fds p' = p_fds p;
  pf_out fd' : fd' <> fd -> out_of p' fd' = out_of p fd';
}.

Lemma proc_frame_refl lc fd p : proc_frame lc fd p p.
Proof. split; try done. intros c Hc. by exists c. Qed.

Lemma proc_frame_trans lc fd p1 p2 p3 :
  proc_frame lc fd p1 p2 -> proc_frame lc fd p2 p3 -> proc_frame lc fd p1 p3.
Proof.
  intros [a1 b1 c1 d1] [a2 b2 c2 d2]. split.
  - intros l Hl. by rewrite a2, a1.
  - intros c Hc. destruct (b1 _ Hc) as (c' & Hc' & E). destruct (b2 _ Hc') as (c'' & Hc'' & E').
    exists c''. split; [done|congruence].
  - congruence.
  - intros fd' Hne. by rewrite d2, d1.
Qed.

(** Only the heap, the streams that arrive and the device differ. *)
Lemma proc_frame_same lc fd p p' :
  p_conns p' = p_conns p -> p_fds p' = p_fds p -> p_out p' = p_out p -> proc_frame lc fd p p'.
Proof. intros Hc Hf Ho. split; unfold out_of; rewrite ?Hc, ?Ho; try done. intros c H. by exists c. Qed.

Lemma footprint_proc lm lx lc fd pc pc' s p :
  critical pc = critical pc' -> pc' <> T_Done -> proc_frame lc fd (sv_proc s) p -> dev_step pc pc' (p_dev (sv_proc s)) (p_dev p) ->
  footprint lm lx lc fd pc pc' s (set_proc p s).
Proof.
  intros Hcr Hpc [a b c d] Hdev. split; simpl; try done.
  - intros fd' _. by rewrite c.
  - by rewrite c.
  - intros x _. apply b.
  - by rewrite c.
  - intros m Hm. exists m. rewrite Hcr, eqb_reflx. done.
Qed.
End frame.

Section frame2.
Context `{FD : FileDev} {L : Libc} {N : Sockets} {St : Stdio} {P : Pthreads}.
Context {FT : FileTable FD} {StL : StdioLaws St}.

Lemma wlp_on_proc {A} (m : M proc A) Q (s : server) :
  wlp m (fun a p => Q a (set_proc p s)) (sv_proc s) -> wlp (on_proc m) Q s.
Proof. unfold wlp, on_proc. by destruct (m (sv_proc s)) as [[]|]. Qed.

(** *** Calls that stay within a connection and leave the device alone *)

Definition within (lc : loc) (fd : Z) (p p' : proc) : Prop := proc_frame lc fd p p' /\ p_dev p' = p_dev p.

Lemma within_refl lc fd p : within lc fd p p.
Proof. split; [apply proc_frame_refl|done]. Qed.
Lemma within_trans lc fd p1 p2 p3 : within lc fd p1 p2 -> within lc fd p2 p3 -> within lc fd p1 p3.
Proof. intros [? E] [? E']. split; [by eapply proc_frame_trans|congruence]. Qed.
Lemma within_same lc fd p p' :
  p_conns p' = p_conns p -> p_fds p' = p_fds p -> p_out p' = p_out p -> p_dev p' = p_dev p -> within lc fd p p'.
Proof. intros. split; [by apply proc_frame_same|done]. Qed.

(** [stays m]: [m] stays within the connection, from every state. *)
Definition stays {A} (lc : loc) (fd : Z) (m : M proc A) : Prop :=
  forall p, wlp m (fun _ p' => within lc fd p p') p.

Lemma stays_ret {A} lc fd (a : A) : stays lc fd (ret a).
Proof. intros p. apply within_refl. Qed.
Lemma stays_fault {A} lc fd f : stays lc fd (@mfault proc A f).
Proof. done. Qed.
Lemma stays_bind {A B} lc fd (m : M proc A) (k : A -> M proc B) :
  stays lc fd m -> (forall a, stays lc fd (k a)) -> stays lc fd (bind m k).
Proof.
  intros Hm Hk p. apply wlp_bind. eapply wlp_mono; [apply Hm|]. intros a p' H.
  eapply wlp_mono; [apply Hk|]. intros b p'' H'. eapply within_trans; [exact H|exact H'].
Qed.
Lemma stays_if {A} lc fd (b : bool) (m k : M proc A) :
  stays lc fd m -> stays lc fd k -> stays lc fd (if b then m else k).
Proof. by destruct b. Qed.

Ltac stay := repeat (progress wlp_steps || (apply wlp_lift; intros ? _) || (apply wlp_opt; intros ? _));
  try (by apply within_same).

Lemma stays_malloc lc fd n : stays lc fd (do_malloc n).
Proof. intros p. unfold do_malloc. stay. destruct (malloc _ _); stay. Qed.
Lemma stays_free lc fd q : stays lc fd (do_free q).
Proof. intros p. unfold do_free. destruct q; stay. Qed.
Lemma stays_realloc lc fd q n : stays lc fd (do_realloc q n).
Proof. intros p. unfold do_realloc. destruct q; stay. destruct (malloc _ _); stay. Qed.
Lemma stays_load lc fd q o : stays lc fd (do_load q o).
Proof. intros p. unfold do_load. stay. Qed.
Lemma stays_store lc fd q o bs : stays lc fd (do_store q o bs).
Proof. intros p. unfold do_store. stay. Qed.
Lemma stays_string lc fd q : stays lc fd (do_string q).
Proof. intros p. unfold do_string. stay. Qed.
Lemma stays_assert lc fd q : stays lc fd (assert_ptr q).
Proof. intros p. unfold assert_ptr. destruct (is_null q); stay. Qed.
Lemma stays_get_conn lc fd q : stays lc fd (get_conn q).
Proof. intros p. unfold get_conn. destruct q; stay. Qed.
Lemma stays_recv lc fd sock q o : stays lc fd (do_recv sock q o).
Proof.
  intros p. unfold do_recv. stay. destruct (bool_decide _); stay. destruct (in_of p sock) as [|[] evs]; stay.
  eapply wlp_mono; [apply (stays_store lc fd)|]. intros [] p' H. stay.
  eapply within_trans; [|exact H]. by apply within_same.
Qed.

Create HintDb stays discriminated.
#[local] Hint Resolve stays_ret stays_fault stays_bind stays_if stays_malloc stays_free stays_realloc stays_load
  stays_store stays_string stays_assert stays_get_conn stays_recv : stays.

(** Closing the connection at the end of the stream keeps its socket. *)
Lemma stays_mark_closed lc fd p c :
  p_conns p !! lc = Some c ->
  within lc fd p (set_conns (<[lc := TcpConnection (c_socket c) (c_client_address c) false]> (p_conns p)) p).
Proof.
  intros Hc. split; [|done]. split; simpl; try done.
  - intros l Hl. by rewrite lookup_insert_ne.
  - intros c' Hc'. rewrite lookup_insert_eq. eexists. split; [done|]. simpl. congruence.
Qed.

Lemma stays_recv_round lc fd delim q bsz csz : stays lc fd (recv_round (PLoc lc) delim q bsz csz).
Proof.
  intros p. unfold recv_round. wlp_steps. unfold get_conn at 1. wlp_steps. apply wlp_opt. intros c Hc.
  wlp_steps. eapply wlp_mono; [apply (stays_recv lc fd)|]. intros r p1 H1.
  eapply (wlp_mono _ (fun _ p' => within lc fd p1 p')).
  2: { intros a p2 H2. eapply within_trans; [exact H1|exact H2]. }
  destruct (0 <? r).
  { apply stays_bind; [auto with stays|]. intros ch. destruct (bool_decide _); [auto with stays|].
    destruct (_ =? _); auto 8 with stays. }
  destruct (r =? 0); [|by apply stays_bind; auto with stays].
  destruct (pf_conn _ _ _ _ (proj1 H1) c Hc) as (c1 & Hc1 & Es). unfold set_conn. wlp_steps.
  eapply wlp_mono; [apply (stays_free lc fd)|]. intros [] p2 H2. wlp_steps.
  eapply within_trans; [|exact H2]. split; [|done]. split; simpl; try done.
  - intros l Hl. by rewrite lookup_insert_ne.
  - intros c' Hc'. rewrite lookup_insert_eq. eexists. split; [done|]. simpl. congruence.
Qed.

Lemma stays_recv_loop lc fd delim n q bsz csz : stays lc fd (recv_loop n (PLoc lc) delim q bsz csz).
Proof.
  revert q bsz csz. induction n as [|n IH]; intros q bsz csz; simpl; [apply stays_fault|].
  apply stays_bind; [apply stays_recv_round|]. intros [r|[[q' b'] c']]; [apply stays_ret|apply IH].
Qed.

Lemma stays_receive lc fd delim : stays lc fd (tcp_connection_receive_message (PLoc lc) delim).
Proof.
  unfold tcp_connection_receive_message. do 4 (apply stays_bind; [auto with stays|]; intros ?).
  intros p. wlp_steps. apply stays_recv_loop.
Qed.

(** *** Calls on the device *)

(** Everything but the device is as it was. *)
Lemma write_chunks_wlp fd cs : forall p a ps pos,
  ft_is (p_dev p) a ps -> ps !! fd = Some pos -> 0 <= pos -> Forall (fun c => c <> []) cs ->
  wlp (write_chunks fd cs) (fun _ p' => exists d a' pos', p' = set_dev d p /\ ft_is d a' (<[fd := pos']> ps) /\ 0 <= pos') p.
Proof.
  induction cs as [|c cs IH]; intros p a ps pos Hd Hfd Hpos HF; simpl.
  - wlp_steps. exists (p_dev p), a, pos. rewrite insert_id by done. split; [by destruct p|done].
  - apply Forall_cons in HF as [Hc HF]. wlp_steps.
    destruct (ft_write (p_dev p) a ps fd pos c Hd Hfd Hpos Hc) as (a' & pos' & Hpos' & Hw).
    destruct (dev_write fd c (p_dev p)) as [r d]. simpl in Hw. wlp_steps.
    destruct (r <? 0); wlp_steps; [by exists d, a', pos'|].
    eapply wlp_mono; [apply (IH _ a' (<[fd := pos']> ps) pos'); [done|apply lookup_insert_eq|done|done]|].
    intros r' p' (d' & a2 & pos2 & -> & H & Hp2). exists d', a2, pos2. by rewrite insert_insert_eq in H.
Qed.

Lemma handle_message_wlp f q p a ps :
  ft_is (p_dev p) a ps -> is_Some (ps !! f) -> positions_ok ps ->
  wlp (handle_message f q) (fun _ p' => exists d a' pos, p' = set_dev d p /\ ft_is d a' (<[f := pos]> ps) /\ 0 <= pos) p.
Proof.
  intros Hd [pos Hf] Hp. pose proof (Hp _ _ Hf) as Hpos. unfold handle_message, do_string. wlp_steps. apply wlp_lift. intros m Hm. wlp_steps.
  destruct (decode_ioctl_command m) as [arg|] eqn:E.
  - unfold do_ioctl_seekto. wlp_steps. destruct (decode_range m arg E) as [H1 H2].
    destruct (ft_seekto (p_dev p) a ps f pos arg Hd Hf Hpos H1 H2) as (pos' & Hpos' & H).
    destruct (dev_seekto f arg (p_dev p)) as [r d]. wlp_steps. by exists d, a, pos'.
  - unfold do_fprintf, do_fflush. pose proof (stdio_nonempty (m ++ [NL])) as Hne.
    destruct (stdio_chunks (m ++ [NL])) as [now later]. apply Forall_app in Hne as [Hne1 Hne2]. wlp_steps.
    eapply wlp_mono; [by apply (write_chunks_wlp f now p a ps pos)|]. intros r p1 (d1 & a1 & pos1 & -> & Hd1 & Hp1).
    assert (forall cs, Forall (fun c => c <> []) cs -> wlp (write_chunks f cs)
      (fun _ p' => exists d a' pos, p' = set_dev d p /\ ft_is d a' (<[f := pos]> ps) /\ 0 <= pos) (set_dev d1 p)) as Hmore.
    { intros cs HF. eapply wlp_mono; [by apply (write_chunks_wlp f cs (set_dev d1 p) a1 (<[f := pos1]> ps) pos1); [|apply lookup_insert_eq|..]|].
      intros r2 p2 (d2 & a2 & pos2 & -> & Hd2 & Hp2). exists d2, a2, pos2. by rewrite insert_insert_eq in Hd2. }
    destruct (r <? 0); wlp_steps; (eapply wlp_mono; [by apply Hmore|]); intros r2 p2 H; by wlp_steps.
Qed.

(** Without knowing the device: the frames of the two calls. *)
Lemma write_chunks_frame f cs : forall p, wlp (write_chunks f cs) (fun _ p' => exists d, p' = set_dev d p) p.
Proof.
  induction cs as [|ch cs IH]; intros p; simpl; wlp_steps; [exists (p_dev p); by destruct p|].
  destruct (dev_write f ch (p_dev p)) as [r d]. wlp_steps. destruct (r <? 0); wlp_steps; [by exists d|].
  eapply wlp_mono; [apply IH|]. intros _ p' [d' ->]. by exists d'.
Qed.

Lemma handle_message_device f q p : wlp (handle_message f q) (fun _ p' => exists d, p' = set_dev d p) p.
Proof.
  unfold handle_message, do_string. wlp_steps. apply wlp_lift. intros m _. wlp_steps.
  destruct (decode_ioctl_command m) as [arg|].
  - unfold do_ioctl_seekto. wlp_steps. destruct (dev_seekto f arg (p_dev p)) as [r' d]. wlp_steps. by exists d.
  - unfold do_fprintf, do_fflush. destruct (stdio_chunks (m ++ [NL])) as [now later]. wlp_steps.
    eapply wlp_mono; [apply write_chunks_frame|]. intros r1 p1 [d1 ->].
    destruct (r1 <? 0); wlp_steps;
      (eapply wlp_mono; [apply write_chunks_frame|]); intros r2 p2 [d2 ->]; wlp_steps; by exists d2.
Qed.
Lemma handle_message_frame f q p r p' lc fd :
  handle_message f q p = Done (r, p') -> proc_frame lc fd p p'.
Proof. intros E. destruct (wlp_run _ _ _ _ _ E (handle_message_device f q p)) as [d ->]. by apply proc_frame_same. Qed.

Lemma send_file_round_frame f lc c p r p' :
  p_conns p !! lc = Some c -> send_file_round (PLoc lc) f p = Done (r, p') -> proc_frame lc (c_socket c) p p'.
Proof.
  intros Hc E.
  assert (wlp (send_file_round (PLoc lc) f) (fun _ p' => proc_frame lc (c_socket c) p p') p) as H;
    [|by eapply wlp_run in H].
  unfold send_file_round, do_read. wlp_steps. destruct (dev_read f 4096 (p_dev p)) as [[n bs] d]. wlp_steps.
  assert (proc_frame lc (c_socket c) p (set_dev d p)) as Hpf by by apply proc_frame_same.
  destruct (0 <? n); wlp_steps; [|done].
  unfold tcp_connection_send_message, get_conn, do_send. wlp_steps. apply wlp_opt. intros c' Hc'. simpl in Hc'.
  assert (c' = c) as -> by congruence. wlp_steps. destruct (bool_decide _); [|by wlp_steps].
  destruct (sock_send _ _ _) as [k| |]; wlp_steps; try done. split; simpl; try done.
  - intros c' H'. by exists c'.
  - intros fd' Hne. unfold out_of. simpl. by rewrite lookup_insert_ne.
Qed.

Lemma send_file_round_wlp f lc c p a ps pos :
  p_conns p !! lc = Some c -> ft_is (p_dev p) a ps -> ps !! f = Some pos -> 0 <= pos ->
  wlp (send_file_round (PLoc lc) f) (fun r p' => proc_frame lc (c_socket c) p p' /\
    exists pos', ft_is (p_dev p') a (<[f := pos']> ps) /\ 0 <= pos' /\ (r = None -> pos < pos' <= ft_size a)) p.
Proof.
  intros Hc Hd Hf Hp. unfold send_file_round, do_read. wlp_steps.
  destruct (ft_read (p_dev p) a ps f pos 4096 Hd Hf Hp ltac:(lia)) as (r & bs & d & pos1 & -> & Hd' & Hpos1 & Hmoved).
  wlp_steps. assert (proc_frame lc (c_socket c) p (set_dev d p)) as Hpf by by apply proc_frame_same.
  destruct (Z.ltb_spec 0 r) as [Hlt|Hge]; wlp_steps;
    [|split; [done|exists pos1; split; [exact Hd'|split; [lia|done]]]].
  specialize (Hmoved Hlt).
  assert (forall p' r, proc_frame lc (c_socket c) p p' -> p_dev p' = d -> proc_frame lc (c_socket c) p p' /\
    exists pos', ft_is (p_dev p') a (<[f := pos']> ps) /\ 0 <= pos' /\ ((r : option bool) = None -> pos < pos' <= ft_size a)) as Hend.
  { intros p' r' Hp' ->. split; [done|]. exists pos1. done. }
  unfold tcp_connection_send_message, get_conn, do_send. wlp_steps. apply wlp_opt. intros c' Hc'. simpl in Hc'.
  assert (c' = c) as -> by congruence. wlp_steps.
  destruct (bool_decide _); [|wlp_steps; by apply Hend].
  destruct (sock_send _ _ _) as [n| |]; wlp_steps; try done; [|by apply Hend].
  apply Hend; [|done]. split; simpl; try done.
  - intros c' H'. by exists c'.
  - intros fd' Hne. unfold out_of. simpl. by rewrite lookup_insert_ne.
Qed.

(** *** One step *)

Lemma get_ctx_wlp s l x Q : sv_ctxs s !! l = Some x -> Q x s -> wlp (get_ctx (PLoc l)) Q s.
Proof. intros Hx HQ. apply wlp_wp. by eapply get_ctx_wp. Qed.
Lemma get_manager_wlp s l Q :
  (forall m, sv_managers s !! l = Some m -> Q m s) -> wlp (get_manager (PLoc l)) Q s.
Proof. intros HQ. unfold get_manager. wlp_steps. by apply wlp_opt. Qed.

Lemma set_proc_id s : set_proc (sv_proc s) s = s.
Proof. by destruct s. Qed.

Section step.
Context {s : server} {lm lx lc : loc} {x : connection_ctx} {c : tcp_connection}.
Context (Hx : sv_ctxs s !! lx = Some x) (Hxm : ctx_manager x = PLoc lm) (Hxc : ctx_connection x = PLoc lc).
Context (Hc : p_conns (sv_proc s) !! lc = Some c).

(** Where a step from [pc] may lead, and what it may change on the way. *)
Definition step_ok (pc : thread_pc) : Prop :=
  wlp (thread_step (PLoc lx) (PLoc lc) pc) (fun pc' s' => footprint lm lx lc (c_socket c) pc pc' s s') s.

Lemma footprint_same pc pc' :
  critical pc = critical pc' -> open_fd pc = None -> open_fd pc' = None -> pc' <> T_Done ->
  footprint lm lx lc (c_socket c) pc pc' s s.
Proof.
  intros Hcr Ho Ho' Hpc. assert (start_fd pc' = None) by (by destruct pc'). rewrite <- (set_proc_id s) at 2.
  apply footprint_proc; [done|done|apply proc_frame_refl|]. apply dev_step_same; [congruence|by left|].
  intros f q ->. done.
Qed.

(** The mutex flag changes hands. *)
Lemma footprint_lock pc pc' m m' :
  sv_managers s !! lm = Some m -> cm_file_mutex m = critical pc -> cm_file_mutex m' = critical pc' ->
  eqb (critical pc) (critical pc') = false -> open_fd pc' = open_fd pc ->
  (start_fd pc' = None \/ start_fd pc' = start_fd pc) -> (forall f q, pc' <> T_Send f q) ->
  footprint lm lx lc (c_socket c) pc pc' s (set_managers (<[lm := m']> (sv_managers s)) s).
Proof.
  intros Hm H1 H2 He Ho Hst Hns. split; simpl; try done.
  - intros ->. by destruct pc.
  - intros c' _ H. by exists c'.
  - intros m0 Hm0. exists m'. rewrite lookup_insert_eq, He. split; [done|]. split; congruence.
  - by apply dev_step_same.
Qed.

Lemma step_start : step_ok T_Start.
Proof using Hx Hc.
  unfold step_ok, thread_step. wlp_steps. eapply get_ctx_wlp; [exact Hx|]. wlp_steps.
  by apply footprint_same.
Qed.

Lemma step_while : step_ok T_While.
Proof using Hx Hxm Hc.
  unfold step_ok, thread_step. wlp_steps. eapply get_ctx_wlp; [exact Hx|]. wlp_steps. apply wlp_on_proc.
  unfold tcp_connection_is_open, get_conn. wlp_steps. apply wlp_opt. intros c' _. wlp_steps.
  rewrite set_proc_id. destruct (c_is_open c'); wlp_steps; [|by apply footprint_same].
  rewrite Hxm. apply get_manager_wlp. intros m _. wlp_steps.
  destruct (cm_close_connections m); by apply footprint_same.
Qed.

Lemma step_receive : step_ok T_Receive.
Proof using Hx Hc.
  unfold step_ok, thread_step. wlp_steps. eapply get_ctx_wlp; [exact Hx|]. wlp_steps. apply wlp_on_proc.
  eapply wlp_mono; [apply (stays_receive lc (c_socket c))|]. intros [ok msg] p' [Hpf Hd]. wlp_steps.
  destruct ok; (apply footprint_proc; [done|done|exact Hpf|]); rewrite Hd; by apply dev_step_same; [|left|].
Qed.

Lemma step_open msg : step_ok (T_Open msg).
Proof using Hx Hxm Hc.
  unfold step_ok, thread_step. wlp_steps. eapply get_ctx_wlp; [exact Hx|]. wlp_steps. rewrite Hxm.
  apply get_manager_wlp. intros m _. wlp_steps. apply wlp_on_proc. unfold do_string. wlp_steps.
  apply wlp_lift. intros name _. rewrite set_proc_id. wlp_steps. apply wlp_on_proc. unfold do_fopen. wlp_steps.
  destruct (dev_fopen (p_dev (sv_proc s))) as [[f d]|] eqn:Ef; wlp_steps.
  - apply footprint_proc; [done|done|by apply proc_frame_same|]. simpl. intros a ps Hd Hp _.
    destruct (ft_fopen _ _ _ _ _ Hd Ef) as [Hfresh Hd']. exists a, (<[f := 0]> ps). split; [done|].
    split; [done| | | | | |done].
    + intros f' _ Hs. rewrite lookup_insert_ne; [done|]. intros <-. by rewrite Hfresh in Hs; destruct Hs.
    + intros f' [= <-]. rewrite lookup_insert_eq. split; [by eexists|by right].
    + intros f' [= <-] _. apply lookup_insert_eq.
    + intros f'. simpl. rewrite lookup_insert. case_decide; [subst; by left|by right].
    + intros f' pos. rewrite lookup_insert. case_decide; [by intros [= <-]|apply Hp].
  - rewrite set_proc_id. by apply footprint_same.
Qed.

Lemma step_lock f msg : step_ok (T_Lock f msg).
Proof using Hx Hxm Hc.
  unfold step_ok, thread_step. wlp_steps. eapply get_ctx_wlp; [exact Hx|]. wlp_steps. rewrite Hxm.
  unfold pthread_mutex_lock. wlp_steps. apply get_manager_wlp. intros m Hm.
  destruct (cm_file_mutex m) eqn:E; wlp_steps. unfold set_manager. wlp_steps.
  eapply footprint_lock; try done. by right.
Qed.

Lemma step_unlock f msg : step_ok (T_Unlock f msg).
Proof using Hx Hxm Hc.
  unfold step_ok, thread_step. wlp_steps. eapply get_ctx_wlp; [exact Hx|]. wlp_steps. rewrite Hxm.
  unfold pthread_mutex_unlock. wlp_steps. apply get_manager_wlp. intros m Hm.
  destruct (cm_file_mutex m) eqn:E; wlp_steps. unfold set_manager. wlp_steps.
  eapply footprint_lock; try done. by left.
Qed.

Lemma step_handle f msg : step_ok (T_Handle f msg).
Proof using Hx Hc StL.
  unfold step_ok, thread_step. wlp_steps. eapply get_ctx_wlp; [exact Hx|]. wlp_steps. apply wlp_on_proc.
  unfold wlp. destruct (handle_message f msg (sv_proc s)) as [[r p']|] eqn:E; [|done]. simpl.
  assert (forall pc', critical pc' = true -> open_fd pc' = Some f -> start_fd pc' = None ->
    footprint lm lx lc (c_socket c) (T_Handle f msg) pc' s (set_proc p' s)) as Hfp.
  2: { destruct (0 <=? r); by apply Hfp. }
  intros pc' Hcr Ho Hst. apply footprint_proc; [done|by intros ->| |].
  - by eapply handle_message_frame.
  - intros a ps Hd Hp Hf. specialize (Hf f eq_refl).
    destruct (wlp_run _ _ _ _ _ E (handle_message_wlp f msg _ a ps Hd Hf Hp)) as (d & a' & pos & -> & Hd' & Hpos).
    exists a', (<[f := pos]> ps). split; [done|]. apply dev_effect_move; try done. intros Hno. by destruct (Hno f msg).
Qed.

Lemma step_send f msg : step_ok (T_Send f msg).
Proof using Hx Hc.
  unfold step_ok, thread_step. wlp_steps. eapply get_ctx_wlp; [exact Hx|]. wlp_steps. apply wlp_on_proc.
  unfold wlp. destruct (send_file_round (PLoc lc) f (sv_proc s)) as [[r p']|] eqn:E; [|done]. simpl.
  assert (forall pc', critical pc' = true -> open_fd pc' = Some f -> start_fd pc' = None ->
    (forall q, pc' = T_Send f q -> r = None) ->
    footprint lm lx lc (c_socket c) (T_Send f msg) pc' s (set_proc p' s)) as Hfp.
  2: { destruct r; by apply Hfp. }
  intros pc' Hcr Ho Hst Hr. apply footprint_proc; [done|by intros ->| |].
  - eapply (send_file_round_frame f lc c); [exact Hc|exact E].
  - intros a ps Hd Hp Hf. destruct (Hf f eq_refl) as [pos Hpos].
    destruct (wlp_run _ _ _ _ _ E (send_file_round_wlp f lc c _ a ps pos Hc Hd Hpos (Hp _ _ Hpos)))
      as (_ & pos' & Hd' & Hpos' & Hmoved).
    exists a, (<[f := pos']> ps). split; [done|]. apply dev_effect_move; try done.
    intros q q' _ Hq. eapply remaining_less; [exact Hpos|]. apply Hmoved. by eapply Hr.
Qed.

Lemma step_close f msg : step_ok (T_Close f msg).
Proof using Hx Hc.
  unfold step_ok, thread_step. wlp_steps. eapply get_ctx_wlp; [exact Hx|]. wlp_steps. apply wlp_on_proc.
  eapply wlp_mono; [apply (stays_free lc (c_socket c))|]. intros [] p' [Hpf Hd]. wlp_steps.
  apply wlp_on_proc. unfold do_fclose. wlp_steps.
  change (footprint lm lx lc (c_socket c) (T_Close f msg) T_While s (set_proc (set_dev (dev_close f (p_dev p')) p') s)).
  apply footprint_proc; [done|done| |].
  - eapply proc_frame_trans; [exact Hpf|]. by apply proc_frame_same.
  - simpl. rewrite Hd. intros a ps Hda Hp Hop. exists a, (delete f ps). split; [by apply ft_close; [|apply Hop]|].
    split; [done| |done|done| | |done].
    + intros f' Hne _. rewrite lookup_delete_ne; [done|]. intros <-. done.
    + intros f'. simpl. rewrite lookup_delete. case_decide; [by intros []|]. right. split; [congruence|done].
    + intros f' pos. rewrite lookup_delete. case_decide; [done|apply Hp].
Qed.

Lemma step_exit : step_ok T_Exit.
Proof using Hx Hxc Hc.
  clear Hxm StL. unfold step_ok, thread_step. wlp_steps. eapply get_ctx_wlp; [exact Hx|]. wlp_steps. rewrite Hxc.
  apply wlp_on_proc. unfold get_conn at 1. wlp_steps. apply wlp_opt. intros c' _. rewrite set_proc_id. wlp_steps.
  apply wlp_on_proc. unfold do_string. wlp_steps. apply wlp_lift. intros name _. rewrite set_proc_id. wlp_steps.
  apply wlp_on_proc. unfold tcp_connection_destroy, get_conn. rewrite is_null_loc. wlp_steps.
  apply wlp_opt. intros c2 Hc2. assert (c2 = c) as -> by congruence. wlp_steps.
  unfold do_close. wlp_steps. eapply wlp_mono; [apply (stays_free lc (c_socket c))|].
  intros [] p' [[Hcn Hcs Hcf Hco] Hd]. wlp_steps. unfold set_conn, free_conn. wlp_steps. apply wlp_opt. intros c3 _.
  wlp_steps. unfold set_ctx. wlp_steps. simpl in *. split; simpl; try done.
  - intros l Hl. by rewrite lookup_insert_ne.
  - intros l Hl. rewrite lookup_delete_ne, lookup_insert_ne by done. by apply Hcn.
  - intros fd' Hne Hin. rewrite Hcf. clear -Hne Hin. set_solver.
  - rewrite Hcf. clear. set_solver.
  - intros _. split; [apply lookup_delete_eq|]. rewrite Hcf. clear. set_solver.
  - intros m Hm. by exists m.
  - rewrite Hd. by apply dev_step_same; [|left|].
Qed.

Lemma thread_step_footprint pc : step_ok pc.
Proof using Hx Hxm Hxc Hc StL.
  destruct pc; [apply step_start|apply step_while|apply step_receive|apply step_open|apply step_lock|apply step_handle
    |apply step_send|apply step_unlock|apply step_close|apply step_exit|].
  unfold step_ok, thread_step. wlp_steps. eapply get_ctx_wlp; [exact Hx|]. by wlp_steps.
Qed.
End step.
End frame2.
