(* ===== verification/ThreadMemory.v ===== *)
(** What a step of a server thread does to the heap, and how it can fail.

    A thread holds the client's address and, between receiving and freeing it, a message.
    [thread_step_safe] says of every step from a state where these are live strings that
    it ends, waits or dies in one of the ways of [may_fault], and that it touches no other
    object. *)

From S2P Require Import Prelude CMonad KHeap Libc DeviceSpec FileDev Process TcpConnection TcpReceive TcpSend ReceiveSafety SList ConnectionManager ServerSpec HandleMessage Session ThreadFrame.
Local Open Scope Z_scope.
Local Open Scope cmonad_scope.

Definition message_of (pc : thread_pc) : option ptr :=
  match pc with
  | T_Open q | T_Lock _ q | T_Handle _ q | T_Send _ q | T_Unlock _ q | T_Close _ q => Some q
  | _ => None
  end.

Section memory.
Context `{FD : FileDev} {L : Libc} {N : Sockets} {St : Stdio} {P : Pthreads} {LL : LibcLaws L}.

(** Why a step from [pc] may not return: receiving waits while nothing that ends it has
    arrived, or finds no memory for its buffer and asserts; taking the mutex waits while it
    is locked; sending to a client that is gone ends the process; a thread that has ended
    has no step. *)
Definition may_fault (lm : loc) (s : server) (connection : ptr) (pc : thread_pc) (f : fault) : Prop :=
  match pc with
  | T_Receive => exists lc c, connection = PLoc lc /\ p_conns (sv_proc s) !! lc = Some c /\
      receive_faults NL (in_of (sv_proc s) (c_socket c)) f
  | T_Lock _ _ => f = Blocked /\ exists m, sv_managers s !! lm = Some m /\ cm_file_mutex m = true
  | T_Send _ _ => f = Exited /\ exists fd out bs, sock_send fd out bs = SendPipe
  | T_Done => f = Blocked
  | _ => False
  end.

(** The heap outside the thread's own strings is the same, and these are still as [pc'] needs them;
    what it does not need any more is freed, but for a message that it could not store. *)
Record mem_effect (lm lc la : loc) (pc pc' : thread_pc) (s s' : server) : Prop := {
  me_frame l : l <> la -> message_of pc <> Some (PLoc l) -> is_Some (p_heap (sv_proc s) !! l) ->
    p_heap (sv_proc s') !! l = p_heap (sv_proc s) !! l;
  me_addr : pc' <> T_Done -> p_heap (sv_proc s') !! la = p_heap (sv_proc s) !! la /\
    exists c', p_conns (sv_proc s') !! lc = Some c' /\ c_client_address c' = PLoc la;
  me_msg q : message_of pc' = Some q -> exists k, q = PLoc k /\ str_at (p_heap (sv_proc s')) k /\
    (message_of pc = Some q /\ p_heap (sv_proc s') !! k = p_heap (sv_proc s) !! k \/ p_heap (sv_proc s) !! k = None);
  me_kept l : is_Some (p_heap (sv_proc s') !! l) -> message_of pc' = Some (PLoc l) \/
    is_Some (p_heap (sv_proc s) !! l) /\ (l = la -> pc' <> T_Done) /\
    (message_of pc = Some (PLoc l) -> exists q, pc = T_Open q /\ pc' = T_While);
  me_manager m : sv_managers s !! lm = Some m -> exists m', sv_managers s' !! lm = Some m' /\ cm_filename m' = cm_filename m;
}.

Lemma wsp_on_proc {A} F (m : M proc A) Q (s : server) :
  wsp F m (fun a p => Q a (set_proc p s)) (sv_proc s) -> wsp F (on_proc m) Q s.
Proof. unfold wsp, on_proc. by destruct (m (sv_proc s)) as [[]|]. Qed.

(** The calls on the device change nothing else and always return. *)
Lemma write_chunks_total f cs : forall p, wp (write_chunks f cs) (fun _ p' => exists d, p' = set_dev d p) p.
Proof.
  induction cs as [|ch cs IH]; intros p; simpl; wp_steps; [exists (p_dev p); by destruct p|].
  destruct (dev_write f ch (p_dev p)) as [r d]. wp_steps. destruct (r <? 0); wp_steps; [by exists d|].
  eapply wp_mono; [apply IH|]. intros _ p' [d' ->]. by exists d'.
Qed.

Lemma handle_message_total f k p :
  str_at (p_heap p) k -> wp (handle_message f (PLoc k)) (fun _ p' => exists d, p' = set_dev d p) p.
Proof.
  intros Hk. destruct (str_at_read _ _ Hk) as [m Hm]. unfold handle_message, do_string. wp_steps.
  eapply wp_lift; [exact Hm|]. wp_steps. destruct (decode_ioctl_command m) as [arg|].
  - unfold do_ioctl_seekto. wp_steps. destruct (dev_seekto f arg (p_dev p)) as [r d]. wp_steps. by exists d.
  - unfold do_fprintf, do_fflush. destruct (stdio_chunks (m ++ [NL])) as [now later]. wp_steps.
    eapply wp_mono; [apply write_chunks_total|]. intros r1 p1 [d1 ->].
    destruct (r1 <? 0); wp_steps;
      (eapply wp_mono; [apply write_chunks_total|]); intros r2 p2 [d2 ->]; wp_steps; by exists d2.
Qed.

(** A round of sending changes the device and what was sent. *)
Lemma send_file_round_safe f lc c p :
  p_conns p !! lc = Some c ->
  wsp (fun e => e = Exited /\ exists fd out bs, sock_send fd out bs = SendPipe) (send_file_round (PLoc lc) f)
    (fun _ p' => p_heap p' = p_heap p /\ p_conns p' = p_conns p) p.
Proof.
  intros Hc. unfold send_file_round, do_read. wsp_steps.
  destruct (dev_read f 4096 (p_dev p)) as [[n bs] d]. wsp_steps. destruct (0 <? n); wsp_steps; [|done].
  unfold tcp_connection_send_message, get_conn, do_send. wsp_steps. eapply wsp_opt; [exact Hc|]. wsp_steps.
  destruct (bool_decide _); [|by wsp_steps]. destruct (sock_send _ _ _) as [k| |] eqn:E; wsp_steps; try done.
  apply wsp_fault. split; [done|]. by eexists _, _, _.
Qed.

(** *** One step *)

Section step.
Context {s : server} {lm lx lc la ln : loc} {x : connection_ctx} {c : tcp_connection} {m : connection_manager}.
Context (Hx : sv_ctxs s !! lx = Some x) (Hxm : ctx_manager x = PLoc lm) (Hxc : ctx_connection x = PLoc lc).
Context (Hc : p_conns (sv_proc s) !! lc = Some c) (Hfd : c_socket c ∈ p_fds (sv_proc s)).
Context (Ha : c_client_address c = PLoc la) (Hla : str_at (p_heap (sv_proc s)) la).
Context (Hm : sv_managers s !! lm = Some m) (Hn : cm_filename m = PLoc ln) (Hln : str_at (p_heap (sv_proc s)) ln).

(** Nothing the record looks at has changed. *)
Lemma mem_effect_same pc pc' s' :
  p_heap (sv_proc s') = p_heap (sv_proc s) -> p_conns (sv_proc s') = p_conns (sv_proc s) ->
  (exists m', sv_managers s' !! lm = Some m' /\ cm_filename m' = cm_filename m) ->
  (forall q, message_of pc = Some q -> exists k, q = PLoc k /\ str_at (p_heap (sv_proc s)) k) ->
  (message_of pc' = message_of pc \/ exists q, pc = T_Open q /\ pc' = T_While) -> pc' <> T_Done ->
  mem_effect lm lc la pc pc' s s'.
Proof using Hc Ha Hm.
  clear Hx Hxm Hxc Hfd Hla Hn Hln. intros Eh Ec (m' & Hm' & En) Hmsg Hpc Hnd. split; rewrite ?Eh, ?Ec; try done.
  - intros _. split; [done|]. by exists c.
  - intros q Hq. destruct Hpc as [E|(q' & -> & ->)]; [|done]. rewrite E in Hq. destruct (Hmsg q Hq) as (k & -> & Hk).
    exists k. split; [done|]. split; [done|]. by left.
  - intros l Hl. destruct (decide (message_of pc' = Some (PLoc l))) as [|Hne]; [by left|right].
    split; [done|]. split; [done|]. intros Hq. destruct Hpc as [E|Hpc]; [congruence|done].
  - intros m0 Hm0. exists m'. split; [done|]. congruence.
Qed.

Definition step_safe (pc : thread_pc) : Prop :=
  (forall q, message_of pc = Some q -> exists k, q = PLoc k /\ str_at (p_heap (sv_proc s)) k /\ k <> la) ->
  (critical pc = true -> cm_file_mutex m = true) ->
  (pc = T_Receive -> zlen (in_of (sv_proc s) (c_socket c)) < 2 ^ 30) ->
  wsp (may_fault lm s (PLoc lc) pc) (thread_step (PLoc lx) (PLoc lc) pc) (fun pc' s' => mem_effect lm lc la pc pc' s s') s.

Lemma get_ctx_wsp F Q : Q x s -> wsp F (get_ctx (PLoc lx)) Q s.
Proof using Hx. intros HQ. apply wsp_wp. by eapply get_ctx_wp. Qed.
Lemma get_manager_wsp F Q : Q m s -> wsp F (get_manager (PLoc lm)) Q s.
Proof using Hm. intros HQ. apply wsp_wp. by eapply get_manager_wp. Qed.

Ltac start := intros Hmsg Hcr Hin; unfold thread_step; wsp_steps; apply get_ctx_wsp; wsp_steps.
Ltac same := apply mem_effect_same; simpl; try done; solve [by exists m|naive_solver|right; by eexists].

Lemma safe_start : step_safe T_Start.
Proof using Hx Hc Ha Hm. start. same. Qed.

Lemma safe_while : step_safe T_While.
Proof using Hx Hxm Hc Ha Hm.
  start. apply wsp_on_proc. unfold tcp_connection_is_open, get_conn. wsp_steps.
  eapply wsp_opt; [exact Hc|]. wsp_steps. rewrite set_proc_id. destruct (c_is_open c); wsp_steps; [|same].
  rewrite Hxm. apply get_manager_wsp. wsp_steps. destruct (cm_close_connections m); same.
Qed.

Lemma safe_receive : step_safe T_Receive.
Proof using Hx Hc Hfd Ha Hla Hm LL.
  start. apply wsp_on_proc. eapply wsp_mono.
  { eapply wsp_weaken; [|apply (receive_safe _ lc c NL Hc Hfd (Hin eq_refl))]. intros f Hf. by exists lc, c. }
  intros [ok msg] p' [(Hh & (c' & Hc' & Ea) & Hr & Hnew) _]. simpl in Hr. wsp_steps. split; simpl.
  - intros l _ _. apply Hh.
  - intros _. split; [destruct Hla as (bs & E & _); apply Hh; by exists bs|]. exists c'. by rewrite Ea.
  - intros q Hq. destruct ok; [|done]. destruct (Hr eq_refl) as (k & -> & Hk & Hs). injection Hq as <-.
    exists k. split; [done|]. split; [done|]. by right.
  - intros l [Hl|[= -> ->]]%Hnew; [right|by left]. split; [done|]. split; [by destruct ok|done].
  - intros m0 Hm0. by exists m0.
Qed.

Lemma safe_open q : step_safe (T_Open q).
Proof using Hx Hxm Hc Ha Hm Hn Hln.
  start. rewrite Hxm. apply get_manager_wsp. wsp_steps. apply wsp_on_proc. unfold do_string. wsp_steps.
  rewrite Hn. destruct (str_at_read _ _ Hln) as [name Hname]. eapply wsp_lift; [exact Hname|].
  rewrite set_proc_id. wsp_steps. apply wsp_on_proc. unfold do_fopen. wsp_steps.
  destruct (dev_fopen (p_dev (sv_proc s))) as [[f d]|] eqn:Ef; wsp_steps; same.
Qed.

Lemma safe_lock f q : step_safe (T_Lock f q).
Proof using Hx Hxm Hc Ha Hm.
  start. rewrite Hxm. unfold pthread_mutex_lock. wsp_steps. apply get_manager_wsp.
  destruct (cm_file_mutex m) eqn:E; [apply wsp_fault; split; [done|by exists m]|].
  unfold set_manager. wsp_steps. apply mem_effect_same; simpl; try done; [|naive_solver|by left].
  rewrite lookup_insert_eq. by eexists.
Qed.

Lemma safe_unlock f q : step_safe (T_Unlock f q).
Proof using Hx Hxm Hc Ha Hm.
  start. rewrite Hxm. unfold pthread_mutex_unlock. wsp_steps. apply get_manager_wsp.
  rewrite (Hcr eq_refl). unfold set_manager. wsp_steps.
  apply mem_effect_same; simpl; try done; [|naive_solver|by left]. rewrite lookup_insert_eq. by eexists.
Qed.

Lemma safe_handle f q : step_safe (T_Handle f q).
Proof using Hx Hc Ha Hm.
  start. destruct (Hmsg q eq_refl) as (k & -> & Hk & _). apply wsp_on_proc. apply wsp_wp.
  eapply wp_mono; [by apply handle_message_total|]. intros r p' [d ->].
  apply wp_ret. destruct (0 <=? r); (apply mem_effect_same; simpl; try done; [by exists m|naive_solver|by left]).
Qed.

Lemma safe_send f q : step_safe (T_Send f q).
Proof using Hx Hc Ha Hm.
  start. apply wsp_on_proc. eapply wsp_mono; [apply (send_file_round_safe f lc c _ Hc)|].
  intros r p' [Eh Ec]. wsp_steps.
  destruct r; (apply mem_effect_same; simpl; [done|done|by exists m|naive_solver|by left|done]).
Qed.

Lemma safe_close f q : step_safe (T_Close f q).
Proof using Hx Hc Ha Hla Hm.
  start. destruct (Hmsg q eq_refl) as (k & -> & (bs & Hk & _) & Hne). apply wsp_on_proc. unfold do_free. wsp_steps.
  eapply wsp_opt; [exact Hk|]. wsp_steps. apply wsp_on_proc. unfold do_fclose. wsp_steps. split; simpl; try done.
  - intros l _ Hl _. rewrite lookup_delete_ne; [done|]. congruence.
  - intros _. rewrite lookup_delete_ne by done. split; [done|]. by exists c.
  - intros l [b [Hl Hb]%lookup_delete_Some]. right. split; [by exists b|]. split; [done|]. congruence.
  - intros m0 Hm0. by exists m0.
Qed.

Lemma safe_exit : step_safe T_Exit.
Proof using Hx Hxc Hc Ha Hla Hm.
  start. rewrite Hxc. apply wsp_on_proc. unfold get_conn at 1. wsp_steps. eapply wsp_opt; [exact Hc|].
  rewrite set_proc_id. wsp_steps. apply wsp_on_proc. unfold do_string. wsp_steps. rewrite Ha.
  destruct (str_at_read _ _ Hla) as [name Hname]. eapply wsp_lift; [exact Hname|]. rewrite set_proc_id. wsp_steps.
  apply wsp_on_proc. unfold tcp_connection_destroy, get_conn. rewrite is_null_loc. wsp_steps.
  eapply wsp_opt; [exact Hc|]. wsp_steps. unfold do_close. wsp_steps. rewrite Ha. unfold do_free. wsp_steps.
  destruct Hla as (bs & Hbs & _). eapply wsp_opt; [exact Hbs|]. wsp_steps. unfold set_conn, free_conn. wsp_steps.
  eapply wsp_opt; [apply lookup_insert_eq|]. wsp_steps. unfold set_ctx. wsp_steps. split; simpl; try done.
  - intros l Hl _ _. by rewrite lookup_delete_ne.
  - intros l [b [Hl Hb]%lookup_delete_Some]. right. split; [by exists b|]. split; [by intros ->|done].
  - intros m0 Hm0. by exists m0.
Qed.

Lemma thread_step_safe pc : step_safe pc.
Proof using Hx Hxm Hxc Hc Hfd Ha Hla Hm Hn Hln LL.
  destruct pc; [apply safe_start|apply safe_while|apply safe_receive|apply safe_open|apply safe_lock|apply safe_handle
    |apply safe_send|apply safe_unlock|apply safe_close|apply safe_exit|].
  start. by apply wsp_fault.
Qed.
End step.
End memory.
