(* ===== verification/ServerThreads.v ===== *)
(** The concurrent server: any number of threads, interleaved.

    [sys_step] is one step of one thread, the arrival of bytes on a socket, or the main
    thread accepting and registering a connection or setting [close_connections].
    [sys_inv] is the invariant of the reachable states; it makes the mutex, the
    descriptors and the connections what the code takes them to be: one thread in the
    critical section, and no descriptor, connection or socket in the hands of two threads. *)

From S2P Require Import Prelude CMonad KHeap Libc DeviceSpec FileDev Process TcpConnection TcpReceive TcpSend SList ConnectionManager ServerSpec HandleMessage Session ManagerLife ThreadFrame.
Local Open Scope Z_scope.
Local Open Scope cmonad_scope.

Section threads.
Context `{FD : FileDev} {L : Libc} {N : Sockets} {St : Stdio} {P : Pthreads}.

(** The main thread: [accept] gave the socket [fd] to a client at [addr]. *)
Definition accept_and_register (lm : loc) (fd : Z) (addr : bytes) : M server bool :=
  on_proc (mmodify (fun p => set_fds ({[fd]} ∪ p_fds p) p));;
  let! connection := on_proc (tcp_connection_create fd addr) in
  if is_null connection then on_proc (do_close fd);; ret false
  else connection_manager_register_connection (PLoc lm) connection.

Inductive sys_step (lm : loc) : server -> server -> Prop :=
  | step_thread tid s s' : run_thread tid s = Done (tt, s') -> sys_step lm s s'
  | step_arrive fd evs s : sys_step lm s (arrive fd evs s)
  | step_accept fd addr b s s' :
      (fd ∉ p_fds (sv_proc s)) -> accept_and_register lm fd addr s = Done (b, s') -> sys_step lm s s'
  | step_shutdown m s :
      sv_managers s !! lm = Some m ->
      sys_step lm s (set_managers (<[lm := ConnectionManager (cm_filename m) (cm_file_mutex m) true
                                             (cm_connection_ctx_list m)]> (sv_managers s)) s).

Context {FT : FileTable FD} {StL : StdioLaws St} {LL : LibcLaws L} {PL : PthreadsLaws P}.

(** The live thread [tid] works for the context [lx], the connection [lc], the socket [fd]. *)
Record conn_of (lm : loc) (s : server) (tid : Z) (t : thread) (lx lc : loc) (fd : Z) : Prop := {
  co_thread : sv_threads s !! tid = Some t;
  co_alive : th_pc t <> T_Done;
  co_ctx : th_ctx t = PLoc lx;
  co_x : exists x, sv_ctxs s !! lx = Some x /\ ctx_manager x = PLoc lm /\ ctx_connection x = PLoc lc;
  co_local : th_pc t <> T_Start -> th_connection t = PLoc lc;
  co_conn : exists c, p_conns (sv_proc s) !! lc = Some c /\ c_socket c = fd;
  co_fd : fd ∈ p_fds (sv_proc s);
}.

Record sys_inv (lm : loc) (s : server) (a : ft_state) (ps : gmap Z Z) : Prop := {
  si_dev : ft_is (p_dev (sv_proc s)) a ps;
  si_pos : positions_ok ps;
  si_alive tid t : sv_threads s !! tid = Some t -> th_pc t <> T_Done ->
    exists lx lc fd, conn_of lm s tid t lx lc fd;
  si_disjoint tid1 t1 lx1 lc1 fd1 tid2 t2 lx2 lc2 fd2 :
    conn_of lm s tid1 t1 lx1 lc1 fd1 -> conn_of lm s tid2 t2 lx2 lc2 fd2 -> tid1 <> tid2 ->
    lx1 <> lx2 /\ lc1 <> lc2 /\ fd1 <> fd2;
  si_open tid t f : sv_threads s !! tid = Some t -> open_fd (th_pc t) = Some f -> is_Some (ps !! f);
  si_start tid t f : sv_threads s !! tid = Some t -> start_fd (th_pc t) = Some f -> ps !! f = Some 0;
  si_open_disjoint tid1 t1 tid2 t2 f :
    sv_threads s !! tid1 = Some t1 -> sv_threads s !! tid2 = Some t2 ->
    open_fd (th_pc t1) = Some f -> open_fd (th_pc t2) = Some f -> tid1 = tid2;
  si_lock : exists m, sv_managers s !! lm = Some m /\
    (cm_file_mutex m = true <-> exists tid t, sv_threads s !! tid = Some t /\ critical (th_pc t) = true);
  si_excl tid1 t1 tid2 t2 :
    sv_threads s !! tid1 = Some t1 -> sv_threads s !! tid2 = Some t2 ->
    critical (th_pc t1) = true -> critical (th_pc t2) = true -> tid1 = tid2;
}.

Lemma conn_of_det lm s tid t lx lc fd t' lx' lc' fd' :
  conn_of lm s tid t lx lc fd -> conn_of lm s tid t' lx' lc' fd' -> t = t' /\ lx = lx' /\ lc = lc' /\ fd = fd'.
Proof.
  intros [H1 _ H2 (x & Hx & _ & Hc) _ (c & Hc1 & Hf) _] [H1' _ H2' (x' & Hx' & _ & Hc') _ (c' & Hc1' & Hf') _].
  assert (t = t') as <- by congruence. assert (lx = lx') as <- by congruence.
  assert (x = x') as <- by congruence. assert (lc = lc') as <- by congruence.
  assert (c = c') as <- by congruence. split_and!; congruence.
Qed.

Lemma start_open pc f : start_fd pc = Some f -> open_fd pc = Some f.
Proof. by destruct pc. Qed.

(** *** One thread steps *)

(** The successor of [run_thread], with the footprint of the step. *)
Lemma run_thread_inv lm s a ps tid s' :
  sys_inv lm s a ps -> run_thread tid s = Done (tt, s') ->
  exists t lx lc fd pc' s1, conn_of lm s tid t lx lc fd /\
    thread_step (PLoc lx) (PLoc lc) (th_pc t) s = Done (pc', s1) /\
    footprint lm lx lc fd (th_pc t) pc' s s1 /\
    s' = set_threads (<[tid := Thread (PLoc lx) (PLoc lc) pc']> (sv_threads s1)) s1.
Proof using StL.
  intros Hinv Hrun. unfold run_thread, bind, mget, mopt in Hrun. simpl in Hrun.
  destruct (sv_threads s !! tid) as [t|] eqn:Ht; [|done]. unfold ret in Hrun. simpl in Hrun.
  destruct (decide (th_pc t = T_Done)) as [Hd|Hd].
  { rewrite Hd in Hrun. simpl in Hrun. unfold thread_step, bind in Hrun.
    destruct (get_ctx (th_ctx t) s) as [[]|]; done. }
  destruct (si_alive _ _ _ _ Hinv tid t Ht Hd) as (lx & lc & fd & Hco).
  pose proof Hco as [_ _ Hctx (x & Hx & Hxm & Hxc) Hloc (c & Hc & Hfd) _].
  assert (thread_connection (th_ctx t) (th_connection t) (th_pc t) s = Done (PLoc lc, s)) as Hcon.
  { rewrite Hctx. destruct (decide (th_pc t = T_Start)) as [E|E].
    - rewrite E. simpl. unfold get_ctx, bind, mget, mopt. simpl. by rewrite Hx, <- Hxc.
    - rewrite (Hloc E). by destruct (th_pc t). }
  rewrite Hcon, Hctx in Hrun.
  destruct (thread_step (PLoc lx) (PLoc lc) (th_pc t) s) as [[pc' s1]|] eqn:Hstep; [|done].
  injection Hrun as <-. exists t, lx, lc, fd, pc', s1. split; [done|]. split; [done|]. split; [|done].
  rewrite <- Hfd. exact (wlp_run _ _ _ _ _ Hstep (thread_step_footprint Hx Hxm Hxc Hc (th_pc t))).
Qed.

Section one_step.
Context {lm : loc} {s s1 : server} {a : ft_state} {ps : gmap Z Z} (Hinv : sys_inv lm s a ps).
Context {tid : Z} {t : thread} {lx lc : loc} {fd : Z} (Hco : conn_of lm s tid t lx lc fd).
Context {pc' : thread_pc} (Hfp : footprint lm lx lc fd (th_pc t) pc' s s1).

Definition after : server := set_threads (<[tid := Thread (PLoc lx) (PLoc lc) pc']> (sv_threads s1)) s1.

Lemma after_self : sv_threads after !! tid = Some (Thread (PLoc lx) (PLoc lc) pc').
Proof. apply lookup_insert_eq. Qed.
Lemma after_other tid2 : tid2 <> tid -> sv_threads after !! tid2 = sv_threads s !! tid2.
Proof. intros. simpl. rewrite lookup_insert_ne by done. by rewrite (fp_threads _ _ _ _ _ _ _ _ Hfp). Qed.

(** The other threads keep what they work with. *)
Lemma conn_of_other tid2 t2 lx2 lc2 fd2 :
  tid2 <> tid -> conn_of lm s tid2 t2 lx2 lc2 fd2 -> conn_of lm after tid2 t2 lx2 lc2 fd2.
Proof using Hinv Hco Hfp.
  intros Hne Hco2. destruct (si_disjoint _ _ _ _ Hinv _ _ _ _ _ _ _ _ _ _ Hco2 Hco Hne) as (Hlx & Hlc & Hfd).
  destruct Hco2 as [H1 H2 H3 (x & Hx & Hxx) H5 (c & Hc & Hs) H7]. split; [by rewrite after_other|done|done| |done| |].
  - exists x. split; [|done]. simpl. by rewrite (fp_ctxs _ _ _ _ _ _ _ _ Hfp).
  - exists c. split; [|done]. simpl. by rewrite (fp_conns _ _ _ _ _ _ _ _ Hfp).
  - simpl. by apply (fp_fds _ _ _ _ _ _ _ _ Hfp).
Qed.

Lemma conn_of_self :
  pc' <> T_Done -> conn_of lm after tid (Thread (PLoc lx) (PLoc lc) pc') lx lc fd.
Proof using Hco Hfp.
  intros Hpc. destruct Hco as [H1 H2 H3 (x & Hx & Hxx) H5 (c & Hc & Hs) H7].
  destruct (fp_conn_self _ _ _ _ _ _ _ _ Hfp c Hpc Hc) as (c' & Hc' & E).
  split; [apply after_self|done|done| |done| |].
  - exists x. split; [|done]. simpl. by rewrite (fp_ctx_self _ _ _ _ _ _ _ _ Hfp).
  - exists c'. split; [done|congruence].
  - by apply (fp_fd_self _ _ _ _ _ _ _ _ Hfp).
Qed.

(** So every live thread of the new state has what it had. *)
Lemma conn_of_after tid2 t2 lx2 lc2 fd2 :
  conn_of lm after tid2 t2 lx2 lc2 fd2 -> exists t0, conn_of lm s tid2 t0 lx2 lc2 fd2.
Proof using Hinv Hco Hfp.
  intros Hco2. destruct (decide (tid2 = tid)) as [->|Hne].
  - pose proof (co_thread _ _ _ _ _ _ _ Hco2) as Ht. rewrite after_self in Ht. injection Ht as <-.
    pose proof (conn_of_self (co_alive _ _ _ _ _ _ _ Hco2)) as Hs.
    destruct (conn_of_det _ _ _ _ _ _ _ _ _ _ _ Hco2 Hs) as (_ & -> & -> & ->). by exists t.
  - pose proof (co_thread _ _ _ _ _ _ _ Hco2) as Ht. rewrite after_other in Ht by done.
    destruct (si_alive _ _ _ _ Hinv tid2 t2 Ht (co_alive _ _ _ _ _ _ _ Hco2)) as (lx' & lc' & fd' & Hs).
    destruct (conn_of_det _ _ _ _ _ _ _ _ _ _ _ Hco2 (conn_of_other _ _ _ _ _ Hne Hs)) as (_ & -> & -> & ->).
    by exists t2.
Qed.

Lemma after_thread_other tid2 t2 :
  tid2 <> tid -> sv_threads after !! tid2 = Some t2 -> sv_threads s !! tid2 = Some t2.
Proof using Hfp. intros Hne. by rewrite after_other. Qed.
Lemma after_thread_self t2 : sv_threads after !! tid = Some t2 -> t2 = Thread (PLoc lx) (PLoc lc) pc'.
Proof. rewrite after_self. by intros [= <-]. Qed.

(** A live thread of the new state is this one, or another with what it had. *)
Lemma after_back tid2 t2 lx2 lc2 fd2 :
  conn_of lm after tid2 t2 lx2 lc2 fd2 ->
  tid2 = tid /\ t2 = Thread (PLoc lx) (PLoc lc) pc' /\ lx2 = lx /\ lc2 = lc /\ fd2 = fd \/
  tid2 <> tid /\ fd2 <> fd /\ lc2 <> lc /\ conn_of lm s tid2 t2 lx2 lc2 fd2.
Proof using Hinv Hco Hfp.
  intros Hco2. pose proof (co_thread _ _ _ _ _ _ _ Hco2) as Ht. destruct (decide (tid2 = tid)) as [->|Hne]; [left|right].
  - apply after_thread_self in Ht as ->.
    by destruct (conn_of_det _ _ _ _ _ _ _ _ _ _ _ Hco2 (conn_of_self (co_alive _ _ _ _ _ _ _ Hco2))) as (_ & -> & -> & ->).
  - rewrite after_other in Ht by done. destruct (conn_of_after _ _ _ _ _ Hco2) as [t0 Hco0].
    assert (t0 = t2) as -> by (pose proof (co_thread _ _ _ _ _ _ _ Hco0); congruence).
    by destruct (si_disjoint _ _ _ _ Hinv _ _ _ _ _ _ _ _ _ _ Hco0 Hco Hne) as (_ & ? & ?).
Qed.

(** The descriptor the step leaves open is not another thread's. *)
Lemma after_fd_fresh a' ps' tid2 t2 f :
  dev_effect (th_pc t) pc' a a' ps ps' ->
  tid2 <> tid -> sv_threads s !! tid2 = Some t2 -> open_fd (th_pc t2) = Some f -> open_fd pc' = Some f -> False.
Proof using Hinv Hco.
  intros He Hne Ht2 Hf2 Hf. destruct (de_open _ _ _ _ _ _ He f Hf) as [_ [Hf0|Hf0]].
  - by pose proof (si_open_disjoint _ _ _ _ Hinv _ _ _ _ _ Ht2 (co_thread _ _ _ _ _ _ _ Hco) Hf2 Hf0).
  - destruct (si_open _ _ _ _ Hinv _ _ _ Ht2 Hf2) as [? E]. by rewrite Hf0 in E.
Qed.

(** While another thread is in the critical section, this one stays out of it. *)
Lemma after_not_critical tid2 t2 :
  tid2 <> tid -> sv_threads s !! tid2 = Some t2 -> critical (th_pc t2) = true ->
  critical (th_pc t) = false /\ critical pc' = false.
Proof using Hinv Hco Hfp.
  intros Hne Ht2 Hc2. destruct (critical (th_pc t)) eqn:E.
  - by pose proof (si_excl _ _ _ _ Hinv _ _ _ _ Ht2 (co_thread _ _ _ _ _ _ _ Hco) Hc2 E).
  - split; [done|]. destruct (critical pc') eqn:E'; [|done]. exfalso.
    destruct (si_lock _ _ _ _ Hinv) as (m & Hm & Hlock).
    destruct (fp_lock _ _ _ _ _ _ _ _ Hfp m Hm) as (m' & _ & Hm'). rewrite E, E' in Hm'. simpl in Hm'.
    destruct Hm' as [Hf _]. assert (cm_file_mutex m = true) by (apply Hlock; by exists tid2, t2). congruence.
Qed.

(** The mutex is still locked exactly when some thread is in the critical section. *)
Lemma after_lock :
  exists m, sv_managers after !! lm = Some m /\
    (cm_file_mutex m = true <-> exists tid t, sv_threads after !! tid = Some t /\ critical (th_pc t) = true).
Proof using Hinv Hco Hfp.
  destruct (si_lock _ _ _ _ Hinv) as (m & Hm & Hlock). pose proof (co_thread _ _ _ _ _ _ _ Hco) as Ht.
  destruct (fp_lock _ _ _ _ _ _ _ _ Hfp m Hm) as (m' & Hm' & Hcr). exists m'. split; [exact Hm'|].
  assert (cm_file_mutex m' = true <-> critical pc' = true \/
            exists tid2 t2, tid2 <> tid /\ sv_threads s !! tid2 = Some t2 /\ critical (th_pc t2) = true) as ->.
  { destruct (eqb (critical (th_pc t)) (critical pc')) eqn:Eq.
    - apply eqb_prop in Eq. rewrite Hcr, Hlock. split.
      + intros (tid2 & t2 & Ht2 & Hc2). destruct (decide (tid2 = tid)) as [->|Hne]; [|right; by exists tid2, t2].
        left. assert (t2 = t) as -> by congruence. congruence.
      + intros [Hc|(tid2 & t2 & _ & Ht2 & Hc2)]; [exists tid, t; split; [done|congruence]|by exists tid2, t2].
    - destruct Hcr as [_ ->]. split; [by left|]. intros [?|(tid2 & t2 & Hne & Ht2 & Hc2)]; [done|].
      destruct (after_not_critical _ _ Hne Ht2 Hc2) as [E1 E2]. by rewrite E1, E2 in Eq. }
  split.
  - intros [Hc|(tid2 & t2 & Hne & Ht2 & Hc2)].
    + exists tid, (Thread (PLoc lx) (PLoc lc) pc'). split; [apply after_self|done].
    + exists tid2, t2. by rewrite after_other.
  - intros (tid2 & t2 & Ht2 & Hc2). destruct (decide (tid2 = tid)) as [->|Hne].
    + apply after_thread_self in Ht2 as ->. by left.
    + right. exists tid2, t2. split; [done|]. split; [by apply after_thread_other|done].
Qed.

(** The step keeps the invariant. *)
Lemma inv_after_with a' ps' :
  ft_is (p_dev (sv_proc s1)) a' ps' -> dev_effect (th_pc t) pc' a a' ps ps' -> sys_inv lm after a' ps'.
Proof using Hinv Hco Hfp.
  intros Hd He. pose proof (co_thread _ _ _ _ _ _ _ Hco) as Ht.
  split; [exact Hd|apply (de_pos _ _ _ _ _ _ He)| | | | | |apply after_lock|].
  - intros tid2 t2 Ht2 Ha2. destruct (decide (tid2 = tid)) as [->|Hne].
    + apply after_thread_self in Ht2 as ->. exists lx, lc, fd. by apply conn_of_self.
    + destruct (si_alive _ _ _ _ Hinv _ _ (after_thread_other _ _ Hne Ht2) Ha2) as (lx2 & lc2 & fd2 & Hco2).
      exists lx2, lc2, fd2. by apply conn_of_other.
  - intros tid1 t1 lx1 lc1 fd1 tid2 t2 lx2 lc2 fd2 H1 H2 Hne.
    destruct (conn_of_after _ _ _ _ _ H1) as [t1' H1']. destruct (conn_of_after _ _ _ _ _ H2) as [t2' H2'].
    by eapply (si_disjoint _ _ _ _ Hinv).
  - intros tid2 t2 f Ht2 Hf. destruct (decide (tid2 = tid)) as [->|Hne].
    + apply after_thread_self in Ht2 as ->. by apply (de_open _ _ _ _ _ _ He).
    + apply after_thread_other in Ht2; [|done]. pose proof (si_open _ _ _ _ Hinv _ _ _ Ht2 Hf) as Hs.
      rewrite (de_other _ _ _ _ _ _ He f); [done| |done]. intros Hf0.
      by pose proof (si_open_disjoint _ _ _ _ Hinv _ _ _ _ _ Ht2 Ht Hf Hf0).
  - intros tid2 t2 f Ht2 Hf. destruct (decide (tid2 = tid)) as [->|Hne].
    + apply after_thread_self in Ht2 as ->. apply (de_start _ _ _ _ _ _ He f Hf).
      intros Hf0. by eapply (si_start _ _ _ _ Hinv).
    + apply after_thread_other in Ht2; [|done]. pose proof (si_start _ _ _ _ Hinv _ _ _ Ht2 Hf) as Hs.
      rewrite (de_other _ _ _ _ _ _ He f); [done| |by eexists]. intros Hf0.
      pose proof (si_open_disjoint _ _ _ _ Hinv _ _ _ _ _ Ht2 Ht (start_open _ _ Hf) Hf0). done.
  - intros tid1 t1 tid2 t2 f H1 H2 Hf1 Hf2.
    destruct (decide (tid1 = tid)) as [->|Hne1], (decide (tid2 = tid)) as [->|Hne2]; [done| | |].
    + apply after_thread_self in H1 as ->. apply after_thread_other in H2; [|done].
      by destruct (after_fd_fresh _ _ _ _ _ He Hne2 H2 Hf2).
    + apply after_thread_self in H2 as ->. apply after_thread_other in H1; [|done].
      by destruct (after_fd_fresh _ _ _ _ _ He Hne1 H1 Hf1).
    + eapply (si_open_disjoint _ _ _ _ Hinv); [by apply after_thread_other|by apply after_thread_other|done|done].
  - intros tid1 t1 tid2 t2 H1 H2 Hc1 Hc2.
    destruct (decide (tid1 = tid)) as [->|Hne1], (decide (tid2 = tid)) as [->|Hne2]; [done| | |].
    + apply after_thread_self in H1 as ->. apply after_thread_other in H2; [|done].
      destruct (after_not_critical _ _ Hne2 H2 Hc2) as [_ E]. simpl in Hc1. congruence.
    + apply after_thread_self in H2 as ->. apply after_thread_other in H1; [|done].
      destruct (after_not_critical _ _ Hne1 H1 Hc1) as [_ E]. simpl in Hc2. congruence.
    + eapply (si_excl _ _ _ _ Hinv); [by apply after_thread_other|by apply after_thread_other|done|done].
Qed.

Lemma inv_after :
  exists a' ps', sys_inv lm after a' ps' /\ dev_effect (th_pc t) pc' a a' ps ps'.
Proof using Hinv Hco Hfp.
  destruct (fp_dev _ _ _ _ _ _ _ _ Hfp a ps (si_dev _ _ _ _ Hinv) (si_pos _ _ _ _ Hinv)) as (a' & ps' & Hd & He).
  { intros f Hf. eapply (si_open _ _ _ _ Hinv); [apply Hco|done]. }
  exists a', ps'. split; [|done]. by apply inv_after_with.
Qed.
End one_step.

(** *** The other steps *)

(** The live threads and their contexts, connections and sockets are the same. *)
Record same_live (s s' : server) : Prop := {
  sl_threads tid t : th_pc t <> T_Done -> sv_threads s' !! tid = Some t <-> sv_threads s !! tid = Some t;
  sl_ctxs tid t l : sv_threads s !! tid = Some t -> th_pc t <> T_Done -> th_ctx t = PLoc l ->
    sv_ctxs s' !! l = sv_ctxs s !! l;
  sl_conns : p_conns (sv_proc s') = p_conns (sv_proc s);
  sl_fds : p_fds (sv_proc s') = p_fds (sv_proc s);
}.
Lemma same_live_eq s s' :
  sv_threads s' = sv_threads s -> sv_ctxs s' = sv_ctxs s ->
  p_conns (sv_proc s') = p_conns (sv_proc s) -> p_fds (sv_proc s') = p_fds (sv_proc s) -> same_live s s'.
Proof. intros Et Ec En Ef. split; try done; intros; by rewrite ?Et, ?Ec. Qed.
Lemma conn_of_live lm s s' tid t lx lc fd : same_live s s' -> conn_of lm s tid t lx lc fd <-> conn_of lm s' tid t lx lc fd.
Proof.
  intros [Et Ec En Ef]. split; intros [H1 H2 H3 (x & Hx & Hxx) H5 H6 H7].
  - split; rewrite ?En, ?Ef; try done; [by apply Et|]. exists x. split; [by rewrite (Ec tid t)|done].
  - apply Et in H1; [|done]. split; rewrite <- ?En, <- ?Ef; try done.
    exists x. split; [by rewrite <- (Ec tid t)|done].
Qed.

(** Everything the invariant looks at is the same. *)
Lemma inv_live lm s s' a ps m m' :
  sys_inv lm s a ps -> same_live s s' -> p_dev (sv_proc s') = p_dev (sv_proc s) ->
  sv_managers s !! lm = Some m -> sv_managers s' !! lm = Some m' -> cm_file_mutex m' = cm_file_mutex m ->
  sys_inv lm s' a ps.
Proof.
  intros [H1 H2 H3 H4 H5 H5' H6 (m0 & Hm0 & H7) H8] Hs Ed Hm Hm' Emut.
  assert (forall tid t, th_pc t <> T_Done -> sv_threads s' !! tid = Some t -> sv_threads s !! tid = Some t) as Ht.
  { intros tid t Hpc. by apply (sl_threads _ _ Hs). }
  assert (forall t f, open_fd (th_pc t) = Some f -> th_pc t <> T_Done) as Hopen by (intros t f Hf E; by rewrite E in Hf).
  assert (forall t, critical (th_pc t) = true -> th_pc t <> T_Done) as Hcrit by (intros t Hf E; by rewrite E in Hf).
  split; rewrite ?Ed; try done.
  - intros tid t Htt Ha. destruct (H3 tid t (Ht _ _ Ha Htt) Ha) as (lx & lc & fd & Hc).
    exists lx, lc, fd. by apply (conn_of_live lm s s').
  - intros tid1 t1 lx1 lc1 fd1 tid2 t2 lx2 lc2 fd2 Hc1 Hc2. apply (conn_of_live lm s s') in Hc1, Hc2; [|done..]. by eapply H4.
  - intros tid t f Htt Hf. eapply H5; [|done]. eapply Ht; [|done]. by eapply Hopen.
  - intros tid t f Htt Hf. eapply H5'; [|done]. eapply Ht; [|done]. by eapply Hopen, start_open.
  - intros tid1 t1 tid2 t2 f Ht1 Ht2 Hf1 Hf2. eapply (H6 tid1 t1 tid2 t2 f); try done; (eapply Ht; [|done]); by eapply Hopen.
  - exists m'. split; [done|]. rewrite Emut. assert (m0 = m) as <- by congruence. rewrite H7.
    split; intros (tid & t & Htt & Hc); exists tid, t; (split; [|done]); by apply (sl_threads _ _ Hs); auto.
  - intros tid1 t1 tid2 t2 Ht1 Ht2 Hc1 Hc2. eapply (H8 tid1 t1 tid2 t2); try done; (eapply Ht; [|done]); by eapply Hcrit.
Qed.
Lemma inv_env lm s s' a ps m m' :
  sys_inv lm s a ps -> sv_threads s' = sv_threads s -> sv_ctxs s' = sv_ctxs s ->
  p_conns (sv_proc s') = p_conns (sv_proc s) -> p_fds (sv_proc s') = p_fds (sv_proc s) ->
  p_dev (sv_proc s') = p_dev (sv_proc s) ->
  sv_managers s !! lm = Some m -> sv_managers s' !! lm = Some m' -> cm_file_mutex m' = cm_file_mutex m ->
  sys_inv lm s' a ps.
Proof. intros. eapply inv_live; [done|by apply same_live_eq|done..]. Qed.
(** More connections and sockets, which no thread works with. *)
Lemma conn_of_weaken lm s s' tid t lx lc fd :
  sv_threads s' = sv_threads s -> sv_ctxs s' = sv_ctxs s ->
  p_conns (sv_proc s) ⊆ p_conns (sv_proc s') -> p_fds (sv_proc s) ⊆ p_fds (sv_proc s') ->
  conn_of lm s tid t lx lc fd -> conn_of lm s' tid t lx lc fd.
Proof.
  intros Et Ec Hn Hf [H1 H2 H3 H4 H5 (c & Hc & Hs) H7].
  split; rewrite ?Et, ?Ec; try done; [|by apply Hf]. exists c. split; [by eapply lookup_weaken|done].
Qed.
Lemma conn_of_weaken_inv lm s s' a ps tid t lx lc fd :
  sys_inv lm s a ps -> sv_threads s' = sv_threads s -> sv_ctxs s' = sv_ctxs s ->
  p_conns (sv_proc s) ⊆ p_conns (sv_proc s') -> p_fds (sv_proc s) ⊆ p_fds (sv_proc s') ->
  conn_of lm s' tid t lx lc fd -> conn_of lm s tid t lx lc fd.
Proof.
  intros Hinv Et Ec Hn Hf Hco. pose proof (co_thread _ _ _ _ _ _ _ Hco) as Ht. rewrite Et in Ht.
  destruct (si_alive _ _ _ _ Hinv _ _ Ht (co_alive _ _ _ _ _ _ _ Hco)) as (lx2 & lc2 & fd2 & Hco2).
  by destruct (conn_of_det _ _ _ _ _ _ _ _ _ _ _ Hco (conn_of_weaken _ _ _ _ _ _ _ _ Et Ec Hn Hf Hco2)) as (_ & -> & -> & ->).
Qed.
(** The same threads work with the same things. *)
Lemma inv_same_conns lm s s' a ps :
  sys_inv lm s a ps -> sv_threads s' = sv_threads s -> sv_managers s' = sv_managers s ->
  p_dev (sv_proc s') = p_dev (sv_proc s) ->
  (forall tid t lx lc fd, conn_of lm s' tid t lx lc fd <-> conn_of lm s tid t lx lc fd) -> sys_inv lm s' a ps.
Proof.
  intros [H1 H2 H3 H4 H5 H5' H6 H7 H8] Et Em Ed Hiff. split; rewrite ?Et, ?Em, ?Ed; try done.
  - intros tid t Ht Ha. destruct (H3 tid t Ht Ha) as (lx & lc & fd & Hco). exists lx, lc, fd. by apply Hiff.
  - intros tid1 t1 lx1 lc1 fd1 tid2 t2 lx2 lc2 fd2 Hc1%Hiff Hc2%Hiff. by eapply H4.
Qed.
Lemma inv_weaken lm s s' a ps :
  sys_inv lm s a ps -> sv_threads s' = sv_threads s -> sv_ctxs s' = sv_ctxs s -> sv_managers s' = sv_managers s ->
  p_conns (sv_proc s) ⊆ p_conns (sv_proc s') -> p_fds (sv_proc s) ⊆ p_fds (sv_proc s') ->
  p_dev (sv_proc s') = p_dev (sv_proc s) -> sys_inv lm s' a ps.
Proof.
  intros Hinv Et Ec Em Hn Hf Ed. apply (inv_same_conns lm s); try done. intros tid t lx lc fd.
  split; [by eapply conn_of_weaken_inv|by apply conn_of_weaken].
Qed.

(** The connection [lc] and the socket [fd] are no thread's. *)
Definition unowned (lm : loc) (s : server) (lc : loc) (fd : Z) : Prop :=
  forall tid t lx lc' fd', conn_of lm s tid t lx lc' fd' -> lc' <> lc /\ fd' <> fd.

(** Such a connection gets a context and, if it could be created, a thread. *)
Section grow.
Context {lm : loc} {s s' : server} {a : ft_state} {ps : gmap Z Z} (Hinv : sys_inv lm s a ps).
Context {l lc : loc} {fd : Z} {x : connection_ctx}.
Context (Hl : sv_ctxs s !! l = None) (Hun : unowned lm s lc fd).
Context (Ep : sv_proc s' = sv_proc s) (Ec : sv_ctxs s' = <[l := x]> (sv_ctxs s)) (Hsub : sv_threads s ⊆ sv_threads s').

Lemma conn_of_grow tid t lx1 lc1 fd1 : conn_of lm s tid t lx1 lc1 fd1 -> conn_of lm s' tid t lx1 lc1 fd1.
Proof using Hl Ep Ec Hsub.
  clear Hinv Hun. intros [H1 H2 H3 (y & Hy & Hyy) H5 H6 H7].
  split; rewrite ?Ep; try done; [by eapply lookup_weaken|].
  exists y. split; [|done]. rewrite Ec, lookup_insert_ne; [done|]. intros ->. by rewrite Hl in Hy.
Qed.

Lemma inv_grow m m' :
  sv_managers s !! lm = Some m -> sv_managers s' !! lm = Some m' -> cm_file_mutex m' = cm_file_mutex m ->
  (forall tid t, sv_threads s' !! tid = Some t -> sv_threads s !! tid = Some t \/
     sv_threads s !! tid = None /\ th_pc t = T_Start /\ conn_of lm s' tid t l lc fd) ->
  (forall tid1 tid2 t1 t2, sv_threads s' !! tid1 = Some t1 -> sv_threads s' !! tid2 = Some t2 ->
     sv_threads s !! tid1 = None -> sv_threads s !! tid2 = None -> tid1 = tid2) ->
  sys_inv lm s' a ps.
Proof using Hinv Hl Hun Ep Ec Hsub.
  intros Hm Hm' Emut Hnew Hone. pose proof Hinv as [H1 H2 H3 H4 H5 H5' H6 (m0 & Hm0 & H7) H8].
  assert (forall tid t (P : thread_pc -> Prop), ~ P T_Start -> sv_threads s' !! tid = Some t -> P (th_pc t) ->
            sv_threads s !! tid = Some t) as Hold.
  { intros tid t P0 HP Ht HPt. destruct (Hnew _ _ Ht) as [?|(_ & E & _)]; [done|]. by rewrite E in HPt. }
  assert (forall tid t lx1 lc1 fd1, conn_of lm s' tid t lx1 lc1 fd1 -> conn_of lm s tid t lx1 lc1 fd1 \/
            sv_threads s !! tid = None /\ lx1 = l /\ lc1 = lc /\ fd1 = fd) as Hback.
  { intros tid t lx1 lc1 fd1 Hc1. destruct (Hnew _ _ (co_thread _ _ _ _ _ _ _ Hc1)) as [Ht|(Ht & _ & Hc2)].
    - left. destruct (H3 tid t Ht (co_alive _ _ _ _ _ _ _ Hc1)) as (lx2 & lc2 & fd2 & Hc2).
      by destruct (conn_of_det _ _ _ _ _ _ _ _ _ _ _ Hc1 (conn_of_grow _ _ _ _ _ Hc2)) as (_ & -> & -> & ->).
    - right. by destruct (conn_of_det _ _ _ _ _ _ _ _ _ _ _ Hc1 Hc2) as (_ & -> & -> & ->). }
  assert (forall tid t lx1 lc1 fd1, conn_of lm s tid t lx1 lc1 fd1 -> lx1 <> l /\ lc1 <> lc /\ fd1 <> fd) as Hne.
  { intros tid t lx1 lc1 fd1 Hco. split; [|by eapply Hun]. destruct (co_x _ _ _ _ _ _ _ Hco) as (y & Hy & _). congruence. }
  split; rewrite ?Ep; try done.
  - intros tid t Ht Ha. destruct (Hnew _ _ Ht) as [Ht'|(_ & _ & Hc)]; [|by exists l, lc, fd].
    destruct (H3 tid t Ht' Ha) as (lx2 & lc2 & fd2 & Hc2). exists lx2, lc2, fd2. by apply conn_of_grow.
  - intros tid1 t1 lx1 lc1 fd1 tid2 t2 lx2 lc2 fd2 Hc1 Hc2 Hneq.
    destruct (Hback _ _ _ _ _ Hc1) as [Hc1'|(Hn1 & -> & -> & ->)], (Hback _ _ _ _ _ Hc2) as [Hc2'|(Hn2 & -> & -> & ->)].
    + by eapply H4.
    + by eapply Hne.
    + destruct (Hne _ _ _ _ _ Hc2') as (? & ? & ?). by split_and!.
    + destruct Hneq. eapply Hone; [apply Hc1|apply Hc2|done|done].
  - intros tid t f Ht Hf. eapply H5; [|exact Hf]. by eapply (Hold tid t (fun pc => open_fd pc = Some f)).
  - intros tid t f Ht Hf. eapply H5'; [|exact Hf]. by eapply (Hold tid t (fun pc => start_fd pc = Some f)).
  - intros tid1 t1 tid2 t2 f Ht1 Ht2 Hf1 Hf2.
    eapply H6; [by eapply (Hold tid1 t1 (fun pc => open_fd pc = Some f))
               |by eapply (Hold tid2 t2 (fun pc => open_fd pc = Some f))|done|done].
  - exists m'. split; [done|]. rewrite Emut. assert (m0 = m) as <- by congruence. rewrite H7. split.
    + intros (tid & t & Ht & Hc). exists tid, t. split; [by eapply lookup_weaken|done].
    + intros (tid & t & Ht & Hc). exists tid, t. split; [|done]. by eapply (Hold tid t (fun pc => critical pc = true)).
  - intros tid1 t1 tid2 t2 Ht1 Ht2 Hc1 Hc2.
    eapply H8; [by eapply (Hold tid1 t1 (fun pc => critical pc = true))
               |by eapply (Hold tid2 t2 (fun pc => critical pc = true))|done|done].
Qed.
End grow.

(** What [connection_manager_register_connection] leaves, if it returns. *)
Lemma register_wlp s lm c (Q : bool -> server -> Prop) :
  (forall l m, sv_ctxs s !! l = None -> sv_managers s !! lm = Some m ->
     match pthread_new (dom (sv_threads s)) with
     | Some tid =>
         Q true (Server _ (sv_proc s) (<[l := ConnectionCtx (PLoc lm) c tid (cm_connection_ctx_list m)]> (sv_ctxs s))
                   (<[lm := with_list m (PLoc l)]> (sv_managers s))
                   (<[tid := Thread (PLoc l) PNull T_Start]> (sv_threads s)))
     | None => True
     end) ->
  (forall l, sv_ctxs s !! l = None -> pthread_new (dom (sv_threads s)) = None ->
     Q false (set_ctxs (<[l := ConnectionCtx (PLoc lm) c 0 PNull]> (sv_ctxs s)) s)) ->
  wlp (connection_manager_register_connection (PLoc lm) c) Q s.
Proof.
  intros HQ HQ0. unfold connection_manager_register_connection, malloc_ctx, set_ctx. wlp_steps.
  destruct (malloc (sv_ctxs s) 32) as [l|] eqn:Hl; [|by wlp_steps]. apply malloc_fresh in Hl. wlp_steps.
  eapply get_ctx_wlp; [apply lookup_insert_eq|]. wlp_steps. simpl sv_threads. simpl sv_ctxs. rewrite !insert_insert_eq.
  destruct (pthread_new (dom (sv_threads s))) as [tid|].
  - wlp_steps. apply get_manager_wlp. intros m Hm. specialize (HQ l m Hl Hm). wlp_steps. apply wlp_lift.
    simpl sv_ctxs. rewrite insert_insert_eq. unfold SLIST_INSERT_HEAD, SLIST_FIRST.
    rewrite (assign_next_ok _ _ _ _ (lookup_insert_eq _ _ _)). intros r [= <-]. unfold set_manager. wlp_steps.
    unfold set_ctxs, set_managers. simpl. rewrite insert_insert_eq. exact HQ.
  - wlp_steps. by apply HQ0.
Qed.

Lemma create_cases fd addr (p : proc) :
  wlp (tcp_connection_create fd addr) (fun q p' => (q = PNull /\ p' = p) \/
    exists lc la, q = PLoc lc /\ p_conns p !! lc = None /\ p_heap p !! la = None /\
      p' = set_conns (<[lc := TcpConnection fd (PLoc la) true]> (p_conns p))
             (set_heap (<[la := addr ++ [NUL]]> (p_heap p)) p)) p.
Proof using LL.
  apply wlp_wp, create_any_wp; [by left|]. intros lc la Hlc Hla. right. by exists lc, la.
Qed.

(** Registering a connection that is no thread's. *)
Lemma inv_register lm s a ps lc c b s' :
  sys_inv lm s a ps -> p_conns (sv_proc s) !! lc = Some c -> c_socket c ∈ p_fds (sv_proc s) ->
  unowned lm s lc (c_socket c) ->
  connection_manager_register_connection (PLoc lm) (PLoc lc) s = Done (b, s') -> sys_inv lm s' a ps.
Proof using LL PL.
  clear StL. intros Hinv Hc Hfd Hun Hrun. destruct (si_lock _ _ _ _ Hinv) as (m & Hm & _).
  revert s' Hrun. enough (wlp (connection_manager_register_connection (PLoc lm) (PLoc lc)) (fun _ s' => sys_inv lm s' a ps) s) as H.
  { intros s' Hrun. exact (wlp_run _ _ _ _ _ Hrun H). }
  apply register_wlp.
  - intros l m0 Hl Hm0. assert (m0 = m) as -> by congruence.
    destruct (pthread_new (dom (sv_threads s))) as [tid|] eqn:Ht; [|done].
    apply pthread_new_fresh, not_elem_of_dom in Ht.
    eapply (inv_grow Hinv Hl Hun) with (m := m) (m' := with_list m (PLoc l)); try reflexivity; simpl.
    + by apply insert_subseteq.
    + exact Hm.
    + apply lookup_insert_eq.
    + intros tid2 t2. rewrite lookup_insert. case_decide as E; [|by left]. intros [= <-]. subst tid2. right.
      split; [done|]. split; [done|]. split; simpl; try done.
      * apply lookup_insert_eq.
      * eexists. by rewrite lookup_insert_eq.
      * by exists c.
    + intros tid1 tid2 t1 t2 H1 H2 H3 H4. rewrite lookup_insert in H1, H2. repeat case_decide; congruence.
  - intros l Hl Hp. eapply (inv_grow Hinv Hl Hun) with (m := m) (m' := m); try reflexivity; simpl.
    + exact Hm.
    + exact Hm.
    + intros tid t Ht. by left.
    + intros tid1 tid2 t1 t2 H1 H2 H3 H4. congruence.
Qed.

(** Accepting a client: its socket, or a connection on its socket that is no thread's. *)
Definition connected (s : server) (fd : Z) (lc la : loc) (addr : bytes) : server :=
  set_proc (set_conns (<[lc := TcpConnection fd (PLoc la) true]> (p_conns (sv_proc s)))
    (set_heap (<[la := addr ++ [NUL]]> (p_heap (sv_proc s))) (set_fds ({[fd]} ∪ p_fds (sv_proc s)) (sv_proc s)))) s.

Lemma connected_inv lm s a ps fd lc la addr :
  sys_inv lm s a ps -> p_conns (sv_proc s) !! lc = None -> sys_inv lm (connected s fd lc la addr) a ps.
Proof.
  intros Hinv Hlc. apply (inv_weaken lm s); try done; simpl; [by apply insert_subseteq|]. apply union_subseteq_r.
Qed.
Lemma connected_unowned lm s a ps fd lc la addr :
  sys_inv lm s a ps -> p_conns (sv_proc s) !! lc = None -> (fd ∉ p_fds (sv_proc s)) ->
  unowned lm (connected s fd lc la addr) lc fd.
Proof.
  intros Hinv Hlc Hfd tid t lx lc' fd' Hco.
  apply (conn_of_weaken_inv lm s _ a ps) in Hco; try done; simpl; [|by apply insert_subseteq|apply union_subseteq_r].
  destruct Hco as [_ _ _ _ _ (d & Hd & _) Hf]. split; intros ->; [congruence|done].
Qed.

(** What accepting and registering leaves, if it returns. *)
Lemma accept_wlp lm fd addr s (Q : bool -> server -> Prop) :
  (forall p, p_conns p = p_conns (sv_proc s) -> p_heap p = p_heap (sv_proc s) -> p_out p = p_out (sv_proc s) ->
     p_in p = p_in (sv_proc s) -> p_dev p = p_dev (sv_proc s) -> p_fds p = ({[fd]} ∪ p_fds (sv_proc s)) ∖ {[fd]} -> Q false (set_proc p s)) ->
  (forall lc la b s', p_conns (sv_proc s) !! lc = None -> p_heap (sv_proc s) !! la = None ->
     connection_manager_register_connection (PLoc lm) (PLoc lc) (connected s fd lc la addr) = Done (b, s') -> Q b s') ->
  wlp (accept_and_register lm fd addr) Q s.
Proof using LL.
  intros H1 H2. unfold accept_and_register. wlp_steps. apply wlp_on_proc. wlp_steps. apply wlp_on_proc.
  eapply wlp_mono; [apply create_cases|]. intros q p' [[-> ->]|(lc & la & -> & Hlc & Hla & ->)].
  - change (is_null PNull) with true. cbn iota. wlp_steps. apply wlp_on_proc. unfold do_close. wlp_steps. by apply H1.
  - rewrite is_null_loc. unfold wlp. specialize (H2 lc la).
    match goal with |- context [connection_manager_register_connection _ _ ?s1] => change s1 with (connected s fd lc la addr) end.
    destruct (connection_manager_register_connection _ _ _) as [[b s']|]; [by apply H2|done].
Qed.

Lemma inv_accept lm s a ps fd addr b s' :
  sys_inv lm s a ps -> (fd ∉ p_fds (sv_proc s)) -> accept_and_register lm fd addr s = Done (b, s') ->
  sys_inv lm s' a ps.
Proof using LL PL.
  clear StL. intros Hinv Hfd Hrun. destruct (si_lock _ _ _ _ Hinv) as (m & Hm & _).
  refine (wlp_run _ _ _ _ _ Hrun (accept_wlp _ _ _ _ (fun _ s' => sys_inv lm s' a ps) _ _)).
  - intros p E1 E2 E3 _ E4 E5. eapply (inv_env lm s _ a ps m m Hinv); simpl; try done. rewrite E5. clear -Hfd. set_solver.
  - intros lc la b' s2 Hlc _ Hr. eapply inv_register; [by eapply connected_inv|apply lookup_insert_eq| | |exact Hr].
    + simpl. set_solver.
    + by eapply connected_unowned.
Qed.

(** Accepting a client leaves the others' connections and output alone. *)
Lemma register_frame lm s lc b s' :
  connection_manager_register_connection (PLoc lm) (PLoc lc) s = Done (b, s') ->
  sv_proc s' = sv_proc s /\ forall tid t lx lc fd, conn_of lm s tid t lx lc fd -> conn_of lm s' tid t lx lc fd.
Proof using LL PL.
  clear StL. revert s'. enough (wlp (connection_manager_register_connection (PLoc lm) (PLoc lc)) (fun _ s' =>
    sv_proc s' = sv_proc s /\ forall tid t lx lc fd, conn_of lm s tid t lx lc fd -> conn_of lm s' tid t lx lc fd) s) as H.
  { intros s' Hrun. exact (wlp_run _ _ _ _ _ Hrun H). }
  apply register_wlp.
  - intros l m Hl Hm. destruct (pthread_new (dom (sv_threads s))) as [tid'|] eqn:Ht; [|done].
    apply pthread_new_fresh, not_elem_of_dom in Ht. split; [done|]. intros tid t lx lc' fd Hco.
    eapply (conn_of_grow Hl); [..|exact Hco]; try reflexivity. simpl. by apply insert_subseteq.
  - intros l Hl Hp. split; [done|]. intros tid t lx lc' fd Hco. by eapply (conn_of_grow Hl); [..|exact Hco].
Qed.
(** The only thread it adds is the one of the new connection. *)
Lemma register_back lm s a ps lc b s' :
  sys_inv lm s a ps -> connection_manager_register_connection (PLoc lm) (PLoc lc) s = Done (b, s') ->
  forall tid t lx lc' fd, conn_of lm s' tid t lx lc' fd ->
    conn_of lm s tid t lx lc' fd \/ th_pc t = T_Start /\ lc' = lc.
Proof using LL PL.
  clear StL. intros Hinv. revert s'. enough (wlp (connection_manager_register_connection (PLoc lm) (PLoc lc)) (fun _ s' =>
    forall tid t lx lc' fd, conn_of lm s' tid t lx lc' fd ->
      conn_of lm s tid t lx lc' fd \/ th_pc t = T_Start /\ lc' = lc) s) as H.
  { intros s' Hrun. exact (wlp_run _ _ _ _ _ Hrun H). }
  assert (forall s' l x, sv_ctxs s !! l = None -> sv_proc s' = sv_proc s -> sv_ctxs s' = <[l := x]> (sv_ctxs s) ->
    sv_threads s ⊆ sv_threads s' -> forall tid t t2 lx lc' fd, sv_threads s !! tid = Some t2 ->
    conn_of lm s' tid t lx lc' fd -> conn_of lm s tid t lx lc' fd) as Hold.
  { intros s' l x Hl Ep Ec Hsub tid t t2 lx lc' fd Ht2 Hco. pose proof (co_thread _ _ _ _ _ _ _ Hco) as Ht.
    assert (t2 = t) as -> by (pose proof (lookup_weaken _ _ _ _ Ht2 Hsub); congruence).
    destruct (si_alive _ _ _ _ Hinv _ _ Ht2 (co_alive _ _ _ _ _ _ _ Hco)) as (lx2 & lc2 & fd2 & Hco2).
    by destruct (conn_of_det _ _ _ _ _ _ _ _ _ _ _ Hco (conn_of_grow Hl Ep Ec Hsub _ _ _ _ _ Hco2)) as (_ & -> & -> & ->). }
  apply register_wlp.
  - intros l m Hl Hm. destruct (pthread_new (dom (sv_threads s))) as [tid'|] eqn:Ht'; [|done].
    apply pthread_new_fresh, not_elem_of_dom in Ht'. intros tid t lx lc' fd Hco.
    pose proof (co_thread _ _ _ _ _ _ _ Hco) as Ht. simpl in Ht. rewrite lookup_insert in Ht. case_decide as E.
    + right. injection Ht as <-. split; [done|]. destruct Hco as [_ _ [= <-] (x & Hx & _ & Hc) _ _ _].
      simpl in Hx. rewrite lookup_insert_eq in Hx. injection Hx as <-. by injection Hc.
    + left. eapply (Hold _ l); [done|..|exact Ht|exact Hco]; try reflexivity. simpl. by apply insert_subseteq.
  - intros l Hl Hp tid t lx lc' fd Hco. left. by eapply (Hold _ l); [done|..|apply (co_thread _ _ _ _ _ _ _ Hco)|exact Hco].
Qed.
Lemma accept_frame lm s fd addr b s' :
  (fd ∉ p_fds (sv_proc s)) -> accept_and_register lm fd addr s = Done (b, s') ->
  forall tid t lx lc fd2, conn_of lm s tid t lx lc fd2 ->
    conn_of lm s' tid t lx lc fd2 /\ out_of (sv_proc s') fd2 = out_of (sv_proc s) fd2.
Proof using LL PL.
  clear StL. intros Hfd Hrun tid t lx lc fd2 Hco.
  refine (wlp_run _ _ _ _ _ Hrun (accept_wlp _ _ _ _ (fun _ s' =>
    conn_of lm s' tid t lx lc fd2 /\ out_of (sv_proc s') fd2 = out_of (sv_proc s) fd2) _ _)).
  - intros p E1 E2 E3 _ E4 E5. split; [|unfold out_of; simpl; by rewrite E3].
    eapply (conn_of_live lm s); [|exact Hco]. apply same_live_eq; try done. simpl. rewrite E5. clear -Hfd. set_solver.
  - intros lc' la b' s2 Hlc _ Hr. destruct (register_frame _ _ _ _ _ Hr) as [E Hco2]. split; [|unfold out_of; by rewrite E].
    apply Hco2. eapply conn_of_weaken; [..|exact Hco]; try done; simpl; [by apply insert_subseteq|apply union_subseteq_r].
Qed.

(** Every step keeps the invariant. *)
Lemma inv_step lm s s' a ps : sys_inv lm s a ps -> sys_step lm s s' -> exists a' ps', sys_inv lm s' a' ps'.
Proof using LL PL StL.
  intros Hinv Hstep. destruct (si_lock _ _ _ _ Hinv) as (m & Hm & _).
  destruct Hstep as [tid s s' Hrun|fd evs s|fd addr b s s' Hfd Hrun|m' s Hm'].
  - destruct (run_thread_inv _ _ _ _ _ _ Hinv Hrun) as (t & lx & lc & fd & pc' & s1 & Hco & _ & Hfp & ->).
    destruct (inv_after Hinv Hco Hfp) as (a' & ps' & H & _). by exists a', ps'.
  - exists a, ps. by eapply (inv_env lm s _ a ps m m Hinv).
  - exists a, ps. by eapply inv_accept.
  - exists a, ps. eapply (inv_env lm s _ a ps m' (ConnectionManager (cm_filename m') (cm_file_mutex m') true _) Hinv);
      simpl; try done; apply lookup_insert_eq.
Qed.

Lemma inv_steps lm s s' a ps : sys_inv lm s a ps -> rtc (sys_step lm) s s' -> exists a' ps', sys_inv lm s' a' ps'.
Proof using LL PL StL.
  intros Hinv Hr. revert a ps Hinv. induction Hr as [s|s s1 s' Hs _ IH]; intros a ps Hinv; [by exists a, ps|].
  destruct (inv_step _ _ _ _ _ Hinv Hs) as (a1 & ps1 & Hinv1). by eapply IH.
Qed.

(** The server before its first client. *)
Lemma inv_initial lm m s a ps :
  sv_threads s = ∅ -> sv_managers s !! lm = Some m -> cm_file_mutex m = false ->
  ft_is (p_dev (sv_proc s)) a ps -> positions_ok ps -> sys_inv lm s a ps.
Proof.
  intros Ht Hm Hmut Hd Hp.
  assert (forall tid t, sv_threads s !! tid = Some t -> False) as Hno by (intros tid t; by rewrite Ht).
  split; try done.
  - intros tid t H. by destruct (Hno _ _ H).
  - intros tid1 t1 lx1 lc1 fd1 tid2 t2 lx2 lc2 fd2 Hc1. by destruct (Hno _ _ (co_thread _ _ _ _ _ _ _ Hc1)).
  - intros tid t f H. by destruct (Hno _ _ H).
  - intros tid t f H. by destruct (Hno _ _ H).
  - intros tid1 t1 tid2 t2 f H. by destruct (Hno _ _ H).
  - exists m. split; [done|]. rewrite Hmut. split; [done|]. intros (tid & t & H & _). by destruct (Hno _ _ H).
  - intros tid1 t1 tid2 t2 H. by destruct (Hno _ _ H).
Qed.

End threads.
