(* ===== verification/Answers.v ===== *)
(** The answers of the concurrent server, which are sent in several steps.

    [answering_at] is a thread in the middle of one: what it has sent and what is still to be
    read at its descriptor are the whole answer. [sent_to] says so of all threads at once;
    both are for any file that is a [FileTable]. The second section is about the driver's
    device: handling a message fixes the answer, and the thread's rounds send it. *)

From S2P Require Import Prelude CMonad KHeap Libc DeviceSpec FileDev Process TcpConnection TcpReceive TcpSend SList ConnectionManager ServerSpec HandleMessage Session ManagerLife ThreadFrame ServerThreads.
Local Open Scope Z_scope.
Local Open Scope cmonad_scope.

Definition is_sending (pc : thread_pc) : Prop := exists f q, pc = T_Send f q.
#[export] Instance is_sending_dec pc : Decision (is_sending pc).
Proof. destruct pc; first [right; by intros (? & ? & ?)|left; by do 2 eexists]. Defined.

Section sending.
Context `{FD : FileDev} {L : Libc} {N : Sockets} {St : Stdio} {P : Pthreads}.
Context {FT : FileTable FD} {LL : LibcLaws L} {PL : PthreadsLaws P}.

(** The thread [tid] is sending the rest of an answer that will be [target] in all. *)
Definition answering_at (lm : loc) (tid : Z) (f : Z) (msg : ptr) (fd : Z) (target : bytes) (a : ft_state) (ps : gmap Z Z) (s : server) : Prop :=
  exists t lx lc pos, conn_of lm s tid t lx lc fd /\ th_pc t = T_Send f msg /\
    ps !! f = Some pos /\ out_of (sv_proc s) fd ++ drop (Z.to_nat pos) (ft_content a) = target.
Definition answering (lm : loc) (tid : Z) (f : Z) (msg : ptr) (fd : Z) (target : bytes) (s : server) : Prop :=
  exists a ps, sys_inv lm s a ps /\ answering_at lm tid f msg fd target a ps s.

(** Another thread's step does not disturb it. *)
Lemma answering_other lm tid f msg fd target s a ps tid2 t2 lx2 lc2 fd2 pc' s1 a' ps' :
  sys_inv lm s a ps -> answering_at lm tid f msg fd target a ps s ->
  tid2 <> tid -> conn_of lm s tid2 t2 lx2 lc2 fd2 -> footprint lm lx2 lc2 fd2 (th_pc t2) pc' s s1 ->
  dev_effect (th_pc t2) pc' a a' ps ps' ->
  a' = a /\ answering_at lm tid f msg fd target a' ps' (after (tid := tid2) (lx := lx2) (lc := lc2) (pc' := pc') (s1 := s1)).
Proof.
  intros Hinv (t & lx & lc & pos & Hco & Hpc & Hf & Ht) Hne Hco2 Hfp He.
  destruct (after_not_critical Hinv Hco2 Hfp tid t) as [Hnc _];
    [done|apply (co_thread _ _ _ _ _ _ _ Hco)|by rewrite Hpc|].
  pose proof (de_state _ _ _ _ _ _ He (calm_handle _ Hnc)) as ->. split; [done|]. exists t, lx, lc, pos.
  destruct (si_disjoint _ _ _ _ Hinv _ _ _ _ _ _ _ _ _ _ Hco Hco2 (not_eq_sym Hne)) as (_ & _ & Hfd).
  split; [apply (conn_of_other Hinv Hco2 Hfp); done|]. split; [done|]. split.
  - rewrite (de_other _ _ _ _ _ _ He f); [done| |by eexists]. intros Hf2.
    apply Hne. eapply (si_open_disjoint _ _ _ _ Hinv); [apply Hco2|apply Hco|exact Hf2|by rewrite Hpc].
  - rewrite <- Ht. f_equal. by apply (fp_out _ _ _ _ _ _ _ _ Hfp).
Qed.

(** A round of the thread that sends [bs], the next piece, if there is one. *)
Definition answered lm tid f msg fd target (a : ft_state) (ps : gmap Z Z) s1 lx lc pc' (s : server) : Prop :=
  let s' := after (tid := tid) (lx := lx) (lc := lc) (pc' := pc') (s1 := s1) in
  exists ps', sys_inv lm s' a ps' /\ dev_effect (T_Send f msg) pc' a a ps ps' /\ p_in (sv_proc s') = p_in (sv_proc s) /\
    (answering_at lm tid f msg fd target a ps' s' \/ pc' = T_Unlock f msg /\ out_of (sv_proc s') fd = target).
Lemma answering_round lm tid f msg fd target s a ps t lx lc pc' s1 :
  sys_inv lm s a ps -> answering_at lm tid f msg fd target a ps s -> conn_of lm s tid t lx lc fd ->
  thread_step (PLoc lx) (PLoc lc) (T_Send f msg) s = Done (pc', s1) ->
  footprint lm lx lc fd (T_Send f msg) pc' s s1 ->
  (forall pos, ps !! f = Some pos -> 0 <= pos ->
     wp (thread_step (PLoc lx) (PLoc lc) (T_Send f msg)) (fun pc' s1 => exists d bs,
       ft_is d a (<[f := pos + zlen bs]> ps) /\
       drop (Z.to_nat pos) (ft_content a) = bs ++ drop (Z.to_nat (pos + zlen bs)) (ft_content a) /\
       (bs = [] -> drop (Z.to_nat pos) (ft_content a) = []) /\ s1 = set_proc (send_state (sv_proc s) fd bs d) s /\
       pc' = if bool_decide (bs = []) then T_Unlock f msg else T_Send f msg) s) ->
  answered lm tid f msg fd target a ps s1 lx lc pc' s.
Proof.
  intros Hinv (t' & lx' & lc' & pos & Hco & Hpc & Hf & Htgt) Hco' Hstep Hfp Hround.
  destruct (conn_of_det _ _ _ _ _ _ _ _ _ _ _ Hco' Hco) as (-> & -> & -> & _). clear Hco'.
  pose proof (si_pos _ _ _ _ Hinv _ _ Hf) as Hpos.
  destruct (wp_run _ _ _ _ _ Hstep (Hround pos Hf Hpos)) as (d & bs & Hd & Hrest & Hend & -> & ->). clear Hround Hstep.
  pose proof (zlen_nonneg bs). set (pc' := if bool_decide (bs = []) then T_Unlock f msg else T_Send f msg) in *. unfold answered. set (s' := after).
  assert (dev_effect (T_Send f msg) pc' a a ps (<[f := pos + zlen bs]> ps)) as He.
  { unfold pc'. case_bool_decide as Hbs; (apply dev_effect_move; [done|done|done|done|lia|apply (si_pos _ _ _ _ Hinv)|]);
      intros q q' _ E; [done|]. eapply remaining_less; [exact Hf|]. pose proof (zlen_pos _ Hbs). split; [lia|].
    apply (f_equal length) in Hrest. rewrite length_app, !length_drop in Hrest. unfold ft_size, zlen in *. lia. }
  rewrite <- Hpc in He, Hfp. exists (<[f := pos + zlen bs]> ps).
  split; [apply (inv_after_with Hinv Hco Hfp); [exact Hd|exact He]|]. rewrite Hpc in He. split; [exact He|].
  split; [apply (send_state_same (sv_proc s) fd bs d)|]. unfold s', pc' in *. clear s' pc' He. case_bool_decide as Hbs.
  - right. split; [done|]. simpl. rewrite send_state_out, Hbs, app_nil_r, <- Htgt, Hend, app_nil_r; done.
  - left. exists (Thread (PLoc lx') (PLoc lc') (T_Send f msg)), lx', lc', (pos + zlen bs).
    split; [apply (conn_of_self Hco Hfp); done|]. split; [done|]. split; [apply lookup_insert_eq|].
    simpl. rewrite send_state_out, <- app_assoc, <- Hrest. done.
Qed.

(** Handling a message makes the contents [a'], and fixes the answer [ans] and where it starts. *)
Definition handled lm tid f msg fd ans (a a' : ft_state) (ps : gmap Z Z) s1 lx lc pc' (s : server) : Prop :=
  let s' := after (tid := tid) (lx := lx) (lc := lc) (pc' := pc') (s1 := s1) in
  exists ps', sys_inv lm s' a' ps' /\ dev_effect (T_Handle f msg) pc' a a' ps ps' /\
    p_in (sv_proc s') = p_in (sv_proc s) /\ p_out (sv_proc s') = p_out (sv_proc s) /\
    (answering_at lm tid f msg fd (out_of (sv_proc s) fd ++ ans) a' ps' s' \/
     pc' = T_Unlock f msg /\ out_of (sv_proc s') fd = out_of (sv_proc s) fd ++ ans).
Lemma answering_start lm tid f msg fd ans s a a' ps t lx lc pc' s1 :
  sys_inv lm s a ps -> conn_of lm s tid t lx lc fd -> th_pc t = T_Handle f msg ->
  thread_step (PLoc lx) (PLoc lc) (T_Handle f msg) s = Done (pc', s1) ->
  footprint lm lx lc fd (T_Handle f msg) pc' s s1 ->
  (ps !! f = Some 0 -> wp (handle_message f msg) (fun r p' => exists d pos, p' = set_dev d (sv_proc s) /\ 0 <= pos /\
     ft_is d a' (<[f := pos]> ps) /\
     if 0 <=? r then ans = drop (Z.to_nat pos) (ft_content a') else ans = []) (sv_proc s)) ->
  handled lm tid f msg fd ans a a' ps s1 lx lc pc' s.
Proof.
  intros Hinv Hco Hpc Hstep Hfp Hhandle. rewrite <- Hpc in Hfp.
  destruct (co_x _ _ _ _ _ _ _ Hco) as (x & Hx & _). pose proof (co_thread _ _ _ _ _ _ _ Hco) as Ht.
  assert (ps !! f = Some 0) as Hf by (eapply (si_start _ _ _ _ Hinv); [exact Ht|by rewrite Hpc]).
  assert (wp (thread_step (PLoc lx) (PLoc lc) (T_Handle f msg)) (fun pc' s1 => exists d pos,
    s1 = set_proc (set_dev d (sv_proc s)) s /\ 0 <= pos /\ ft_is d a' (<[f := pos]> ps) /\
    (pc' = T_Send f msg /\ ans = drop (Z.to_nat pos) (ft_content a') \/ pc' = T_Unlock f msg /\ ans = [])) s) as Hwp.
  { unfold thread_step. wp_steps. eapply get_ctx_wp; [exact Hx|]. wp_steps. apply wp_on_proc.
    eapply wp_mono; [by apply Hhandle|]. intros r p' (d & pos & -> & Hpos & Hd & Hr). wp_steps.
    exists d, pos. split_and!; try done. destruct (0 <=? r); [by left|by right]. }
  destruct (wp_run _ _ _ _ _ Hstep Hwp) as (d & pos & -> & Hpos & Hd & Hcases). clear Hwp Hstep Hhandle. unfold handled. set (s' := after).
  assert (dev_effect (T_Handle f msg) pc' a a' ps (<[f := pos]> ps)) as He.
  { destruct Hcases as [[-> _]|[-> _]]; (apply dev_effect_move; try done; [|apply (si_pos _ _ _ _ Hinv)]; intros Hno; by destruct (Hno f msg)). }
  rewrite <- Hpc in He. exists (<[f := pos]> ps). split; [by apply (inv_after_with Hinv Hco Hfp)|]. rewrite Hpc in He.
  split; [exact He|]. split; [done|]. split; [done|]. destruct Hcases as [[-> ->]|[-> ->]].
  - left. exists (Thread (PLoc lx) (PLoc lc) (T_Send f msg)), lx, lc, pos.
    split; [apply (conn_of_self Hco Hfp); done|]. split; [done|]. split; [apply lookup_insert_eq|]. done.
  - right. split; [done|]. by rewrite app_nil_r.
Qed.

(** The thread goes on sending, or it has sent the whole answer. *)
Lemma answer_next lm tid f q fd target a' ps' lx lc pc' s1 :
  let s' := after (tid := tid) (lx := lx) (lc := lc) (pc' := pc') (s1 := s1) in
  answering_at lm tid f q fd target a' ps' s' \/ pc' = T_Unlock f q /\ out_of (sv_proc s') fd = target ->
  (pc' = T_Send f q \/ pc' = T_Unlock f q) /\
  (forall f2 q2, pc' = T_Send f2 q2 -> answering_at lm tid f2 q2 fd target a' ps' s') /\
  (~ is_sending pc' -> target = out_of (sv_proc s1) fd).
Proof.
  intros s' [Hans|[-> <-]]; [|repeat split; by auto]. pose proof Hans as (t2 & lx2 & lc2 & pos & Hco2 & Hpc2 & _).
  pose proof (co_thread _ _ _ _ _ _ _ Hco2) as Ht2. apply after_thread_self in Ht2 as ->. simpl in Hpc2.
  split; [by left|]. split; [intros f2 q2 E; rewrite Hpc2 in E; by injection E as <- <-|].
  intros Hno. destruct Hno. by exists f, q.
Qed.

(** The clients were sent [out], but for what the threads in [T_Send] still have to send of it. *)
Record sent_to (lm : loc) (s : server) (a : ft_state) (ps : gmap Z Z) (out : Z -> bytes) : Prop := {
  st_sending tid t lx lc fd f q : conn_of lm s tid t lx lc fd -> th_pc t = T_Send f q ->
    answering_at lm tid f q fd (out fd) a ps s;
  st_out fd : (forall tid t lx lc, conn_of lm s tid t lx lc fd -> ~ is_sending (th_pc t)) ->
    out fd = out_of (sv_proc s) fd;
}.

(** A step of a thread, which says what becomes of its own client's. *)
Lemma sent_after lm s a ps out tid t lx lc fd pc' s1 a' ps' out' :
  let s' := after (tid := tid) (lx := lx) (lc := lc) (pc' := pc') (s1 := s1) in
  sys_inv lm s a ps -> sent_to lm s a ps out -> conn_of lm s tid t lx lc fd ->
  footprint lm lx lc fd (th_pc t) pc' s s1 -> dev_effect (th_pc t) pc' a a' ps ps' ->
  (forall fd2, fd2 <> fd -> out' fd2 = out fd2) ->
  (forall f q, pc' = T_Send f q -> answering_at lm tid f q fd (out' fd) a' ps' s') ->
  (~ is_sending pc' -> out' fd = out_of (sv_proc s1) fd) ->
  sent_to lm s' a' ps' out'.
Proof.
  intros s' Hinv Hx Hco Hfp He Hoth Hsend Hout. unfold s' in *. clear s'.
  assert (forall tid2 t2 lx2 lc2 fd2, conn_of lm s tid2 t2 lx2 lc2 fd2 -> fd2 <> fd -> tid2 <> tid) as Htid.
  { intros tid2 t2 lx2 lc2 fd2 Hco2 Hfd ->. by destruct (conn_of_det _ _ _ _ _ _ _ _ _ _ _ Hco Hco2) as (_ & _ & _ & <-). }
  split.
  - intros tid2 t2 lx2 lc2 fd2 f q Hco2 Hpc.
    destruct (after_back Hinv Hco Hfp _ _ _ _ _ Hco2) as [(-> & -> & _ & _ & ->)|(Hne & Hfd & _ & Hco2')]; [by apply Hsend|].
    rewrite Hoth by done. pose proof (st_sending _ _ _ _ _ Hx _ _ _ _ _ _ _ Hco2' Hpc) as Hans.
    exact (proj2 (answering_other _ _ _ _ _ _ _ _ _ _ _ _ _ _ _ _ _ _ Hinv Hans (not_eq_sym Hne) Hco Hfp He)).
  - intros fd2 Hno. destruct (decide (fd2 = fd)) as [->|Hfd].
    + apply Hout. intros Hs. refine (Hno tid (Thread (PLoc lx) (PLoc lc) pc') lx lc _ Hs). apply (conn_of_self Hco Hfp). by destruct Hs as (f & q & ->).
    + rewrite Hoth by done. rewrite (st_out _ _ _ _ _ Hx fd2).
      * symmetry. by apply (fp_out _ _ _ _ _ _ _ _ Hfp).
      * intros tid2 t2 lx2 lc2 Hco2. eapply Hno. apply (conn_of_other Hinv Hco Hfp); [by eapply Htid|exact Hco2].
Qed.

(** Nothing was sent, and there are at most more threads, at their start. *)
Lemma sent_more lm s s' a ps out :
  sent_to lm s a ps out -> p_out (sv_proc s') = p_out (sv_proc s) ->
  (forall tid t lx lc fd, conn_of lm s tid t lx lc fd -> conn_of lm s' tid t lx lc fd) ->
  (forall tid t lx lc fd, conn_of lm s' tid t lx lc fd -> conn_of lm s tid t lx lc fd \/ th_pc t = T_Start) ->
  sent_to lm s' a ps out.
Proof.
  intros [H1 H2] Eout Hfw Hbk. split.
  - intros tid t lx lc fd f q Hco Hpc. destruct (Hbk _ _ _ _ _ Hco) as [Hco'|E]; [|congruence].
    destruct (H1 _ _ _ _ _ _ _ Hco' Hpc) as (t2 & lx2 & lc2 & pos & Hco2 & Hrest). exists t2, lx2, lc2, pos.
    split; [by apply Hfw|]. unfold out_of. by rewrite Eout.
  - intros fd Hno. unfold out_of. rewrite Eout. apply H2. intros tid t lx lc Hco. eapply Hno. by apply Hfw.
Qed.

(** Nor does anything else while no thread is sending, whatever becomes of the contents. *)
Lemma sent_idle lm s s' a a' ps ps' out out' :
  sent_to lm s a ps out -> p_out (sv_proc s') = p_out (sv_proc s) ->
  (forall tid t lx lc fd, conn_of lm s' tid t lx lc fd <-> conn_of lm s tid t lx lc fd) ->
  (forall tid t, sv_threads s' !! tid = Some t -> ~ is_sending (th_pc t)) -> (forall fd, out' fd = out fd) ->
  sent_to lm s' a' ps' out'.
Proof.
  intros Hx Eout Hiff Hno E. split.
  - intros tid t lx lc fd f q Hco Hpc. destruct (Hno tid t); [apply Hco|by exists f, q].
  - intros fd _. rewrite E, (st_out _ _ _ _ _ Hx); [unfold out_of; by rewrite Eout|].
    intros tid t lx lc Hco%Hiff. apply (Hno tid t). apply Hco.
Qed.

(** Accepting a client sends nothing. *)
Lemma sent_accept lm s a ps out fd addr b s' :
  sys_inv lm s a ps -> sent_to lm s a ps out -> (fd ∉ p_fds (sv_proc s)) ->
  accept_and_register lm fd addr s = Done (b, s') -> sent_to lm s' a ps out.
Proof using LL PL.
  intros Hinv Hx Hfd Hrun. refine (wlp_run _ _ _ _ _ Hrun (accept_wlp _ _ _ _ (fun _ s' => sent_to lm s' a ps out) _ _)).
  - intros p E1 E2 E3 _ E4 E5. assert (same_live s (set_proc p s)) as Hs.
    { apply same_live_eq; try done. simpl. rewrite E5. clear -Hfd. set_solver. }
    apply (sent_more lm s); [done|done| |]; intros tid t lx lc fd2 Hco; [|left]; by apply (conn_of_live lm s (set_proc p s)).
  - intros lc la b' s2 Hlc Hla Hr.
    assert (sv_threads (connected s fd lc la addr) = sv_threads s /\ sv_ctxs (connected s fd lc la addr) = sv_ctxs s /\
      p_conns (sv_proc s) ⊆ p_conns (sv_proc (connected s fd lc la addr)) /\
      p_fds (sv_proc s) ⊆ p_fds (sv_proc (connected s fd lc la addr))) as (E1 & E2 & E3 & E4).
    { split_and!; [done|done|simpl; by apply insert_subseteq|simpl; apply union_subseteq_r]. }
    assert (sent_to lm (connected s fd lc la addr) a ps out) as Hx1.
    { apply (sent_more lm s); [done|done| |]; intros tid t lx lc2 fd2 Hco; [by eapply conn_of_weaken|left; by eapply conn_of_weaken_inv]. }
    destruct (register_frame _ _ _ _ _ Hr) as [Ep Hfw]. apply (sent_more lm _ _ _ _ _ Hx1); [by rewrite Ep|done|].
    intros tid t lx lc2 fd2 Hco.
    destruct (register_back _ _ _ _ _ _ _ (connected_inv lm s a ps fd lc la addr Hinv Hlc) Hr _ _ _ _ _ Hco) as [?|[? _]]; auto.
Qed.

(** Before the first client. *)
Lemma sent_none lm s a ps out :
  (forall tid t lx lc fd, ~ conn_of lm s tid t lx lc fd) -> (forall fd, out fd = out_of (sv_proc s) fd) -> sent_to lm s a ps out.
Proof. intros Hno Hout. split; [|done]. intros tid t lx lc fd f q Hco. by destruct (Hno _ _ _ _ _ Hco). Qed.

(** A thread is sending an answer on [fd]. *)
Definition sends_on (s : server) (fd : Z) (t : thread) : bool :=
  match th_pc t, th_connection t with
  | T_Send _ _, PLoc lc =>
      match p_conns (sv_proc s) !! lc with Some c => bool_decide (c_socket c = fd) | None => false end
  | _, _ => false
  end.
Definition sending (s : server) (fd : Z) : Prop := map_Exists (fun _ t => sends_on s fd t = true) (sv_threads s).

(** What the clients have got: all of it, but while an answer is being sent only a prefix. *)
Lemma sent_shown lm s a ps out fd :
  (forall tid t, sv_threads s !! tid = Some t -> th_pc t <> T_Done -> exists lx lc fd, conn_of lm s tid t lx lc fd) ->
  sent_to lm s a ps out ->
  (~ sending s fd -> out_of (sv_proc s) fd = out fd) /\ out_of (sv_proc s) fd `prefix_of` out fd.
Proof.
  intros Hal Hx.
  assert (~ sending s fd -> out_of (sv_proc s) fd = out fd) as Hout.
  { intros Hno. symmetry. apply (st_out _ _ _ _ _ Hx). intros tid t lx lc [Ht _ _ _ Hl (c & Hc & Hs) _] (f & q & Hpc).
    apply Hno. exists tid, t. split; [done|]. unfold sends_on. rewrite Hl, Hpc, Hc by by rewrite Hpc. by apply bool_decide_eq_true. }
  split; [done|]. destruct (decide (sending s fd)) as [(tid & t & Ht & Hs)|Hno]; [|by rewrite Hout].
  unfold sends_on in Hs. destruct (th_pc t) as [| | | | | |f q| | | |] eqn:Hpc; try done.
  destruct (Hal tid t Ht ltac:(by rewrite Hpc)) as (lx & lc & fd' & Hco).
  rewrite (co_local _ _ _ _ _ _ _ Hco) in Hs by by rewrite Hpc. destruct (co_conn _ _ _ _ _ _ _ Hco) as (c & Hc & <-).
  rewrite Hc in Hs. apply bool_decide_eq_true in Hs as <-.
  destruct (st_sending _ _ _ _ _ Hx _ _ _ _ _ _ _ Hco Hpc) as (? & ? & ? & pos & _ & _ & _ & <-). by apply prefix_app_r.
Qed.
End sending.

Section answers.
Context `{FD : FileDev} {L : Libc} {N : Sockets} {St : Stdio} {P : Pthreads}.
Context {FDL : FileDevLaws FD} {StL : StdioLaws St} {LL : LibcLaws L} {PL : PthreadsLaws P}.

(** Its own step sends the next piece, or finds the end. *)
Lemma answering_self lm tid f msg fd target s a ps t lx lc pc' s1 :
  net_reliable N ->
  sys_inv lm s a ps -> answering_at lm tid f msg fd target a ps s -> conn_of lm s tid t lx lc fd ->
  thread_step (PLoc lx) (PLoc lc) (T_Send f msg) s = Done (pc', s1) ->
  footprint lm lx lc fd (T_Send f msg) pc' s s1 ->
  answered lm tid f msg fd target a ps s1 lx lc pc' s.
Proof.
  intros Hnet Hinv Hans Hco Hstep Hfp. apply (answering_round _ _ _ _ _ _ _ _ _ t _ _ _ _ Hinv Hans Hco Hstep Hfp).
  intros pos Hf Hpos. destruct (co_x _ _ _ _ _ _ _ Hco) as (x & Hx & _).
  unfold thread_step. wp_steps. eapply get_ctx_wp; [exact Hx|]. wp_steps. apply wp_on_proc.
  eapply send_file_round_wp; [split; [apply Hco|apply (co_fd _ _ _ _ _ _ _ Hco)]|done|apply (si_dev _ _ _ _ Hinv)|done|done|].
  intros d bs Hd. assert (bs = [] -> drop (Z.to_nat pos) (d_content a) = []) as Hnil by (intros Hb; by apply (d_read_nil a pos 4096)).
  pose proof (d_read_rest a pos 4096 Hpos) as Hrest. fold bs in Hrest.
  case_bool_decide as Hbs; wp_steps; exists d, bs; [rewrite bool_decide_true by done|rewrite bool_decide_false by done]; by split_and!.
Qed.

(** One step of anybody, while the thread is sending. *)
Lemma answering_step lm tid f msg fd target s s' :
  net_reliable N -> answering lm tid f msg fd target s -> sys_step lm s s' ->
  answering lm tid f msg fd target s' \/
  (exists t, sv_threads s' !! tid = Some t /\ th_pc t = T_Unlock f msg) /\ out_of (sv_proc s') fd = target.
Proof using LL PL StL.
  intros Hnet (a & ps & Hinv & Hans) Hstep. pose proof Hans as (t & lx & lc & pos & Hco & Hpc & Hf & Htgt).
  destruct (si_lock _ _ _ _ Hinv) as (m & Hm & _).
  destruct Hstep as [tid2 s s' Hrun|fd2 evs s|fd2 addr b s s' Hfd2 Hrun|m' s Hm'].
  - destruct (run_thread_inv _ _ _ _ _ _ Hinv Hrun) as (t2 & lx2 & lc2 & fd2 & pc' & s1 & Hco2 & Hst & Hfp & ->).
    destruct (decide (tid2 = tid)) as [->|Hne].
    + destruct (conn_of_det _ _ _ _ _ _ _ _ _ _ _ Hco Hco2) as (<- & <- & <- & <-). rewrite Hpc in Hst, Hfp.
      destruct (answering_self _ _ _ _ _ _ _ _ _ _ _ _ _ _ Hnet Hinv Hans Hco Hst Hfp) as (ps' & Hinv' & _ & _ & [H|[-> H]]);
        [left; by exists a, ps'|right]. split; [|exact H]. eexists. split; [apply lookup_insert_eq|done].
    + left. destruct (inv_after Hinv Hco2 Hfp) as (a' & ps' & Hinv' & He).
      destruct (answering_other _ _ _ _ _ _ _ _ _ _ _ _ _ _ _ _ _ _ Hinv Hans Hne Hco2 Hfp He) as [_ H]. by exists a', ps'.
  - left. exists a, ps. split; [by eapply (inv_env lm s _ a ps m m Hinv)|].
    exists t, lx, lc, pos. split; [|done]. by destruct Hco.
  - left. exists a, ps. pose proof (inv_accept _ _ _ _ _ _ _ _ Hinv Hfd2 Hrun) as Hinv'. split; [done|]. exists t, lx, lc, pos.
    destruct (accept_frame _ _ _ _ _ _ Hfd2 Hrun _ _ _ _ _ Hco) as [Hco' Hout]. by rewrite Hout.
  - left. exists a, ps.
    split; [eapply (inv_env lm s _ a ps m' (ConnectionManager (cm_filename m') (cm_file_mutex m') true _) Hinv);
            simpl; try done; apply lookup_insert_eq|].
    exists t, lx, lc, pos. split; [|done]. by destruct Hco.
Qed.

(** Any number of steps, as long as the thread is sending. *)
Lemma answering_steps lm tid f msg fd target s s' :
  net_reliable N -> answering lm tid f msg fd target s ->
  rtc (fun s1 s2 => sys_step lm s1 s2 /\ exists t, sv_threads s1 !! tid = Some t /\ th_pc t = T_Send f msg) s s' ->
  (exists t, sv_threads s' !! tid = Some t /\ th_pc t = T_Unlock f msg) -> out_of (sv_proc s') fd = target.
Proof using LL PL StL.
  intros Hnet Hans Hr Hend. induction Hr as [s|s s1 s' [Hstep _] Hr IH].
  - destruct Hans as (a & ps & _ & t & lx & lc & pos & Hco & Hpc & _), Hend as (t' & Ht' & Hpc').
    pose proof (co_thread _ _ _ _ _ _ _ Hco). congruence.
  - destruct (answering_step _ _ _ _ _ _ _ _ Hnet Hans Hstep) as [H|[(t & Ht & Hpc) H]]; [by apply IH|].
    inversion Hr as [|? s2 ? [_ (t' & Ht' & Hpc')] _]; subst; [done|]. congruence.
Qed.

(** *** The step that handles the message *)

(** What [handle_message] does to the device, for a reliable device and any message. *)
Lemma handle_serves p f msg mm a ps :
  dev_reliable FD FDL -> read_cstr (p_heap p) msg = Done mm -> (NL ∉ mm) -> cstr mm = mm ->
  dev_is (p_dev p) a ps -> ps !! f = Some 0 -> line_fits dev_max a mm ->
  wp (handle_message f msg) (fun r p' => exists d pos, p' = set_dev d p /\ 0 <= pos /\
    dev_is d (fst (serve a mm)) (<[f := pos]> ps) /\
    if 0 <=? r then snd (serve a mm) = drop (Z.to_nat pos) (d_content (fst (serve a mm)))
    else snd (serve a mm) = []) p.
Proof using StL.
  intros Hrel Hm Hnl Hcs Hd Hf Hfit. unfold serve. destruct (decode_ioctl_command mm) as [arg|] eqn:E.
  - eapply handle_seek_wp; [done..|]. intros r d Hr. simpl. destruct (d_seek a _ _) as [pos|] eqn:Es; destruct Hr as [Hr Hd'].
    + exists d, pos. subst r. split_and!; try done. eapply d_seek_nonneg; [apply (decode_range mm arg E)|exact Es].
    + exists d, 0. rewrite (proj2 (Z.leb_gt _ _)) by lia. by rewrite insert_id.
  - eapply handle_write_wp; [done..| |done|done|]; [by eexists|]. intros d Hd'. exists d, 0.
    rewrite (proj2 (Z.leb_le _ _)) by apply zlen_nonneg. by rewrite insert_id.
Qed.

Lemma handle_step lm tid f msg mm fd s a ps t lx lc pc' s1 :
  dev_reliable FD FDL -> sys_inv lm s a ps -> conn_of lm s tid t lx lc fd -> th_pc t = T_Handle f msg ->
  read_cstr (p_heap (sv_proc s)) msg = Done mm -> (NL ∉ mm) -> cstr mm = mm -> line_fits dev_max a mm ->
  thread_step (PLoc lx) (PLoc lc) (T_Handle f msg) s = Done (pc', s1) ->
  footprint lm lx lc fd (T_Handle f msg) pc' s s1 ->
  handled lm tid f msg fd (snd (serve a mm)) a (fst (serve a mm)) ps s1 lx lc pc' s.
Proof using StL.
  intros Hrel Hinv Hco Hpc Hm Hnl Hcs Hfit Hstep Hfp. apply (answering_start _ _ _ _ _ _ _ _ _ _ t); try done.
  intros Hf. apply handle_serves; try done. apply (si_dev _ _ _ _ Hinv).
Qed.

(** Handling a message and sending the answer, with any steps of others in between. *)
Lemma serve_atomically lm tid f msg mm fd s a ps t lx lc s1 s2 :
  dev_reliable FD FDL -> net_reliable N ->
  sys_inv lm s a ps -> conn_of lm s tid t lx lc fd -> th_pc t = T_Handle f msg ->
  read_cstr (p_heap (sv_proc s)) msg = Done mm -> (NL ∉ mm) -> cstr mm = mm -> line_fits dev_max a mm ->
  run_thread tid s = Done (tt, s1) ->
  rtc (fun s1 s2 => sys_step lm s1 s2 /\ exists t, sv_threads s1 !! tid = Some t /\ th_pc t = T_Send f msg) s1 s2 ->
  (exists t, sv_threads s2 !! tid = Some t /\ th_pc t = T_Unlock f msg) ->
  (exists ps1, sys_inv lm s1 (fst (serve a mm)) ps1) /\
  out_of (sv_proc s2) fd = out_of (sv_proc s) fd ++ snd (serve a mm).
Proof using LL PL StL.
  intros Hrel Hnet Hinv Hco Hpc Hm Hnl Hcs Hfit Hrun Hr Hend.
  destruct (run_thread_inv _ _ _ _ _ _ Hinv Hrun) as (t2 & lx2 & lc2 & fd2 & pc' & s0 & Hco2 & Hst & Hfp & ->).
  destruct (conn_of_det _ _ _ _ _ _ _ _ _ _ _ Hco Hco2) as (<- & <- & <- & <-). rewrite Hpc in Hst, Hfp.
  destruct (handle_step _ _ _ _ _ _ _ _ _ _ _ _ _ _ Hrel Hinv Hco Hpc Hm Hnl Hcs Hfit Hst Hfp)
    as (ps1 & Hinv1 & _ & _ & _ & [Hans|[-> Hout]]); (split; [by exists ps1|]).
  - eapply answering_steps; [done| |done|done]. by exists (fst (serve a mm)), ps1.
  - inversion Hr as [|? s3 ? [_ (t' & Ht' & Hpc')] _]; subst; [exact Hout|].
    simpl in Ht'. rewrite lookup_insert_eq in Ht'. by injection Ht' as <-.
Qed.
End answers.
