(* ===== verification/ThreadSafety.v ===== *)
(** The concurrent server is memory safe and does not deadlock.

    [mem_inv] adds the heap to the invariant of [ServerThreads]: the strings a thread
    holds are live, and no two threads, nor a thread and the manager, hold the same one. *)

From S2P Require Import Prelude CMonad KHeap Libc DeviceSpec FileDev Process TcpConnection TcpReceive TcpSend ReceiveSafety SList ConnectionManager ServerSpec HandleMessage Session ManagerLife ThreadFrame ThreadMemory ServerThreads.
Local Open Scope Z_scope.
Local Open Scope cmonad_scope.

Section safety.
Context `{FD : FileDev} {L : Libc} {N : Sockets} {St : Stdio} {P : Pthreads}.
Context {FT : FileTable FD} {StL : StdioLaws St} {LL : LibcLaws L} {PL : PthreadsLaws P}.

Definition hp (s : server) : heap := p_heap (sv_proc s).

(** The thread with the connection [lc] at [pc] holds the object [l]. *)
Definition held (s : server) (lc : loc) (pc : thread_pc) (l : loc) : Prop :=
  (exists c, p_conns (sv_proc s) !! lc = Some c /\ c_client_address c = PLoc l) \/ message_of pc = Some (PLoc l).

Record mem_inv (lm : loc) (s : server) : Prop := {
  mi_name : exists m ln, sv_managers s !! lm = Some m /\ cm_filename m = PLoc ln /\ str_at (hp s) ln /\
    forall tid t lx lc fd, conn_of lm s tid t lx lc fd -> ~ held s lc (th_pc t) ln;
  mi_own tid t lx lc fd : conn_of lm s tid t lx lc fd ->
    exists c la, p_conns (sv_proc s) !! lc = Some c /\ c_client_address c = PLoc la /\ str_at (hp s) la /\
      forall q, message_of (th_pc t) = Some q -> exists k, q = PLoc k /\ str_at (hp s) k /\ k <> la;
  mi_disj tid1 t1 lx1 lc1 fd1 tid2 t2 lx2 lc2 fd2 l :
    conn_of lm s tid1 t1 lx1 lc1 fd1 -> conn_of lm s tid2 t2 lx2 lc2 fd2 -> tid1 <> tid2 ->
    held s lc1 (th_pc t1) l -> ~ held s lc2 (th_pc t2) l;
}.

(** No socket has a GiB waiting to be read. *)
Definition input_small (s : server) : Prop := forall fd, zlen (in_of (sv_proc s) fd) < 2 ^ 30.

Lemma held_live lm s tid t lx lc fd l :
  mem_inv lm s -> conn_of lm s tid t lx lc fd -> held s lc (th_pc t) l -> str_at (hp s) l.
Proof.
  intros Hm Hco Hh. destruct (mi_own _ _ Hm _ _ _ _ _ Hco) as (c & la & Hc & Ha & Hla & Hmsg).
  destruct Hh as [(c' & Hc' & Ha')|Hq].
  - assert (l = la) as -> by congruence. done.
  - destruct (Hmsg _ Hq) as (k & [= ->] & Hk & _). done.
Qed.

(** *** A step of a thread *)

(** What the invariants give a thread for its step. *)
Lemma step_from_inv lm s a ps tid t lx lc fd :
  sys_inv lm s a ps -> mem_inv lm s -> input_small s -> conn_of lm s tid t lx lc fd ->
  exists c la, p_conns (sv_proc s) !! lc = Some c /\ c_client_address c = PLoc la /\
    wsp (may_fault lm s (PLoc lc) (th_pc t)) (thread_step (PLoc lx) (PLoc lc) (th_pc t))
      (fun pc' s' => mem_effect lm lc la (th_pc t) pc' s s') s.
Proof using LL.
  intros Hinv Hmi Hsmall Hco. destruct (mi_own _ _ Hmi _ _ _ _ _ Hco) as (c & la & Hc & Ha & Hla & Hmsg).
  destruct (mi_name _ _ Hmi) as (m & ln & Hm & Hn & Hln & _).
  destruct (co_x _ _ _ _ _ _ _ Hco) as (x & Hx & Hxm & Hxc).
  destruct (co_conn _ _ _ _ _ _ _ Hco) as (c' & Hc' & Hs). assert (c' = c) as -> by congruence.
  pose proof (co_fd _ _ _ _ _ _ _ Hco) as Hfd. rewrite <- Hs in Hfd. exists c, la. split; [done|]. split; [done|].
  eapply (thread_step_safe Hx Hxm Hxc Hc Hfd Ha Hla Hm Hn Hln); [exact Hmsg| |by intros _].
  intros Hcr. destruct (si_lock _ _ _ _ Hinv) as (m' & Hm' & Hlock). assert (m' = m) as -> by congruence.
  apply Hlock. exists tid, t. split; [apply Hco|done].
Qed.

Section one_step.
Context {lm : loc} {s s1 : server} {a : ft_state} {ps : gmap Z Z} (Hinv : sys_inv lm s a ps) (Hmi : mem_inv lm s).
Context {tid : Z} {t : thread} {lx lc la : loc} {fd : Z} (Hco : conn_of lm s tid t lx lc fd).
Context {c : tcp_connection} (Hc : p_conns (sv_proc s) !! lc = Some c) (Ha : c_client_address c = PLoc la).
Context {pc' : thread_pc} (Hfp : footprint lm lx lc fd (th_pc t) pc' s s1).
Context (Hme : mem_effect lm lc la (th_pc t) pc' s s1).

Local Abbreviation s' := (after (tid := tid) (lx := lx) (lc := lc) (pc' := pc') (s1 := s1)).

Lemma holds_addr : held s lc (th_pc t) la.
Proof using Hc Ha. left. by exists c. Qed.

(** An object the thread does not hold is as it was. *)
Lemma kept l : ~ held s lc (th_pc t) l -> is_Some (hp s !! l) -> hp s' !! l = hp s !! l.
Proof using Hc Ha Hme.
  intros Hl Hs. apply (me_frame _ _ _ _ _ _ _ Hme); [intros ->; apply Hl, holds_addr| |done]. intros Hq. apply Hl. by right.
Qed.
Lemma str_kept l : ~ held s lc (th_pc t) l -> str_at (hp s) l -> str_at (hp s') l.
Proof using Hc Ha Hme.
  intros Hl (bs & Hbs & Hn). exists bs. rewrite kept; [done|done|]. by exists bs.
Qed.

(** Another live thread is what it was, and holds what it held. *)
Lemma other_before tid2 t2 lx2 lc2 fd2 :
  tid2 <> tid -> conn_of lm s' tid2 t2 lx2 lc2 fd2 ->
  conn_of lm s tid2 t2 lx2 lc2 fd2 /\ (forall l, held s' lc2 (th_pc t2) l <-> held s lc2 (th_pc t2) l) /\
  p_conns (sv_proc s') !! lc2 = p_conns (sv_proc s) !! lc2.
Proof using Hinv Hco Hfp.
  intros Hne Hco2. destruct (conn_of_after Hinv Hco Hfp _ _ _ _ _ Hco2) as [t0 Hco0].
  pose proof (co_thread _ _ _ _ _ _ _ Hco2) as Ht. rewrite (after_other Hfp) in Ht by done.
  assert (t0 = t2) as -> by (pose proof (co_thread _ _ _ _ _ _ _ Hco0); congruence).
  destruct (si_disjoint _ _ _ _ Hinv _ _ _ _ _ _ _ _ _ _ Hco0 Hco Hne) as (_ & Hlc & _).
  assert (p_conns (sv_proc s') !! lc2 = p_conns (sv_proc s) !! lc2) as E by by apply (fp_conns _ _ _ _ _ _ _ _ Hfp).
  split; [done|]. split; [|done]. intros l. unfold held. by rewrite E.
Qed.

(** What the thread holds after the step it held before, or it is new. *)
Lemma self_held l t2 lx2 lc2 fd2 :
  conn_of lm s' tid t2 lx2 lc2 fd2 -> held s' lc2 (th_pc t2) l ->
  lc2 = lc /\ th_pc t2 = pc' /\ (held s lc (th_pc t) l \/ hp s !! l = None).
Proof using Hco Hfp Hc Ha Hme.
  intros Hco2 Hh. pose proof (co_thread _ _ _ _ _ _ _ Hco2) as Ht. apply after_thread_self in Ht as ->.
  pose proof (conn_of_self Hco Hfp (co_alive _ _ _ _ _ _ _ Hco2)) as Hself.
  destruct (conn_of_det _ _ _ _ _ _ _ _ _ _ _ Hco2 Hself) as (_ & -> & -> & ->).
  split; [done|]. split; [done|]. simpl in Hh. destruct Hh as [(c' & Hc' & Ha')|Hq].
  - left. destruct (me_addr _ _ _ _ _ _ _ Hme (co_alive _ _ _ _ _ _ _ Hco2)) as (_ & c2 & Hc2 & Ha2).
    assert (l = la) as -> by (simpl in Hc'; congruence). apply holds_addr.
  - destruct (me_msg _ _ _ _ _ _ _ Hme _ Hq) as (k & [= <-] & _ & [[Hk _]|Hk]); [left; by right|by right].
Qed.

Lemma mem_after : mem_inv lm s'.
Proof using Hinv Hmi Hco Hc Ha Hfp Hme.
  assert (forall l tid2 t2 lx2 lc2 fd2 t3 lx3 lc3 fd3, tid2 <> tid -> conn_of lm s' tid2 t2 lx2 lc2 fd2 ->
    held s' lc2 (th_pc t2) l -> conn_of lm s' tid t3 lx3 lc3 fd3 -> ~ held s' lc3 (th_pc t3) l) as Hdis.
  { intros l tid2 t2 lx2 lc2 fd2 t3 lx3 lc3 fd3 Hne Hco2 Hh2 Hco3 Hh3.
    destruct (other_before _ _ _ _ _ Hne Hco2) as (Hco2' & Hiff & _). apply Hiff in Hh2.
    destruct (self_held _ _ _ _ _ Hco3 Hh3) as (_ & _ & [Hh|Hh]).
    - exact (mi_disj _ _ Hmi _ _ _ _ _ _ _ _ _ _ _ Hco2' Hco Hne Hh2 Hh).
    - destruct (held_live _ _ _ _ _ _ _ _ Hmi Hco2' Hh2) as (bs & E & _). congruence. }
  split.
  - destruct (mi_name _ _ Hmi) as (m & ln & Hm & Hn & Hln & Hno).
    destruct (me_manager _ _ _ _ _ _ _ Hme m Hm) as (m' & Hm' & En). exists m', ln.
    split; [exact Hm'|]. split; [congruence|]. split; [by apply str_kept; [eapply Hno|]|].
    intros tid2 t2 lx2 lc2 fd2 Hco2 Hh. destruct (decide (tid2 = tid)) as [->|Hne].
    + destruct (self_held _ _ _ _ _ Hco2 Hh) as (_ & _ & [Hh'|Hh']); [by eapply Hno|].
      destruct Hln as (bs & E & _). congruence.
    + destruct (other_before _ _ _ _ _ Hne Hco2) as (Hco2' & Hiff & _). apply Hiff in Hh. by eapply Hno.
  - intros tid2 t2 lx2 lc2 fd2 Hco2. destruct (decide (tid2 = tid)) as [->|Hne].
    + pose proof (co_thread _ _ _ _ _ _ _ Hco2) as Ht. apply after_thread_self in Ht as ->.
      pose proof (co_alive _ _ _ _ _ _ _ Hco2) as Hal.
      destruct (conn_of_det _ _ _ _ _ _ _ _ _ _ _ Hco2 (conn_of_self Hco Hfp Hal)) as (_ & -> & -> & ->).
      destruct (me_addr _ _ _ _ _ _ _ Hme Hal) as (Eh & c' & Hc' & Ha'). exists c', la.
      destruct (held_live _ _ _ _ _ _ _ _ Hmi Hco holds_addr) as (bs & Hbs & Hnul).
      split; [done|]. split; [done|]. split; [exists bs; unfold hp in *; simpl; by rewrite Eh|].
      intros q Hq. destruct (me_msg _ _ _ _ _ _ _ Hme q Hq) as (k & -> & Hk & Hor). exists k.
      split; [done|]. split; [done|]. destruct Hor as [[Ho _]|Ho]; [|intros ->; unfold hp in *; congruence].
      destruct (mi_own _ _ Hmi _ _ _ _ _ Hco) as (c0 & la0 & Hc0 & Ha0 & _ & Hmsg).
      destruct (Hmsg _ Ho) as (k' & [= <-] & _ & Hne). congruence.
    + destruct (other_before _ _ _ _ _ Hne Hco2) as (Hco2' & Hiff & Ec).
      assert (forall l, held s lc2 (th_pc t2) l -> ~ held s lc (th_pc t) l) as Hnot.
      { intros l. exact (mi_disj _ _ Hmi _ _ _ _ _ _ _ _ _ _ l Hco2' Hco Hne). }
      destruct (mi_own _ _ Hmi _ _ _ _ _ Hco2') as (c2 & la2 & Hc2 & Ha2 & Hs2 & Hmsg2). exists c2, la2.
      rewrite Ec. split; [done|]. split; [done|]. split; [apply str_kept; [apply Hnot; left; by exists c2|done]|].
      intros q Hq. destruct (Hmsg2 q Hq) as (k & -> & Hk & Hka). exists k. split; [done|]. split; [|done].
      apply str_kept; [apply Hnot; by right|done].
  - intros tid1 t1 lx1 lc1 fd1 tid2 t2 lx2 lc2 fd2 l Hco1 Hco2 Hne H1 H2.
    destruct (decide (tid1 = tid)) as [->|Hne1]; [by eapply (Hdis l tid2)|].
    destruct (decide (tid2 = tid)) as [->|Hne2]; [by eapply (Hdis l tid1)|].
    destruct (other_before _ _ _ _ _ Hne1 Hco1) as (Hco1' & Hiff1 & _). apply Hiff1 in H1.
    destruct (other_before _ _ _ _ _ Hne2 Hco2) as (Hco2' & Hiff2 & _). apply Hiff2 in H2.
    exact (mi_disj _ _ Hmi _ _ _ _ _ _ _ _ _ _ _ Hco1' Hco2' Hne H1 H2).
Qed.
End one_step.

(** *** The other steps *)

(** Only what arrives, the mutex, the shutdown flag or finished threads differ. *)
Lemma mem_live lm s s' m m' :
  mem_inv lm s -> same_live s s' -> hp s' = hp s ->
  sv_managers s !! lm = Some m -> sv_managers s' !! lm = Some m' -> cm_filename m' = cm_filename m ->
  mem_inv lm s'.
Proof.
  intros [(m0 & ln & Hm0 & Hn & Hln & Hno) H2 H3] Hs Eh Hm Hm' Emn.
  assert (forall tid t lx lc fd, conn_of lm s' tid t lx lc fd -> conn_of lm s tid t lx lc fd) as Hco.
  { intros tid t lx lc fd. by apply conn_of_live. }
  assert (forall lc pc l, held s' lc pc l <-> held s lc pc l) as Hh by (intros; unfold held; by rewrite (sl_conns _ _ Hs)).
  split; rewrite ?Eh, ?(sl_conns _ _ Hs).
  - exists m', ln. split; [done|]. split; [congruence|]. split; [done|].
    intros tid t lx lc fd Hc%Hco Hhe%Hh. by eapply Hno.
  - intros tid t lx lc fd Hc%Hco. by eapply H2.
  - intros tid1 t1 lx1 lc1 fd1 tid2 t2 lx2 lc2 fd2 l Hc1%Hco Hc2%Hco Hne Hl1%Hh Hl2. apply Hh in Hl2.
    exact (H3 _ _ _ _ _ _ _ _ _ _ _ Hc1 Hc2 Hne Hl1 Hl2).
Qed.
Lemma mem_env lm s s' m m' :
  mem_inv lm s -> sv_threads s' = sv_threads s -> sv_ctxs s' = sv_ctxs s ->
  p_conns (sv_proc s') = p_conns (sv_proc s) -> p_fds (sv_proc s') = p_fds (sv_proc s) -> hp s' = hp s ->
  sv_managers s !! lm = Some m -> sv_managers s' !! lm = Some m' -> cm_filename m' = cm_filename m ->
  mem_inv lm s'.
Proof. intros. eapply mem_live; [done|by apply same_live_eq|done..]. Qed.

(** More objects, connections and sockets, which no thread works with. *)
Lemma held_weaken lm s s' tid t lx lc fd k :
  p_conns (sv_proc s) ⊆ p_conns (sv_proc s') -> conn_of lm s tid t lx lc fd ->
  held s' lc (th_pc t) k <-> held s lc (th_pc t) k.
Proof.
  intros Hn Hco. destruct (co_conn _ _ _ _ _ _ _ Hco) as (c & Hc & _). pose proof (lookup_weaken _ _ _ _ Hc Hn) as Hc'.
  unfold held. by rewrite Hc, Hc'.
Qed.
Lemma str_weaken (h h' : heap) k : h ⊆ h' -> str_at h k -> str_at h' k.
Proof. intros Hh (bs & Hk & Hn). exists bs. split; [by eapply lookup_weaken|done]. Qed.

Lemma mem_same_conns lm s s' :
  mem_inv lm s -> sv_managers s' = sv_managers s -> p_conns (sv_proc s) ⊆ p_conns (sv_proc s') -> hp s ⊆ hp s' ->
  (forall tid t lx lc fd, conn_of lm s' tid t lx lc fd <-> conn_of lm s tid t lx lc fd) -> mem_inv lm s'.
Proof.
  intros [(m & ln & Hm & Hn & Hln & Hno) H2 H3] Em Hcn Hh Hiff0.
  assert (forall tid t lx lc fd, conn_of lm s' tid t lx lc fd -> conn_of lm s tid t lx lc fd /\
            forall k, held s' lc (th_pc t) k <-> held s lc (th_pc t) k) as Hback.
  { intros tid t lx lc fd Hco%Hiff0. split; [done|]. intros k. by eapply held_weaken. }
  split.
  - exists m, ln. rewrite Em. split; [done|]. split; [done|]. split; [by eapply str_weaken|].
    intros tid t lx lc fd Hco Hhe. destruct (Hback _ _ _ _ _ Hco) as [Hco' Hiff]. apply Hiff in Hhe. by eapply Hno.
  - intros tid t lx lc fd Hco. destruct (Hback _ _ _ _ _ Hco) as [Hco' Hiff].
    destruct (H2 _ _ _ _ _ Hco') as (c & la & Hc & Ha & Hla & Hmsg). exists c, la.
    split; [by eapply lookup_weaken|]. split; [done|]. split; [by eapply str_weaken|].
    intros q Hq. destruct (Hmsg q Hq) as (k & -> & Hk & Hne). exists k. split; [done|]. split; [by eapply str_weaken|done].
  - intros tid1 t1 lx1 lc1 fd1 tid2 t2 lx2 lc2 fd2 k Hc1 Hc2 Hne Hk1 Hk2.
    destruct (Hback _ _ _ _ _ Hc1) as [Hc1' Hi1], (Hback _ _ _ _ _ Hc2) as [Hc2' Hi2].
    apply Hi1 in Hk1. apply Hi2 in Hk2. exact (H3 _ _ _ _ _ _ _ _ _ _ _ Hc1' Hc2' Hne Hk1 Hk2).
Qed.
Lemma mem_weaken lm s s' a ps :
  sys_inv lm s a ps -> mem_inv lm s -> sv_threads s' = sv_threads s -> sv_ctxs s' = sv_ctxs s ->
  sv_managers s' = sv_managers s -> p_conns (sv_proc s) ⊆ p_conns (sv_proc s') ->
  p_fds (sv_proc s) ⊆ p_fds (sv_proc s') -> hp s ⊆ hp s' -> mem_inv lm s'.
Proof.
  intros Hinv Hmi Et Ec Em Hcn Hf Hh. apply (mem_same_conns lm s); try done. intros tid t lx lc fd.
  split; [by eapply conn_of_weaken_inv|by apply conn_of_weaken].
Qed.

(** A connection that main has created and not yet registered: nothing of it is a thread's. *)
Record unregistered (lm : loc) (s : server) (lc la : loc) (fd : Z) : Prop := {
  pd_conn : p_conns (sv_proc s) !! lc = Some (TcpConnection fd (PLoc la) true);
  pd_fd : fd ∈ p_fds (sv_proc s);
  pd_str : str_at (hp s) la;
  pd_unowned : unowned lm s lc fd;
  pd_unheld tid t lx lc' fd' : conn_of lm s tid t lx lc' fd' -> ~ held s lc' (th_pc t) la;
  pd_name m : sv_managers s !! lm = Some m -> cm_filename m <> PLoc la;
}.

(** It gets its context and its thread. *)
Section grow.
Context {lm : loc} {s s' : server} {a : ft_state} {ps : gmap Z Z} (Hinv : sys_inv lm s a ps) (Hmi : mem_inv lm s).
Context {l lc la : loc} {fd : Z} {x : connection_ctx} (Hl : sv_ctxs s !! l = None) (Hpd : unregistered lm s lc la fd).
Context (Ep : sv_proc s' = sv_proc s) (Ec : sv_ctxs s' = <[l := x]> (sv_ctxs s)) (Hsub : sv_threads s ⊆ sv_threads s').
Context (Hnew : forall tid t, sv_threads s' !! tid = Some t -> sv_threads s !! tid = Some t \/
  sv_threads s !! tid = None /\ th_pc t = T_Start /\ conn_of lm s' tid t l lc fd).

Lemma grow_back tid t lx1 lc1 fd1 :
  conn_of lm s' tid t lx1 lc1 fd1 ->
  conn_of lm s tid t lx1 lc1 fd1 \/ sv_threads s !! tid = None /\ lc1 = lc /\ th_pc t = T_Start.
Proof using Hinv Hl Ep Ec Hsub Hnew.
  clear Hmi Hpd. intros Hco. destruct (Hnew _ _ (co_thread _ _ _ _ _ _ _ Hco)) as [Ht|(Ht & Hpc & Hco2)].
  - left. destruct (si_alive _ _ _ _ Hinv _ _ Ht (co_alive _ _ _ _ _ _ _ Hco)) as (lx2 & lc2 & fd2 & Hco2).
    by destruct (conn_of_det _ _ _ _ _ _ _ _ _ _ _ Hco (conn_of_grow Hl Ep Ec Hsub _ _ _ _ _ Hco2)) as (_ & -> & -> & ->).
  - right. by destruct (conn_of_det _ _ _ _ _ _ _ _ _ _ _ Hco Hco2) as (_ & _ & -> & _).
Qed.

Lemma held_grow lc1 pc k : held s' lc1 pc k <-> held s lc1 pc k.
Proof using Ep. unfold held. by rewrite Ep. Qed.
Lemma held_new pc k : pc = T_Start -> held s lc pc k -> k = la.
Proof using Hpd.
  clear -Hpd. intros -> [(c' & Hc' & Ha')|Hq]; [|done]. rewrite (pd_conn _ _ _ _ _ Hpd) in Hc'. injection Hc' as <-. by injection Ha'.
Qed.

Lemma mem_grow m m' :
  sv_managers s !! lm = Some m -> sv_managers s' !! lm = Some m' -> cm_filename m' = cm_filename m ->
  (forall tid1 tid2 t1 t2, sv_threads s' !! tid1 = Some t1 -> sv_threads s' !! tid2 = Some t2 ->
     sv_threads s !! tid1 = None -> sv_threads s !! tid2 = None -> tid1 = tid2) ->
  mem_inv lm s'.
Proof using Hinv Hmi Hl Hpd Ep Ec Hsub Hnew.
  intros Hm Hm' Emn Hone. destruct (mi_name _ _ Hmi) as (m0 & ln & Hm0 & Hn & Hln & Hno).
  assert (hp s' = hp s) as Eh by (unfold hp; by rewrite Ep). split; rewrite ?Eh, ?Ep.
  - exists m', ln. split; [done|]. split; [congruence|]. split; [done|].
    intros tid t lx1 lc1 fd1 Hco Hh%held_grow. destruct (grow_back _ _ _ _ _ Hco) as [Hco'|(_ & -> & Hpc)]; [by eapply Hno|].
    apply held_new in Hh as ->; [|done]. by apply (pd_name _ _ _ _ _ Hpd m0).
  - intros tid t lx1 lc1 fd1 Hco. destruct (grow_back _ _ _ _ _ Hco) as [Hco'|(_ & -> & Hpc)]; [by eapply (mi_own _ _ Hmi)|].
    eexists _, la. split; [apply (pd_conn _ _ _ _ _ Hpd)|]. split; [done|]. rewrite Hpc. split; [apply (pd_str _ _ _ _ _ Hpd)|done].
  - intros tid1 t1 lx1 lc1 fd1 tid2 t2 lx2 lc2 fd2 k H1 H2 Hne Hk1%held_grow Hk2%held_grow.
    destruct (grow_back _ _ _ _ _ H1) as [H1'|(Hn1 & -> & Hp1)], (grow_back _ _ _ _ _ H2) as [H2'|(Hn2 & -> & Hp2)].
    + exact (mi_disj _ _ Hmi _ _ _ _ _ _ _ _ _ _ _ H1' H2' Hne Hk1 Hk2).
    + apply held_new in Hk2 as ->; [|done]. by eapply (pd_unheld _ _ _ _ _ Hpd).
    + apply held_new in Hk1 as ->; [|done]. by eapply (pd_unheld _ _ _ _ _ Hpd).
    + apply Hne. eapply Hone; [apply H1|apply H2|done|done].
Qed.
End grow.

Lemma mem_register lm s a ps lc la fd b s' :
  sys_inv lm s a ps -> mem_inv lm s -> unregistered lm s lc la fd ->
  connection_manager_register_connection (PLoc lm) (PLoc lc) s = Done (b, s') -> mem_inv lm s'.
Proof using LL PL.
  clear StL. intros Hinv Hmi Hpd Hrun. destruct (si_lock _ _ _ _ Hinv) as (m & Hm & _).
  revert s' Hrun. enough (wlp (connection_manager_register_connection (PLoc lm) (PLoc lc)) (fun _ s' => mem_inv lm s') s) as H.
  { intros s' Hrun. exact (wlp_run _ _ _ _ _ Hrun H). }
  apply register_wlp.
  - intros l m0 Hl Hm0. assert (m0 = m) as -> by congruence.
    destruct (pthread_new (dom (sv_threads s))) as [tid|] eqn:Ht; [|done].
    apply pthread_new_fresh, not_elem_of_dom in Ht.
    eapply (mem_grow Hinv Hmi Hl Hpd) with (m := m) (m' := with_list m (PLoc l)); try reflexivity; simpl.
    + by apply insert_subseteq.
    + intros tid2 t2. rewrite lookup_insert. case_decide as E; [|by left]. intros [= <-]. subst tid2. right.
      split; [done|]. split; [done|]. split; simpl; try done.
      * apply lookup_insert_eq.
      * eexists. by rewrite lookup_insert_eq.
      * eexists. split; [apply (pd_conn _ _ _ _ _ Hpd)|done].
      * apply (pd_fd _ _ _ _ _ Hpd).
    + exact Hm.
    + apply lookup_insert_eq.
    + intros tid1 tid2 t1 t2 H1 H2 H3 H4. rewrite lookup_insert in H1, H2. repeat case_decide; congruence.
  - intros l Hl Hp. eapply (mem_grow Hinv Hmi Hl Hpd) with (m := m) (m' := m); try reflexivity; simpl.
    + intros tid t Ht. by left.
    + exact Hm.
    + exact Hm.
    + intros tid1 tid2 t1 t2 H1 H2 H3 H4. congruence.
Qed.

(** Accepting a client makes such a connection. *)
Lemma connected_pending lm s a ps fd lc la addr :
  sys_inv lm s a ps -> mem_inv lm s -> p_conns (sv_proc s) !! lc = None -> hp s !! la = None -> (fd ∉ p_fds (sv_proc s)) ->
  mem_inv lm (connected s fd lc la addr) /\ unregistered lm (connected s fd lc la addr) lc la fd.
Proof.
  intros Hinv Hmi Hlc Hla Hfd.
  assert (p_conns (sv_proc s) ⊆ p_conns (sv_proc (connected s fd lc la addr))) as Hcn by (simpl; by apply insert_subseteq).
  assert (p_fds (sv_proc s) ⊆ p_fds (sv_proc (connected s fd lc la addr))) as Hf by (simpl; apply union_subseteq_r).
  split; [eapply mem_weaken; try done; unfold hp; simpl; by apply insert_subseteq|].
  assert (forall k, str_at (hp s) k -> k <> la) as Hfresh by (intros k (bs & E & _) ->; congruence).
  split; simpl.
  - apply lookup_insert_eq.
  - set_solver.
  - exists (addr ++ [NUL]). split; [apply lookup_insert_eq|]. apply elem_of_app. right. left.
  - by eapply connected_unowned.
  - intros tid t lx lc' fd' Hco Hh. apply (conn_of_weaken_inv lm s _ a ps) in Hco; try done.
    apply (held_weaken lm s _ tid t lx lc' fd' la Hcn Hco) in Hh. by apply (Hfresh la (held_live _ _ _ _ _ _ _ _ Hmi Hco Hh)).
  - intros m Hm E. destruct (mi_name _ _ Hmi) as (m0 & ln & Hm0 & Hn & Hln & _). assert (m = m0) as -> by congruence.
    apply (Hfresh la); [|done]. congruence.
Qed.

Lemma mem_accept lm s a ps fd addr b s' :
  sys_inv lm s a ps -> mem_inv lm s -> (fd ∉ p_fds (sv_proc s)) -> accept_and_register lm fd addr s = Done (b, s') ->
  mem_inv lm s'.
Proof using LL PL StL.
  intros Hinv Hmi Hfd Hrun. destruct (si_lock _ _ _ _ Hinv) as (m & Hm & _).
  refine (wlp_run _ _ _ _ _ Hrun (accept_wlp _ _ _ _ (fun _ s' => mem_inv lm s') _ _)).
  - intros p E1 E2 E3 _ E4 E5. eapply (mem_env lm s _ m m Hmi); simpl; try done. rewrite E5. clear -Hfd. set_solver.
  - intros lc la b' s2 Hlc Hla Hr. destruct (connected_pending lm s a ps fd lc la addr) as [Hmi' Hpd]; [done..|].
    eapply mem_register; [by eapply connected_inv|done|done|done].
Qed.

(** *** Every reachable state *)

(** A step from a state in which no socket has a GiB waiting. *)
Definition small_step (lm : loc) (s s' : server) : Prop := input_small s /\ sys_step lm s s'.

Lemma mem_step lm s s' a ps :
  sys_inv lm s a ps -> mem_inv lm s -> small_step lm s s' -> mem_inv lm s'.
Proof using LL PL StL.
  intros Hinv Hmi [Hsmall Hstep]. destruct (si_lock _ _ _ _ Hinv) as (m & Hm & _).
  destruct Hstep as [tid s s' Hrun|fd evs s|fd addr b s s' Hfd Hrun|m' s Hm'].
  - destruct (run_thread_inv _ _ _ _ _ _ Hinv Hrun) as (t & lx & lc & fd & pc' & s1 & Hco & Hst & Hfp & ->).
    destruct (step_from_inv _ _ _ _ _ _ _ _ _ Hinv Hmi Hsmall Hco) as (c & la & Hc & Ha & Hsafe).
    exact (mem_after Hinv Hmi Hco Hc Ha Hfp (wsp_run _ _ _ _ _ Hst Hsafe)).
  - by eapply (mem_env lm s _ m m Hmi).
  - by eapply mem_accept.
  - eapply (mem_env lm s _ m' (ConnectionManager (cm_filename m') (cm_file_mutex m') true _) Hmi); simpl; try done;
      apply lookup_insert_eq.
Qed.

Lemma mem_steps lm s s' a ps :
  sys_inv lm s a ps -> mem_inv lm s -> rtc (small_step lm) s s' -> (exists a' ps', sys_inv lm s' a' ps') /\ mem_inv lm s'.
Proof using LL PL StL.
  intros Hinv Hmi Hr. revert a ps Hinv Hmi. induction Hr as [s|s s1 s' Hs _ IH]; intros a ps Hinv Hmi; [split; [by exists a, ps|done]|].
  pose proof (mem_step _ _ _ _ _ Hinv Hmi Hs) as Hmi1. destruct Hs as [_ Hs].
  destruct (inv_step _ _ _ _ _ Hinv Hs) as (a1 & ps1 & Hinv1). by eapply IH.
Qed.

Lemma mem_initial lm m s ln :
  sv_threads s = ∅ -> sv_managers s !! lm = Some m -> cm_filename m = PLoc ln -> str_at (hp s) ln -> mem_inv lm s.
Proof.
  intros Ht Hm Hn Hs.
  assert (forall tid t lx lc fd, conn_of lm s tid t lx lc fd -> False) as Hno.
  { intros tid t lx lc fd Hco. pose proof (co_thread _ _ _ _ _ _ _ Hco) as H. by rewrite Ht in H. }
  split.
  - exists m, ln. split_and!; try done. intros tid t lx lc fd Hco. by destruct (Hno _ _ _ _ _ Hco).
  - intros tid t lx lc fd Hco. by destruct (Hno _ _ _ _ _ Hco).
  - intros tid1 t1 lx1 lc1 fd1 tid2 t2 lx2 lc2 fd2 l Hco. by destruct (Hno _ _ _ _ _ Hco).
Qed.

(** A thread's step from a state of the invariants. *)
Lemma run_thread_safe lm s a ps tid t f :
  sys_inv lm s a ps -> mem_inv lm s -> input_small s -> sv_threads s !! tid = Some t -> th_pc t <> T_Done ->
  run_thread tid s = Fault f -> may_fault lm s (th_connection t) (th_pc t) f.
Proof using LL.
  intros Hinv Hmi Hsmall Ht Hal Hrun. destruct (si_alive _ _ _ _ Hinv _ _ Ht Hal) as (lx & lc & fd & Hco).
  destruct (step_from_inv _ _ _ _ _ _ _ _ _ Hinv Hmi Hsmall Hco) as (c & la & Hc & Ha & Hsafe).
  pose proof Hco as [_ _ Hctx (x & Hx & Hxm & Hxc) Hloc _ _].
  assert (thread_connection (th_ctx t) (th_connection t) (th_pc t) s = Done (PLoc lc, s)) as Hcon.
  { rewrite Hctx. destruct (decide (th_pc t = T_Start)) as [E|E].
    - rewrite E. simpl. unfold get_ctx, bind, mget, mopt. simpl. by rewrite Hx, <- Hxc.
    - rewrite (Hloc E). by destruct (th_pc t). }
  unfold run_thread, bind, mget, mopt in Hrun. simpl in Hrun. rewrite Ht in Hrun. unfold ret in Hrun. simpl in Hrun.
  rewrite Hcon, Hctx in Hrun. assert (may_fault lm s (PLoc lc) (th_pc t) f) as Hf.
  { eapply wsp_no_fault; [|exact Hsafe].
    destruct (thread_step (PLoc lx) (PLoc lc) (th_pc t) s) as [[pc' s1]|f']; [done|]. by injection Hrun as ->. }
  destruct (decide (th_pc t = T_Start)) as [E|E]; [by rewrite E in Hf|by rewrite Hloc].
Qed.
End safety.

Section reliable.
Context `{FD : FileDev} {L : Libc} {N : Sockets} {St : Stdio} {P : Pthreads} {FDL : FileDevLaws FD}.

(** When the device always opens, a received message is always stored or answered. *)
Lemma open_goes_on ctx connection q s :
  dev_reliable FD FDL -> (exists a ps, dev_is (p_dev (sv_proc s)) a ps) ->
  wlp (thread_step ctx connection (T_Open q)) (fun pc' _ => pc' <> T_While) s.
Proof.
  intros Hrel (a & ps & Hd). unfold thread_step. wlp_steps. unfold get_ctx. destruct ctx as [| |lx]; wlp_steps.
  apply wlp_opt. intros x _. wlp_steps. unfold get_manager. destruct (ctx_manager x) as [| |lm]; wlp_steps.
  apply wlp_opt. intros m _. wlp_steps. apply wlp_on_proc. unfold do_string. wlp_steps. apply wlp_lift. intros name _.
  wlp_steps. apply wlp_on_proc. unfold do_fopen. wlp_steps. simpl.
  destruct (reliable_fopen _ _ Hrel _ _ _ Hd) as [[f d] E]. rewrite E. by wlp_steps.
Qed.
End reliable.
