(* ===== verification/ServerEvents.v ===== *)
(** What can be seen of the server from outside: what arrives on its sockets, and which line it handles when.

    The transitions of [ServerMain.main_trans] and the steps of the [AtomicServer] carry these
    events; [line_events] reads a thread's from the step that it is about to take. *)

From S2P Require Import Prelude CMonad KHeap Libc DeviceSpec FileDev Process TcpConnection TcpReceive ReceiveSafety SList ConnectionManager.
Local Open Scope Z_scope.
Local Open Scope cmonad_scope.

Inductive server_event :=
  | SE_Arrive (fd : Z) (evs : list recv_event)   (** bytes, the end of the stream or an error *)
  | SE_Discard (fd : Z)                          (** the system forgets the unread input of a closed socket *)
  | SE_Line (fd : Z) (m : bytes).                (** the message [m] of the client at [fd] is handled *)
Abbreviation trace := (list server_event).

Section events.
Context `{FD : FileDev}.

(** The thread handles its message in one step. *)
Definition line_events (tid : Z) (s : server) : trace :=
  match sv_threads s !! tid with
  | Some (Thread _ (PLoc lc) (T_Handle _ msg)) =>
      match p_conns (sv_proc s) !! lc, read_cstr (p_heap (sv_proc s)) msg with
      | Some c, Done m => [SE_Line (c_socket c) m]
      | _, _ => []
      end
  | _ => []
  end.

Lemma no_line_events s tid t : sv_threads s !! tid = Some t -> (forall f q, th_pc t <> T_Handle f q) -> line_events tid s = [].
Proof.
  intros Ht Hh. unfold line_events. rewrite Ht. destruct t as [cx cn pc]. simpl in Hh. destruct pc; try by destruct cn.
  by destruct (Hh fd message).
Qed.

(** The system forgets what was not read. *)
Definition discard (fd : Z) (s : server) : server := set_proc (set_in (delete fd (p_in (sv_proc s))) (sv_proc s)) s.
End events.

(** ** Functions of a trace *)

(** The messages handled, in their order, each with its client's socket. *)
Definition history (tr : trace) : list (Z * bytes) :=
  omap (fun e => match e with SE_Line fd m => Some (fd, m) | _ => None end) tr.

(** Of the socket [fd], since its input was last discarded: all that has arrived, after [evs0] at the beginning,
    and the messages handled. *)
Definition arrived (fd : Z) (evs0 : list recv_event) (tr : trace) : list recv_event :=
  foldl (fun evs e => match e with
    | SE_Arrive fd' more => if decide (fd' = fd) then evs ++ more else evs
    | SE_Discard fd' => if decide (fd' = fd) then [] else evs
    | SE_Line _ _ => evs
    end) evs0 tr.
Definition handled (fd : Z) (tr : trace) : list bytes :=
  foldl (fun ms e => match e with
    | SE_Arrive _ _ => ms
    | SE_Discard fd' => if decide (fd' = fd) then [] else ms
    | SE_Line fd' m => if decide (fd' = fd) then ms ++ [m] else ms
    end) [] tr.

Lemma history_app tr tr' : history (tr ++ tr') = history tr ++ history tr'.
Proof. apply omap_app. Qed.
Lemma arrived_app fd evs0 tr tr' : arrived fd evs0 (tr ++ tr') = arrived fd (arrived fd evs0 tr) tr'.
Proof. apply foldl_app. Qed.
Lemma handled_snoc fd tr e : handled fd (tr ++ [e]) =
  match e with
  | SE_Arrive _ _ => handled fd tr
  | SE_Discard fd' => if decide (fd' = fd) then [] else handled fd tr
  | SE_Line fd' m => if decide (fd' = fd) then handled fd tr ++ [m] else handled fd tr
  end.
Proof. unfold handled. by rewrite foldl_app. Qed.

(** The complete lines of a stream, each up to its first NUL: a line that ends in an error is dropped, and
    nothing is read after the end. [pre] is what has been read of the first one. *)
Fixpoint lines_of (pre : bytes) (evs : list recv_event) : list bytes :=
  match evs with
  | [] | RecvEof :: _ => []
  | RecvByte c :: evs => if bool_decide (c = NL) then cstr pre :: lines_of [] evs else lines_of (pre ++ [c]) evs
  | RecvErr :: evs => lines_of [] evs
  end.

Lemma lines_of_bytes pre m evs : (NL ∉ m) -> lines_of pre ((RecvByte <$> m) ++ evs) = lines_of (pre ++ m) evs.
Proof.
  revert pre. induction m as [|c m IH]; intros pre Hnl; simpl; [by rewrite app_nil_r|].
  apply not_elem_of_cons in Hnl as [Hc Hnl]. rewrite bool_decide_false by done. rewrite IH by done. by rewrite <- app_assoc.
Qed.
(** A line; the end of the stream or an error; neither. *)
Lemma lines_of_line m evs : (NL ∉ m) -> lines_of [] ((RecvByte <$> m) ++ RecvByte NL :: evs) = cstr m :: lines_of [] evs.
Proof. intros Hnl. by rewrite lines_of_bytes. Qed.
Lemma lines_of_end m ev evs : (NL ∉ m) -> ev = RecvEof \/ ev = RecvErr ->
  lines_of [] ((RecvByte <$> m) ++ ev :: evs) = lines_of [] (after_event ev evs).
Proof. intros Hnl Hev. rewrite lines_of_bytes by done. by destruct Hev as [-> | ->]. Qed.
Lemma lines_of_none pre evs : Forall (fun ev => ends_receive NL ev = false) evs -> lines_of pre evs = [].
Proof.
  intros H. revert pre. induction H as [|ev evs Hev _ IH]; intros pre; simpl; [done|]. destruct ev as [c| |]; simpl in Hev; try done.
  apply bool_decide_eq_false in Hev. rewrite bool_decide_false; [apply IH|]. intros ->. by apply Hev.
Qed.
