(* ===== verification/AtomicServer.v ===== *)
(** The server as its clients see it: every message is handled and answered in one step.

    An [atomic] server has no threads, buffers, descriptors or locks: only the device, what has
    arrived on each socket, the message received from it that is not served yet, and
    what was sent on it. [serves] of [AtomicRefinement] relates a state of the concurrent
    server to it, and every step of a thread is a step of the atomic server with the same events, or none. *)

From S2P Require Import Prelude CMonad KHeap Libc DeviceSpec FileDev Process TcpConnection TcpReceive TcpSend ReceiveSafety SList ConnectionManager ServerSpec HandleMessage Session ManagerLife ThreadFrame ThreadMemory ServerThreads Answers ThreadSafety ServerEvents.
Local Open Scope Z_scope.
Local Open Scope cmonad_scope.

Record atomic := Atomic {
  at_dev : dstate;
  at_in : gmap Z (list recv_event);
  at_msg : gmap Z bytes;
  at_out : gmap Z bytes;
}.
Definition at_in_of (x : atomic) (fd : Z) : list recv_event := default [] (at_in x !! fd).
Definition at_out_of (x : atomic) (fd : Z) : bytes := default [] (at_out x !! fd).

Inductive atomic_step : atomic -> trace -> atomic -> Prop :=
  (** Bytes, the end of the stream or an error arrive. *)
  | at_arrive fd evs x :
      atomic_step x [SE_Arrive fd evs] (Atomic (at_dev x) (<[fd := at_in_of x fd ++ evs]> (at_in x)) (at_msg x) (at_out x))
  (** What was not read of a client that is gone is forgotten. *)
  | at_discard fd x :
      at_msg x !! fd = None -> atomic_step x [SE_Discard fd] (Atomic (at_dev x) (delete fd (at_in x)) (at_msg x) (at_out x))
  (** A line is received; it is cut at its first NUL. *)
  | at_receive fd m rest x :
      at_in_of x fd = (RecvByte <$> m) ++ RecvByte NL :: rest -> (NL ∉ m) -> at_msg x !! fd = None ->
      atomic_step x [] (Atomic (at_dev x) (<[fd := rest]> (at_in x)) (<[fd := cstr m]> (at_msg x)) (at_out x))
  (** The stream ends or fails; what was received of a line is dropped. *)
  | at_hangup fd pre ev rest x :
      at_in_of x fd = (RecvByte <$> pre) ++ ev :: rest -> (NL ∉ pre) -> ev = RecvEof \/ ev = RecvErr -> at_msg x !! fd = None ->
      atomic_step x [] (Atomic (at_dev x) (<[fd := after_event ev rest]> (at_in x)) (at_msg x) (at_out x))
  (** The message is served: the device changes and the whole answer is sent. *)
  | at_serve fd m x :
      at_msg x !! fd = Some m ->
      atomic_step x [SE_Line fd m] (Atomic (fst (serve (at_dev x) m)) (at_in x) (delete fd (at_msg x))
                       (<[fd := at_out_of x fd ++ snd (serve (at_dev x) m)]> (at_out x))).

(** A run, with the events of its steps. *)
Inductive atomic_run (x0 : atomic) : trace -> atomic -> Prop :=
  | atomic_nil : atomic_run x0 [] x0
  | atomic_snoc tr x es x' : atomic_run x0 tr x -> atomic_step x es x' -> atomic_run x0 (tr ++ es) x'.

(** ** What the atomic server guarantees *)

(** The answers to the messages of [fd] in the history [h], from the device [a]. *)
Fixpoint answers (fd : Z) (a : dstate) (h : list (Z * bytes)) : bytes :=
  match h with
  | [] => []
  | (fd', m) :: h => (if decide (fd' = fd) then snd (serve a m) else []) ++ answers fd (fst (serve a m)) h
  end.
Definition device_after (a : dstate) (h : list (Z * bytes)) : dstate := foldl (fun a r => fst (serve a r.2)) a h.

Lemma answers_snoc fd a h fd' m :
  answers fd a (h ++ [(fd', m)]) =
  answers fd a h ++ if decide (fd' = fd) then snd (serve (device_after a h) m) else [].
Proof.
  revert a. induction h as [|[fd2 m2] h IH]; intros a; simpl; [by rewrite app_nil_r|]. by rewrite IH, app_assoc.
Qed.

(** The device, and what was sent to every client, are those that the lines handled, in their order, make. *)
Record replies (x0 : atomic) (h : list (Z * bytes)) (x : atomic) : Prop := {
  rp_dev : at_dev x = device_after (at_dev x0) h;
  rp_out fd : at_out_of x fd = at_out_of x0 fd ++ answers fd (at_dev x0) h;
}.
Lemma atomic_replies x0 tr x : atomic_run x0 tr x -> replies x0 (history tr) x.
Proof.
  induction 1 as [|tr x es x' _ [Hd Ho] Hs]; [split; [done|intros fd; by rewrite app_nil_r]|]. rewrite history_app.
  destruct Hs as [fd evs x|fd x _|fd m rest x|fd pre ev rest x|fd m x Hm]; simpl; rewrite ?app_nil_r; [by split..|].
  split; simpl; [unfold device_after in *; rewrite foldl_app; simpl; by rewrite <- Hd|].
  intros fd'. rewrite answers_snoc, app_assoc, <- Ho, <- Hd. unfold at_out_of at 1. simpl. rewrite lookup_insert.
  case_decide as E; [by subst|]. by rewrite app_nil_r.
Qed.

(** Every line that has arrived on a socket has been handled, once and in its turn, or is the one just received,
    or is still waiting to be read. *)
Definition at_held (x : atomic) (fd : Z) : list bytes := option_list (at_msg x !! fd).
Definition accounts (x0 : atomic) (tr : trace) (x : atomic) : Prop := forall fd,
  lines_of [] (arrived fd (at_in_of x0 fd) tr) = handled fd tr ++ at_held x fd ++ lines_of [] (at_in_of x fd).

Lemma atomic_accounts x0 tr x : atomic_run x0 tr x -> at_msg x0 = ∅ -> accounts x0 tr x.
Proof.
  intros Hr Hm0 fd. enough (forall more, lines_of [] (arrived fd (at_in_of x0 fd) tr ++ more) =
    handled fd tr ++ at_held x fd ++ lines_of [] (at_in_of x fd ++ more)) as H by (specialize (H []); by rewrite !app_nil_r in H).
  induction Hr as [|tr x es x' _ IH Hs]; intros more; [unfold at_held; by rewrite Hm0, lookup_empty|].
  destruct Hs as [fd' evs x|fd' x Hn|fd' m rest x Hin Hnl Hn|fd' pre ev rest x Hin Hnl Hev Hn|fd' m x Hm];
    unfold at_held, at_in_of in *;
    rewrite ?app_nil_r, ?arrived_app, ?handled_snoc; simpl; rewrite ?lookup_insert, ?lookup_delete; case_decide as E; try apply IH; subst fd'.
  - simpl. rewrite <- !app_assoc. apply IH.
  - by rewrite Hn.
  - rewrite IH, Hn, Hin. simpl. rewrite <- app_assoc. simpl. by rewrite lines_of_line.
  - rewrite IH, Hn, Hin. simpl. rewrite <- app_assoc. simpl. rewrite lines_of_end by done. by destruct Hev as [-> | ->].
  - rewrite IH, Hm. simpl. by rewrite <- app_assoc.
Qed.
