(* ===== verification/AtomicRefinement.v ===== *)
(** The concurrent server refines the atomic one.

    A thread has received a message from [T_Open] to [T_Handle]; handling it is the step
    [at_serve], and what is still to be sent of the answer in [T_Send] has been sent already by the
    atomic server. [serves_after] says what a step of a thread has to do for [serves] to be
    kept; every other step of a thread is no step of the atomic server. *)

From S2P Require Import Prelude CMonad KHeap Libc DeviceSpec FileDev Process TcpConnection TcpReceive TcpSend ReceiveSafety SList ConnectionManager ServerSpec HandleMessage Session ManagerLife ThreadFrame ThreadMemory ServerThreads Answers ThreadSafety ServerEvents AtomicServer.
Local Open Scope Z_scope.
Local Open Scope cmonad_scope.

(** The message that a thread has received and not handled. *)
Definition awaiting (pc : thread_pc) : option ptr :=
  match pc with T_Open q | T_Lock _ q | T_Handle _ q => Some q | _ => None end.
Lemma awaiting_message pc q : awaiting pc = Some q -> message_of pc = Some q.
Proof. by destruct pc. Qed.

Section refinement.
Context `{FD : FileDev} {L : Libc} {N : Sockets} {St : Stdio} {P : Pthreads}.
Context {FDL : FileDevLaws FD} {StL : StdioLaws St} {LL : LibcLaws L} {PL : PthreadsLaws P}.

(** The line [m], without newline, is the string at [q], and the device has room for it. *)
Definition fits (s : server) (q : ptr) (m : bytes) : Prop :=
  read_cstr (hp s) q = Done m /\ (NL ∉ m) /\ zlen m < dev_max.

Record serves (lm : loc) (s : server) (a : dstate) (ps : gmap Z Z) (x : atomic) : Prop := {
  sr_dev : at_dev x = a;
  sr_pending : pending a = [];
  sr_in : at_in x = p_in (sv_proc s);
  sr_msg tid t lx lc fd : conn_of lm s tid t lx lc fd ->
    match awaiting (th_pc t) with
    | Some q => exists m, fits s q m /\ at_msg x !! fd = Some m
    | None => at_msg x !! fd = None
    end;
  sr_owner fd : is_Some (at_msg x !! fd) -> exists tid t lx lc, conn_of lm s tid t lx lc fd;
  sr_sent : sent_to lm s a ps (at_out_of x);
  sr_open tid t lx lc fd : conn_of lm s tid t lx lc fd -> th_pc t = T_Receive ->
    exists c, p_conns (sv_proc s) !! lc = Some c /\ c_is_open c = true;
}.
Lemma sr_sending lm s a ps x tid t lx lc fd f q : serves lm s a ps x -> conn_of lm s tid t lx lc fd -> th_pc t = T_Send f q ->
  answering_at lm tid f q fd (at_out_of x fd) a ps s.
Proof using Type. intros H. apply (sr_sent _ _ _ _ _ H). Qed.
Lemma sr_out lm s a ps x fd : serves lm s a ps x -> (forall tid t lx lc, conn_of lm s tid t lx lc fd -> ~ is_sending (th_pc t)) ->
  at_out_of x fd = out_of (sv_proc s) fd.
Proof using Type. intros H. apply (sr_sent _ _ _ _ _ H). Qed.

(** *** A step of a thread *)

Lemma main_line_event lm s tid t lx lc fd f q m :
  conn_of lm s tid t lx lc fd -> th_pc t = T_Handle f q -> read_cstr (hp s) q = Done m -> line_events tid s = [SE_Line fd m].
Proof using Type.
  intros [Ht _ _ _ Hl (cn & Hc & <-) _] Hpc Hm. unfold line_events, hp in *. rewrite Ht.
  destruct t as [cx cn' pc]. simpl in *. subst pc. rewrite Hl by done. by rewrite Hc, Hm.
Qed.

Section one_step.
Context {lm : loc} {s s1 : server} {a a' : dstate} {ps ps' : gmap Z Z} (Hinv : sys_inv lm s a ps) (Hmi : mem_inv lm s).
Context {tid : Z} {t : thread} {lx lc la : loc} {fd : Z} (Hco : conn_of lm s tid t lx lc fd).
Context {c : tcp_connection} (Hc : p_conns (sv_proc s) !! lc = Some c) (Ha : c_client_address c = PLoc la).
Context {pc' : thread_pc} (Hfp : footprint lm lx lc fd (th_pc t) pc' s s1).
Context (Hme : mem_effect lm lc la (th_pc t) pc' s s1) (He : dev_effect (th_pc t) pc' a a' ps ps').

Local Abbreviation s' := (after (tid := tid) (lx := lx) (lc := lc) (pc' := pc') (s1 := s1)).

(** A message that another thread holds is what it was. *)
Lemma other_message tid2 t2 lx2 lc2 fd2 q m :
  tid2 <> tid -> conn_of lm s tid2 t2 lx2 lc2 fd2 -> awaiting (th_pc t2) = Some q -> fits s q m -> fits s' q m.
Proof using Hinv Hmi Hco Hc Ha Hme.
  intros Hne Hco2 Hq (Hr & Hm). split; [|done]. apply awaiting_message in Hq.
  destruct (mi_own _ _ Hmi _ _ _ _ _ Hco2) as (c2 & la2 & _ & _ & _ & Hmsg). destruct (Hmsg q Hq) as (k & -> & Hk & _).
  assert (~ held s lc (th_pc t) k) as Hnot.
  { apply (mi_disj _ _ Hmi _ _ _ _ _ _ _ _ _ _ k Hco2 Hco Hne). by right. }
  destruct Hk as (bs & Hbs & Hn). rewrite <- Hr. unfold read_cstr.
  by rewrite (kept (tid := tid) (lx := lx) (s1 := s1) Hc Ha Hme k Hnot (ex_intro _ _ Hbs)).
Qed.
(** So is the thread's own, until it is handled. *)
Lemma own_message q m : awaiting (th_pc t) = Some q -> message_of pc' = Some q -> fits s q m -> fits s' q m.
Proof using Hme.
  intros _ Hq (Hr & Hm). split; [|done]. destruct (me_msg _ _ _ _ _ _ _ Hme q Hq) as (k & -> & _ & [[_ Hk]|Hk]).
  - rewrite <- Hr. unfold read_cstr, hp. simpl. by rewrite Hk.
  - unfold read_cstr, hp in Hr. by rewrite Hk in Hr.
Qed.

Context {x x' : atomic} (Hx : serves lm s a ps x).

(** What the step has to do to the thread's own socket; the atomic server leaves the others alone. *)
Lemma serves_after :
  at_dev x' = a' -> pending a' = [] -> at_in x' = p_in (sv_proc s1) ->
  (forall fd2, fd2 <> fd -> at_msg x' !! fd2 = at_msg x !! fd2 /\ at_out_of x' fd2 = at_out_of x fd2) ->
  match awaiting pc' with
  | Some q => exists m, fits s' q m /\ at_msg x' !! fd = Some m
  | None => at_msg x' !! fd = None
  end ->
  (forall f q, pc' = T_Send f q -> answering_at lm tid f q fd (at_out_of x' fd) a' ps' s') ->
  (~ is_sending pc' -> at_out_of x' fd = out_of (sv_proc s1) fd) ->
  (pc' = T_Receive -> exists c, p_conns (sv_proc s1) !! lc = Some c /\ c_is_open c = true) ->
  serves lm s' a' ps' x'.
Proof using Hinv Hmi Hco Hc Ha Hfp Hme He Hx.
  intros Edev Hpend Ein Hoth Hmsg Hsend Hout Hopen.
  pose proof (fun tid2 t2 lx2 lc2 fd2 => after_back Hinv Hco Hfp tid2 t2 lx2 lc2 fd2) as Hback.
  split; [done|done|done|..].
  - intros tid2 t2 lx2 lc2 fd2 Hco2. destruct (Hback _ _ _ _ _ Hco2) as [(-> & -> & _ & -> & ->)|(Hne & Hfd & _ & Hco2')]; [exact Hmsg|].
    pose proof (sr_msg _ _ _ _ _ Hx _ _ _ _ _ Hco2') as Hm. rewrite (proj1 (Hoth _ Hfd)).
    destruct (awaiting (th_pc t2)) as [q|] eqn:Hq; [|done]. destruct Hm as (m & Hfit & Em). exists m. split; [|done].
    by eapply other_message.
  - intros fd2 Hs. destruct (decide (fd2 = fd)) as [->|Hfd].
    + exists tid, (Thread (PLoc lx) (PLoc lc) pc'), lx, lc. apply (conn_of_self Hco Hfp). intros E. rewrite E in Hmsg. simpl in Hmsg.
      rewrite Hmsg in Hs. by destruct Hs.
    + rewrite (proj1 (Hoth _ Hfd)) in Hs. destruct (sr_owner _ _ _ _ _ Hx _ Hs) as (tid2 & t2 & lx2 & lc2 & Hco2).
      exists tid2, t2, lx2, lc2. apply (conn_of_other Hinv Hco Hfp); [|done]. intros ->.
      by destruct (conn_of_det _ _ _ _ _ _ _ _ _ _ _ Hco Hco2) as (_ & _ & _ & <-).
  - eapply (sent_after _ _ _ _ _ _ _ _ _ _ _ _ _ _ _ Hinv (sr_sent _ _ _ _ _ Hx) Hco Hfp He); [|done|done].
    intros fd2 Hne. apply (proj2 (Hoth _ Hne)).
  - intros tid2 t2 lx2 lc2 fd2 Hco2 Hpc. destruct (Hback _ _ _ _ _ Hco2) as [(-> & -> & _ & -> & ->)|(Hne & _ & Hlc & Hco2')]; [by apply Hopen|].
    simpl. rewrite (fp_conns _ _ _ _ _ _ _ _ Hfp) by done. by eapply (sr_open _ _ _ _ _ Hx).
Qed.
End one_step.

(** *** Steps that are none of the atomic server *)

(** The next place after such a step. *)
Definition silent_next (pc pc' : thread_pc) : Prop :=
  match pc with
  | T_Start => pc' = T_While
  | T_While => pc' = T_Receive \/ pc' = T_Exit
  | T_Open q => pc' = T_While \/ exists f, pc' = T_Lock f q
  | T_Lock f q => pc' = T_Handle f q
  | T_Unlock f q => pc' = T_Close f q
  | T_Close _ _ => pc' = T_While
  | T_Exit => pc' = T_Done
  | _ => False
  end.
Definition silent (pc : thread_pc) : bool :=
  match pc with T_Receive | T_Handle _ _ | T_Send _ _ | T_Done => false | _ => true end.

Ltac silent_go := repeat first
  [ progress wlp_steps | apply wlp_opt; intros ? ? | apply wlp_lift; intros ? ? | apply wlp_on_proc
  | match goal with
    | |- wlp (match ?p with _ => _ end) _ _ => destruct p eqn:?
    | |- wlp (if ?b then _ else _) _ _ => destruct b eqn:?
    end ].

Lemma silent_step ctx lc pc s : silent pc = true ->
  wlp (thread_step ctx (PLoc lc) pc) (fun pc' s' => p_in (sv_proc s') = p_in (sv_proc s) /\ p_out (sv_proc s') = p_out (sv_proc s) /\
    silent_next pc pc' /\
    (pc' = T_Receive -> exists c, p_conns (sv_proc s') !! lc = Some c /\ c_is_open c = true)) s.
Proof using Type.
  intros Hs. destruct pc; try done; unfold thread_step, tcp_connection_destroy, get_ctx, pthread_mutex_lock,
    pthread_mutex_unlock, get_manager, set_manager, do_string, do_fopen, do_fclose, do_free, tcp_connection_is_open, get_conn, set_ctx,
    do_close, set_conn, free_conn; silent_go; try done;
    try match goal with |- context [cm_close_connections ?m] => destruct (cm_close_connections m) end; naive_solver.
Qed.

(** *** Receiving *)

(** With memory, what is received is a line, or the beginning of one that does not end. *)
Definition received_line (p : proc) (fd : Z) (r : bool * ptr) (p' : proc) : Prop :=
  exists m rest l junk, in_of p fd = (RecvByte <$> m) ++ RecvByte NL :: rest /\ (NL ∉ m) /\ r = (true, PLoc l) /\
    p_heap p' !! l = Some (m ++ NUL :: junk) /\ p_in p' = <[fd := rest]> (p_in p).
Definition received_end (p : proc) (lc : loc) (fd : Z) (r : bool * ptr) (p' : proc) : Prop :=
  exists pre ev rest, in_of p fd = (RecvByte <$> pre) ++ ev :: rest /\ (NL ∉ pre) /\ (ev = RecvEof \/ ev = RecvErr) /\
    r = (false, PNull) /\ p_in p' = <[fd := after_event ev rest]> (p_in p) /\
    (ev = RecvEof -> exists q, p_conns p' !! lc = Some (TcpConnection fd q false)).

Lemma receive_cases p lc fd q :
  conn_open p lc fd q -> malloc_succeeds L -> zlen (in_of p fd) < 2 ^ 30 ->
  wlp (tcp_connection_receive_message (PLoc lc) NL)
    (fun r p' => p_out p' = p_out p /\ (received_line p fd r p' \/ received_end p lc fd r p')) p.
Proof using LL.
  intros Hopen Hmem Hlen. unfold wlp. destruct (tcp_connection_receive_message (PLoc lc) NL p) as [[r p']|] eqn:Hrun; [|done].
  pose proof Hopen as [Hc Hfd].
  destruct (wsp_run _ _ _ _ _ Hrun (receive_safe p lc _ NL Hc Hfd Hlen)) as [_ (pre & ev & rest & E & Hpre & Hev)]. simpl in E.
  assert (p_in p !! fd = Some ((RecvByte <$> pre) ++ ev :: rest)) as Hin.
  { unfold in_of in E. destruct (p_in p !! fd); simpl in E; [by rewrite E|by destruct pre]. }
  assert (zlen pre < 2 ^ 30) as Hl.
  { rewrite E in Hlen. unfold zlen in *. rewrite length_app, length_fmap in Hlen. lia. }
  assert (ev = RecvByte NL \/ ev = RecvEof \/ ev = RecvErr) as [->|He].
  { destruct ev; simpl in Hev; [|by auto..]. left. by apply bool_decide_eq_true_1 in Hev as ->. }
  - pose proof (receive_message_wp p lc fd q NL pre rest
      (fun r p' => p_out p' = p_out p /\ received_line p fd r p') Hopen Hmem Hin Hpre Hl) as Hwp.
    destruct (wp_run _ _ _ _ _ Hrun (Hwp ltac:(intros l junk _; split; [done|]; exists pre, rest, l, junk; split_and!; try done; apply lookup_insert_eq))).
    auto.
  - pose proof (receive_end_wp p lc fd q NL pre ev rest
      (fun r p' => p_out p' = p_out p /\ received_end p lc fd r p') Hopen Hmem Hin Hpre Hl He) as Hwp.
    destruct (wp_run _ _ _ _ _ Hrun (Hwp ltac:(destruct He as [-> | ->]; (split; [done|]); do 3 eexists; split_and!; try done; auto; intros; exists q; apply lookup_insert_eq))).
    auto.
Qed.

(** *** The steps of a thread, one by one *)

Section thread_steps.
Context {lm : loc} {s s1 : server} {a : dstate} {ps : gmap Z Z} (Hinv : sys_inv lm s a ps) (Hmi : mem_inv lm s).
Context {tid : Z} {t : thread} {lx lc la : loc} {fd : Z} (Hco : conn_of lm s tid t lx lc fd).
Context {c : tcp_connection} (Hc : p_conns (sv_proc s) !! lc = Some c) (Ha : c_client_address c = PLoc la).
Context {pc' : thread_pc} (Hfp : footprint lm lx lc fd (th_pc t) pc' s s1) (Hme : mem_effect lm lc la (th_pc t) pc' s s1).
Context (Hst : thread_step (PLoc lx) (PLoc lc) (th_pc t) s = Done (pc', s1)).
Context {x : atomic} (Hx : serves lm s a ps x).

Local Abbreviation s' := (after (tid := tid) (lx := lx) (lc := lc) (pc' := pc') (s1 := s1)).

(** Nobody else works with the socket. *)
Lemma only_thread tid2 t2 lx2 lc2 : conn_of lm s tid2 t2 lx2 lc2 fd -> t2 = t.
Proof using Hinv Hco.
  intros Hco2. destruct (decide (tid2 = tid)) as [->|Hne].
  - by destruct (conn_of_det _ _ _ _ _ _ _ _ _ _ _ Hco2 Hco) as (-> & _).
  - by destruct (si_disjoint _ _ _ _ Hinv _ _ _ _ _ _ _ _ _ _ Hco2 Hco Hne) as (_ & _ & []).
Qed.
Lemma own_out : ~ is_sending (th_pc t) -> at_out_of x fd = out_of (sv_proc s) fd.
Proof using Hinv Hco Hx.
  intros Hno. apply (sr_out _ _ _ _ _ _ Hx). intros tid2 t2 lx2 lc2 Hco2. by rewrite (only_thread _ _ _ _ Hco2).
Qed.

Lemma serves_silent ps' :
  silent (th_pc t) = true -> (forall q, th_pc t = T_Open q -> pc' <> T_While) ->
  dev_effect (th_pc t) pc' a a ps ps' -> serves lm s' a ps' x.
Proof using Hinv Hmi Hco Hc Ha Hfp Hme Hst Hx.
  intros Hs Hopen He. destruct (wlp_run _ _ _ _ _ Hst (silent_step _ _ _ _ Hs)) as (Ein & Eout & Hnext & Hrecv).
  pose proof (sr_msg _ _ _ _ _ Hx _ _ _ _ _ Hco) as Hmsg.
  apply (serves_after Hinv Hmi Hco Hc Ha Hfp Hme He Hx); [apply Hx|apply Hx|rewrite Ein; apply Hx|done| | | |exact Hrecv].
  - destruct (th_pc t) as [| | |q|f q|f q|f q|f q|f q| |] eqn:Hpc; try done; simpl in Hnext, Hmsg;
      try (destruct Hnext as [-> | ->]; done); try (subst pc'; done).
    + destruct Hnext as [->|[f ->]]; [by destruct (Hopen q)|]. destruct Hmsg as (m & Hfit & Em). exists m. split; [|done].
      rewrite <- Hpc in Hme. by apply (own_message Hme q m); rewrite ?Hpc.
    + subst pc'. destruct Hmsg as (m & Hfit & Em). exists m. split; [|done].
      rewrite <- Hpc in Hme. by apply (own_message Hme q m); rewrite ?Hpc.
  - intros f q ->. destruct (th_pc t); simpl in Hnext; naive_solver.
  - intros _. rewrite own_out; [unfold out_of; by rewrite Eout|]. intros (f & q & E). by rewrite E in Hs.
Qed.

(** Some state of the device, of the descriptors and of the atomic server goes with the step, and the
    atomic server makes the same events. *)
Definition refined : Prop := exists a' ps' x',
  (line_events tid s = [] /\ x' = x \/ atomic_step x (line_events tid s) x') /\
  sys_inv lm s' a' ps' /\ dev_effect (th_pc t) pc' a a' ps ps' /\ serves lm s' a' ps' x'.

Lemma serve_pending m : pending a = [] -> pending (fst (serve a m)) = [].
Proof using Type.
  intros Hp. unfold serve. destruct (decode_ioctl_command m); [done|]. simpl. unfold d_write. rewrite Hp. simpl.
  rewrite ends_in_newline_snoc, bool_decide_true by done. done.
Qed.

Lemma serves_handle f q : dev_reliable FD FDL -> th_pc t = T_Handle f q -> refined.
Proof using Hinv Hmi Hco Hc Ha Hfp Hme Hst Hx StL.
  intros Hrel Hpc. pose proof (sr_msg _ _ _ _ _ Hx _ _ _ _ _ Hco) as Hmsg. rewrite Hpc in Hmsg. simpl in Hmsg.
  destruct Hmsg as (m & (Hr & Hnl & Hlen) & Em). pose proof (sr_pending _ _ _ _ _ Hx) as Hp.
  assert (cstr m = m) as Hcs.
  { unfold read_cstr in Hr. destruct q; try done. destruct (_ !! l); [|done]. case_bool_decide; [|done]. injection Hr as <-.
    apply cstr_id, cstr_no_nul. }
  assert (line_fits dev_max a m) as Hfit by (unfold line_fits; rewrite Hp, Hcs; zlen_simp).
  assert (thread_step (PLoc lx) (PLoc lc) (T_Handle f q) s = Done (pc', s1)) as Hst' by by rewrite <- Hpc.
  assert (footprint lm lx lc fd (T_Handle f q) pc' s s1) as Hfp' by by rewrite <- Hpc.
  destruct (handle_step _ _ _ _ _ _ _ _ _ _ _ _ _ _ Hrel Hinv Hco Hpc Hr Hnl Hcs Hfit Hst' Hfp') as (ps' & Hinv' & He & Ein & Eout & Hans).
  rewrite <- Hpc in He. set (x' := Atomic (fst (serve (at_dev x) m)) (at_in x) (delete fd (at_msg x))
    (<[fd := at_out_of x fd ++ snd (serve (at_dev x) m)]> (at_out x))).
  assert (at_out_of x' fd = out_of (sv_proc s) fd ++ snd (serve a m)) as Ho.
  { unfold at_out_of at 1. simpl. rewrite lookup_insert_eq. simpl. rewrite (sr_dev _ _ _ _ _ Hx), own_out; [done|]. by intros (? & ? & ?); congruence. }
  exists (fst (serve a m)), ps', x'. split; [right; rewrite (main_line_event _ _ _ _ _ _ _ _ _ _ Hco Hpc Hr); by apply at_serve|]. split; [exact Hinv'|]. split; [exact He|].
  apply answer_next in Hans as (Hpc' & Hsend & Hout).
  assert (awaiting pc' = None /\ pc' <> T_Receive) as [Hw Hnr] by (by destruct Hpc' as [-> | ->]). apply (serves_after Hinv Hmi Hco Hc Ha Hfp Hme He Hx).
  - simpl. by rewrite (sr_dev _ _ _ _ _ Hx).
  - by apply serve_pending.
  - simpl. rewrite (sr_in _ _ _ _ _ Hx). by rewrite <- Ein.
  - intros fd2 Hne. unfold at_out_of. simpl. by rewrite lookup_delete_ne, lookup_insert_ne.
  - rewrite Hw. apply lookup_delete_eq.
  - rewrite Ho. exact Hsend.
  - rewrite Ho. exact Hout.
  - done.
Qed.

Lemma serves_send f q : net_reliable N -> th_pc t = T_Send f q -> refined.
Proof using Hinv Hmi Hco Hc Ha Hfp Hme Hst Hx.
  intros Hnet Hpc. pose proof (sr_msg _ _ _ _ _ Hx _ _ _ _ _ Hco) as Hmsg. rewrite Hpc in Hmsg. simpl in Hmsg.
  pose proof (sr_sending _ _ _ _ _ _ _ _ _ _ _ _ Hx Hco Hpc) as Hans0.
  assert (thread_step (PLoc lx) (PLoc lc) (T_Send f q) s = Done (pc', s1)) as Hst' by by rewrite <- Hpc.
  assert (footprint lm lx lc fd (T_Send f q) pc' s s1) as Hfp' by by rewrite <- Hpc.
  destruct (answering_self _ _ _ _ _ _ _ _ _ _ _ _ _ _ Hnet Hinv Hans0 Hco Hst' Hfp') as (ps' & Hinv' & He & Ein & Hans).
  rewrite <- Hpc in He. exists a, ps', x.
  split; [left; split; [eapply no_line_events; [apply Hco|by rewrite Hpc]|done]|]. split; [exact Hinv'|]. split; [exact He|].
  apply answer_next in Hans as (Hpc' & Hsend & Hout).
  assert (awaiting pc' = None /\ pc' <> T_Receive) as [Hw Hnr] by (by destruct Hpc' as [-> | ->]).
  apply (serves_after Hinv Hmi Hco Hc Ha Hfp Hme He Hx); [apply Hx|apply Hx| |done|by rewrite Hw|done|done|done].
  rewrite (sr_in _ _ _ _ _ Hx). by rewrite <- Ein.
Qed.

Lemma serves_receive : malloc_succeeds L -> zlen (in_of (sv_proc s) fd) < dev_max -> th_pc t = T_Receive -> refined.
Proof using Hinv Hmi Hco Hc Ha Hfp Hme Hst Hx LL.
  intros Hmem Hlen Hpc. pose proof (sr_msg _ _ _ _ _ Hx _ _ _ _ _ Hco) as Hnone. rewrite Hpc in Hnone. simpl in Hnone.
  destruct (sr_open _ _ _ _ _ Hx _ _ _ _ _ Hco Hpc) as (c' & Hc' & Ho). assert (c' = c) as -> by congruence.
  destruct (co_conn _ _ _ _ _ _ _ Hco) as (c2 & Hc2 & Hs). assert (c2 = c) as -> by congruence.
  assert (conn_open (sv_proc s) lc fd (PLoc la)) as Hopen.
  { split; [|apply Hco]. rewrite Hc. destruct c as [sock addr o]. simpl in *. by subst. }
  assert (at_in_of x fd = in_of (sv_proc s) fd) as Ein by (unfold at_in_of, in_of; by rewrite (sr_in _ _ _ _ _ Hx)).
  pose proof dev_max_small as Hmax.
  assert (wlp (thread_step (PLoc lx) (PLoc lc) T_Receive) (fun pc' s1 => p_out (sv_proc s1) = p_out (sv_proc s) /\
    p_dev (sv_proc s1) = p_dev (sv_proc s) /\
    ((exists q, pc' = T_Open q /\ received_line (sv_proc s) fd (true, q) (sv_proc s1)) \/
     pc' = T_While /\ received_end (sv_proc s) lc fd (false, PNull) (sv_proc s1))) s) as Hwlp.
  { unfold thread_step. wlp_steps. unfold get_ctx. wlp_steps. apply wlp_opt. intros y _. wlp_steps. apply wlp_on_proc.
    unfold wlp. destruct (tcp_connection_receive_message (PLoc lc) NL (sv_proc s)) as [[r p']|] eqn:Hrun; [|done].
    destruct (wlp_run _ _ _ _ _ Hrun (receive_cases _ _ _ _ Hopen Hmem ltac:(lia))) as [Eo Hr].
    destruct (wlp_run _ _ _ _ _ Hrun (stays_receive lc fd NL (sv_proc s))) as [_ Ed].
    destruct r as [ok q]. split; [done|]. split; [done|]. simpl. destruct Hr as [Hr|Hr].
    - pose proof Hr as (m & rest & l & junk & _ & _ & [= -> ->] & _). left. by exists (PLoc l).
    - pose proof Hr as (pre & ev & rest & _ & _ & _ & [= -> ->] & _ & _). by right. }
  assert (thread_step (PLoc lx) (PLoc lc) T_Receive s = Done (pc', s1)) as Hst' by by rewrite <- Hpc.
  destruct (wlp_run _ _ _ _ _ Hst' Hwlp) as (Eo & Ed & Hr).
  assert (line_events tid s = []) as Hev by (eapply no_line_events; [apply Hco|by rewrite Hpc]).
  assert (forall x', atomic_step x [] x' -> at_dev x' = at_dev x -> at_out x' = at_out x -> at_in x' = p_in (sv_proc s1) ->
    (forall fd2, fd2 <> fd -> at_msg x' !! fd2 = at_msg x !! fd2) ->
    match awaiting pc' with Some q => exists m, fits s' q m /\ at_msg x' !! fd = Some m | None => at_msg x' !! fd = None end ->
    pc' <> T_Receive -> ~ is_sending pc' -> refined) as Hfin.
  { intros x' Hstep E1 E2 E3 E4 Hmsg Hnr Hns. destruct (inv_after Hinv Hco Hfp) as (a' & ps' & Hinv' & He).
    assert (a' = a) as -> by (apply (de_state _ _ _ _ _ _ He); rewrite Hpc; done).
    exists a, ps', x'. split; [right; by rewrite Hev|]. split; [exact Hinv'|]. split; [exact He|].
    assert (at_out_of x' fd = out_of (sv_proc s1) fd) as Eof.
    { unfold at_out_of. rewrite E2. fold (at_out_of x fd). rewrite own_out; [unfold out_of; by rewrite Eo|]. rewrite Hpc. by intros (? & ? & ?). }
    apply (serves_after Hinv Hmi Hco Hc Ha Hfp Hme He Hx); [rewrite E1; apply Hx|apply Hx|done| |done| |done|done].
    - intros fd2 Hne. split; [by apply E4|]. unfold at_out_of. by rewrite E2.
    - intros f q ->. destruct Hns. by exists f, q. }
  destruct Hr as [(q & Epc & m & rest & l & junk & Ein' & Hnl & [= ->] & Hl & Eins)|(Epc & pre & ev & rest & Ein' & Hnl & He & _ & Eins & _)].
  - eapply Hfin; [eapply (at_receive fd m rest); [by rewrite Ein|done|done]|done|done| | | | |].
    + simpl. by rewrite (sr_in _ _ _ _ _ Hx).
    + intros fd2 Hne. simpl. by rewrite lookup_insert_ne.
    + rewrite Epc. simpl. exists (cstr m). split; [|apply lookup_insert_eq]. split; [|split].
      * unfold read_cstr, hp. simpl. rewrite Hl, bool_decide_true, cstr_app_nul; [done|]. apply elem_of_app. right. left.
      * destruct (cstr_prefix m) as [r Er]. intros Hin. apply Hnl. rewrite Er. apply elem_of_app. by left.
      * destruct (cstr_prefix m) as [r Er]. assert (zlen (cstr m) <= zlen m) as Hle by (rewrite Er at 2; rewrite zlen_app; pose proof (zlen_nonneg r); lia).
        rewrite Ein' in Hlen. unfold zlen in *. rewrite length_app, length_fmap in Hlen. simpl in Hlen. lia.
    + by rewrite Epc.
    + rewrite Epc. by intros (? & ? & ?).
  - eapply Hfin; [eapply (at_hangup fd pre ev rest); [by rewrite Ein|done|done|done]|done|done| |done| | |].
    + simpl. by rewrite (sr_in _ _ _ _ _ Hx).
    + by rewrite Epc.
    + by rewrite Epc.
    + rewrite Epc. by intros (? & ? & ?).
Qed.
End thread_steps.

(** *** Everybody's steps *)

(** No socket has as much waiting as the longest command. *)
Definition lines_small (s : server) : Prop := forall fd, zlen (in_of (sv_proc s) fd) < dev_max.
Lemma lines_input s : lines_small s -> input_small s.
Proof using Type. intros Hs fd. specialize (Hs fd). pose proof dev_max_small. lia. Qed.

Definition good_system : Prop := malloc_succeeds L /\ dev_reliable FD FDL /\ net_reliable N.

Lemma step_serves lm s s1 a ps x tid t lx lc la fd c pc' :
  good_system -> lines_small s -> sys_inv lm s a ps -> mem_inv lm s -> serves lm s a ps x -> conn_of lm s tid t lx lc fd ->
  p_conns (sv_proc s) !! lc = Some c -> c_client_address c = PLoc la ->
  footprint lm lx lc fd (th_pc t) pc' s s1 -> mem_effect lm lc la (th_pc t) pc' s s1 ->
  thread_step (PLoc lx) (PLoc lc) (th_pc t) s = Done (pc', s1) ->
  refined (s := s) (x := x) (a := a) (ps := ps) (tid := tid) (t := t) (lm := lm) (lx := lx) (lc := lc) (pc' := pc') (s1 := s1).
Proof using LL StL.
  intros (Hmem & Hrel & Hnet) Hsmall Hinv Hmi Hx Hco Hc Ha Hfp Hme Hst. destruct (silent (th_pc t)) eqn:Hs.
  - destruct (inv_after Hinv Hco Hfp) as (a' & ps' & Hinv' & He).
    assert (a' = a) as -> by (apply (de_state _ _ _ _ _ _ He); intros f q E; by rewrite E in Hs).
    exists a, ps', x. split; [left; split; [|done]|].
    { eapply no_line_events; [apply Hco|]. intros f q E. by rewrite E in Hs. }
    split; [exact Hinv'|]. split; [exact He|].
    apply (serves_silent Hinv Hmi Hco Hc Ha Hfp Hme Hst Hx); [done| |exact He]. intros q Hq. rewrite Hq in Hst.
    refine (wlp_run _ _ _ _ _ Hst (open_goes_on _ _ _ _ Hrel _)). exists a, ps. apply (si_dev _ _ _ _ Hinv).
  - pose proof (co_alive _ _ _ _ _ _ _ Hco) as Hal. destruct (th_pc t) as [| | | | |f q|f q| | | |] eqn:Hpc; try done; rewrite <- Hpc in *.
    + by apply (serves_receive Hinv Hmi Hco Hc Ha Hfp Hme Hst Hx).
    + by apply (serves_handle Hinv Hmi Hco Hc Ha Hfp Hme Hst Hx f q).
    + by apply (serves_send Hinv Hmi Hco Hc Ha Hfp Hme Hst Hx f q).
Qed.

(** Nothing that the relation looks at has changed, but for new threads and what they have. *)
Lemma serves_more lm s s' a ps x :
  serves lm s a ps x -> p_in (sv_proc s') = p_in (sv_proc s) -> p_out (sv_proc s') = p_out (sv_proc s) ->
  p_conns (sv_proc s) ⊆ p_conns (sv_proc s') -> hp s ⊆ hp s' ->
  (forall tid t lx lc fd, conn_of lm s tid t lx lc fd -> conn_of lm s' tid t lx lc fd) ->
  (forall tid t lx lc fd, conn_of lm s' tid t lx lc fd -> conn_of lm s tid t lx lc fd \/
     th_pc t = T_Start /\ forall tid2 t2 lx2 lc2, ~ conn_of lm s tid2 t2 lx2 lc2 fd) ->
  serves lm s' a ps x.
Proof using Type.
  intros [H1 H2 H3 H4 H5 H6 H8] Ein Eout Hcn Hh Hfw Hbk. split; [done|done|by rewrite Ein|..].
  - intros tid t lx lc fd Hco. destruct (Hbk _ _ _ _ _ Hco) as [Hco'|[-> Hno]].
    + specialize (H4 _ _ _ _ _ Hco'). destruct (awaiting (th_pc t)) as [q|]; [|done]. destruct H4 as (m & (Hr & Hm) & Em).
      exists m. split; [|done]. split; [|done]. unfold read_cstr in *. destruct q as [| |k]; try done.
      destruct (hp s !! k) as [bs|] eqn:E; [|done]. by rewrite (lookup_weaken _ _ _ _ E Hh).
    + simpl. apply eq_None_not_Some. intros (tid2 & t2 & lx2 & lc2 & Hco2)%H5. by eapply Hno.
  - intros fd Hs. destruct (H5 fd Hs) as (tid & t & lx & lc & Hco). exists tid, t, lx, lc. by apply Hfw.
  - apply (sent_more lm s); [done|done|done|]. intros tid t lx lc fd Hco. destruct (Hbk _ _ _ _ _ Hco) as [?|[? _]]; auto.
  - intros tid t lx lc fd Hco Hpc. destruct (Hbk _ _ _ _ _ Hco) as [Hco'|[E _]]; [|congruence].
    destruct (H8 _ _ _ _ _ Hco' Hpc) as (c & Hc & Ho). exists c. split; [by eapply lookup_weaken|done].
Qed.

(** A client is accepted. *)
Lemma serves_connected lm s a ps x fd lc la addr :
  sys_inv lm s a ps -> serves lm s a ps x -> p_conns (sv_proc s) !! lc = None -> hp s !! la = None ->
  serves lm (connected s fd lc la addr) a ps x.
Proof using Type.
  intros Hinv Hx Hlc Hla.
  assert (p_conns (sv_proc s) ⊆ p_conns (sv_proc (connected s fd lc la addr))) as Hcn by (simpl; by apply insert_subseteq).
  eapply serves_more; [exact Hx|done|done|done|unfold hp; simpl; by apply insert_subseteq| |].
  - intros tid t lx lc2 fd2. apply conn_of_weaken; try done. simpl. apply union_subseteq_r.
  - intros tid t lx lc2 fd2 Hco. left. eapply conn_of_weaken_inv; [exact Hinv|..|exact Hco]; try done. simpl. apply union_subseteq_r.
Qed.
Lemma serves_register lm s a ps x lc c b s' :
  sys_inv lm s a ps -> serves lm s a ps x -> p_conns (sv_proc s) !! lc = Some c -> unowned lm s lc (c_socket c) ->
  connection_manager_register_connection (PLoc lm) (PLoc lc) s = Done (b, s') -> serves lm s' a ps x.
Proof using LL PL.
  intros Hinv Hx Hc Hun Hrun. destruct (register_frame _ _ _ _ _ Hrun) as [Ep Hfw].
  eapply serves_more; [exact Hx|by rewrite Ep|by rewrite Ep|rewrite Ep; reflexivity|unfold hp; rewrite Ep; reflexivity|exact Hfw|].
  intros tid t lx lc2 fd2 Hco. destruct (register_back _ _ _ _ _ _ _ Hinv Hrun _ _ _ _ _ Hco) as [?|[Hpc ->]]; [by left|right].
  split; [done|]. destruct (co_conn _ _ _ _ _ _ _ Hco) as (c2 & Hc2 & <-). rewrite Ep in Hc2. assert (c2 = c) as -> by congruence.
  intros tid2 t2 lx2 lc2 Hco2. by destruct (Hun _ _ _ _ _ Hco2).
Qed.

(** What is waiting on a socket changes. *)
Lemma serves_input lm s a ps x i x' :
  serves lm s a ps x -> at_in x' = i -> at_dev x' = at_dev x -> at_msg x' = at_msg x -> at_out x' = at_out x ->
  serves lm (set_proc (set_in i (sv_proc s)) s) a ps x'.
Proof using Type.
  intros [H1 H2 H3 H4 H5 H6 H8] E1 E2 E3 E4. set (s' := set_proc _ s).
  assert (same_live s s') as Hs by by apply same_live_eq.
  assert (forall tid t lx lc fd', conn_of lm s' tid t lx lc fd' -> conn_of lm s tid t lx lc fd') as Hbk
    by (intros; by apply (conn_of_live lm s s')).
  split; [congruence|done|done|rewrite E3|rewrite E3|unfold at_out_of; rewrite E4|].
  - intros tid t lx lc fd' Hco%Hbk. exact (H4 _ _ _ _ _ Hco).
  - intros fd' Ho. destruct (H5 _ Ho) as (tid & t & lx & lc & Hco). exists tid, t, lx, lc. by apply (conn_of_live lm s).
  - apply (sent_more lm s); [done|done| |]; intros tid t lx lc fd' Hco; [by apply (conn_of_live lm s)|left; by apply Hbk].
  - intros tid t lx lc fd' Hco%Hbk. exact (H8 _ _ _ _ _ Hco).
Qed.
Lemma serves_arrive lm s a ps x fd evs : serves lm s a ps x ->
  exists x', atomic_step x [SE_Arrive fd evs] x' /\ serves lm (arrive fd evs s) a ps x'.
Proof using Type.
  intros Hx. eexists. split; [apply at_arrive|]. eapply serves_input; [exact Hx| |done..].
  unfold at_in_of, in_of. simpl. by rewrite (sr_in _ _ _ _ _ Hx).
Qed.
Lemma serves_discard lm s a ps x fd : serves lm s a ps x -> (fd ∉ p_fds (sv_proc s)) ->
  exists x', atomic_step x [SE_Discard fd] x' /\ serves lm (discard fd s) a ps x'.
Proof using Type.
  intros Hx Hfd. eexists. split; [apply at_discard|eapply serves_input; [exact Hx| |done..]; simpl; by rewrite (sr_in _ _ _ _ _ Hx)].
  apply eq_None_not_Some. intros (tid & t & lx & lc & Hco)%(sr_owner _ _ _ _ _ Hx). by apply Hfd, Hco.
Qed.

(** A thread holds a message of the client at [fd] that it has received and not handled. *)
Definition holding (s : server) (fd : Z) (m : bytes) : Prop := exists tid t lc c q,
  sv_threads s !! tid = Some t /\ th_connection t = PLoc lc /\ p_conns (sv_proc s) !! lc = Some c /\ c_socket c = fd /\
  awaiting (th_pc t) = Some q /\ read_cstr (hp s) q = Done m.

Lemma serves_holding lm s a ps x fd m :
  (forall tid t, sv_threads s !! tid = Some t -> th_pc t <> T_Done -> exists lx lc fd, conn_of lm s tid t lx lc fd) ->
  serves lm s a ps x -> at_msg x !! fd = Some m <-> holding s fd m.
Proof using Type.
  intros Hal Hx. split.
  - intros Em. destruct (sr_owner _ _ _ _ _ Hx fd ltac:(by eexists)) as (tid & t & lx & lc & Hco).
    pose proof (sr_msg _ _ _ _ _ Hx _ _ _ _ _ Hco) as Hm. destruct (awaiting (th_pc t)) as [q|] eqn:Hq; [|congruence].
    destruct Hm as (m' & [Hr _] & Em'). assert (m' = m) as -> by congruence. destruct (co_conn _ _ _ _ _ _ _ Hco) as (c & Hc & Hs).
    exists tid, t, lc, c, q. split_and!; try done; [apply Hco|]. apply (co_local _ _ _ _ _ _ _ Hco). intros E. by rewrite E in Hq.
  - intros (tid & t & lc & c & q & Ht & Hlc & Hc & Hs & Hq & Hr).
    destruct (Hal tid t Ht) as (lx & lc' & fd' & Hco); [intros E; by rewrite E in Hq|].
    assert (lc' = lc) as ->. { pose proof (co_local _ _ _ _ _ _ _ Hco) as H. rewrite Hlc in H. injection H; [done|]. intros E. by rewrite E in Hq. }
    destruct (co_conn _ _ _ _ _ _ _ Hco) as (c' & Hc' & Hs'). assert (c' = c) as -> by congruence.
    assert (fd' = fd) as -> by congruence. pose proof (sr_msg _ _ _ _ _ Hx _ _ _ _ _ Hco) as Hm. rewrite Hq in Hm.
    destruct Hm as (m' & [Hr' _] & Em). congruence.
Qed.
End refinement.
