(* ===== verification/Shutdown.v ===== *)
(** The server's shutdown, with threads still running.

    [shut_step] interleaves the steps of the threads, the network and the main thread, which
    accepts clients until it starts [connection_manager_destroy]. [roster] relates the
    manager's list to the threads: it holds exactly the contexts of the threads that are not
    joined, so that a context is freed only after the last step of the thread that uses it. *)

From S2P Require Import Prelude CMonad KHeap Libc DeviceSpec FileDev Process TcpConnection TcpReceive TcpSend ReceiveSafety SList ConnectionManager ServerSpec HandleMessage Session ManagerLife ThreadFrame ThreadMemory ServerThreads ThreadSafety.
Local Open Scope Z_scope.
Local Open Scope cmonad_scope.

Section shutdown.
Context `{FD : FileDev} {L : Libc} {N : Sockets} {St : Stdio} {P : Pthreads}.

Inductive shut_step (lm : loc) : destroy_pc * server -> destroy_pc * server -> Prop :=
  | sh_thread tid pc s s' : run_thread tid s = Done (tt, s') -> shut_step lm (pc, s) (pc, s')
  | sh_arrive fd evs pc s : shut_step lm (pc, s) (pc, arrive fd evs s)
  | sh_accept fd addr b s s' :
      (fd ∉ p_fds (sv_proc s)) -> accept_and_register lm fd addr s = Done (b, s') ->
      shut_step lm (D_Start, s) (D_Start, s')
  | sh_main pc pc' s s' : destroy_step (PLoc lm) pc s = Done (pc', s') -> shut_step lm (pc, s) (pc', s').

(** *** What a thread's step leaves alone *)

Definition ctx_link (x : connection_ctx) : Z * ptr := (ctx_thread x, ctx_nodes x).
Definition manager_list (m : connection_manager) : ptr * ptr * bool :=
  (cm_filename m, cm_connection_ctx_list m, cm_close_connections m).

(** The list with its links, the file name, the flag, and which thread uses which context. *)
Record keeps (s s' : server) : Prop := {
  kp_ctxs l : ctx_link <$> sv_ctxs s' !! l = ctx_link <$> sv_ctxs s !! l;
  kp_managers l : manager_list <$> sv_managers s' !! l = manager_list <$> sv_managers s !! l;
  kp_threads tid : th_ctx <$> sv_threads s' !! tid = th_ctx <$> sv_threads s !! tid;
}.
Lemma keeps_refl s : keeps s s.
Proof. done. Qed.
Lemma keeps_trans s1 s2 s3 : keeps s1 s2 -> keeps s2 s3 -> keeps s1 s3.
Proof. intros [H1 H2 H3] [H1' H2' H3']. split; intros; congruence. Qed.

Definition quiet {A} (m : M server A) : Prop := forall s, wlp m (fun _ s' => keeps s s') s.
Lemma quiet_ret {A} (a : A) : quiet (ret a).
Proof. intros s. apply wlp_ret, keeps_refl. Qed.
Lemma quiet_fault {A} f : quiet (mfault (A := A) f).
Proof. intros s. apply wlp_fault. Qed.
Lemma quiet_bind {A B} (m : M server A) (k : A -> M server B) : quiet m -> (forall a, quiet (k a)) -> quiet (bind m k).
Proof.
  intros Hm Hk s. apply wlp_bind. eapply wlp_mono; [apply Hm|]. intros a s1 H1.
  eapply wlp_mono; [apply Hk|]. intros b s2 H2. exact (keeps_trans _ _ _ H1 H2).
Qed.
Lemma quiet_on_proc {A} (m : M proc A) : quiet (on_proc m).
Proof. intros s. apply wlp_on_proc. unfold wlp. by destruct (m (sv_proc s)) as [[]|]. Qed.
Lemma quiet_get_ctx p : quiet (get_ctx p).
Proof. intros s. unfold get_ctx. destruct p; wlp_steps; try done. apply wlp_opt. intros. apply keeps_refl. Qed.
Lemma quiet_get_manager p : quiet (get_manager p).
Proof. intros s. unfold get_manager. destruct p; wlp_steps; try done. apply wlp_opt. intros. apply keeps_refl. Qed.
Lemma quiet_opt {A} f (o : option A) : quiet (mopt f o).
Proof. destruct o; [apply quiet_ret|apply quiet_fault]. Qed.

(** A manager is written back with the same list and name, a context with the same link. *)
Lemma keeps_manager s l m m' :
  sv_managers s !! l = Some m -> manager_list m' = manager_list m -> keeps s (set_managers (<[l := m']> (sv_managers s)) s).
Proof.
  intros Hm E. split; simpl; try done. intros l'. rewrite lookup_insert. case_decide; [subst l'|done]. rewrite Hm. simpl. by rewrite E.
Qed.
Lemma keeps_ctx s l x x' :
  sv_ctxs s !! l = Some x -> ctx_link x' = ctx_link x -> keeps s (set_ctxs (<[l := x']> (sv_ctxs s)) s).
Proof.
  intros Hx E. split; simpl; try done. intros l'. rewrite lookup_insert. case_decide; [subst l'|done]. rewrite Hx. simpl. by rewrite E.
Qed.

Lemma quiet_lock p : quiet (pthread_mutex_lock p).
Proof.
  intros s. unfold pthread_mutex_lock, set_manager. wlp_steps. destruct p; try by wlp_steps. apply get_manager_wlp. intros m Hm.
  destruct (cm_file_mutex m); wlp_steps. by eapply keeps_manager.
Qed.
Lemma quiet_unlock p : quiet (pthread_mutex_unlock p).
Proof.
  intros s. unfold pthread_mutex_unlock, set_manager. wlp_steps. destruct p; try by wlp_steps. apply get_manager_wlp. intros m Hm.
  destruct (cm_file_mutex m); wlp_steps. by eapply keeps_manager.
Qed.

Lemma on_proc_ctxs {A} (m : M proc A) (s : server) : wlp (on_proc m) (fun _ s' => exists p, s' = set_proc p s) s.
Proof. apply wlp_on_proc. unfold wlp. destruct (m (sv_proc s)) as [[a p]|]; [|done]. by exists p. Qed.

Create HintDb quiet discriminated.
#[local] Hint Resolve quiet_ret quiet_fault quiet_bind quiet_on_proc quiet_get_ctx quiet_get_manager quiet_opt
  quiet_lock quiet_unlock : quiet.
Ltac quiet := repeat first
  [ progress auto with quiet nocore | apply quiet_bind; [|intros ?]
  | match goal with |- quiet (if ?b then _ else _) => destruct b | |- quiet (let '(_, _) := ?r in _) => destruct r
                  | |- quiet (match ?o with Some _ => _ | None => _ end) => destruct o end ].

Lemma quiet_thread_step ctx connection pc : quiet (thread_step ctx connection pc).
Proof.
  destruct pc; unfold thread_step; try by quiet. intros s. wlp_steps.
  destruct ctx as [| |l]; try by (unfold get_ctx; wlp_steps). unfold get_ctx. wlp_steps. apply wlp_opt. intros x Hx.
  wlp_steps. do 3 (eapply wlp_mono; [apply on_proc_ctxs|]; intros ? ? [? ->]; wlp_steps).
  unfold set_ctx. wlp_steps. eapply keeps_trans; [|by eapply keeps_ctx]. done.
Qed.

Lemma quiet_run_thread tid : quiet (run_thread tid).
Proof.
  intros s. unfold run_thread. wlp_steps. apply wlp_opt. intros t Ht. wlp_steps.
  assert (quiet (thread_connection (th_ctx t) (th_connection t) (th_pc t))) as Hq by (unfold thread_connection; destruct (th_pc t); by quiet).
  eapply wlp_mono; [apply Hq|]. intros c s1 H1. wlp_steps. eapply wlp_mono; [apply quiet_thread_step|]. intros pc s2 H2.
  wlp_steps. pose proof (keeps_trans _ _ _ H1 H2) as H3. split; simpl; [apply H3|apply H3|]. intros tid'.
  rewrite lookup_insert. case_decide; [subst tid'; by rewrite Ht|apply H3].
Qed.

(** *** The list and the threads *)

(** The list is [gone], whose thread is joined already, and then the contexts [xs] of the threads. *)
Record roster (lm ln : loc) (s : server) (gone : option loc) (xs : list (loc * Z)) : Prop := {
  ro_list : exists m, sv_managers s !! lm = Some m /\ cm_filename m = PLoc ln /\
    slist (sv_ctxs s) (cm_connection_ctx_list m) (option_list gone ++ xs.*1);
  ro_ctx l tid : (l, tid) ∈ xs -> exists x, sv_ctxs s !! l = Some x /\ ctx_thread x = tid;
  ro_thread l tid : (l, tid) ∈ xs -> exists t, sv_threads s !! tid = Some t /\ th_ctx t = PLoc l;
  ro_nodup : NoDup xs.*2;
  ro_all tid : is_Some (sv_threads s !! tid) -> tid ∈ xs.*2;
}.

Lemma fmap_Some_eq {A B} (f : A -> B) (o o' : option A) a :
  f <$> o' = f <$> o -> o = Some a -> exists a', o' = Some a' /\ f a' = f a.
Proof. intros E ->. destruct o'; [|done]. injection E as E. eauto. Qed.

Lemma slist_links (m m' : gmap loc connection_ctx) p xs :
  (forall l, ctx_link <$> m' !! l = ctx_link <$> m !! l) -> slist m p xs -> slist m' p xs.
Proof.
  intros Hm. unfold slist. revert p. induction xs as [|l xs IH]; intros p; simpl; [done|]. intros (-> & x & Hx & Hs).
  split; [done|]. destruct (fmap_Some_eq _ _ _ _ (Hm l) Hx) as (x' & Hx' & [= _ E]). exists x'. split; [done|].
  apply IH. simpl in *. by rewrite E.
Qed.

Lemma roster_keeps lm ln s s' gone xs : keeps s s' -> roster lm ln s gone xs -> roster lm ln s' gone xs.
Proof.
  intros [K1 K2 K3] [(m & Hm & Hn & Hl) H2 H3 H4 H5]. split; [| | |done|].
  - destruct (fmap_Some_eq _ _ _ _ (K2 lm) Hm) as (m' & Hm' & [= En El _]). exists m'. split; [done|]. split; [congruence|].
    rewrite El. by eapply slist_links.
  - intros l tid Hin. destruct (H2 _ _ Hin) as (x & Hx & E). destruct (fmap_Some_eq _ _ _ _ (K1 l) Hx) as (x' & Hx' & [= Et _]).
    exists x'. split; [done|congruence].
  - intros l tid Hin. destruct (H3 _ _ Hin) as (t & Ht & E). destruct (fmap_Some_eq _ _ _ _ (K3 tid) Ht) as (t' & Ht' & Et).
    exists t'. split; [done|congruence].
  - intros tid [t Ht]. apply H5. pose proof (K3 tid) as E. rewrite Ht in E. destruct (sv_threads s !! tid); [by eexists|done].
Qed.

Lemma in_fst (xs : list (loc * Z)) l tid : (l, tid) ∈ xs -> l ∈ xs.*1.
Proof. intros. apply list_elem_of_fmap. by exists (l, tid). Qed.
Lemma in_snd (xs : list (loc * Z)) l tid : (l, tid) ∈ xs -> tid ∈ xs.*2.
Proof. intros. apply list_elem_of_fmap. by exists (l, tid). Qed.

(** A thread's context is in the list. *)
Lemma roster_owner lm ln s gone xs tid t :
  roster lm ln s gone xs -> sv_threads s !! tid = Some t -> exists l, (l, tid) ∈ xs /\ th_ctx t = PLoc l.
Proof.
  intros Hr Ht. assert (tid ∈ xs.*2) as ([l tid'] & E & Hin)%list_elem_of_fmap by (eapply ro_all; [done|by eexists]).
  simpl in E. subst tid'. destruct (ro_thread _ _ _ _ _ Hr _ _ Hin) as (t' & Ht' & Et). exists l. split; [done|congruence].
Qed.

(** The state after each change. *)
Lemma roster_fresh_ctx lm ln s gone xs l x :
  sv_ctxs s !! l = None -> roster lm ln s gone xs -> roster lm ln (set_ctxs (<[l := x]> (sv_ctxs s)) s) gone xs.
Proof.
  intros Hl [(m & Hm & Hn & Hs) H2 H3 H4 H5]. split; try done; simpl.
  - exists m. split; [done|]. split; [done|]. apply lseg_insert; [|done]. intros Hin.
    destruct (slist_live _ _ _ _ Hs Hin) as [? E]. congruence.
  - intros l' tid Hin. destruct (H2 _ _ Hin) as (x' & Hx' & E). exists x'. split; [|done].
    rewrite lookup_insert_ne; [done|]. intros ->. congruence.
Qed.

Lemma roster_register lm ln s xs l c tid m :
  roster lm ln s None xs -> sv_ctxs s !! l = None -> sv_managers s !! lm = Some m -> sv_threads s !! tid = None ->
  roster lm ln (Server _ (sv_proc s) (<[l := ConnectionCtx (PLoc lm) c tid (cm_connection_ctx_list m)]> (sv_ctxs s))
                  (<[lm := with_list m (PLoc l)]> (sv_managers s))
                  (<[tid := Thread (PLoc l) PNull T_Start]> (sv_threads s))) None ((l, tid) :: xs).
Proof.
  intros [(m' & Hm' & Hn & Hs) H2 H3 H4 H5] Hl Hm Ht. assert (m' = m) as -> by congruence. simpl in Hs.
  assert (forall l' tid', (l', tid') ∈ xs -> l' <> l /\ tid' <> tid) as Hne.
  { intros l' tid' Hin. destruct (H2 _ _ Hin) as (x' & Hx' & _), (H3 _ _ Hin) as (t' & Ht' & _). split; congruence. }
  assert (l ∉ xs.*1) as Hlx by (intros ([l' tid'] & -> & Hin)%list_elem_of_fmap; by destruct (Hne _ _ Hin)).
  split; simpl.
  - exists (with_list m (PLoc l)). rewrite lookup_insert_eq. split; [done|]. split; [done|]. split; [done|].
    eexists. rewrite lookup_insert_eq. split; [done|]. by apply lseg_insert.
  - intros l' tid' [[= -> ->]|Hin]%elem_of_cons; [rewrite lookup_insert_eq; by eexists|].
    rewrite lookup_insert_ne by (by destruct (Hne _ _ Hin)). auto.
  - intros l' tid' [[= -> ->]|Hin]%elem_of_cons; [rewrite lookup_insert_eq; by eexists|].
    rewrite lookup_insert_ne by (by destruct (Hne _ _ Hin)). auto.
  - constructor; [|done]. intros ([l' tid'] & -> & Hin)%list_elem_of_fmap. by destruct (Hne _ _ Hin).
  - intros tid'. rewrite lookup_insert. case_decide; [subst; left|]. intros. right. auto.
Qed.

Lemma roster_join lm ln s l tid xs :
  roster lm ln s None ((l, tid) :: xs) -> roster lm ln (set_threads (delete tid (sv_threads s)) s) (Some l) xs.
Proof.
  intros [H1 H2 H3 H4 H5]. apply NoDup_cons in H4 as [Hn H4]. split; simpl; try done.
  - intros l' tid' Hin. apply H2. by right.
  - intros l' tid' Hin. rewrite lookup_delete_ne; [apply H3; by right|]. intros ->. apply Hn. by eapply in_snd.
  - intros tid'. rewrite lookup_delete. case_decide as Hd; [by intros []|]. intros Hs%H5. apply elem_of_cons in Hs as [Hs|Hs]; [by destruct Hd|done].
Qed.

Lemma roster_remove lm ln s l xs m head :
  roster lm ln s (Some l) xs -> sv_managers s !! lm = Some m -> SLIST_REMOVE_HEAD (sv_ctxs s) (cm_connection_ctx_list m) = Done head ->
  roster lm ln (set_ctxs (delete l (sv_ctxs s)) (set_managers (<[lm := with_list m head]> (sv_managers s)) s)) None xs.
Proof.
  intros [(m' & Hm' & Hn & Hs) H2 H3 H4 H5] Hm Hh. assert (m' = m) as -> by congruence. simpl in Hs.
  pose proof (slist_NoDup _ _ _ Hs) as [Hl _]%NoDup_cons.
  destruct (remove_head_ok _ _ _ _ Hs) as (head' & Hh' & Hs'). rewrite Hh in Hh'. injection Hh' as <-. split; simpl; try done.
  - exists (with_list m head). rewrite lookup_insert_eq. split; [done|]. split; [done|]. by apply lseg_delete.
  - intros l' tid' Hin. rewrite lookup_delete_ne; [auto|]. intros ->. apply Hl. by eapply in_fst.
Qed.

(** *** The invariant of the shutdown *)

Context {FT : FileTable FD} {StL : StdioLaws St} {LL : LibcLaws L} {PL : PthreadsLaws P}.

Definition listing (pc : destroy_pc) (gone : option loc) (xs : list (loc * Z)) : Prop :=
  match pc with
  | D_Start | D_While => gone = None
  | D_Join p => gone = None /\ exists l tid xs', xs = (l, tid) :: xs' /\ p = PLoc l
  | D_Remove p => exists l, gone = Some l /\ p = PLoc l
  | D_End => gone = None /\ xs = []
  | D_Done => False
  end.
Record shutting (lm ln : loc) (a : ft_state) (ps : gmap Z Z) (pc : destroy_pc) (s : server) : Prop := {
  sd_sys : sys_inv lm s a ps;
  sd_mem : mem_inv lm s;
  sd_list : exists gone xs, roster lm ln s gone xs /\ listing pc gone xs;
  sd_flag m : pc <> D_Start -> sv_managers s !! lm = Some m -> cm_close_connections m = true;
}.
Definition shut_done (lm ln : loc) (s : server) : Prop :=
  sv_threads s = ∅ /\ sv_managers s !! lm = None /\ hp s !! ln = None.
Definition shut_inv (lm ln : loc) (a : ft_state) (ps : gmap Z Z) (pc : destroy_pc) (s : server) : Prop :=
  match pc with D_Done => shut_done lm ln s | _ => shutting lm ln a ps pc s end.

Lemma shutting_inv lm ln a ps pc s : shutting lm ln a ps pc s -> shut_inv lm ln a ps pc s.
Proof. intros [H1 H2 (gone & xs & H3 & H4) H5]. destruct pc; by split; eauto. Qed.

(** The main thread waits for a thread that has not ended. *)
Definition waiting (pc : destroy_pc) (s : server) : Prop :=
  exists l x t, pc = D_Join (PLoc l) /\ sv_ctxs s !! l = Some x /\ sv_threads s !! ctx_thread x = Some t /\ th_pc t <> T_Done.

(** Finished threads and their contexts are nothing to the live ones. *)
Lemma same_live_join s tid t : sv_threads s !! tid = Some t -> th_pc t = T_Done ->
  same_live s (set_threads (delete tid (sv_threads s)) s).
Proof.
  intros Ht Hd. split; try done. intros tid' t' Hal. simpl. rewrite lookup_delete. case_decide; [subst tid'|done].
  split; [done|]. congruence.
Qed.
Lemma same_live_remove lm ln s l xs m :
  roster lm ln s (Some l) xs ->
  same_live s (set_ctxs (delete l (sv_ctxs s)) (set_managers m s)).
Proof.
  intros Hr. split; try done. intros tid t l' Ht _ Hc. simpl. rewrite lookup_delete_ne; [done|]. intros <-.
  destruct (roster_owner _ _ _ _ _ _ _ Hr Ht) as (l' & Hin & Hc'). assert (l' = l) as -> by congruence.
  destruct (ro_list _ _ _ _ _ Hr) as (m' & _ & _ & Hs). pose proof (slist_NoDup _ _ _ Hs) as [Hn _]%NoDup_cons.
  apply Hn. by eapply in_fst.
Qed.

(** The step keeps both invariants, if the live threads and the mutex are the same. *)
Lemma shutting_live lm ln a ps pc s pc' s' m m' :
  shutting lm ln a ps pc s -> same_live s s' -> sv_proc s' = sv_proc s ->
  sv_managers s !! lm = Some m -> sv_managers s' !! lm = Some m' ->
  cm_file_mutex m' = cm_file_mutex m -> cm_filename m' = cm_filename m -> cm_close_connections m' = true ->
  (exists gone xs, roster lm ln s' gone xs /\ listing pc' gone xs) -> shut_inv lm ln a ps pc' s'.
Proof.
  intros [Hi Hmi _ _] Hs Ep Hm Hm' Emut Emn Hflag Hl. apply shutting_inv. split; [|eapply (mem_live lm s s' m m'); try done|done|].
  - eapply (inv_live lm s s' a ps m m'); try done. by rewrite Ep.
  - unfold hp. by rewrite Ep.
  - intros m0 _ Hm0. congruence.
Qed.

Definition main_may_wait (pc : destroy_pc) (s : server) (f : fault) : Prop := f = Blocked /\ (pc = D_Done \/ waiting pc s).
Definition main_ok (lm ln : loc) (pc : destroy_pc) (s : server) : Prop := forall a ps,
  shut_inv lm ln a ps pc s ->
  wsp (main_may_wait pc s) (destroy_step (PLoc lm) pc) (fun pc' s' => shut_inv lm ln a ps pc' s') s.

Lemma main_start lm ln s : main_ok lm ln D_Start s.
Proof.
  intros a ps Hs. pose proof Hs as [_ _ (gone & xs & Hr & ->) _]. destruct (ro_list _ _ _ _ _ Hr) as (m & Hm & Hn & Hl).
  simpl. wsp_steps. apply wsp_wp. eapply get_manager_wp; [exact Hm|]. unfold set_manager. wp_steps.
  eapply (shutting_live _ _ _ _ D_Start s); [done|by apply same_live_eq|done|exact Hm|apply lookup_insert_eq|done|done|done|].
  exists None, xs. split; [|done]. destruct Hr as [_ H2 H3 H4 H5]. split; [|done..].
  eexists. split; [apply lookup_insert_eq|done].
Qed.

Lemma main_while lm ln s : main_ok lm ln D_While s.
Proof.
  intros a ps Hs. pose proof Hs as [H1 H2 (gone & xs & Hr & ->) Hf]. destruct (ro_list _ _ _ _ _ Hr) as (m & Hm & _ & Hl).
  simpl. wsp_steps. apply wsp_wp. eapply get_manager_wp; [exact Hm|]. wp_steps.
  rewrite (SLIST_EMPTY_ok _ _ _ Hl). simpl.
  destruct xs as [|[l tid] xs]; apply shutting_inv; (split; [done|done| |intros m0 _; by apply Hf]).
  - by exists None, [].
  - exists None, ((l, tid) :: xs). split; [done|]. split; [done|]. exists l, tid, xs. split; [done|]. by destruct Hl.
Qed.

Lemma main_join lm ln p s : main_ok lm ln (D_Join p) s.
Proof.
  intros a ps Hs. pose proof Hs as [H1 H2 (gone & xs & Hr & -> & l & tid & xs' & -> & ->) Hf].
  destruct (ro_list _ _ _ _ _ Hr) as (m & Hm & _ & Hl). destruct (ro_ctx _ _ _ _ _ Hr l tid ltac:(left)) as (x & Hx & Etid).
  destruct (ro_thread _ _ _ _ _ Hr l tid ltac:(left)) as (t & Ht & Ec). subst tid.
  cbn [destroy_step]. wsp_steps. apply (get_ctx_wsp Hx). unfold pthread_join. wsp_steps. eapply wsp_opt; [exact Ht|].
  destruct (decide (th_pc t = T_Done)) as [Hd|Hd].
  - rewrite Hd. wsp_steps.
    eapply (shutting_live _ _ _ _ (D_Join (PLoc l)) s); [done|by eapply same_live_join|done|exact Hm|exact Hm|done|done|by apply Hf|].
    exists (Some l), xs'. split; [by apply roster_join|]. by exists l.
  - assert (main_may_wait (D_Join (PLoc l)) s Blocked) as Hw by (split; [done|right; by exists l, x, t]).
    destruct (th_pc t); try done; by apply wsp_fault.
Qed.

Lemma main_remove lm ln p s : main_ok lm ln (D_Remove p) s.
Proof.
  intros a ps Hs. pose proof Hs as [H1 H2 (gone & xs & Hr & l & -> & ->) Hf].
  destruct (ro_list _ _ _ _ _ Hr) as (m & Hm & _ & Hl). destruct (remove_head_ok _ _ _ _ Hl) as (head & Hrem & _).
  destruct (slist_live _ _ _ l Hl) as [x Hx]; [left|].
  cbn [destroy_step]. apply wsp_wp. wp_steps. eapply get_manager_wp; [exact Hm|]. wp_steps. eapply wp_lift; [exact Hrem|].
  unfold set_manager, free_ctx. wp_steps. eapply wp_opt; [exact Hx|]. wp_steps.
  eapply (shutting_live _ _ _ _ (D_Remove (PLoc l)) s _ _ m (with_list m head));
    [done|exact (same_live_remove _ _ _ _ _ _ Hr)|done|exact Hm|apply lookup_insert_eq|done|done|exact (Hf m ltac:(done) Hm)|].
  exists None, xs. split; [|done]. exact (roster_remove _ _ _ _ _ _ _ Hr Hm Hrem).
Qed.

Lemma main_end lm ln s : main_ok lm ln D_End s.
Proof.
  intros a ps Hs. pose proof Hs as [Hi Hmi (gone & xs & Hr & -> & ->) _].
  destruct (ro_list _ _ _ _ _ Hr) as (m & Hm & Hn & _).
  assert (sv_threads s = ∅) as Hno.
  { apply map_empty. intros tid. destruct (sv_threads s !! tid) eqn:E; [|done].
    assert (tid ∈ ([] : list Z)) as Hin by (eapply (ro_all _ _ _ _ _ Hr); by eexists). by apply elem_of_nil in Hin. }
  assert (cm_file_mutex m = false) as Hmut.
  { destruct (si_lock _ _ _ _ Hi) as (m' & Hm' & Hlock). assert (m' = m) as -> by congruence.
    destruct (cm_file_mutex m); [|done]. destruct Hlock as [Hlock _]. destruct (Hlock eq_refl) as (tid & t & Ht & _).
    rewrite Hno in Ht. done. }
  destruct (mi_name _ _ Hmi) as (m' & ln' & Hm' & Hn' & (name & Hname & _) & _). assert (m' = m) as -> by congruence.
  assert (ln' = ln) as -> by congruence.
  cbn [destroy_step]. apply wsp_wp. wp_steps. eapply get_manager_wp; [exact Hm|]. rewrite Hmut. wp_steps.
  apply wp_on_proc. rewrite Hn. unfold do_free. wp_steps. eapply wp_opt; [exact Hname|]. wp_steps.
  unfold set_manager, free_manager. wp_steps. eapply wp_opt; [apply lookup_insert_eq|]. wp_steps.
  split; [done|]. split; [apply lookup_delete_eq|]. apply lookup_delete_eq.
Qed.

Lemma main_step_ok lm ln pc s : main_ok lm ln pc s.
Proof.
  destruct pc; [apply main_start|apply main_while|apply main_join|apply main_remove|apply main_end|].
  intros a ps _. apply wsp_fault. split; [done|by left].
Qed.

(** *** Everybody's steps *)

Lemma roster_registered lm ln s xs lc b s' :
  roster lm ln s None xs -> connection_manager_register_connection (PLoc lm) (PLoc lc) s = Done (b, s') ->
  exists xs', roster lm ln s' None xs'.
Proof using LL PL.
  clear StL FT. intros Hr. revert s'.
  enough (wlp (connection_manager_register_connection (PLoc lm) (PLoc lc)) (fun _ s' => exists xs', roster lm ln s' None xs') s) as H.
  { intros s' Hrun. exact (wlp_run _ _ _ _ _ Hrun H). }
  apply register_wlp.
  - intros l m Hl Hm. destruct (pthread_new (dom (sv_threads s))) as [tid|] eqn:Ht; [|done].
    apply pthread_new_fresh, not_elem_of_dom in Ht. exists ((l, tid) :: xs). by eapply roster_register.
  - intros l Hl Hp. exists xs. by eapply roster_fresh_ctx.
Qed.
Lemma roster_accept lm ln s xs fd addr b s' :
  roster lm ln s None xs -> accept_and_register lm fd addr s = Done (b, s') -> exists xs', roster lm ln s' None xs'.
Proof using LL PL.
  clear StL FT. intros Hr Hrun.
  refine (wlp_run _ _ _ _ _ Hrun (accept_wlp _ _ _ _ (fun _ s' => exists xs', roster lm ln s' None xs') _ _)).
  - intros p _ _ _ _ _ _. exists xs. by eapply roster_keeps; [|exact Hr].
  - intros lc la b' s2 _ _ Hreg. eapply roster_registered; [|exact Hreg]. by eapply roster_keeps; [|exact Hr].
Qed.

Definition small_shut (lm : loc) (c c' : destroy_pc * server) : Prop := input_small c.2 /\ shut_step lm c c'.

(** A step that keeps the list keeps the invariant, for the state of the device that it leaves. *)
Lemma shut_other lm ln a ps pc s s' a' ps' :
  shutting lm ln a ps pc s -> sys_inv lm s' a' ps' -> mem_inv lm s' -> keeps s s' -> shutting lm ln a' ps' pc s'.
Proof.
  intros [_ _ (gone & xs & Hr & Hl) Hf] Hi Hmi Hk. split; [done|done| |].
  - exists gone, xs. split; [by eapply roster_keeps|done].
  - intros m' Hpc Hm'. destruct (ro_list _ _ _ _ _ Hr) as (m & Hm & _).
    destruct (fmap_Some_eq _ _ _ _ (kp_managers _ _ Hk lm) Hm) as (m2 & Hm2 & [= _ _ E]).
    assert (m' = m2) as -> by congruence. rewrite E. by apply Hf.
Qed.
Lemma shut_inv_cases lm ln a ps pc s : shut_inv lm ln a ps pc s -> shutting lm ln a ps pc s \/ pc = D_Done /\ shut_done lm ln s.
Proof. destruct pc; auto. Qed.

(** A thread's step, with what it does to the device. *)
Lemma shut_thread lm ln a ps pc tid s s' :
  shutting lm ln a ps pc s -> input_small s -> run_thread tid s = Done (tt, s') ->
  exists t pc' a' ps' lx lc fd s1, conn_of lm s tid t lx lc fd /\
    thread_step (PLoc lx) (PLoc lc) (th_pc t) s = Done (pc', s1) /\ footprint lm lx lc fd (th_pc t) pc' s s1 /\
    s' = after (tid := tid) (lx := lx) (lc := lc) (pc' := pc') (s1 := s1) /\
    dev_effect (th_pc t) pc' a a' ps ps' /\ shutting lm ln a' ps' pc s'.
Proof using LL PL StL.
  intros Hs Hsmall Hrun. pose proof (sd_sys _ _ _ _ _ _ Hs) as Hi.
  destruct (run_thread_inv _ _ _ _ _ _ Hi Hrun) as (t & lx & lc & fd & pc' & s1 & Hco & Hst & Hfp & ->).
  destruct (inv_after Hi Hco Hfp) as (a' & ps' & Hi' & He). exists t, pc', a', ps', lx, lc, fd, s1.
  split_and!; try done. eapply shut_other; [exact Hs|exact Hi'| |exact (wlp_run _ _ _ _ _ Hrun (quiet_run_thread tid s))].
  eapply mem_step; [exact Hi|apply (sd_mem _ _ _ _ _ _ Hs)|]. split; [done|by eapply step_thread].
Qed.

(** Bytes that arrive. *)
Lemma shut_arrive lm ln a ps pc fd evs s :
  shut_inv lm ln a ps pc s -> input_small s -> shut_inv lm ln a ps pc (arrive fd evs s).
Proof using N LL PL StL.
  intros Hinv Hsmall. destruct (shut_inv_cases _ _ _ _ _ _ Hinv) as [Hs|(-> & Hd)]; [|exact Hd].
  apply shutting_inv. pose proof (sd_sys _ _ _ _ _ _ Hs) as Hi. destruct (si_lock _ _ _ _ Hi) as (m & Hm & _).
  eapply shut_other; [exact Hs|by eapply (inv_env lm s _ a ps m m)| |done].
  eapply mem_step; [exact Hi|apply (sd_mem _ _ _ _ _ _ Hs)|]. split; [done|apply step_arrive].
Qed.

Lemma no_thread_runs tid s : sv_threads s = ∅ -> run_thread tid s = Fault BadAccess.
Proof. intros Ht. unfold run_thread, bind, mget, mopt. simpl. by rewrite Ht, lookup_empty. Qed.

Definition some_inv (lm ln : loc) (c : destroy_pc * server) : Prop := exists a ps, shut_inv lm ln a ps c.1 c.2.

Lemma shut_step_inv lm ln c c' : some_inv lm ln c -> small_shut lm c c' -> some_inv lm ln c'.
Proof using LL PL StL.
  intros (a & ps & Hinv) [Hsmall Hstep].
  destruct Hstep as [tid pc s s' Hrun|fd evs pc s|fd addr b s s' Hfd Hrun|pc pc' s s' Hrun]; simpl in *.
  - destruct (shut_inv_cases _ _ _ _ _ _ Hinv) as [Hs|(-> & Ht & _)].
    + destruct (shut_thread _ _ _ _ _ _ _ _ Hs Hsmall Hrun) as (t & pc' & a' & ps' & lx & lc & fd & s1 & _ & _ & _ & _ & _ & Hs').
      exists a', ps'. by apply shutting_inv.
    + by rewrite no_thread_runs in Hrun.
  - exists a, ps. by apply shut_arrive.
  - pose proof Hinv as [Hi Hmi (gone & xs & Hr & ->) _]. destruct (roster_accept _ _ _ _ _ _ _ _ Hr Hrun) as [xs' Hr'].
    exists a, ps. apply shutting_inv. split; [by eapply inv_accept|by eapply mem_accept|by exists None, xs'|done].
  - exists a, ps. exact (wsp_run _ _ _ _ _ Hrun (main_step_ok lm ln pc s a ps Hinv)).
Qed.
Lemma shut_steps_inv lm ln c c' : some_inv lm ln c -> rtc (small_shut lm) c c' -> some_inv lm ln c'.
Proof using LL PL StL.
  intros Hi Hr. induction Hr as [c|c c1 c' Hs _ IH]; [done|]. apply IH. by eapply shut_step_inv.
Qed.

(** The server before its first client. *)
Lemma shut_initial_at lm ln m s a ps :
  sv_threads s = ∅ -> sv_managers s !! lm = Some m -> cm_file_mutex m = false -> cm_connection_ctx_list m = PNull ->
  cm_filename m = PLoc ln -> str_at (hp s) ln -> ft_is (p_dev (sv_proc s)) a ps -> positions_ok ps ->
  shutting lm ln a ps D_Start s.
Proof.
  intros Ht Hm Hmut Hl Hn Hs Hd Hp. split; [| | |done].
  - by eapply inv_initial.
  - by eapply mem_initial.
  - exists None, []. split; [|done]. split.
    + exists m. split; [done|]. split; [done|]. by rewrite Hl.
    + by intros l tid Hin%elem_of_nil.
    + by intros l tid Hin%elem_of_nil.
    + constructor.
    + intros tid. rewrite Ht, lookup_empty. by intros [].
Qed.
Lemma shut_initial lm ln m s a ps :
  sv_threads s = ∅ -> sv_managers s !! lm = Some m -> cm_file_mutex m = false -> cm_connection_ctx_list m = PNull ->
  cm_filename m = PLoc ln -> str_at (hp s) ln -> ft_is (p_dev (sv_proc s)) a ps -> positions_ok ps ->
  some_inv lm ln (D_Start, s).
Proof. intros. exists a, ps. by eapply shutting_inv, shut_initial_at. Qed.
End shutdown.
