(* ===== verification/ShutdownContexts.v ===== *)
(** The contexts of the connections, from [malloc] in [connection_manager_register_connection] to [free] in
    [connection_manager_destroy].

    Every context is one that was there before the first client, or is on the manager's list, or was left behind by
    a failed [pthread_create] ([accounted]). Every step of the shutdown keeps this; main frees what is on
    the list, so at its end nothing else is left. *)

From S2P Require Import Prelude CMonad KHeap Libc DeviceSpec FileDev Process TcpConnection TcpReceive TcpSend ReceiveSafety SList ConnectionManager ServerSpec HandleMessage Session ManagerLife ThreadFrame ThreadMemory ServerThreads ThreadSafety Shutdown.
Local Open Scope Z_scope.
Local Open Scope cmonad_scope.

Section contexts.
Context `{FD : FileDev} {L : Libc} {N : Sockets} {St : Stdio} {P : Pthreads}.
Context {FT : FileTable FD} {StL : StdioLaws St} {LL : LibcLaws L} {PL : PthreadsLaws P}.
Context (C0 : gset loc).

(** It was never given a thread, nor linked into the list. *)
Definition orphan (x : connection_ctx) : Prop := ctx_link x = (0, PNull) /\ exists ts, pthread_new ts = None.

(** The contexts, when those of [ls] are on the list. *)
Record accounted (ls : list loc) (s : server) : Prop := {
  ac_all l x : sv_ctxs s !! l = Some x -> l ∈ C0 \/ l ∈ ls \/ orphan x;
  ac_initial l : l ∈ C0 -> is_Some (sv_ctxs s !! l) /\ (l ∉ ls);
}.
Definition on_list (lm : loc) (s : server) (ls : list loc) : Prop :=
  exists m, sv_managers s !! lm = Some m /\ slist (sv_ctxs s) (cm_connection_ctx_list m) ls.
Definition listed (lm : loc) (pc : destroy_pc) (s : server) : Prop :=
  match pc with D_Done => accounted [] s | _ => exists ls, on_list lm s ls /\ accounted ls s end.

Lemma accounted_keeps ls s s' : keeps s s' -> accounted ls s -> accounted ls s'.
Proof using Type.
  intros [K1 _ _] [H1 H2]. split.
  - intros l x Hx. destruct (fmap_Some_eq _ _ _ _ (eq_sym (K1 l)) Hx) as (x' & Hx' & E).
    destruct (H1 l x' Hx') as [?|[?|[Hn Ho]]]; auto. right. right. split; [by rewrite <- E|done].
  - intros l Hl. destruct (H2 l Hl) as [[x Hx] Hn]. split; [|done]. by destruct (fmap_Some_eq _ _ _ _ (K1 l) Hx) as (x' & ? & _).
Qed.
Lemma on_list_keeps lm ls s s' : keeps s s' -> on_list lm s ls -> on_list lm s' ls.
Proof using Type.
  intros [K1 K2 _] (m & Hm & Hl). destruct (fmap_Some_eq _ _ _ _ (K2 lm) Hm) as (m' & Hm' & [= _ E _]). exists m'. split; [done|].
  rewrite E. by eapply slist_links.
Qed.
Lemma listed_keeps lm pc s s' : keeps s s' -> listed lm pc s -> listed lm pc s'.
Proof using Type.
  intros Hk. unfold listed. destruct pc; try by apply accounted_keeps.
  all: intros (ls & Hl & Ha); exists ls; split; [by eapply on_list_keeps|by eapply accounted_keeps].
Qed.

(** The list is the one of the [roster]. *)
Lemma listed_roster lm ln pc s gone xs : pc <> D_Done -> roster lm ln s gone xs -> listed lm pc s ->
  accounted (option_list gone ++ xs.*1) s.
Proof using Type.
  intros Hpc Hr Hl. assert (exists ls, on_list lm s ls /\ accounted ls s) as (ls & (m & Hm & Hls) & Ha) by by destruct pc.
  destruct (ro_list _ _ _ _ _ Hr) as (m' & Hm' & _ & Hl'). assert (m' = m) as -> by congruence.
  by rewrite (slist_unique _ _ _ _ Hl' Hls).
Qed.
Lemma roster_listed lm ln pc s gone xs : pc <> D_Done -> roster lm ln s gone xs -> accounted (option_list gone ++ xs.*1) s ->
  listed lm pc s.
Proof using Type.
  intros Hpc Hr Ha. destruct (ro_list _ _ _ _ _ Hr) as (m & Hm & _ & Hl).
  destruct pc; try done; exists (option_list gone ++ xs.*1); (split; [by exists m|done]).
Qed.

(** *** Registering *)

Lemma listed_register lm lc s : listed lm D_Start s ->
  wlp (connection_manager_register_connection (PLoc lm) (PLoc lc)) (fun _ s' => listed lm D_Start s') s.
Proof using LL PL.
  intros (ls & (m & Hm & Hl) & [H1 H2]). apply register_wlp.
  - intros l m' Hn Hm'. assert (m' = m) as -> by congruence. destruct (pthread_new _) as [tid|]; [|done].
    assert (l ∉ ls) as Hls by (intros Hin; destruct (slist_live _ _ _ _ Hl Hin); congruence).
    exists (l :: ls). split; [|split]; simpl.
    + exists (with_list m (PLoc l)). simpl. rewrite lookup_insert_eq. split; [done|]. split; [done|].
      eexists. rewrite lookup_insert_eq. split; [done|]. by apply lseg_insert.
    + intros k x. rewrite lookup_insert. case_decide; [subst k; intros _; right; left; left|].
      intros Hx. destruct (H1 k x Hx) as [?|[?|?]]; auto. right. left. by right.
    + intros k Hk. destruct (H2 k Hk) as [Hs Hnk]. assert (k <> l) as Hne by (intros ->; rewrite Hn in Hs; by destruct Hs).
      rewrite lookup_insert_ne by done. split; [done|]. by apply not_elem_of_cons.
  - intros l Hn Hp. exists ls. split; [|split]; simpl.
    + exists m. split; [done|]. apply lseg_insert; [|done]. intros Hin. destruct (slist_live _ _ _ _ Hl Hin). congruence.
    + intros k x. rewrite lookup_insert. case_decide; [|apply H1]. intros [= <-]. right. right. split; [done|]. by eexists.
    + intros k Hk. destruct (H2 k Hk) as [Hs Hnk]. rewrite lookup_insert_ne; [done|]. intros ->. rewrite Hn in Hs. by destruct Hs.
Qed.
Lemma listed_accept lm s fd addr b s' :
  listed lm D_Start s -> accept_and_register lm fd addr s = Done (b, s') -> listed lm D_Start s'.
Proof using LL PL.
  intros Hl Hrun. refine (wlp_run _ _ _ _ _ Hrun (accept_wlp _ _ _ _ (fun _ s' => listed lm D_Start s') _ _)).
  - intros p _ _ _ _ _ _. by eapply listed_keeps; [|exact Hl].
  - intros lc la b' s2 _ _ Hreg. refine (wlp_run _ _ _ _ _ Hreg (listed_register _ _ _ _)). by eapply listed_keeps; [|exact Hl].
Qed.

(** *** Main's steps *)

Lemma listed_destroy lm ln a ps pc s : shutting lm ln a ps pc s -> listed lm pc s ->
  wlp (destroy_step (PLoc lm) pc) (fun pc' s' => listed lm pc' s') s.
Proof using Type.
  intros [_ _ (gone & xs & Hr & Hlist) _] Hl.
  assert (pc <> D_Done) as Hpc by (intros ->; done). pose proof (listed_roster _ _ _ _ _ _ Hpc Hr Hl) as Ha.
  destruct (ro_list _ _ _ _ _ Hr) as (m & Hm & _ & Hs).
  destruct pc as [| |p|p| |]; cbn [destroy_step]; wlp_steps.
  - apply get_manager_wlp. intros m' Hm'. assert (m' = m) as -> by congruence. unfold set_manager. wlp_steps.
    exists (option_list gone ++ xs.*1). split; [|by destruct Ha]. eexists. split; [apply lookup_insert_eq|done].
  - apply get_manager_wlp. intros m' _. wlp_steps. by destruct (SLIST_EMPTY _).
  - unfold get_ctx. destruct p as [| |l]; wlp_steps; try done. apply wlp_opt. intros x _. unfold pthread_join. wlp_steps.
    apply wlp_opt. intros t _. destruct (decide (th_pc t = T_Done)) as [Hd|Hd]; [rewrite Hd|destruct (th_pc t); by wlp_steps].
    wlp_steps. destruct Hl as (ls & Hls & [H1 H2]). exists ls. split; [exact Hls|by split].
  - destruct Hlist as (l & -> & ->). apply get_manager_wlp. intros m' Hm'. assert (m' = m) as -> by congruence. wlp_steps.
    apply wlp_lift. intros head Hrem. unfold set_manager, free_ctx. wlp_steps. apply wlp_opt. intros x Hx. wlp_steps.
    eapply (roster_listed _ ln); [done|exact (roster_remove _ _ _ _ _ _ _ Hr Hm Hrem)|].
    pose proof (slist_NoDup _ _ _ Hs) as [Hl1 _]%NoDup_cons. destruct Ha as [H1 H2]. split; simpl.
    + intros k y. rewrite lookup_delete. case_decide as E; [done|]. intros Hy.
      destruct (H1 k y Hy) as [?|[Hk|?]]; auto. apply elem_of_cons in Hk as [->|?]; [done|auto].
    + intros k Hk. destruct (H2 k Hk) as [Hs' Hn]. simpl in Hn. apply not_elem_of_cons in Hn as [Hne Hn].
      by rewrite lookup_delete_ne.
  - destruct Hlist as [-> ->]. apply get_manager_wlp. intros m' _. wlp_steps. destruct (cm_file_mutex m'); wlp_steps.
    apply wlp_on_proc. unfold wlp. destruct (do_free _ _) as [[? p']|]; [|done].
    match goal with |- match ?k ?st with _ => _ end => change (wlp k (fun pc' s' => listed lm pc' s') st) end.
    unfold set_manager, free_manager. wlp_steps. apply wlp_opt. intros m1 _. wlp_steps. by destruct Ha.
Qed.

(** *** Everybody's steps *)

Lemma listed_step lm ln c c' :
  some_inv lm ln c -> listed lm c.1 c.2 -> small_shut lm c c' -> listed lm c'.1 c'.2.
Proof using LL PL StL.
  intros (a & ps & Hinv) Hl [Hsmall Hstep].
  destruct Hstep as [tid pc s s' Hrun|fd evs pc s|fd addr b s s' Hfd Hrun|pc pc' s s' Hrun]; simpl in *.
  - eapply listed_keeps; [|exact Hl]. exact (wlp_run _ _ _ _ _ Hrun (quiet_run_thread tid s)).
  - eapply listed_keeps; [|exact Hl]. done.
  - by eapply listed_accept.
  - destruct (shut_inv_cases _ _ _ _ _ _ Hinv) as [Hs|(-> & _)]; [|done]. exact (wlp_run _ _ _ _ _ Hrun (listed_destroy _ _ _ _ _ _ Hs Hl)).
Qed.
Lemma listed_steps lm ln c c' :
  some_inv lm ln c -> listed lm c.1 c.2 -> rtc (small_shut lm) c c' -> listed lm c'.1 c'.2.
Proof using LL PL StL.
  intros Hi Hl Hr. induction Hr as [c|c c1 c' Hs _ IH]; [done|]. apply IH; [by eapply shut_step_inv|by eapply listed_step].
Qed.
End contexts.

(** Before the first client the list is empty. *)
Lemma listed_initial `{FD : FileDev} {P : Pthreads} lm m s :
  sv_managers s !! lm = Some m -> cm_connection_ctx_list m = PNull -> listed (dom (sv_ctxs s)) lm D_Start s.
Proof.
  intros Hm Hl. exists []. split; [exists m; split; [done|by rewrite Hl]|]. split.
  - intros l x Hx. left. apply elem_of_dom. by eexists.
  - intros l Hin%elem_of_dom. split; [done|apply not_elem_of_nil].
Qed.
(** At the end: those of the beginning, and orphans. *)
Lemma contexts_left `{FD : FileDev} {P : Pthreads} lm s0 s : listed (dom (sv_ctxs s0)) lm D_Done s ->
  (forall l, is_Some (sv_ctxs s0 !! l) -> is_Some (sv_ctxs s !! l)) /\
  (forall l x, sv_ctxs s !! l = Some x -> is_Some (sv_ctxs s0 !! l) \/ orphan x) /\
  ((forall ts, is_Some (pthread_new ts)) -> dom (sv_ctxs s) = dom (sv_ctxs s0)).
Proof.
  intros [H1 H2]. assert (forall l, is_Some (sv_ctxs s0 !! l) -> is_Some (sv_ctxs s !! l)) as Hall by (intros l Hl%elem_of_dom; by apply H2).
  assert (forall l x, sv_ctxs s !! l = Some x -> is_Some (sv_ctxs s0 !! l) \/ orphan x) as Hrest.
  { intros l x Hx. destruct (H1 l x Hx) as [?%elem_of_dom|[?%elem_of_nil|?]]; [by left|done|by right]. }
  split; [exact Hall|]. split; [exact Hrest|]. intros Hthr. apply set_eq. intros l. rewrite !elem_of_dom. split; [|apply Hall].
  intros [x Hx]. destruct (Hrest l x Hx) as [?|[_ [ts E]]]; [done|]. destruct (Hthr ts). congruence.
Qed.
