(* ===== verification/ShutdownEnds.v ===== *)
(** The server's shutdown comes to an end.

    Once [connection_manager_destroy] has set the flag, every step of a thread takes it nearer
    its end and every step of the main thread takes it nearer its own, whatever arrives:
    [shut_measure] decreases. A state in which nobody can step is the end, or main joins a
    thread whose client has sent nothing that ends the call of [recv]. *)

From S2P Require Import Prelude CMonad KHeap Libc DeviceSpec FileDev Process TcpConnection TcpReceive TcpSend ReceiveSafety SList ConnectionManager ServerSpec HandleMessage Session ManagerLife ThreadFrame ThreadMemory ServerThreads ThreadSafety Shutdown.
Local Open Scope Z_scope.
Local Open Scope cmonad_scope.

(** *** Sums over maps *)

Section map_total.
Context {A : Type}.
Implicit Types (f g : A -> nat) (m : gmap Z A).
Local Open Scope nat_scope.

Definition map_total f m : nat := map_fold (fun _ x n => f x + n) 0 m.

Lemma map_total_delete f m i x : m !! i = Some x -> map_total f m = f x + map_total f (delete i m).
Proof. intros Hi. unfold map_total. rewrite (map_fold_delete_L _ _ i x m); [done|lia|done]. Qed.
Lemma map_total_insert f m i x : m !! i = None -> map_total f (<[i := x]> m) = f x + map_total f m.
Proof. intros Hi. unfold map_total. rewrite map_fold_insert_L; [done|lia|done]. Qed.

Lemma map_total_mono f g m : (forall i x, m !! i = Some x -> f x <= g x) -> map_total f m <= map_total g m.
Proof.
  induction m as [|i x m Hi IH] using map_ind; intros H; [done|]. rewrite !map_total_insert by done.
  pose proof (H i x (lookup_insert_eq _ _ _)). assert (map_total f m <= map_total g m); [|lia].
  apply IH. intros j y Hj. apply (H j). rewrite lookup_insert_ne; [done|]. intros ->. congruence.
Qed.

(** One entry decreases and the others do not increase. *)
Lemma map_total_less f g m i x y :
  m !! i = Some x -> g y < f x -> (forall j z, j <> i -> m !! j = Some z -> g z <= f z) ->
  map_total g (<[i := y]> m) < map_total f m.
Proof.
  intros Hi Hlt Hle. rewrite (map_total_delete f m i x Hi).
  rewrite (map_total_delete g _ i y) by apply lookup_insert_eq. rewrite delete_insert_eq.
  assert (map_total g (delete i m) <= map_total f (delete i m)); [|lia].
  apply map_total_mono. intros j z [? Hj]%lookup_delete_Some. by apply (Hle j).
Qed.

Lemma map_total_bound f m b : (forall x, f x <= b) -> map_total f m <= b * size m.
Proof.
  intros Hb. induction m as [|i x m Hi IH] using map_ind; [unfold map_total; rewrite map_fold_empty; lia|].
  rewrite map_total_insert, map_size_insert_None by done. specialize (Hb x). lia.
Qed.
End map_total.

(** *** The measure *)

(** Where the loop of [thread_routine] goes, counted from its end, when the flag is set. *)
Definition stage (pc : thread_pc) : nat :=
  match pc with
  | T_Done => 0
  | T_Exit => 1
  | T_While => 2
  | T_Start | T_Close _ _ => 3
  | T_Unlock _ _ => 4
  | T_Send _ _ => 5
  | T_Handle _ _ => 6
  | T_Lock _ _ => 7
  | T_Open _ => 8
  | T_Receive => 9
  end.

(** The steps that main still has, with [n] threads to join. *)
Definition main_rank (n : nat) (pc : destroy_pc) : nat :=
  match pc with
  | D_Start | D_Remove _ => 3 * n + 3
  | D_While => 3 * n + 2
  | D_Join _ => 3 * n + 1
  | D_End => 1
  | D_Done => 0
  end.

Section ends.
Context `{FD : FileDev} {L : Libc} {N : Sockets} {St : Stdio} {P : Pthreads}.
Context {FDL : FileDevLaws FD} {StL : StdioLaws St} {LL : LibcLaws L} {PL : PthreadsLaws P}.

(** The steps a thread still has, if a file takes at most [mx] rounds of sending. *)
Definition thread_rank (mx : nat) (a : dstate) (ps : gmap Z Z) (pc : thread_pc) : nat :=
  match pc with
  | T_Send f _ => 5 + remaining a ps f
  | T_Handle _ _ | T_Lock _ _ | T_Open _ | T_Receive => stage pc + mx
  | _ => stage pc
  end.
(** The most rounds that sending a file can take: every round sends a byte. *)
Definition most_rounds : nat := Z.to_nat (10 * dev_max).

Definition shut_measure (a : dstate) (ps : gmap Z Z) (pc : destroy_pc) (s : server) : nat :=
  main_rank (size (sv_threads s)) pc + map_total (fun t => thread_rank most_rounds a ps (th_pc t)) (sv_threads s).

Lemma d_size_bound d a ps : dev_is d a ps -> 0 <= d_size a <= 10 * dev_max.
Proof.
  intros Hd. pose proof (dev_is_ok _ _ _ Hd) as [Hn HF _]. pose proof dev_max_small as Hmx.
  unfold d_size, d_content. split; [apply zlen_nonneg|].
  assert (zlen (concat (cmds a)) <= Z.of_nat (length (cmds a)) * dev_max) as Hle; [|nia].
  clear Hn. induction (cmds a) as [|c l IH]; [done|]. apply Forall_cons in HF as [[_ Hc] HF].
  cbn [concat length]. rewrite zlen_app. specialize (IH HF). lia.
Qed.

Lemma remaining_bound lm s a ps f : sys_inv lm s a ps -> (remaining a ps f <= most_rounds)%nat.
Proof.
  intros Hi. pose proof (d_size_bound _ _ _ (si_dev _ _ _ _ Hi)) as Hs. unfold remaining, most_rounds. change (ft_size a) with (d_size a).
  destruct (ps !! f) as [pos|] eqn:Hf; simpl; [pose proof (si_pos _ _ _ _ Hi f pos Hf)|]; lia.
Qed.

(** What is left at most, as a number of steps. *)
Lemma measure_bound lm s a ps pc : sys_inv lm s a ps ->
  Z.of_nat (shut_measure a ps pc s) <= (10 * dev_max + 12) * Z.of_nat (size (sv_threads s)) + 3.
Proof.
  intros Hi. unfold shut_measure. pose proof dev_max_small as Hmx.
  assert (map_total (fun t => thread_rank most_rounds a ps (th_pc t)) (sv_threads s) <=
          (most_rounds + 9) * size (sv_threads s))%nat as Hle.
  { apply map_total_bound. intros t. pose proof (fun f => remaining_bound _ _ _ _ f Hi) as Hr.
    destruct (th_pc t); simpl; try lia. specialize (Hr fd). lia. }
  assert (main_rank (size (sv_threads s)) pc <= 3 * size (sv_threads s) + 3)%nat by (destruct pc; simpl; lia).
  unfold most_rounds in *. nia.
Qed.

(** *** A step of a thread *)

Lemma wlp_true {A} (m : M server A) s : wlp m (fun _ _ => True) s.
Proof. unfold wlp. by destruct (m s) as [[]|]. Qed.

(** With the flag set the loop is left at its condition. *)
Definition goes_on (pc pc' : thread_pc) : Prop :=
  (stage pc' < stage pc)%nat \/ exists f q, pc = T_Send f q /\ pc' = T_Send f q.

Ltac any := eapply wlp_mono; [apply wlp_true|]; intros ? ? _; wlp_steps.

Lemma thread_step_goes_on lm lx lc x m s pc :
  sv_ctxs s !! lx = Some x -> ctx_manager x = PLoc lm -> sv_managers s !! lm = Some m -> cm_close_connections m = true ->
  wlp (thread_step (PLoc lx) (PLoc lc) pc) (fun pc' _ => goes_on pc pc') s.
Proof.
  intros Hx Hxm Hm Hf. unfold goes_on, thread_step. wlp_steps. eapply get_ctx_wlp; [exact Hx|].
  destruct pc; wlp_steps; simpl; try (left; lia).
  - apply wlp_on_proc. unfold tcp_connection_is_open, get_conn. wlp_steps. apply wlp_opt. intros c _. wlp_steps.
    rewrite set_proc_id. destruct (c_is_open c); wlp_steps; [|left; simpl; lia].
    rewrite Hxm. apply get_manager_wlp. intros m' Hm'. wlp_steps. assert (m' = m) as -> by congruence. rewrite Hf.
    left. simpl. lia.
  - any. destruct a as [[|] q]; wlp_steps; left; simpl; lia.
  - do 3 any. destruct a1; left; simpl; lia.
  - any. left. simpl. lia.
  - any. left. destruct (0 <=? a); simpl; lia.
  - any. destruct a; [left; simpl; lia|right; by eexists _, _].
  - any. left. simpl. lia.
  - do 2 any. left. simpl. lia.
  - do 4 any. left. simpl. lia.
Qed.

Lemma rank_less lm s a ps s' a' ps' pc pc' :
  sys_inv lm s a ps -> sys_inv lm s' a' ps' -> goes_on pc pc' -> dev_effect pc pc' a a' ps ps' ->
  (thread_rank most_rounds a' ps' pc' < thread_rank most_rounds a ps pc)%nat.
Proof.
  intros Hi Hi' [Hst|(f & q & -> & ->)] He.
  - pose proof (fun f => remaining_bound _ _ _ _ f Hi') as Hr.
    destruct pc, pc'; simpl in *; try lia; specialize (Hr fd0) || specialize (Hr fd); lia.
  - simpl. pose proof (de_rounds _ _ _ _ _ _ He f q q eq_refl eq_refl). lia.
Qed.

(** The others have as many steps left as before. *)
Lemma rank_other lm s a ps tid t lx lc fd pc' s1 a' ps' tid2 t2 :
  sys_inv lm s a ps -> conn_of lm s tid t lx lc fd -> footprint lm lx lc fd (th_pc t) pc' s s1 ->
  dev_effect (th_pc t) pc' a a' ps ps' -> tid2 <> tid -> sv_threads s !! tid2 = Some t2 ->
  (thread_rank most_rounds a' ps' (th_pc t2) <= thread_rank most_rounds a ps (th_pc t2))%nat.
Proof.
  intros Hi Hco Hfp He Hne Ht2. destruct (th_pc t2) as [| | | | | |f q| | | |] eqn:Hpc; try done. simpl.
  destruct (after_not_critical Hi Hco Hfp tid2 t2) as [Hnc _]; [done|done|by rewrite Hpc|].
  rewrite (de_state _ _ _ _ _ _ He (calm_handle _ Hnc)). unfold remaining. rewrite (de_other _ _ _ _ _ _ He f); [done| |].
  - intros Hf. apply Hne. eapply (si_open_disjoint _ _ _ _ Hi _ _ _ _ f Ht2); [apply Hco|by rewrite Hpc|done].
  - apply (si_open _ _ _ _ Hi _ _ f Ht2). by rewrite Hpc.
Qed.

Lemma thread_decreases lm ln a ps pc tid s s' :
  pc <> D_Start -> shutting lm ln a ps pc s -> input_small s -> run_thread tid s = Done (tt, s') ->
  exists a' ps', shutting lm ln a' ps' pc s' /\ (shut_measure a' ps' pc s' < shut_measure a ps pc s)%nat.
Proof using LL PL StL.
  intros Hpc Hs Hsmall Hrun.
  destruct (shut_thread _ _ _ _ _ _ _ _ Hs Hsmall Hrun) as (t & pc' & a' & ps' & lx & lc & fd & s1 & Hco & Hst & Hfp & -> & He & Hs').
  exists a', ps'. split; [done|]. pose proof (co_thread _ _ _ _ _ _ _ Hco) as Ht. pose proof (sd_sys _ _ _ _ _ _ Hs) as Hi.
  unfold shut_measure. simpl. rewrite (fp_threads _ _ _ _ _ _ _ _ Hfp), map_size_insert_Some by by eexists.
  apply Nat.add_lt_mono_l. eapply map_total_less; [exact Ht| |].
  - simpl. eapply rank_less; [exact Hi|apply (sd_sys _ _ _ _ _ _ Hs')| |exact He].
    destruct (co_x _ _ _ _ _ _ _ Hco) as (x & Hx & Hxm & _). destruct (si_lock _ _ _ _ Hi) as (m & Hm & _).
    refine (wlp_run _ _ _ _ _ Hst (thread_step_goes_on _ _ _ _ _ _ _ Hx Hxm Hm _)). by apply (sd_flag _ _ _ _ _ _ Hs).
  - intros tid2 t2 Hne Ht2. by eapply rank_other.
Qed.

(** *** A step of main *)

Lemma main_decreases lm a ps pc s :
  wlp (destroy_step (PLoc lm) pc) (fun pc' s' => pc' <> D_Start /\
    (shut_measure a ps pc' s' < shut_measure a ps pc s)%nat) s.
Proof.
  unfold shut_measure. destruct pc; simpl; wlp_steps; try done.
  - apply get_manager_wlp. intros m Hm. unfold set_manager. wlp_steps. simpl. split; [done|lia].
  - apply get_manager_wlp. intros m Hm. wlp_steps. destruct (SLIST_EMPTY _); simpl; (split; [done|lia]).
  - unfold get_ctx. destruct ctx as [| |l]; wlp_steps; try done. apply wlp_opt. intros x Hx. unfold pthread_join. wlp_steps.
    apply wlp_opt. intros t Ht. destruct (th_pc t) eqn:Hpc; wlp_steps; try done. simpl. split; [done|].
    rewrite (map_total_delete _ _ _ _ Ht), map_size_delete_Some by by eexists.
    assert (size (sv_threads s) <> 0)%nat; [|lia]. intros E%map_size_empty_inv. rewrite E in Ht. done.
  - apply get_manager_wlp. intros m Hm. wlp_steps. apply wlp_lift. intros head _. unfold set_manager. wlp_steps.
    unfold free_ctx. destruct ctx as [| |l]; wlp_steps; try done; try (apply wlp_opt; intros x _; wlp_steps);
      simpl; (split; [done|lia]).
  - apply get_manager_wlp. intros m Hm. destruct (cm_file_mutex m); wlp_steps.
    eapply wlp_mono; [apply on_proc_ctxs|]. intros [] ? [p ->]. wlp_steps. unfold set_manager, free_manager. wlp_steps.
    apply wlp_opt. intros m' _. wlp_steps. simpl. split; [done|lia].
Qed.

(** *** Runs *)

(** A step of a thread or of main; the network only brings bytes. *)
Inductive work (lm : loc) : destroy_pc * server -> destroy_pc * server -> Prop :=
  | work_thread tid pc s s' : run_thread tid s = Done (tt, s') -> work lm (pc, s) (pc, s')
  | work_main pc pc' s s' : destroy_step (PLoc lm) pc s = Done (pc', s') -> work lm (pc, s) (pc', s').
Definition arrival (c c' : destroy_pc * server) : Prop :=
  input_small c.2 /\ exists fd evs, c' = (c.1, arrive fd evs c.2).
(** One step of the program, after any number of arrivals. *)
Definition round (lm : loc) (c c' : destroy_pc * server) : Prop :=
  exists c0, rtc arrival c c0 /\ input_small c0.2 /\ work lm c0 c'.

Lemma arrivals_keep lm ln a ps c c' :
  shut_inv lm ln a ps c.1 c.2 -> rtc arrival c c' ->
  shut_inv lm ln a ps c'.1 c'.2 /\ c'.1 = c.1 /\ shut_measure a ps c'.1 c'.2 = shut_measure a ps c.1 c.2.
Proof using N LL PL StL.
  intros Hi Hr. induction Hr as [c|c c1 c' [Hsmall (fd & evs & ->)] _ IH]; [done|].
  destruct IH as (H1 & H2 & H3); [by apply shut_arrive|]. by split_and!.
Qed.

Lemma work_decreases lm ln a ps c c' :
  shut_inv lm ln a ps c.1 c.2 -> c.1 <> D_Start -> input_small c.2 -> work lm c c' ->
  c'.1 <> D_Start /\ exists a' ps', shut_inv lm ln a' ps' c'.1 c'.2 /\
    (shut_measure a' ps' c'.1 c'.2 < shut_measure a ps c.1 c.2)%nat.
Proof using LL PL StL.
  intros Hi Hpc Hsmall Hw. destruct Hw as [tid pc s s' Hrun|pc pc' s s' Hrun]; simpl in *.
  - split; [done|]. destruct (shut_inv_cases _ _ _ _ _ _ Hi) as [Hs|(-> & Ht & _)]; [|by rewrite no_thread_runs in Hrun].
    destruct (thread_decreases _ _ _ _ _ _ _ _ Hpc Hs Hsmall Hrun) as (a' & ps' & Hs' & Hlt).
    exists a', ps'. split; [by apply shutting_inv|done].
  - destruct (wlp_run _ _ _ _ _ Hrun (main_decreases lm a ps pc s)) as [Hpc' Hlt]. split; [done|].
    exists a, ps. split; [|done]. exact (wsp_run _ _ _ _ _ Hrun (main_step_ok lm ln pc s a ps Hi)).
Qed.

(** A run is not longer than the measure of its first state. *)
Lemma rounds_bounded lm ln n c c' : forall a ps,
  shut_inv lm ln a ps c.1 c.2 -> c.1 <> D_Start -> nsteps (round lm) n c c' ->
  (n <= shut_measure a ps c.1 c.2)%nat.
Proof using N LL PL StL.
  revert c. induction n as [|n IH]; intros c a ps Hi Hpc Hr; [lia|].
  inversion Hr as [|? ? c1 ? (c0 & Harr & Hsmall & Hw) Hr']; subst.
  destruct (arrivals_keep _ _ _ _ _ _ Hi Harr) as (Hi0 & E & Em).
  destruct (work_decreases _ _ _ _ _ _ Hi0 ltac:(congruence) Hsmall Hw) as (Hpc1 & a1 & ps1 & Hi1 & Hlt).
  specialize (IH c1 a1 ps1 Hi1 Hpc1 Hr'). lia.
Qed.

(** *** Nobody can step *)

(** The thread waits in [recv]: its client has sent nothing that ends the call. *)
Definition awaits_client (s : server) (t : thread) : Prop :=
  th_pc t = T_Receive /\ exists lc c, th_connection t = PLoc lc /\ p_conns (sv_proc s) !! lc = Some c /\
    Forall (fun ev => ends_receive NL ev = false) (in_of (sv_proc s) (c_socket c)).

Definition quiescent (lm : loc) (c : destroy_pc * server) : Prop := forall c', ~ work lm c c'.

Lemma stuck_thread lm a ps s tid t :
  malloc_succeeds L -> (forall fd out bs, sock_send fd out bs <> SendPipe) ->
  sys_inv lm s a ps -> mem_inv lm s -> input_small s -> (forall s', run_thread tid s <> Done (tt, s')) ->
  sv_threads s !! tid = Some t -> th_pc t <> T_Done ->
  awaits_client s t \/ exists f q m, th_pc t = T_Lock f q /\ sv_managers s !! lm = Some m /\ cm_file_mutex m = true.
Proof using LL.
  intros Hmal Hpipe Hi Hmi Hsmall Hq Ht Hal.
  destruct (run_thread tid s) as [[[] s']|f] eqn:Hrun; [by destruct (Hq s')|].
  pose proof (run_thread_safe _ _ _ _ _ _ _ Hi Hmi Hsmall Ht Hal Hrun) as Hf.
  destruct (th_pc t) eqn:Hpc; try done; simpl in Hf.
  - left. destruct Hf as (lc & c & Hlc & Hc & [[_ Hends]|[_ Hno]]); [|done]. split; [done|]. by exists lc, c.
  - right. destruct Hf as (_ & m & Hm). by eexists _, _, m.
  - destruct Hf as (_ & fd' & out & bs & E). by destruct (Hpipe fd' out bs).
Qed.

(** The mutex is nobody's then: its holder could go on. *)
Lemma stuck_threads lm a ps s tid t :
  malloc_succeeds L -> (forall fd out bs, sock_send fd out bs <> SendPipe) ->
  sys_inv lm s a ps -> mem_inv lm s -> input_small s -> (forall tid s', run_thread tid s <> Done (tt, s')) ->
  sv_threads s !! tid = Some t -> th_pc t <> T_Done -> awaits_client s t.
Proof using LL.
  intros Hmal Hpipe Hi Hmi Hsmall Hq Ht Hal.
  destruct (stuck_thread _ _ _ _ _ _ Hmal Hpipe Hi Hmi Hsmall (Hq tid) Ht Hal) as [?|(f' & q & m & Hpc & Hm & Hl)]; [done|].
  destruct (si_lock _ _ _ _ Hi) as (m' & Hm' & Hlock). assert (m' = m) as -> by congruence.
  apply Hlock in Hl as (tid2 & t2 & Ht2 & Hc2). assert (th_pc t2 <> T_Done) as Hal2 by (intros E; by rewrite E in Hc2).
  destruct (stuck_thread _ _ _ _ _ _ Hmal Hpipe Hi Hmi Hsmall (Hq tid2) Ht2 Hal2) as [[E _]|(f2 & q2 & m2 & E & _)];
    by rewrite E in Hc2.
Qed.

Lemma quiescent_ends lm ln a ps pc s :
  malloc_succeeds L -> (forall fd out bs, sock_send fd out bs <> SendPipe) ->
  shut_inv lm ln a ps pc s -> input_small s -> quiescent lm (pc, s) ->
  pc = D_Done \/ exists l x t, pc = D_Join (PLoc l) /\ sv_ctxs s !! l = Some x /\
    sv_threads s !! ctx_thread x = Some t /\ awaits_client s t.
Proof using LL.
  intros Hmal Hpipe Hinv Hsmall Hq. destruct (shut_inv_cases _ _ _ _ _ _ Hinv) as [[Hi Hmi _ _]|[-> _]]; [|by left].
  destruct (destroy_step (PLoc lm) pc s) as [[pc' s']|f] eqn:Hrun; [by destruct (Hq (pc', s')); apply work_main|].
  destruct (wsp_no_fault _ _ _ _ Hrun (main_step_ok lm ln pc s a ps Hinv)) as [_ [?|(l & x & t & -> & Hx & Ht & Hal)]]; [by left|].
  right. exists l, x, t. split_and!; try done. eapply (stuck_threads lm a ps s (ctx_thread x)); try done.
  intros tid s' Hrun'. by destruct (Hq (D_Join (PLoc l), s')); eapply work_thread.
Qed.
End ends.
