(* ===== verification/ThreadProperties.v ===== *)
(** The concurrent server's theorems. *)

From S2P Require Import Prelude CMonad KHeap Libc DeviceSpec FileDev Process TcpConnection TcpReceive TcpSend ReceiveSafety SList ConnectionManager ServerSpec HandleMessage Session ManagerLife TcpProperties ServerProperties ThreadFrame ThreadMemory ServerThreads Answers ThreadSafety Shutdown ShutdownContexts ShutdownEnds.
Local Open Scope Z_scope.
Local Open Scope cmonad_scope.

(** C10: mutual exclusion, for the device and for any other file on which an operation on one descriptor
    leaves the others alone ([FileTable]). In every state that the server reaches from its start, by any
    interleaving of thread steps, arriving bytes, accepted clients and the shutdown
    flag, at most one thread is between lock and unlock of the file mutex, the mutex is
    locked exactly when one is, and no two threads have the same device descriptor. *)
Theorem mutual_exclusion (FD : FileDev) (L : Libc) (N : Sockets) (St : Stdio) (P : Pthreads)
    (FT : FileTable FD) (LL : LibcLaws L) (StL : StdioLaws St) (PL : PthreadsLaws P)
    lm m s0 a ps s :
  sv_threads s0 = ∅ -> sv_managers s0 !! lm = Some m -> cm_file_mutex m = false ->
  ft_is (p_dev (sv_proc s0)) a ps -> positions_ok ps ->
  rtc (sys_step lm) s0 s ->
  (forall tid1 t1 tid2 t2, sv_threads s !! tid1 = Some t1 -> sv_threads s !! tid2 = Some t2 ->
     critical (th_pc t1) = true -> critical (th_pc t2) = true -> tid1 = tid2) /\
  (exists m', sv_managers s !! lm = Some m' /\
     (cm_file_mutex m' = true <-> exists tid t, sv_threads s !! tid = Some t /\ critical (th_pc t) = true)) /\
  (forall tid1 t1 tid2 t2 f, sv_threads s !! tid1 = Some t1 -> sv_threads s !! tid2 = Some t2 ->
     open_fd (th_pc t1) = Some f -> open_fd (th_pc t2) = Some f -> tid1 = tid2).
Proof.
  intros Ht Hm Hmut Hd Hp Hr.
  destruct (inv_steps lm s0 s a ps (inv_initial lm m s0 a ps Ht Hm Hmut Hd Hp) Hr) as (a' & ps' & Hinv).
  split; [apply Hinv|]. split; apply Hinv.
Qed.

(** Messages are served atomically. From the step in which a thread handles its message
    until it unlocks the mutex, whatever other threads, new clients and the network do in
    between, the device goes in that one step to the state the specification gives for the
    message, and the client has received in the end exactly the specified answer for that
    state: no other client's message gets into it. *)
Theorem message_served_atomically (FD : FileDev) (L : Libc) (N : Sockets) (St : Stdio) (P : Pthreads)
    (FDL : FileDevLaws FD) (LL : LibcLaws L) (StL : StdioLaws St) (PL : PthreadsLaws P)
    lm tid f msg m fd s a ps t lx lc s1 s2 :
  dev_reliable FD FDL -> net_reliable N ->
  sys_inv lm s a ps -> conn_of lm s tid t lx lc fd -> th_pc t = T_Handle f msg ->
  read_cstr (p_heap (sv_proc s)) msg = Done m -> (NL ∉ m) -> cstr m = m -> line_fits dev_max a m ->
  run_thread tid s = Done (tt, s1) ->
  rtc (fun s1 s2 => sys_step lm s1 s2 /\ exists t, sv_threads s1 !! tid = Some t /\ th_pc t = T_Send f msg) s1 s2 ->
  (exists t, sv_threads s2 !! tid = Some t /\ th_pc t = T_Unlock f msg) ->
  (exists ps1, sys_inv lm s1 (fst (serve a m)) ps1) /\
  out_of (sv_proc s2) fd = out_of (sv_proc s) fd ++ snd (serve a m).
Proof. intros. by eapply serve_atomically. Qed.

(** C9: memory safety and freedom from deadlock. In every state that the server reaches from
    its start, by any interleaving and whatever arrives, as long as no socket has a GiB
    waiting: the next step of every thread returns, except that receiving waits as long as nothing
    that ends it has arrived or finds no memory for its buffer, taking the file mutex waits while it is locked, and
    sending to a client that is gone ends the process. No thread ever reads or writes outside a live object, frees one
    twice, or unlocks a free mutex; and a thread that waits for the mutex waits for
    another one whose own next step does not wait. *)
Theorem threads_memory_safe (FD : FileDev) (L : Libc) (N : Sockets) (St : Stdio) (P : Pthreads)
    (FT : FileTable FD) (LL : LibcLaws L) (StL : StdioLaws St) (PL : PthreadsLaws P)
    lm m ln s0 a ps s tid t :
  sv_threads s0 = ∅ -> sv_managers s0 !! lm = Some m -> cm_file_mutex m = false ->
  cm_filename m = PLoc ln -> str_at (hp s0) ln ->
  ft_is (p_dev (sv_proc s0)) a ps -> positions_ok ps ->
  rtc (small_step lm) s0 s -> input_small s ->
  sv_threads s !! tid = Some t -> th_pc t <> T_Done ->
  (forall f, run_thread tid s = Fault f -> may_fault lm s (th_connection t) (th_pc t) f) /\
  (forall fd q, th_pc t = T_Lock fd q -> run_thread tid s = Fault Blocked ->
     exists tid2 t2, tid2 <> tid /\ sv_threads s !! tid2 = Some t2 /\ critical (th_pc t2) = true /\
       run_thread tid2 s <> Fault Blocked).
Proof.
  intros Ht Hm Hmut Hn Hs Hd Hp Hr Hsmall Htid Hal.
  destruct (mem_steps lm s0 s a ps (inv_initial lm m s0 a ps Ht Hm Hmut Hd Hp) (mem_initial lm m s0 ln Ht Hm Hn Hs) Hr)
    as [(a' & ps' & Hinv) Hmi].
  split; [intros f; by eapply run_thread_safe|]. intros fd q Hpc Hrun.
  pose proof (run_thread_safe _ _ _ _ _ _ _ Hinv Hmi Hsmall Htid Hal Hrun) as Hf. rewrite Hpc in Hf.
  destruct Hf as (_ & m1 & Hm1 & Hlocked). destruct (si_lock _ _ _ _ Hinv) as (m2 & Hm2 & Hlock).
  assert (m2 = m1) as -> by congruence. apply Hlock in Hlocked as (tid2 & t2 & Ht2 & Hc2). exists tid2, t2.
  split; [intros ->; assert (t2 = t) as -> by congruence; by rewrite Hpc in Hc2|]. split; [done|]. split; [done|].
  intros Hrun2. assert (th_pc t2 <> T_Done) as Hal2 by (intros E; by rewrite E in Hc2).
  pose proof (run_thread_safe _ _ _ _ _ _ _ Hinv Hmi Hsmall Ht2 Hal2 Hrun2) as Hf2.
  destruct (th_pc t2); simpl in *; try done; by destruct Hf2.
Qed.

(** C11: shutting down while threads run. Whatever the threads, the clients and the network do in
    between, main's steps of connection_manager_destroy return, except that pthread_join waits,
    exactly as long as the thread it joins has not ended; no thread's step touches a context,
    manager, string or connection that main has freed; and when main is through, no thread is
    left, the manager and its file name are freed, and so is the context of every client that got a thread: what
    remains are the contexts of before the first client and those that a failed pthread_create left behind, so none if
    threads can always be created. *)
Theorem shutdown_safe (FD : FileDev) (L : Libc) (N : Sockets) (St : Stdio) (P : Pthreads)
    (FT : FileTable FD) (LL : LibcLaws L) (StL : StdioLaws St) (PL : PthreadsLaws P)
    lm m ln s0 a ps pc s :
  sv_threads s0 = ∅ -> sv_managers s0 !! lm = Some m -> cm_file_mutex m = false -> cm_connection_ctx_list m = PNull ->
  cm_filename m = PLoc ln -> str_at (hp s0) ln ->
  ft_is (p_dev (sv_proc s0)) a ps -> positions_ok ps ->
  rtc (small_shut lm) (D_Start, s0) (pc, s) -> input_small s ->
  (forall f, pc <> D_Done -> destroy_step (PLoc lm) pc s = Fault f <-> f = Blocked /\ waiting pc s) /\
  (forall tid t f, sv_threads s !! tid = Some t -> th_pc t <> T_Done ->
     run_thread tid s = Fault f -> may_fault lm s (th_connection t) (th_pc t) f) /\
  (pc = D_Done -> sv_threads s = ∅ /\ sv_managers s !! lm = None /\ hp s !! ln = None /\
     (forall l, is_Some (sv_ctxs s0 !! l) -> is_Some (sv_ctxs s !! l)) /\
     (forall l x, sv_ctxs s !! l = Some x -> is_Some (sv_ctxs s0 !! l) \/ orphan x) /\
     ((forall ts, is_Some (pthread_new ts)) -> dom (sv_ctxs s) = dom (sv_ctxs s0))).
Proof.
  intros Ht Hm Hmut Hl Hn Hs Hd Hp Hr Hsmall.
  pose proof (shut_initial lm ln m s0 a ps Ht Hm Hmut Hl Hn Hs Hd Hp) as H0.
  destruct (shut_steps_inv lm ln (D_Start, s0) (pc, s) H0 Hr) as (a' & ps' & Hinv). simpl in Hinv.
  pose proof (listed_steps _ lm ln (D_Start, s0) (pc, s) H0 (listed_initial lm m s0 Hm Hl) Hr) as Hctx. simpl in Hctx.
  split_and!.
  - intros f Hpc. split.
    + intros Hf. by destruct (wsp_no_fault _ _ _ _ Hf (main_step_ok lm ln pc s a' ps' Hinv)) as [-> [?|?]].
    + intros [-> (l & x & t & -> & Hx & Htt & Hal)]. unfold destroy_step, get_ctx, pthread_join, bind, mget, mopt. simpl.
      rewrite Hx. simpl. rewrite Htt. simpl. by destruct (th_pc t).
  - intros tid t f Htt Hal Hrun. destruct (shut_inv_cases _ _ _ _ _ _ Hinv) as [[Hi Hmi _ _]|(-> & E & _)].
    + by eapply run_thread_safe.
    + by rewrite E in Htt.
  - intros ->. destruct Hinv as (? & ? & ?). by apply contexts_left in Hctx.
Qed.

(** C12: shutting down ends. Once main has set the flag, whatever arrives and however the
    threads and main are scheduled, they take no more steps together than ten times the
    longest command, and twelve, for each thread, and three: no thread serves its client for
    ever. In a state in which none of them can step main is through, or it joins a thread that
    waits for its client, who has sent neither the rest of a line nor the end of the stream
    nor an error (with enough memory and no broken pipe). *)
Theorem shutdown_ends (FD : FileDev) (L : Libc) (N : Sockets) (St : Stdio) (P : Pthreads)
    (FDL : FileDevLaws FD) (LL : LibcLaws L) (StL : StdioLaws St) (PL : PthreadsLaws P)
    lm m ln s0 a ps pc s :
  sv_threads s0 = ∅ -> sv_managers s0 !! lm = Some m -> cm_file_mutex m = false -> cm_connection_ctx_list m = PNull ->
  cm_filename m = PLoc ln -> str_at (hp s0) ln ->
  dev_is (p_dev (sv_proc s0)) a ps -> positions_ok ps ->
  rtc (small_shut lm) (D_Start, s0) (pc, s) -> input_small s ->
  (pc <> D_Start -> forall n c', nsteps (round lm) n (pc, s) c' ->
     Z.of_nat n <= (10 * dev_max + 12) * Z.of_nat (size (sv_threads s)) + 3) /\
  (malloc_succeeds L -> (forall fd out bs, sock_send fd out bs <> SendPipe) -> quiescent lm (pc, s) ->
     pc = D_Done \/ exists l x t, pc = D_Join (PLoc l) /\ sv_ctxs s !! l = Some x /\
       sv_threads s !! ctx_thread x = Some t /\ awaits_client s t).
Proof.
  intros Ht Hm Hmut Hl Hn Hs Hd Hp Hr Hsmall.
  destruct (shut_steps_inv lm ln (D_Start, s0) (pc, s) (shut_initial (FT := laws_table) lm ln m s0 a ps Ht Hm Hmut Hl Hn Hs Hd Hp) Hr)
    as (a' & ps' & Hinv). simpl in Hinv. split.
  - intros Hpc n c' Hrun. pose proof (rounds_bounded lm ln n (pc, s) c' a' ps' Hinv Hpc Hrun) as Hle.
    destruct (shut_inv_cases _ _ _ _ _ _ Hinv) as [[Hi _ _ _]|(-> & E & _)].
    + pose proof (measure_bound lm s a' ps' pc Hi). simpl in Hle. lia.
    + unfold shut_measure in Hle. simpl in Hle. rewrite E in *. unfold map_total in Hle. rewrite map_fold_empty in Hle.
      rewrite map_size_empty. lia.
  - intros Hmal Hpipe. by apply (quiescent_ends lm ln a' ps').
Qed.

(** ** Witnesses *)

(** Nobody is connected yet; then two clients come. *)
Definition start_server : server :=
  Server spec_dev (Proc spec_dev {[2%positive := sample_name ++ [NUL]]} ∅ ∅ ∅ ∅ (sample_dstate, ∅))
    ∅ {[1%positive := ConnectionManager (PLoc 2) false false PNull]} ∅.

Lemma no_input_small `{FD : FileDev} s : p_in (sv_proc s) = ∅ -> input_small s.
Proof. intros Hs fd. unfold in_of. rewrite Hs, lookup_empty. vm_compute. reflexivity. Qed.

(** A system with room for one thread. *)
#[export] Instance single_pthread : Pthreads := fun ts => if decide (200 ∈ ts) then None else Some 200.

#[export] Instance single_pthread_laws : PthreadsLaws single_pthread.
Proof. split. intros ts t. unfold pthread_new, single_pthread. case_decide; [done|]. by intros [= <-]. Qed.

Lemma positions_ok_empty : positions_ok ∅.
Proof. intros f pos. by rewrite lookup_empty. Qed.

(** A client at [sample_addr] has been accepted. *)
Definition accepted_server : server :=
  Server spec_dev
    (Proc spec_dev {[2%positive := sample_name ++ [NUL]; 3%positive := sample_addr ++ [NUL]]}
       {[2%positive := TcpConnection 4 (PLoc 3) true]} {[4]} ∅ ∅ (sample_dstate, ∅))
    {[2%positive := ConnectionCtx (PLoc 1) (PLoc 2) 200 PNull]}
    {[1%positive := ConnectionManager (PLoc 2) false false (PLoc 2)]}
    {[200 := Thread (PLoc 2) PNull T_Start]}.
Lemma start_accepts : accept_and_register (P := single_pthread) 1 4 sample_addr start_server = Done (true, accepted_server).
Proof. reflexivity. Qed.
Lemma start_step : sys_step (P := single_pthread) 1 start_server accepted_server.
Proof. eapply (step_accept 1 4 sample_addr true); [simpl; set_solver|apply start_accepts]. Qed.

Lemma mutual_exclusion_witness :
  sys_step (P := single_pthread) 1 start_server accepted_server /\
    (forall tid1 t1 tid2 t2, sv_threads accepted_server !! tid1 = Some t1 -> sv_threads accepted_server !! tid2 = Some t2 ->
       critical (th_pc t1) = true -> critical (th_pc t2) = true -> tid1 = tid2).
Proof.
  split; [exact start_step|].
  eapply (mutual_exclusion spec_dev sample_libc sample_sockets buffered_stdio single_pthread laws_table
           sample_libc_laws buffered_stdio_laws single_pthread_laws 1 (ConnectionManager (PLoc 2) false false PNull)
           start_server sample_dstate ∅).
  - reflexivity.
  - reflexivity.
  - reflexivity.
  - split; [reflexivity|apply sample_dstate_ok].
  - apply positions_ok_empty.
  - eapply rtc_l; [exact start_step|apply rtc_refl].
Defined.

(** One thread in the critical section, about to handle the line "hi". *)
Definition handling_server : server :=
  Server spec_dev
    (Proc spec_dev {[1%positive := sample_addr ++ [NUL]; 2%positive := sample_name ++ [NUL]; 3%positive := str "hi" ++ [NUL]]}
       {[1%positive := TcpConnection 4 (PLoc 1) true]} {[4]} ∅ ∅ (sample_dstate, {[3 := 0]}))
    {[1%positive := ConnectionCtx (PLoc 1) (PLoc 1) 100 PNull]}
    {[1%positive := ConnectionManager (PLoc 2) true false (PLoc 1)]}
    {[100 := Thread (PLoc 1) (PLoc 1) (T_Handle 3 (PLoc 3))]}.

Lemma handling_conn : conn_of 1 handling_server 100 (Thread (PLoc 1) (PLoc 1) (T_Handle 3 (PLoc 3))) 1 1 4.
Proof.
  split; try done; by eexists.
Qed.

Lemma handling_inv : sys_inv 1 handling_server sample_dstate {[3 := 0]}.
Proof.
  assert (forall tid t, sv_threads handling_server !! tid = Some t ->
            tid = 100 /\ t = Thread (PLoc 1) (PLoc 1) (T_Handle 3 (PLoc 3))) as Hone.
  { intros tid t. simpl. rewrite lookup_singleton. case_decide; [|done]. by intros [= <-]. }
  split.
  - split; [reflexivity|apply sample_dstate_ok].
  - intros f pos. rewrite lookup_singleton. case_decide; [|done]. by intros [= <-].
  - intros tid t [-> ->]%Hone _. exists 1%positive, 1%positive, 4. apply handling_conn.
  - intros tid1 t1 lx1 lc1 fd1 tid2 t2 lx2 lc2 fd2 [[-> _]%Hone _ _ _ _ _ _] [[-> _]%Hone _ _ _ _ _ _]. done.
  - intros tid t f [-> ->]%Hone [= <-]. by eexists.
  - intros tid t f [-> ->]%Hone [= <-]. done.
  - intros tid1 t1 tid2 t2 f [-> _]%Hone [-> _]%Hone. done.
  - eexists. split; [done|]. simpl. split; [|done]. intros _. by eexists 100, _.
  - intros tid1 t1 tid2 t2 [-> _]%Hone [-> _]%Hone. done.
Qed.

(** The line is stored and the contents sent up to position [pos]. *)
Definition sending_server (pc : thread_pc) (pos : Z) (out : gmap Z bytes) : server :=
  Server spec_dev
    (Proc spec_dev {[1%positive := sample_addr ++ [NUL]; 2%positive := sample_name ++ [NUL]; 3%positive := str "hi" ++ [NUL]]}
       {[1%positive := TcpConnection 4 (PLoc 1) true]} {[4]} ∅ out (DState [str "abc" ++ [NL]; str "hi" ++ [NL]] [], {[3 := pos]}))
    {[1%positive := ConnectionCtx (PLoc 1) (PLoc 1) 100 PNull]}
    {[1%positive := ConnectionManager (PLoc 2) true false (PLoc 1)]}
    {[100 := Thread (PLoc 1) (PLoc 1) pc]}.
Definition sent_server : server :=
  sending_server (T_Unlock 3 (PLoc 3)) 7 {[4 := str "abc" ++ [NL] ++ str "hi" ++ [NL]]}.

(** It handles the line, sends the two commands of the device, and finds the end. *)
Lemma handling_runs :
  run_thread 100 handling_server = Done (tt, sending_server (T_Send 3 (PLoc 3)) 0 ∅) /\
  rtc (fun s1 s2 => sys_step 1 s1 s2 /\
         exists t, sv_threads s1 !! 100 = Some t /\ th_pc t = T_Send 3 (PLoc 3))
    (sending_server (T_Send 3 (PLoc 3)) 0 ∅) sent_server.
Proof.
  split; [reflexivity|].
  eapply rtc_l with (y := sending_server (T_Send 3 (PLoc 3)) 4 {[4 := str "abc" ++ [NL]]});
    [split; [eapply (step_thread 1 100); reflexivity|by eexists]|].
  eapply rtc_l with (y := sending_server (T_Send 3 (PLoc 3)) 7 {[4 := str "abc" ++ [NL] ++ str "hi" ++ [NL]]});
    [split; [eapply (step_thread 1 100); reflexivity|by eexists]|].
  eapply rtc_l with (y := sent_server); [split; [eapply (step_thread 1 100); reflexivity|by eexists]|]. apply rtc_refl.
Qed.

Lemma message_served_atomically_witness :
  (exists ps1, sys_inv 1 (sending_server (T_Send 3 (PLoc 3)) 0 ∅) (DState [str "abc" ++ [NL]; str "hi" ++ [NL]] []) ps1) /\
    out_of (sv_proc sent_server) 4 = str "abc" ++ [NL] ++ str "hi" ++ [NL].
Proof.
  destruct handling_runs as [Hrun Hr].
  apply (message_served_atomically spec_dev sample_libc sample_sockets buffered_stdio single_pthread spec_dev_laws
           sample_libc_laws buffered_stdio_laws single_pthread_laws 1 100 3 (PLoc 3) (str "hi") 4 handling_server
           sample_dstate {[3 := 0]} (Thread (PLoc 1) (PLoc 1) (T_Handle 3 (PLoc 3))) 1 1
           (sending_server (T_Send 3 (PLoc 3)) 0 ∅) sent_server).
  - apply spec_dev_reliable.
  - apply sample_net_reliable.
  - apply handling_inv.
  - apply handling_conn.
  - reflexivity.
  - reflexivity.
  - by apply not_elem_of_list_b.
  - reflexivity.
  - vm_compute. congruence.
  - exact Hrun.
  - exact Hr.
  - by eexists.
Defined.

(** The first client has been accepted. *)
Lemma threads_memory_safe_witness :
  small_step (P := single_pthread) 1 start_server accepted_server /\
    (forall f, run_thread 200 accepted_server = Fault f -> may_fault 1 accepted_server PNull T_Start f).
Proof.
  assert (input_small start_server) as Hsmall by by apply no_input_small.
  split; [split; [exact Hsmall|exact start_step]|].
  refine (proj1 (threads_memory_safe spec_dev sample_libc sample_sockets buffered_stdio single_pthread laws_table
           sample_libc_laws buffered_stdio_laws single_pthread_laws 1 (ConnectionManager (PLoc 2) false false PNull) 2
           start_server sample_dstate ∅ accepted_server 200 (Thread (PLoc 2) PNull T_Start) eq_refl eq_refl eq_refl eq_refl
           _ _ _ _ _ eq_refl _)).
  - eexists. split; [reflexivity|]. apply elem_of_app. right. left.
  - split; [reflexivity|apply sample_dstate_ok].
  - apply positions_ok_empty.
  - eapply rtc_l; [split; [exact Hsmall|exact start_step]|apply rtc_refl].
  - by apply no_input_small.
  - done.
Defined.

(** Then main has gone to join its thread. *)
Definition closing_server : server :=
  set_managers {[1%positive := ConnectionManager (PLoc 2) false true (PLoc 2)]} accepted_server.
Lemma joining_steps :
  rtc (small_shut (P := single_pthread) 1) (D_Start, start_server) (D_Join (PLoc 2), closing_server).
Proof.
  eapply rtc_l with (y := (D_Start, accepted_server)).
  { split; [by apply no_input_small|]. eapply (sh_accept 1 4 sample_addr true); [simpl; set_solver|apply start_accepts]. }
  eapply rtc_l with (y := (D_While, closing_server)); [split; [by apply no_input_small|by apply sh_main]|].
  eapply rtc_l with (y := (D_Join (PLoc 2), closing_server)); [split; [by apply no_input_small|by apply sh_main]|].
  apply rtc_refl.
Qed.

Lemma shutdown_safe_witness :
  rtc (small_shut (P := single_pthread) 1) (D_Start, start_server) (D_Join (PLoc 2), closing_server) /\
    destroy_step (PLoc 1) (D_Join (PLoc 2)) closing_server = Fault Blocked.
Proof.
  split; [exact joining_steps|].
  refine (proj2 (proj1 (shutdown_safe spec_dev sample_libc sample_sockets buffered_stdio single_pthread laws_table
           sample_libc_laws buffered_stdio_laws single_pthread_laws 1 (ConnectionManager (PLoc 2) false false PNull) 2
           start_server sample_dstate ∅ _ _ eq_refl eq_refl eq_refl eq_refl eq_refl _ _ _ joining_steps _) Blocked _) _).
  - eexists. split; [reflexivity|]. apply elem_of_app. right. left.
  - split; [reflexivity|apply sample_dstate_ok].
  - apply positions_ok_empty.
  - by apply no_input_small.
  - done.
  - split; [reflexivity|]. exists 2%positive, (ConnectionCtx (PLoc 1) (PLoc 2) 200 PNull), (Thread (PLoc 2) PNull T_Start).
    by split_and!.
Defined.

(** The thread went to [recv] before main set the flag, and its client is silent. *)
Definition silent_server (close : bool) (pc : thread_pc) : server :=
  set_threads {[200 := Thread (PLoc 2) (PLoc 2) pc]}
    (set_managers {[1%positive := ConnectionManager (PLoc 2) false close (PLoc 2)]} accepted_server).
Lemma silent_steps :
  rtc (small_shut (P := single_pthread) 1) (D_Start, start_server) (D_Join (PLoc 2), silent_server true T_Receive).
Proof.
  eapply rtc_l with (y := (D_Start, accepted_server)).
  { split; [by apply no_input_small|]. eapply (sh_accept 1 4 sample_addr true); [simpl; set_solver|apply start_accepts]. }
  eapply rtc_l with (y := (D_Start, silent_server false T_While));
    [split; [by apply no_input_small|by apply (sh_thread 1 200)]|].
  eapply rtc_l with (y := (D_Start, silent_server false T_Receive));
    [split; [by apply no_input_small|by apply (sh_thread 1 200)]|].
  eapply rtc_l with (y := (D_While, silent_server true T_Receive)); [split; [by apply no_input_small|by apply sh_main]|].
  eapply rtc_l with (y := (D_Join (PLoc 2), silent_server true T_Receive));
    [split; [by apply no_input_small|by apply sh_main]|].
  apply rtc_refl.
Qed.

Lemma silent_quiescent : quiescent 1 (D_Join (PLoc 2), silent_server true T_Receive).
Proof.
  assert (run_thread 200 (silent_server true T_Receive) = Fault Blocked) as H1 by reflexivity.
  assert (destroy_step (PLoc 1) (D_Join (PLoc 2)) (silent_server true T_Receive) = Fault Blocked) as H2 by reflexivity.
  intros c' Hw. inversion Hw as [tid pc s s' Hrun|pc pc' s s' Hrun]; subst; [|by rewrite H2 in Hrun].
  destruct (decide (tid = 200)) as [->|Hne]; [by rewrite H1 in Hrun|].
  unfold run_thread, bind, mget, mopt in Hrun. simpl in Hrun. by rewrite lookup_singleton_ne in Hrun.
Qed.

Lemma shutdown_ends_witness :
  (forall n c', nsteps (round 1) n (D_Join (PLoc 2), silent_server true T_Receive) c' -> Z.of_nat n <= 10 * 2 ^ 22 + 15) /\
  (D_Join (PLoc 2) = D_Done \/ exists l x t, D_Join (PLoc 2) = D_Join (PLoc l) /\
     sv_ctxs (silent_server true T_Receive) !! l = Some x /\
     sv_threads (silent_server true T_Receive) !! ctx_thread x = Some t /\ awaits_client (silent_server true T_Receive) t).
Proof.
  pose proof (shutdown_ends spec_dev sample_libc sample_sockets buffered_stdio single_pthread spec_dev_laws
    sample_libc_laws buffered_stdio_laws single_pthread_laws 1 (ConnectionManager (PLoc 2) false false PNull) 2
    start_server sample_dstate ∅ _ _ eq_refl eq_refl eq_refl eq_refl eq_refl
    (ex_intro _ _ (conj eq_refl (proj2 (elem_of_app _ _ _) (or_intror (list_elem_of_here _ _)))))
    (conj eq_refl sample_dstate_ok) positions_ok_empty silent_steps (no_input_small (silent_server true T_Receive) eq_refl)) as [Hbound Hend].
  split.
  - intros n c' Hr. eapply Z.le_trans; [exact (Hbound ltac:(done) n c' Hr)|]. vm_compute. congruence.
  - apply Hend; [apply sample_malloc_succeeds|done|apply silent_quiescent].
Defined.
