(* ===== verification/TimerThreads.v ===== *)
(** The plain-file build with everything that runs in it: the threads, the clients, main, and the
    timer, whose callback runs in a thread of its own.

    [timed_step] interleaves their steps. [file_table] makes the file of [PlainFile] one on which
    the threads' invariants hold. While a callback has the mutex, a thread goes on as if
    it were free, up to the place where it would lock it ([calm_step]); so the invariants of
    [ServerThreads] and [ThreadSafety] are kept for the [calm] state, in which the callback has
    not taken it. *)

From S2P Require Import Prelude CMonad KHeap Libc DeviceSpec FileDev Process TcpConnection TcpReceive TcpSend ReceiveSafety SList ConnectionManager ServerSpec HandleMessage Session PlainFile TimerVariant TimerProperties ManagerLife ThreadFrame ThreadMemory ServerThreads ThreadSafety.
Local Open Scope Z_scope.
Local Open Scope cmonad_scope.

(** ** The descriptors of a plain file *)

(** [ps] are those opened with "r+", [A] those opened for appending. *)
Record table_is (d : plain_file) (a : option bytes * gmap Z Z) (ps : gmap Z Z) : Prop := {
  tb_content : f_content d = fst a;
  tb_fds fd : f_fds d !! fd =
    match ps !! fd with Some pos => Some (FileDesc false pos) | None => FileDesc true <$> snd a !! fd end;
  tb_apart fd : is_Some (ps !! fd) -> snd a !! fd = None;
  tb_exists : ps <> ∅ -> is_Some (fst a);
}.

Section table.
Context {D : Disk}.

Lemma tb_open d a ps fd pos : table_is d a ps -> ps !! fd = Some pos ->
  exists c, f_content d = Some c /\ fst a = Some c /\ f_fds d !! fd = Some (FileDesc false pos).
Proof.
  intros [Hc Hf _ He] Hfd. destruct He as [c E]; [by intros ->; rewrite lookup_empty in Hfd|].
  exists c. rewrite Hc, E, Hf, Hfd. done.
Qed.

(** Other contents, and another position of an open descriptor. *)
Lemma tb_move d a ps fd pos pos' c :
  table_is d a ps -> ps !! fd = Some pos ->
  table_is (PlainFile (Some c) (<[fd := FileDesc false pos']> (f_fds d))) (Some c, snd a) (<[fd := pos']> ps).
Proof.
  intros [Hc Hf Ha He] Hfd. split; simpl; [done| | |by eexists].
  - intros fd'. rewrite !lookup_insert. case_decide; [done|apply Hf].
  - intros fd'. rewrite lookup_insert. case_decide as E; [subst fd'; intros _; apply Ha; by eexists|apply Ha].
Qed.

(** A descriptor for appending, opened when there is none; another position of it; closing it. *)
Lemma tb_append_open d a ps fd d' : table_is d a ps -> snd a = ∅ -> file_open_append d = Some (fd, d') ->
  table_is d' (Some (default [] (fst a)), {[fd := 0]}) ps.
Proof.
  intros [Hc Hf Ha He] HA. unfold file_open_append. destruct (_ && _); [|done]. intros [= <- <-].
  pose proof (next_fd_fresh (f_fds d)) as Hfr. set (x := next_fd (f_fds d)) in *. clearbody x. rewrite Hf in Hfr.
  destruct (ps !! x) eqn:Hp; [done|]. split; simpl; [by rewrite Hc| | |by eexists].
  - intros fd. rewrite lookup_insert. case_decide as E; [subst fd; by rewrite Hp, lookup_singleton_eq|].
    rewrite Hf, HA, lookup_empty, lookup_singleton_ne by done. done.
  - intros fd Hs. apply lookup_singleton_ne. intros ->. rewrite Hp in Hs. by destruct Hs.
Qed.
Lemma tb_append_own d c ps fd p : table_is d (c, {[fd := p]}) ps -> ps !! fd = None /\ f_fds d !! fd = Some (FileDesc true p).
Proof.
  intros [_ Hf Ha _]. assert (ps !! fd = None) as Hp.
  { apply eq_None_not_Some. intros Hs%Ha. simpl in Hs. by rewrite lookup_singleton_eq in Hs. }
  split; [done|]. rewrite Hf, Hp. simpl. by rewrite lookup_singleton_eq.
Qed.
Lemma tb_append_move d c ps fd p c' p' : table_is d (c, {[fd := p]}) ps ->
  table_is (PlainFile (Some c') (<[fd := FileDesc true p']> (f_fds d))) (Some c', {[fd := p']}) ps.
Proof.
  intros Hd. destruct (tb_append_own _ _ _ _ _ Hd) as [Hp _]. destruct Hd as [Hc Hf Ha He]. simpl in *.
  split; simpl; [done| | |by eexists].
  - intros fd'. rewrite lookup_insert. case_decide as E; [subst fd'; by rewrite Hp, lookup_singleton_eq|].
    rewrite Hf. by rewrite !lookup_singleton_ne.
  - intros fd' Hs. apply lookup_singleton_ne. intros ->. rewrite Hp in Hs. by destruct Hs.
Qed.
Lemma tb_append_close d c ps fd p : table_is d (c, {[fd := p]}) ps -> table_is (file_close fd d) (c, ∅) ps.
Proof.
  intros Hd. destruct (tb_append_own _ _ _ _ _ Hd) as [Hp _]. destruct Hd as [Hc Hf Ha He]. simpl in *. split; simpl; try done.
  intros fd'. rewrite lookup_delete. case_decide as E; [subst fd'; by rewrite Hp|]. rewrite Hf. by rewrite lookup_singleton_ne.
Qed.

#[export] Instance file_table : FileTable file_dev.
Proof.
  refine (Build_FileTable file_dev (option bytes * gmap Z Z) table_is (fun a => default [] (fst a)) _ _ _ _ _).
  - intros d a ps fd d' Hd Ho. simpl in Ho. unfold file_open in Ho. destruct (f_content d) as [c|] eqn:Ec; [|done].
    destruct (disk_opens _); [|done]. injection Ho as <- <-. pose proof (next_fd_fresh (f_fds d)) as Hfr.
    destruct Hd as [Hc Hf Ha He]. assert (ps !! next_fd (f_fds d) = None /\ snd a !! next_fd (f_fds d) = None) as [Hp HA].
    { rewrite Hf in Hfr. destruct (ps !! _); [done|]. split; [done|]. by destruct (snd a !! _). }
    split; [done|]. split; simpl; [congruence| | |intros _; rewrite <- Hc, Ec; by eexists].
    + intros fd. rewrite !lookup_insert. case_decide; [done|apply Hf].
    + intros fd. rewrite lookup_insert. case_decide as E; [by subst|apply Ha].
  - intros d a ps fd pos bs Hd Hfd Hp _. destruct (tb_open _ _ _ _ _ Hd Hfd) as (c & Ec & Ea & Hf).
    simpl. unfold file_write. rewrite Hf, Ec. destruct (disk_room _).
    + eexists _, (pos + zlen bs). pose proof (zlen_nonneg bs). split; [lia|]. simpl. by eapply tb_move.
    + exists a, pos. split; [done|]. by rewrite insert_id.
  - intros d a ps fd pos n Hd Hfd Hp Hn. destruct (tb_open _ _ _ _ _ Hd Hfd) as (c & Ec & Ea & Hf).
    simpl. unfold file_read. rewrite Hf, Ec. set (bs := take _ _). pose proof (zlen_nonneg bs).
    eexists _, _, _, (pos + zlen bs). split; [reflexivity|]. split; [|split; [lia|]].
    + replace a with (Some c, snd a) by (destruct a; simpl in *; congruence). by eapply tb_move.
    + intros Hr. split; [lia|]. rewrite Ea. simpl. unfold bs, zlen in *. rewrite length_take, length_drop in *. lia.
  - intros d a ps fd pos arg Hd Hfd Hp _ _. simpl. exists pos. split; [done|]. by rewrite insert_id.
  - intros d a ps fd [Hc Hf Ha He] Hfd. simpl. unfold file_close. split; simpl; [done| | |].
    + intros fd'. rewrite !lookup_delete. case_decide as E; [|apply Hf]. subst fd'. by rewrite Ha.
    + intros fd'. rewrite lookup_delete. case_decide; [by intros []|apply Ha].
    + intros Hne. apply He. intros ->. by rewrite delete_empty in Hne.
Defined.
End table.

(** ** Everything that runs *)

(** The mutex is in the hands of a callback at [pc]. *)
Definition holds (pc : timer_pc) : bool :=
  match pc with TM_Open | TM_Print _ | TM_Close _ _ | TM_Unlock => true | _ => false end.

(** What happens to the file as a whole: the line [m] of the client at the socket [fd], a timestamp. *)
Inductive file_event := FE_Line (fd : Z) (m : bytes) | FE_Stamp (outstr : bytes).

Section system.
Context {D : Disk} {L : Libc} {N : Sockets} {St : Stdio} {P : Pthreads}.

(** A thread handles its message in one step; a callback's text is complete when it closes the file. *)
Definition thread_events (tid : Z) (s : @server file_dev) : list file_event :=
  match sv_threads s !! tid with
  | Some (Thread _ (PLoc lc) (T_Handle _ msg)) =>
      match p_conns (sv_proc s) !! lc, read_cstr (p_heap (sv_proc s)) msg with
      | Some c, Done m => [FE_Line (c_socket c) m]
      | _, _ => []
      end
  | _ => []
  end.
Definition callback_events (n : Z) (s : timed) : list file_event :=
  match td_callbacks s !! n with
  | Some (Callback _ outstr (TM_Close _ _)) => [FE_Stamp outstr]
  | _ => []
  end.

Inductive timed_step (lm : loc) : timed -> list file_event -> timed -> Prop :=
  | timed_thread tid s sv' :
      run_thread tid (td_server s) = Done (tt, sv') ->
      timed_step lm s (thread_events tid (td_server s)) (set_server sv' s)
  | timed_arrive fd evs s : timed_step lm s [] (set_server (arrive fd evs (td_server s)) s)
  | timed_accept fd addr b s sv' :
      (fd ∉ p_fds (sv_proc (td_server s))) -> accept_and_register lm fd addr (td_server s) = Done (b, sv') ->
      timed_step lm s [] (set_server sv' s)
  | timed_shutdown m s :
      sv_managers (td_server s) !! lm = Some m ->
      timed_step lm s [] (set_server (set_managers (<[lm := ConnectionManager (cm_filename m) (cm_file_mutex m) true
                                        (cm_connection_ctx_list m)]> (sv_managers (td_server s))) (td_server s)) s)
  | timed_expire id outstr n s s' : expire id outstr s = Done (n, s') -> timed_step lm s [] s'
  | timed_callback n s s' : run_callback n s = Done (tt, s') -> timed_step lm s (callback_events n s) s'.

(** A run, with its events, through states in which no socket has a GiB waiting. *)
Inductive timed_run (lm : loc) (s0 : timed) : list file_event -> timed -> Prop :=
  | timed_nil : timed_run lm s0 [] s0
  | timed_snoc es s es' s' :
      timed_run lm s0 es s -> input_small (td_server s) -> timed_step lm s es' s' -> timed_run lm s0 (es ++ es') s'.

(** ** What the events do, one after the other *)

Definition file_event_serve (c : bytes) (e : file_event) : bytes * bytes :=
  match e with FE_Line _ m => file_serve c m | FE_Stamp outstr => (c ++ timestamp outstr, []) end.
Definition file_after (c : bytes) (es : list file_event) : bytes := foldl (fun c e => fst (file_event_serve c e)) c es.
Definition answer_to (fd : Z) (c : bytes) (e : file_event) : bytes :=
  match e with FE_Line fd' m => if decide (fd' = fd) then snd (file_serve c m) else [] | FE_Stamp _ => [] end.
Fixpoint file_answers (fd : Z) (c : bytes) (es : list file_event) : bytes :=
  match es with
  | [] => []
  | e :: es => answer_to fd c e ++ file_answers fd (fst (file_event_serve c e)) es
  end.

Lemma file_after_app c es es' : file_after c (es ++ es') = file_after (file_after c es) es'.
Proof. apply foldl_app. Qed.
Lemma file_answers_app fd c es es' : file_answers fd c (es ++ es') = file_answers fd c es ++ file_answers fd (file_after c es) es'.
Proof. revert c. induction es as [|e es IH]; intros c; simpl; [done|]. by rewrite IH, app_assoc. Qed.
End system.

(** ** The mutex flag *)

#[local] Arguments with_mutex : simpl never.

Section flag.
Context `{FD : FileDev} {L : Libc} {N : Sockets} {St : Stdio} {P : Pthreads}.
Context (b : bool) (lm : loc).

Definition reflag (s : server) : server := set_managers (alter (with_mutex b) lm (sv_managers s)) s.
Definition then_reflag {A} (o : outcome (A * server)) : outcome (A * server) :=
  match o with Done (a, s) => Done (a, reflag s) | Fault f => Fault f end.

(** [m] does not look at the flag. *)
Definition blind {A} (m : M server A) : Prop := forall s, m (reflag s) = then_reflag (m s).

Lemma blind_ret {A} (a : A) : blind (ret a).
Proof. done. Qed.
Lemma blind_fault {A} f : blind (@mfault server A f).
Proof. done. Qed.
Lemma blind_bind {A B} (m : M server A) (k : A -> M server B) : blind m -> (forall a, blind (k a)) -> blind (bind m k).
Proof. intros Hm Hk s. unfold bind. rewrite Hm. destruct (m s) as [[a s']|]; [apply Hk|done]. Qed.
Lemma blind_if {A} (c : bool) (m k : M server A) : blind m -> blind k -> blind (if c then m else k).
Proof. by destruct c. Qed.
Lemma blind_on_proc {A} (m : M proc A) : blind (on_proc m).
Proof. intros s. unfold on_proc. simpl. by destruct (m (sv_proc s)) as [[]|]. Qed.
Lemma blind_get_ctx p : blind (get_ctx p).
Proof. intros s. unfold get_ctx. destruct p as [| |l]; try done. unfold bind, mget, mopt. simpl. by destruct (sv_ctxs s !! l). Qed.
Lemma blind_set_ctx p x : blind (set_ctx p x).
Proof. intros s. unfold set_ctx. by destruct p. Qed.
(** Reading a manager, and not its flag. *)
Lemma blind_manager {A} p (k : connection_manager -> M server A) :
  (forall m, blind (k m)) -> (forall m, k (with_mutex b m) = k m) -> blind (bind (get_manager p) k).
Proof.
  intros Hk Hf s. unfold get_manager. destruct p as [| |l]; try done. unfold bind, mget, mopt. simpl. rewrite lookup_alter.
  case_decide as E; [rewrite E|]; (destruct (sv_managers s !! l) as [m|]; [|done]); simpl; [rewrite Hf|]; apply Hk.
Qed.

#[local] Hint Resolve blind_ret blind_fault blind_bind blind_if blind_on_proc blind_get_ctx blind_set_ctx : core.

(** Only locking and unlocking do. *)
Definition unflagged (pc : thread_pc) : Prop := forall f q, pc <> T_Lock f q /\ pc <> T_Unlock f q.
Lemma thread_step_blind ctx connection pc : unflagged pc -> blind (thread_step ctx connection pc).
Proof.
  intros Hpc. apply blind_bind; [done|]. intros x. destruct pc; try done; auto.
  - apply blind_bind; [done|]. intros [|]; [|done]. by apply blind_manager.
  - apply blind_bind; [done|]. by intros [].
  - apply blind_manager; [|done]. intros m. auto.
  - by destruct (Hpc fd message).
  - by destruct (Hpc fd message).
Qed.

Lemma run_thread_blind tid s t :
  sv_threads s !! tid = Some t -> unflagged (th_pc t) -> run_thread tid (reflag s) = then_reflag (run_thread tid s).
Proof.
  intros Ht Hpc.
  assert (blind (let! connection := thread_connection (th_ctx t) (th_connection t) (th_pc t) in
    let! pc := thread_step (th_ctx t) connection (th_pc t) in
    mmodify (fun s => set_threads (<[tid := Thread (th_ctx t) connection pc]> (sv_threads s)) s))) as Hb.
  { apply blind_bind; [destruct (th_pc t); simpl; auto|]. intros c. apply blind_bind; [by apply thread_step_blind|done]. }
  specialize (Hb s). unfold run_thread, bind at 1 2 5 6, mget, mopt. simpl. rewrite Ht. exact Hb.
Qed.

Lemma blind_malloc_ctx : blind malloc_ctx.
Proof. intros s. unfold malloc_ctx, bind, mget. simpl. by destruct (malloc (sv_ctxs s) 32). Qed.
Lemma blind_register q : blind (connection_manager_register_connection (PLoc lm) q).
Proof.
  unfold connection_manager_register_connection. apply blind_bind; [apply blind_malloc_ctx|]. intros ctx.
  do 3 (apply blind_bind; [done|]; intros ?). intros s. unfold bind at 1 9, mget at 1 3. simpl sv_threads.
  destruct (pthread_new _) as [tid|]; [|done].
  unfold bind, mput, set_ctx, get_manager, mget, mopt, mlift, mmodify, set_manager, ret, mfault.
  destruct ctx as [| |l]; try done. unfold bind. simpl. rewrite lookup_alter_eq.
  destruct (sv_managers s !! lm) as [m|]; [|done]. unfold with_mutex at 1. simpl.
  destruct (SLIST_INSERT_HEAD _ _ _) as [[cs head]|]; [|done].
  simpl. unfold reflag, set_managers, set_ctxs. simpl. 
  assert (forall m' (M : gmap loc connection_manager), <[lm := with_mutex b m']> (alter (with_mutex b) lm M) = alter (with_mutex b) lm (<[lm := m']> M)) as E.
  { intros m' M. apply map_eq. intros k. rewrite lookup_insert, !lookup_alter, !lookup_insert. by repeat case_decide. }
  by rewrite <- E.
Qed.
Lemma blind_accept fd addr : blind (accept_and_register lm fd addr).
Proof.
  unfold accept_and_register. apply blind_bind; [done|]. intros []. apply blind_bind; [done|]. intros q.
  apply blind_if; [by apply blind_bind|apply blind_register].
Qed.
End flag.
