(* ===== verification/TimerInvariant.v ===== *)
(** The invariant of the plain-file build with its timer.

    [timed_inv] says of a state after the events [es] who has the mutex, what the descriptors
    are, how far a callback has come with its text, and what the clients were sent. A callback
    at work leaves the threads' invariants to the [calm] state. *)

From S2P Require Import Prelude CMonad KHeap Libc DeviceSpec FileDev Process TcpConnection TcpReceive TcpSend ReceiveSafety SList ConnectionManager ServerSpec HandleMessage Session PlainFile TimerVariant TimerProperties ManagerLife ThreadFrame ThreadMemory ServerThreads Answers ThreadSafety AtomicRefinement TimerThreads.
Local Open Scope Z_scope.
Local Open Scope cmonad_scope.

#[local] Arguments with_mutex : simpl never.

Section calm.
Context `{FD : FileDev} {L : Libc} {N : Sockets} {St : Stdio} {P : Pthreads}.
Context {FT : FileTable FD} {StL : StdioLaws St} {LL : LibcLaws L} {PL : PthreadsLaws P}.

(** The state with the mutex free, when the callback [h] has it. *)
Definition calm (lm : loc) (h : option Z) (s : server) : server :=
  match h with Some _ => reflag false lm s | None => s end.

Lemma calm_threads lm h s : sv_threads (calm lm h s) = sv_threads s.
Proof. by destruct h. Qed.
Lemma calm_ctxs lm h s : sv_ctxs (calm lm h s) = sv_ctxs s.
Proof. by destruct h. Qed.
Lemma calm_proc lm h s : sv_proc (calm lm h s) = sv_proc s.
Proof. by destruct h. Qed.
Lemma calm_conn lm h s tid t lx lc fd : conn_of lm (calm lm h s) tid t lx lc fd <-> conn_of lm s tid t lx lc fd.
Proof. destruct h; split; intros []; by split. Qed.

Lemma reflag_manager b lm s m : sv_managers s !! lm = Some m -> sv_managers (reflag b lm s) !! lm = Some (with_mutex b m).
Proof. intros Hm. simpl. by rewrite lookup_alter_eq, Hm. Qed.
Lemma reflag_insert b lm s m : sv_managers s !! lm = Some m ->
  reflag b lm s = set_managers (<[lm := with_mutex b m]> (sv_managers s)) s.
Proof.
  intros Hm. unfold reflag. f_equal. apply map_eq. intros k. rewrite lookup_alter, lookup_insert.
  case_decide; [subst k|done]. by rewrite Hm.
Qed.
Lemma reflag_id b lm s m : sv_managers s !! lm = Some m -> cm_file_mutex m = b -> reflag b lm s = s.
Proof.
  intros Hm <-. rewrite (reflag_insert _ _ _ m) by done. destruct s as [p cx M ts]. unfold set_managers. simpl in *.
  f_equal. apply insert_id. rewrite Hm. by destruct m.
Qed.
Lemma reflag_reflag b b' lm s : reflag b lm (reflag b' lm s) = reflag b lm s.
Proof.
  unfold reflag, set_managers. simpl. f_equal. apply map_eq. intros k. destruct (decide (lm = k)) as [<-|Hne].
  - rewrite !lookup_alter_eq. by destruct (sv_managers s !! lm).
  - by rewrite !lookup_alter_ne by done.
Qed.

(** What does not look at the flag does the same in the calm state, and leaves the flag. *)
Lemma blind_calm {A} lm h s (m : M server A) a s' :
  (forall b, m (reflag b lm s) = then_reflag b lm (m s)) -> (h <> None -> reflag true lm s = s) ->
  m s = Done (a, s') -> m (calm lm h s) = Done (a, calm lm h s') /\ (h <> None -> reflag true lm s' = s').
Proof.
  intros Hb Hf Hrun. destruct h as [n|]; [|split; [done|by intros []]]. simpl. split; [by rewrite Hb, Hrun|].
  intros _. specialize (Hf ltac:(done)). pose proof (Hb true) as E. rewrite Hf, Hrun in E. simpl in E. congruence.
Qed.

(** While a callback has the mutex, no thread is in the critical section. *)
Lemma calm_free lm h s a ps : (h <> None -> reflag true lm s = s) -> sys_inv lm (calm lm h s) a ps -> h <> None ->
  (exists m, sv_managers s !! lm = Some m /\ cm_file_mutex m = true) /\
  forall tid t, sv_threads s !! tid = Some t -> critical (th_pc t) = false.
Proof.
  intros Hf Hinv Hh. specialize (Hf Hh). destruct h as [n|]; [|done].
  destruct (si_lock _ _ _ _ Hinv) as (m0 & Hm0 & Hlock). simpl in Hm0. rewrite lookup_alter_eq in Hm0.
  destruct (sv_managers s !! lm) as [m|] eqn:Hm; [|done]. injection Hm0 as <-. split.
  - exists m. split; [done|]. pose proof (reflag_manager true lm s m Hm) as E. rewrite Hf, Hm in E. injection E as E. by rewrite E.
  - intros tid t Ht. destruct (critical (th_pc t)) eqn:Hcr; [|done]. assert (false = true) as E; [|done]. apply Hlock. by exists tid, t.
Qed.
Lemma run_locked lm s tid t lx lc fd f q m :
  conn_of lm s tid t lx lc fd -> th_pc t = T_Lock f q -> sv_managers s !! lm = Some m -> cm_file_mutex m = true ->
  run_thread tid s = Fault Blocked.
Proof.
  intros [Ht _ Hcx (x & Hx & Hxm & _) Hloc _ _] Hpc Hm Hmut. rewrite Hpc in Hloc. specialize (Hloc ltac:(done)).
  unfold run_thread, thread_step, pthread_mutex_lock, get_ctx, get_manager, bind, mget, mopt, ret. simpl.
  rewrite Ht, Hpc. simpl. rewrite Hcx, Hx, Hxm, Hm. by rewrite Hmut.
Qed.

(** A thread steps as if a callback did not have the mutex, since it cannot step where it would matter. *)
Lemma calm_run lm h s a ps tid s' :
  (h <> None -> reflag true lm s = s) -> sys_inv lm (calm lm h s) a ps -> run_thread tid s = Done (tt, s') ->
  run_thread tid (calm lm h s) = Done (tt, calm lm h s') /\ (h <> None -> reflag true lm s' = s').
Proof.
  intros Hf Hinv Hrun. destruct (decide (h = None)) as [->|Hh]; [split; [done|by intros []]|].
  destruct (calm_free _ _ _ _ _ Hf Hinv Hh) as [(m & Hm & Hmut) Hnc].
  destruct (sv_threads s !! tid) as [t|] eqn:Ht.
  2: { unfold run_thread, bind, mget, mopt in Hrun. simpl in Hrun. by rewrite Ht in Hrun. }
  apply blind_calm; [|done|done]. intros b. apply run_thread_blind with t; [done|]. intros f q.
  specialize (Hnc tid t Ht). destruct (decide (th_pc t = T_Done)) as [E|Hal]; [by rewrite E|].
  destruct (si_alive _ _ _ _ Hinv tid t ltac:(by rewrite calm_threads) Hal) as (lx & lc & fd & Hco).
  apply (proj1 (calm_conn lm h s _ _ _ _ _)) in Hco. split; intros Hpc; [|by rewrite Hpc in Hnc].
  by rewrite (run_locked lm s tid t lx lc fd f q m) in Hrun.
Qed.
End calm.

(** *** Steps that neither handle a message nor send *)

Lemma step_quiet `{FD : FileDev} {L : Libc} {N : Sockets} {St : Stdio} ctx lc pc s fd :
  (forall f q, pc <> T_Handle f q) -> (forall f q, pc <> T_Send f q) ->
  wlp (thread_step ctx (PLoc lc) pc) (fun pc' s' => out_of (sv_proc s') fd = out_of (sv_proc s) fd /\ ~ is_sending pc') s.
Proof.
  intros Hh Hs. destruct (silent pc) eqn:E.
  - eapply wlp_mono; [by apply silent_step|]. intros pc' s' (_ & Eo & Hn & _). split; [unfold out_of; by rewrite Eo|].
    intros (f & q & ->). destruct pc; simpl in Hn; naive_solver.
  - destruct pc as [| | | | |f q|f q| | | |]; try done; [|by destruct (Hh f q)|by destruct (Hs f q)|].
    + unfold thread_step. wlp_steps. unfold get_ctx. destruct ctx; wlp_steps. apply wlp_opt. intros x _. wlp_steps.
      apply wlp_on_proc. eapply wlp_mono; [apply (stays_receive lc (fd + 1))|]. intros [ok msg] p' [Hpf _]. wlp_steps.
      split; [apply (pf_out _ _ _ _ Hpf); lia|]. destruct ok; by intros (? & ? & ?).
    + unfold thread_step. wlp_steps. unfold get_ctx. destruct ctx; wlp_steps. apply wlp_opt. intros x _. by wlp_steps.
Qed.

(** *** The invariant *)

(** The descriptor that a callback at [pc] has, and how far its text is, over the contents [base]. *)
Definition callback_file (outstr : bytes) (pc : timer_pc) (c : option bytes) (A : gmap Z Z) (base : bytes) : Prop :=
  match pc with
  | TM_Print fd => c = Some base /\ exists p, A = {[fd := p]}
  | TM_Close fd buffered => exists p pre, A = {[fd := p]} /\ pre ++ concat buffered = timestamp outstr /\ c = Some (base ++ pre)
  | _ => A = ∅ /\ default [] c = base
  end.

Section invariant.
Context {D : Disk} {L : Libc} {N : Sockets} {St : Stdio} {P : Pthreads}.

(** After the events [es]; the callback [h] has the mutex; [c] and the descriptors [ps] and [A] are the file. *)
Record timed_inv (lm : loc) (c0 : bytes) (es : list file_event) (s : timed) (h : option Z)
    (c : option bytes) (A ps : gmap Z Z) : Prop := {
  ti_callbacks n cb : td_callbacks s !! n = Some cb -> cb_manager cb = PLoc lm /\ (holds (cb_pc cb) = true <-> h = Some n);
  ti_timers id t : td_timers s !! id = Some t -> it_value t = PLoc lm;
  ti_file : match h with
            | Some n => exists cb, td_callbacks s !! n = Some cb /\
                callback_file (cb_outstr cb) (cb_pc cb) c A (file_after c0 es)
            | None => A = ∅ /\ default [] c = file_after c0 es
            end;
  ti_flag : h <> None -> reflag true lm (td_server s) = td_server s;
  ti_sys : sys_inv lm (calm lm h (td_server s)) (c, A) ps;
  ti_mem : mem_inv lm (calm lm h (td_server s));
  ti_sent : sent_to lm (calm lm h (td_server s)) (c, A) ps (fun fd => file_answers fd c0 es);
}.

End invariant.
