(* ===== verification/TimerSteps.v ===== *)
(** Every step of the plain-file build keeps the invariant of [TimerInvariant].

    The threads' steps come first, over the calm state; then main's and the environment's,
    which do not look at the mutex; then the callbacks', which change the file and the mutex
    and nothing that a thread has. *)

From S2P Require Import Prelude CMonad KHeap Libc DeviceSpec FileDev Process TcpConnection TcpReceive TcpSend ReceiveSafety SList ConnectionManager ServerSpec HandleMessage Session PlainFile TimerVariant TimerProperties ManagerLife ThreadFrame ThreadMemory ServerThreads Answers ThreadSafety AtomicRefinement TimerThreads TimerInvariant.
Local Open Scope Z_scope.
Local Open Scope cmonad_scope.

Section steps.
Context {D : Disk} {L : Libc} {N : Sockets} {St : Stdio} {P : Pthreads}.
Context {StL : StdioLaws St} {LL : LibcLaws L} {PL : PthreadsLaws P}.
Context (Hroom : forall n, disk_room n = true) (Hnet : net_reliable N).

(** *** Threads *)

Section thread.
Context {lm : loc} {s s1 : @server file_dev} {c : option bytes} {A ps : gmap Z Z} (Hinv : sys_inv lm s (c, A) ps).
Context {out : Z -> bytes} (Hx : sent_to lm s (c, A) ps out).
Context {tid : Z} {t : thread} {lx lc : loc} {fd : Z} (Hco : conn_of lm s tid t lx lc fd).
Context {pc' : thread_pc} (Hfp : footprint lm lx lc fd (th_pc t) pc' s s1).
Context (Hst : thread_step (PLoc lx) (PLoc lc) (th_pc t) s = Done (pc', s1)).

Local Abbreviation s' := (after (tid := tid) (lx := lx) (lc := lc) (pc' := pc') (s1 := s1)).
Local Abbreviation base := (default [] c).

(** Nobody else works with the socket. *)
Lemma own_sent : ~ is_sending (th_pc t) -> out fd = out_of (sv_proc s) fd.
Proof using Hinv Hco Hx.
  intros Hno. apply (st_out _ _ _ _ _ Hx). intros tid2 t2 lx2 lc2 Hco2. destruct (decide (tid2 = tid)) as [->|Hne].
  - by destruct (conn_of_det _ _ _ _ _ _ _ _ _ _ _ Hco2 Hco) as (-> & _).
  - by destruct (si_disjoint _ _ _ _ Hinv _ _ _ _ _ _ _ _ _ _ Hco2 Hco Hne) as (_ & _ & []).
Qed.

Lemma file_quiet :
  (forall f q, th_pc t <> T_Handle f q) -> (forall f q, th_pc t <> T_Send f q) ->
  exists ps', sys_inv lm s' (c, A) ps' /\ sent_to lm s' (c, A) ps' out.
Proof using Hinv Hco Hx Hfp Hst.
  intros Hh Hs. destruct (wlp_run _ _ _ _ _ Hst (step_quiet _ _ _ _ fd Hh Hs)) as [Eo Hns].
  destruct (inv_after Hinv Hco Hfp) as (a' & ps' & Hinv' & He). assert (a' = (c, A)) as -> by by apply (de_state _ _ _ _ _ _ He).
  exists ps'. split; [exact Hinv'|]. apply (sent_after _ _ _ _ _ _ _ _ _ _ _ _ _ _ out Hinv Hx Hco Hfp He); [done| |].
  - intros f q E. destruct Hns. by exists f, q.
  - intros _. rewrite Eo. apply own_sent. intros (f & q & E). by destruct (Hs f q).
Qed.

Lemma file_send f q : th_pc t = T_Send f q ->
  exists ps', sys_inv lm s' (c, A) ps' /\ sent_to lm s' (c, A) ps' out.
Proof using Hinv Hco Hx Hfp Hst Hnet.
  intros Hpc. pose proof (st_sending _ _ _ _ _ Hx _ _ _ _ _ _ _ Hco Hpc) as Hans0.
  assert (thread_step (PLoc lx) (PLoc lc) (T_Send f q) s = Done (pc', s1)) as Hst' by by rewrite <- Hpc.
  assert (footprint lm lx lc fd (T_Send f q) pc' s s1) as Hfp' by by rewrite <- Hpc.
  assert (answered (FT := file_table) lm tid f q fd (out fd) (c, A) ps s1 lx lc pc' s) as (ps' & Hinv' & He & _ & Hans).
  { apply (answering_round _ _ _ _ _ _ _ _ _ t _ _ _ _ Hinv Hans0 Hco Hst' Hfp'). intros pos Hf Hpos.
    destruct (tb_open _ _ _ _ _ (si_dev _ _ _ _ Hinv) Hf) as (c1 & Ec & Ea & Hfds). simpl in Ea. subst c.
    destruct (co_x _ _ _ _ _ _ _ Hco) as (x & Hxx & _).
    unfold thread_step. wp_steps. eapply get_ctx_wp; [exact Hxx|]. wp_steps. apply wp_on_proc.
    eapply file_round_wp; [split; [apply Hco|apply (co_fd _ _ _ _ _ _ _ Hco)]|done| |exact Hfds|].
    { destruct (p_dev (sv_proc s)) as [ct fds] eqn:E. simpl in Ec. by subst ct. }
    destruct (file_piece c1 pos Hpos) as [Hrest Hend]. cbv zeta. set (bs := take 4096 (drop (Z.to_nat pos) c1)) in *.
    assert (table_is (PlainFile (Some c1) (<[f := FileDesc false (pos + zlen bs)]> (f_fds (p_dev (sv_proc s))))) (Some c1, A)
              (<[f := pos + zlen bs]> ps)) as Hd.
    { apply (tb_move _ (Some c1, A) ps f pos (pos + zlen bs) c1); [apply (si_dev _ _ _ _ Hinv)|done]. }
    case_bool_decide as Hbs; wp_steps; eexists _, bs; (split; [exact Hd|]); split_and!; try done;
      [by rewrite bool_decide_true|by rewrite bool_decide_false]. }
  rewrite <- Hpc in He. exists ps'. split; [exact Hinv'|]. apply answer_next in Hans as (_ & Hsend & Hout).
  by apply (sent_after _ _ _ _ _ _ _ _ _ _ _ _ _ _ out Hinv Hx Hco Hfp He).
Qed.

(** Handling the message [m] serves it; the answer is fixed, and sent or still to be sent. *)
Lemma file_handle f q m : th_pc t = T_Handle f q -> read_cstr (hp s) q = Done m ->
  exists ps', sys_inv lm s' (Some (fst (file_serve base m)), A) ps' /\
    sent_to lm s' (Some (fst (file_serve base m)), A) ps' (fun fd' => out fd' ++ answer_to fd' base (FE_Line fd m)).
Proof using Hinv Hco Hx Hfp Hst Hroom StL.
  intros Hpc Hm.
  assert (thread_step (PLoc lx) (PLoc lc) (T_Handle f q) s = Done (pc', s1)) as Hst' by by rewrite <- Hpc.
  assert (footprint lm lx lc fd (T_Handle f q) pc' s s1) as Hfp' by by rewrite <- Hpc.
  assert (handled (FT := file_table) lm tid f q fd (snd (file_serve base m)) (c, A) (Some (fst (file_serve base m)), A) ps s1 lx lc pc' s)
    as (ps' & Hinv' & He & _ & _ & Hans).
  { apply (answering_start _ _ _ _ _ _ _ _ _ _ t _ _ _ _ Hinv Hco Hpc Hst' Hfp'). intros Hf.
    destruct (tb_open _ _ _ _ _ (si_dev _ _ _ _ Hinv) Hf) as (c1 & Ec & Ea & Hfds). simpl in Ea. subst c. simpl.
    assert (p_dev (sv_proc s) = PlainFile (Some c1) (f_fds (p_dev (sv_proc s)))) as Ed by (destruct (p_dev (sv_proc s)); simpl in *; congruence).
    unfold file_serve. destruct (decode_ioctl_command m) as [arg|] eqn:Harg.
    - eapply file_seek_wp; [exact Hm|done|]. exists (p_dev (sv_proc s)), 0. simpl. split; [symmetry; apply set_dev_id|].
      split; [done|]. rewrite insert_id by done. split; [apply (si_dev _ _ _ _ Hinv)|done].
    - eapply file_print_wp; [done|exact Hm|done|exact Ed|exact Hfds|pose proof (zlen_nonneg c1); lia|].
      eexists _, (0 + zlen (m ++ [NL])). split; [reflexivity|]. pose proof (zlen_nonneg (m ++ [NL])). split; [lia|].
      rewrite overwrite_start. split; [apply (tb_move _ (Some c1, A) ps f 0); [apply (si_dev _ _ _ _ Hinv)|done]|].
      rewrite (proj2 (Z.leb_le _ _)) by done. cbn [fst snd ft_content file_table default]. by rewrite Z.add_0_l, zlen_to_nat, drop_app_length. }
  rewrite <- Hpc in He. exists ps'. split; [exact Hinv'|]. apply answer_next in Hans as (_ & Hsend & Hout).
  rewrite <- own_sent in Hsend, Hout by (rewrite Hpc; by intros (? & ? & ?)).
  apply (sent_after _ _ _ _ _ _ _ _ _ _ _ _ _ _ _ Hinv Hx Hco Hfp He); simpl.
  - intros fd2 Hne. rewrite decide_False by done. by rewrite app_nil_r.
  - rewrite decide_True by done. done.
  - rewrite decide_True by done. done.
Qed.
End thread.

Lemma no_events s tid t : sv_threads s !! tid = Some t -> (forall f q, th_pc t <> T_Handle f q) -> thread_events tid s = [].
Proof using Type.
  intros Ht Hh. unfold thread_events. rewrite Ht. destruct t as [cx cn pc]. simpl in Hh. destruct pc; try by destruct cn.
  by destruct (Hh fd message).
Qed.
Lemma line_event lm s tid t lx lc fd f q m :
  conn_of lm s tid t lx lc fd -> th_pc t = T_Handle f q -> read_cstr (hp s) q = Done m -> thread_events tid s = [FE_Line fd m].
Proof using Type.
  intros [Ht _ _ _ Hl (cn & Hc & <-) _] Hpc Hm. unfold thread_events, hp in *. rewrite Ht.
  destruct t as [cx cn' pc]. simpl in *. subst pc. rewrite Hl by done. by rewrite Hc, Hm.
Qed.

Lemma keep_thread lm c0 es s h c A ps tid sv' :
  timed_inv lm c0 es s h c A ps -> input_small (td_server s) -> run_thread tid (td_server s) = Done (tt, sv') ->
  exists c' ps', timed_inv lm c0 (es ++ thread_events tid (td_server s)) (set_server sv' s) h c' A ps'.
Proof using Hroom Hnet StL LL.
  intros [Hcb Htm Hfile Hflag Hinv Hmi Hx] Hsmall Hrun.
  destruct (calm_run _ _ _ _ _ _ _ Hflag Hinv Hrun) as [Hrun' Hflag'].
  assert (input_small (calm lm h (td_server s))) as Hsmall' by (unfold input_small; by rewrite calm_proc).
  destruct (run_thread_inv _ _ _ _ _ _ Hinv Hrun') as (t & lx & lc & fd & pc' & s1 & Hco & Hst & Hfp & Es').
  destruct (step_from_inv _ _ _ _ _ _ _ _ _ Hinv Hmi Hsmall' Hco) as (cn & la & Hc & Ha & Hsafe).
  pose proof (mem_after Hinv Hmi Hco Hc Ha Hfp (wsp_run _ _ _ _ _ Hst Hsafe)) as Hmi'. unfold after in Hmi'. rewrite <- Es' in Hmi'.
  pose proof (co_thread _ _ _ _ _ _ _ Hco) as Ht. rewrite calm_threads in Ht.
  destruct (th_pc t) as [| | | | |f q| | | | |] eqn:Hpc; rewrite <- Hpc in *.
  6: { (* the mutex is not a callback's *)
    assert (h = None) as ->.
    { destruct h; [|done]. destruct (calm_free _ _ _ _ _ Hflag Hinv) as [_ Hnc]; [done|]. specialize (Hnc tid t Ht). by rewrite Hpc in Hnc. }
    simpl calm in *. destruct Hfile as [-> Ebase].
    destruct (mi_own _ _ Hmi _ _ _ _ _ Hco) as (? & ? & _ & _ & _ & Hq). destruct (Hq q) as (k & -> & Hk & _); [by rewrite Hpc|].
    destruct (str_at_read _ _ Hk) as [m Hm].
    destruct (file_handle Hinv Hx Hco Hfp Hst f (PLoc k) m Hpc Hm) as (ps' & Hinv' & Hx').
    rewrite (line_event lm _ _ _ _ _ _ _ _ _ Hco Hpc Hm). unfold after in *. rewrite <- Es' in Hinv', Hx'.
    exists (Some (fst (file_serve (default [] c) m))), ps'. split; try done.
    - split; [done|]. by rewrite file_after_app, <- Ebase.
    - destruct Hx' as [H1 H2].
      assert (forall fd', file_answers fd' c0 (es ++ [FE_Line fd m]) = file_answers fd' c0 es ++ answer_to fd' (default [] c) (FE_Line fd m)) as E.
      { intros fd'. rewrite file_answers_app, <- Ebase. simpl. by rewrite app_nil_r. }
      split; intros; rewrite E; eauto. }
  all: assert (forall f q, th_pc t <> T_Handle f q) as Hh by (rewrite Hpc; done);
    rewrite (no_events _ _ _ Ht Hh), app_nil_r;
    assert (exists ps', sys_inv lm (calm lm h sv') (c, A) ps' /\ sent_to lm (calm lm h sv') (c, A) ps' (fun fd => file_answers fd c0 es))
      as (ps' & Hinv' & Hx') by (rewrite Es';
        first [apply (file_quiet Hinv Hx Hco Hfp Hst Hh); rewrite Hpc; done|by eapply (file_send Hinv Hx Hco Hfp Hst)]);
    by exists c, ps'.
Qed.

(** *** Main and the clients *)

Lemma calm_manager lm h (s : @server file_dev) m : sv_managers s !! lm = Some m ->
  exists m1, sv_managers (calm lm h s) !! lm = Some m1 /\ cm_filename m1 = cm_filename m /\
    cm_file_mutex m1 = match h with Some _ => false | None => cm_file_mutex m end.
Proof using Type. intros Hm. destruct h; [|by exists m]. exists (with_mutex false m). split; [by apply reflag_manager|done]. Qed.

(** What arrives, and the shutdown flag. *)
Lemma keep_same lm c0 es s h c A ps sv' m m' :
  timed_inv lm c0 es s h c A ps -> same_live (td_server s) sv' -> sv_threads sv' = sv_threads (td_server s) ->
  p_dev (sv_proc sv') = p_dev (sv_proc (td_server s)) -> p_heap (sv_proc sv') = p_heap (sv_proc (td_server s)) ->
  p_out (sv_proc sv') = p_out (sv_proc (td_server s)) ->
  sv_managers (td_server s) !! lm = Some m -> sv_managers sv' !! lm = Some m' ->
  cm_file_mutex m' = cm_file_mutex m -> cm_filename m' = cm_filename m ->
  timed_inv lm c0 es (set_server sv' s) h c A ps.
Proof using Type.
  intros [Hcb Htm Hfile Hflag Hinv Hmi Hx] Hl Et Ed Eh Eo Hm Hm' Emut En.
  assert (same_live (calm lm h (td_server s)) (calm lm h sv')) as Hl'.
  { destruct Hl. split; rewrite ?calm_proc, ?calm_threads, ?calm_ctxs; done. }
  destruct (calm_manager lm h _ m Hm) as (m1 & Hm1 & En1 & Emut1), (calm_manager lm h _ m' Hm') as (m2 & Hm2 & En2 & Emut2).
  split; simpl; try done.
  - intros Hh. destruct (calm_free _ _ _ _ _ Hflag Hinv Hh) as [(m0 & Hm0 & Hmut) _].
    apply (reflag_id _ _ _ m'); [done|]. assert (m0 = m) as -> by congruence. congruence.
  - eapply inv_live; [exact Hinv|exact Hl'|by rewrite !calm_proc|exact Hm1|exact Hm2|]. destruct h; congruence.
  - eapply mem_live; [exact Hmi|exact Hl'|unfold hp; by rewrite !calm_proc|exact Hm1|exact Hm2|]. congruence.
  - apply (sent_more lm (calm lm h (td_server s))); [done|by rewrite !calm_proc| |]; intros tid t lx lc fd Hco; [|left];
      by apply (conn_of_live lm _ _ _ _ _ _ _ Hl').
Qed.

Lemma keep_accept lm c0 es s h c A ps fd addr b sv' :
  timed_inv lm c0 es s h c A ps -> (fd ∉ p_fds (sv_proc (td_server s))) ->
  accept_and_register lm fd addr (td_server s) = Done (b, sv') -> timed_inv lm c0 es (set_server sv' s) h c A ps.
Proof using LL PL StL.
  intros [Hcb Htm Hfile Hflag Hinv Hmi Hx] Hfd Hrun.
  destruct (blind_calm lm h _ _ _ _ (fun b => blind_accept b lm fd addr _) Hflag Hrun) as [Hrun' Hflag'].
  rewrite <- (calm_proc lm h) in Hfd. split; simpl; try done.
  - by eapply inv_accept.
  - by eapply mem_accept.
  - by eapply sent_accept.
Qed.

(** *** Timers and callbacks *)

Lemma keep_expire lm c0 es s h c A ps id outstr n s' :
  timed_inv lm c0 es s h c A ps -> expire id outstr s = Done (n, s') -> timed_inv lm c0 es s' h c A ps.
Proof using Type.
  intros [Hcb Htm Hfile Hflag Hinv Hmi Hx] Hrun. unfold expire, bind, mget, mopt, mput, ret in Hrun.
  destruct (td_timers s !! id) as [t|] eqn:Ht; [|done]. simpl in Hrun. destruct (it_first t =? 0); [done|].
  injection Hrun as <- <-. pose proof (next_fd_fresh (td_callbacks s)) as Hfr.
  assert (h <> Some (next_fd (td_callbacks s))) as Hne.
  { intros ->. destruct Hfile as (cb & Hn & _). congruence. }
  split; simpl; try done.
  - intros n cb. rewrite lookup_insert. case_decide as E; [|apply Hcb]. intros [= <-]. subst n. simpl.
    split; [by eapply Htm|]. split; [done|]. intros ->. by destruct Hne.
  - destruct h as [n|]; [|done]. destruct Hfile as (cb & Hn & Hf). exists cb. split; [|done].
    rewrite lookup_insert_ne; [done|]. intros E. by rewrite E in Hne.
Qed.

Lemma inv_set_dev lm (s : @server file_dev) a ps d' a' :
  sys_inv lm s a ps -> table_is d' a' ps -> sys_inv lm (set_proc (set_dev (FD := file_dev) d' (sv_proc s)) s) a' ps.
Proof using Type.
  intros [H1 H2 H3 H4 H5 H5' H6 H7 H8] Hd'.
  assert (forall tid t lx lc fd, conn_of lm (set_proc (set_dev (FD := file_dev) d' (sv_proc s)) s) tid t lx lc fd <->
    conn_of lm s tid t lx lc fd) as Hiff by (intros; split; intros []; by split).
  split; try done.
  - intros tid t Ht Hal. destruct (H3 tid t Ht Hal) as (lx & lc & fd & Hco). exists lx, lc, fd. by apply Hiff.
  - intros tid1 t1 lx1 lc1 fd1 tid2 t2 lx2 lc2 fd2 Hc1%Hiff Hc2%Hiff. by eapply H4.
Qed.

(** A callback at work changes the file. *)
Lemma keep_device lm c0 es es' s n cb pc' c A ps d' c' A' :
  let sv := td_server s in
  timed_inv lm c0 es s (Some n) c A ps -> td_callbacks s !! n = Some cb -> holds pc' = true ->
  table_is d' (c', A') ps -> callback_file (cb_outstr cb) pc' c' A' (file_after c0 es') ->
  (forall fd, file_answers fd c0 es' = file_answers fd c0 es) ->
  timed_inv lm c0 es' (set_callbacks (<[n := Callback (cb_manager cb) (cb_outstr cb) pc']> (td_callbacks s))
    (set_server (set_proc (set_dev (FD := file_dev) d' (sv_proc sv)) sv) s)) (Some n) c' A' ps.
Proof using Type.
  intros sv [Hcb Htm Hfile Hflag Hinv Hmi Hx] Hn Hpc' Hd' Hf' Ha. unfold sv in *. clear sv.
  destruct (calm_free _ _ _ _ _ Hflag Hinv) as [(m0 & Hm0 & Hmut) Hnc]; [done|].
  split; simpl; try done.
  - intros n' cb'. rewrite lookup_insert. case_decide as E; [|apply Hcb]. intros [= <-]. subst n'. simpl.
    split; [by eapply Hcb|]. by rewrite Hpc'.
  - eexists. rewrite lookup_insert_eq. split; [done|]. done.
  - intros _. by apply (reflag_id _ _ _ m0).
  - by apply (inv_set_dev _ _ _ _ d' (c', A')) in Hinv.
  - destruct (mi_name _ _ Hmi) as (m & ln & Hm & _). by apply (mem_env lm (calm lm (Some n) (td_server s)) _ m m).
  - apply (sent_idle (FT := file_table) lm (calm lm (Some n) (td_server s)) _ (c, A) _ ps _ (fun fd => file_answers fd c0 es)); try done.
    + intros tid t lx lc fd. split; intros []; by split.
    + intros tid t Ht (f & q & Hpc). specialize (Hnc tid t Ht). by rewrite Hpc in Hnc.
Qed.

Lemma table_file d c b ps : table_is d (Some c, b) ps -> d = PlainFile (Some c) (f_fds d).
Proof using Type. intros [Hc _ _ _]. destruct d; simpl in *. by subst. Qed.

(** The three steps with the file. *)
Lemma callback_open lm (s : @server file_dev) outstr m name pc' s' c A ps base :
  sv_managers s !! lm = Some m -> read_cstr (p_heap (sv_proc s)) (cm_filename m) = Done name ->
  table_is (p_dev (sv_proc s)) (c, A) ps -> callback_file outstr TM_Open c A base ->
  timer_step (PLoc lm) outstr TM_Open s = Done (pc', s') ->
  exists d' c' A', s' = set_proc (set_dev (FD := file_dev) d' (sv_proc s)) s /\ table_is d' (c', A') ps /\ holds pc' = true /\
    callback_file outstr pc' c' A' base.
Proof using Type.
  intros Hm Hname Hd [HA Hc] Hrun. rewrite (timer_open _ _ _ _ _ _ Hm Hname eq_refl) in Hrun.
  destruct (file_open_append _) as [[fd d']|] eqn:Ho; [|done]. injection Hrun as <- <-.
  exists d', (Some base), {[fd := 0]}. split; [done|]. split; [|split; [done|split; [done|by exists 0]]].
  rewrite <- Hc. exact (tb_append_open _ (c, A) _ _ _ Hd HA Ho).
Qed.

Lemma callback_print lm (s : @server file_dev) outstr fd pc' s' c A ps base :
  table_is (p_dev (sv_proc s)) (c, A) ps -> callback_file outstr (TM_Print fd) c A base ->
  timer_step lm outstr (TM_Print fd) s = Done (pc', s') ->
  exists d' c' A', s' = set_proc (set_dev (FD := file_dev) d' (sv_proc s)) s /\ table_is d' (c', A') ps /\ holds pc' = true /\
    callback_file outstr pc' c' A' base.
Proof using Hroom StL.
  intros Hd [-> [p ->]] Hrun. refine (wp_run _ (fun pc' s' => exists d' c' A', s' = set_proc (set_dev (FD := file_dev) d' (sv_proc s)) s /\
    table_is d' (c', A') ps /\ holds pc' = true /\ callback_file outstr pc' c' A' base) _ _ _ Hrun _). clear Hrun.
  unfold timer_step. wp_steps. apply wp_on_proc. unfold do_fprintf. pose proof (stdio_concat (timestamp outstr)) as Hcat.
  destruct (stdio_chunks (timestamp outstr)) as [now later]. simpl in Hcat. rewrite concat_app in Hcat. wp_steps.
  pose proof (zlen_nonneg base).
  eapply file_chunks_wp; [done|by eapply table_file|by eapply tb_append_own|simpl; lia|]. intros pos' _. simpl.
  rewrite overwrite_end. wp_steps. do 3 eexists. split; [done|]. split; [by eapply tb_append_move|]. split; [done|].
  exists pos', (concat now). done.
Qed.

Lemma callback_close lm (s : @server file_dev) outstr fd buffered pc' s' c A ps base :
  table_is (p_dev (sv_proc s)) (c, A) ps -> callback_file outstr (TM_Close fd buffered) c A base ->
  timer_step lm outstr (TM_Close fd buffered) s = Done (pc', s') ->
  exists d' c' A', s' = set_proc (set_dev (FD := file_dev) d' (sv_proc s)) s /\ table_is d' (c', A') ps /\ holds pc' = true /\
    callback_file outstr pc' c' A' (base ++ timestamp outstr).
Proof using Hroom.
  intros Hd (p & pre & -> & Hpre & ->) Hrun.
  refine (wp_run _ (fun pc' s' => exists d' c' A', s' = set_proc (set_dev (FD := file_dev) d' (sv_proc s)) s /\
    table_is d' (c', A') ps /\ holds pc' = true /\ callback_file outstr pc' c' A' (base ++ timestamp outstr)) _ _ _ Hrun _). clear Hrun.
  unfold timer_step. wp_steps. apply wp_on_proc. unfold do_fflush. wp_steps. pose proof (zlen_nonneg (base ++ pre)).
  eapply file_chunks_wp; [done|by eapply table_file|by eapply tb_append_own|simpl; lia|]. intros pos' _. simpl.
  rewrite overwrite_end. wp_steps. apply wp_on_proc. unfold do_fclose. wp_steps. eexists _, (Some (base ++ timestamp outstr)), ∅.
  split; [reflexivity|]. split; [|done]. rewrite <- app_assoc, Hpre. by eapply tb_append_close, tb_append_move.
Qed.

(** The two with the mutex, which it takes from and gives back to the calm state. *)
Lemma keep_lock lm c0 es s h c A ps n cb pc' sv' :
  timed_inv lm c0 es s h c A ps -> td_callbacks s !! n = Some cb -> cb_pc cb = TM_Lock ->
  timer_step (cb_manager cb) (cb_outstr cb) TM_Lock (td_server s) = Done (pc', sv') ->
  timed_inv lm c0 es (set_callbacks (<[n := Callback (cb_manager cb) (cb_outstr cb) pc']> (td_callbacks s)) (set_server sv' s))
    (Some n) c A ps.
Proof using Type.
  intros [Hcb Htm Hfile Hflag Hinv Hmi Hx] Hn Hpc Hrun. destruct (Hcb n cb Hn) as [Hlm Hno]. rewrite Hpc in Hno. rewrite Hlm in *.
  destruct (si_lock _ _ _ _ Hinv) as (m0 & Hm0 & _).
  assert (exists m, sv_managers (td_server s) !! lm = Some m) as [m Hm].
  { destruct h; [|by exists m0]. simpl in Hm0. rewrite lookup_alter_eq in Hm0. destruct (sv_managers (td_server s) !! lm) as [m|]; [by exists m|done]. }
  rewrite (timer_lock _ lm m) in Hrun by done. destruct (cm_file_mutex m) eqn:Hmut; [done|]. injection Hrun as <- <-.
  assert (h = None) as ->.
  { destruct h; [|done]. destruct (calm_free _ _ _ _ _ Hflag Hinv) as [(m1 & Hm1 & Hmut1) _]; [done|]. congruence. }
  destruct Hfile as [-> Hbase].
  change (locked_state lm m (td_server s)) with (set_managers (<[lm := with_mutex true m]> (sv_managers (td_server s))) (td_server s)).
  rewrite <- (reflag_insert _ _ _ m) by done.
  assert (calm lm (Some n) (reflag true lm (td_server s)) = td_server s) as E by (simpl; rewrite reflag_reflag; by eapply reflag_id).
  split; simpl td_server; simpl td_callbacks; rewrite ?E; try done.
  - intros n' cb'. rewrite lookup_insert. case_decide as En; [intros [= <-]; by subst|]. intros Hn'.
    destruct (Hcb n' cb' Hn') as [? Hh]. split; [done|]. rewrite Hh. split; [done|]. intros [= ->]. done.
  - eexists. rewrite lookup_insert_eq. by split.
  - intros _. apply reflag_reflag.
Qed.

Lemma keep_unlock lm c0 es s c A ps n cb pc' sv' :
  timed_inv lm c0 es s (Some n) c A ps -> td_callbacks s !! n = Some cb -> cb_pc cb = TM_Unlock ->
  timer_step (cb_manager cb) (cb_outstr cb) TM_Unlock (td_server s) = Done (pc', sv') ->
  timed_inv lm c0 es (set_callbacks (<[n := Callback (cb_manager cb) (cb_outstr cb) pc']> (td_callbacks s)) (set_server sv' s))
    None c A ps.
Proof using Type.
  intros [Hcb Htm Hfile Hflag Hinv Hmi Hx] Hn Hpc Hrun. destruct (Hcb n cb Hn) as [Hlm _]. rewrite Hlm in *.
  destruct (calm_free _ _ _ _ _ Hflag Hinv) as [(m & Hm & Hmut) _]; [done|].
  assert (pc' = TM_Done /\ sv' = reflag false lm (td_server s)) as [-> ->].
  { revert Hrun. unfold timer_step, pthread_mutex_unlock, get_manager, set_manager, bind, mget, mopt, ret, mmodify. rewrite Hm, Hmut.
    intros [= <- <-]. split; [done|]. by rewrite (reflag_insert _ _ _ m). }
  destruct Hfile as (cb2 & Hn2 & Hf). assert (cb2 = cb) as -> by congruence. rewrite Hpc in Hf.
  split; simpl td_server; simpl td_callbacks; try done.
  intros n' cb'. rewrite lookup_insert. case_decide as En; [by intros [= <-]|]. intros Hn'.
  destruct (Hcb n' cb' Hn') as [? Hh]. split; [done|]. rewrite Hh. split; [|done]. by intros [= ->].
Qed.

Lemma keep_callback lm c0 es s h c A ps n s' :
  timed_inv lm c0 es s h c A ps -> run_callback n s = Done (tt, s') ->
  exists h' c' A', timed_inv lm c0 (es ++ callback_events n s) s' h' c' A' ps.
Proof using Hroom StL.
  intros Hi Hrun. unfold run_callback, on_server, bind, mget, mopt, mmodify, ret in Hrun. unfold callback_events.
  destruct (td_callbacks s !! n) as [[mg outstr pc]|] eqn:Hn; [|done]. simpl in Hrun.
  destruct (timer_step mg outstr pc (td_server s)) as [[pc' sv']|] eqn:Hstep; [|done]. injection Hrun as <-.
  pose proof Hi as [Hcb _ Hfile Hflag Hinv Hmi _]. destruct (Hcb n _ Hn) as [Hlm Hh]. simpl in Hlm, Hh. subst mg.
  assert (h = Some n -> callback_file outstr pc c A (file_after c0 es)) as Hown.
  { intros ->. destruct Hfile as (cb & Hn2 & Hf). by assert (cb = Callback (PLoc lm) outstr pc) as -> by congruence. }
  assert (sv_proc (calm lm h (td_server s)) = sv_proc (td_server s)) as Ep by apply calm_proc.
  pose proof (si_dev _ _ _ _ Hinv) as Hd. rewrite Ep in Hd.
  destruct pc; simpl in Hh; try (rewrite (proj1 Hh) in * by done).
  - rewrite app_nil_r. exists (Some n), c, A. by apply (keep_lock _ _ _ _ _ _ _ _ _ _ _ _ Hi Hn).
  - destruct (calm_free _ _ _ _ _ Hflag Hinv) as [(m & Hm & Hmut) _]; [done|].
    destruct (mi_name _ _ Hmi) as (m1 & ln & Hm1 & Hln & Hstr & _). unfold hp in Hstr. rewrite Ep in Hstr.
    destruct (calm_manager lm (Some n) _ _ Hm) as (m2 & Hm2 & En & _). assert (m2 = m1) as -> by congruence. rewrite Hln in En.
    destruct (str_at_read _ _ Hstr) as [name Hname]. rewrite En in Hname.
    destruct (callback_open _ _ _ _ _ _ _ _ _ _ _ Hm Hname Hd (Hown eq_refl) Hstep) as (d' & c' & A' & -> & Hd' & Hpc' & Hf').
    rewrite app_nil_r. exists (Some n), c', A'. by apply (keep_device _ _ _ _ _ _ _ _ _ _ _ _ _ _ Hi Hn).
  - destruct (callback_print _ _ _ _ _ _ _ _ _ _ Hd (Hown eq_refl) Hstep) as (d' & c' & A' & -> & Hd' & Hpc' & Hf').
    rewrite app_nil_r. exists (Some n), c', A'. by apply (keep_device _ _ _ _ _ _ _ _ _ _ _ _ _ _ Hi Hn).
  - destruct (callback_close _ _ _ _ _ _ _ _ _ _ _ Hd (Hown eq_refl) Hstep) as (d' & c' & A' & -> & Hd' & Hpc' & Hf').
    exists (Some n), c', A'. apply (keep_device _ _ _ _ _ _ _ _ _ _ _ _ _ _ Hi Hn); [done|done|by rewrite file_after_app|].
    intros fd'. rewrite file_answers_app. simpl. by rewrite app_nil_r.
  - rewrite app_nil_r. exists None, c, A. by apply (keep_unlock _ _ _ _ _ _ _ _ _ _ _ Hi Hn).
  - done.
Qed.
End steps.
