(* ===== verification/TimerRefines.v ===== *)
(** The plain-file build, with clients and timestamps: every interleaving is a sequence of
    lines and timestamps.

    [timed_server_refines] is the theorem, and [shows_file] what it says of a state that is
    reached: who is in the critical section, what the file and the clients have got after the
    events so far, and how a step can fail to return. *)

From S2P Require Import Prelude CMonad KHeap Libc DeviceSpec FileDev Process TcpConnection TcpReceive TcpSend ReceiveSafety SList ConnectionManager ServerSpec HandleMessage Session PlainFile TimerVariant TcpProperties ServerProperties TimerProperties ManagerLife ThreadFrame ThreadMemory ServerThreads Answers ThreadSafety AtomicRefinement ThreadProperties TimerThreads TimerInvariant TimerSteps.
Local Open Scope Z_scope.
Local Open Scope cmonad_scope.

(** A thread or a callback, and whether it is between locking and unlocking the mutex. *)
Inductive worker := W_Thread (tid : Z) | W_Callback (n : Z).

Section refines.
Context {D : Disk} {L : Libc} {N : Sockets} {St : Stdio} {P : Pthreads}.
Context {StL : StdioLaws St} {LL : LibcLaws L} {PL : PthreadsLaws P}.

Definition in_section (s : timed) (w : worker) : bool :=
  match w with
  | W_Thread tid => match sv_threads (td_server s) !! tid with Some t => critical (th_pc t) | None => false end
  | W_Callback n => match td_callbacks s !! n with Some cb => holds (cb_pc cb) | None => false end
  end.

(** Why a callback's step may not return: the mutex is locked, the file does not open (and the
    process ends), or it is done. *)
Definition callback_fault (lm : loc) (s : timed) (pc : timer_pc) (f : fault) : Prop :=
  match pc with
  | TM_Lock => f = Blocked /\ exists m, sv_managers (td_server s) !! lm = Some m /\ cm_file_mutex m = true
  | TM_Open => f = Exited /\ file_open_append (p_dev (sv_proc (td_server s))) = None
  | TM_Done => f = Blocked
  | _ => False
  end.

(** The state [s] after the events [es], from a file of the bytes [c0]. *)
Record shows_file (lm : loc) (c0 : bytes) (es : list file_event) (s : timed) : Prop := {
  sf_excl w1 w2 : in_section s w1 = true -> in_section s w2 = true -> w1 = w2;
  sf_mutex : exists m, sv_managers (td_server s) !! lm = Some m /\
    (cm_file_mutex m = true <-> exists w, in_section s w = true);
  sf_file : (forall n cb fd buffered, td_callbacks s !! n = Some cb -> cb_pc cb <> TM_Close fd buffered) ->
    default [] (f_content (p_dev (sv_proc (td_server s)))) = file_after c0 es;
  sf_stamp n cb fd buffered : td_callbacks s !! n = Some cb -> cb_pc cb = TM_Close fd buffered ->
    exists pre, pre ++ concat buffered = timestamp (cb_outstr cb) /\
      f_content (p_dev (sv_proc (td_server s))) = Some (file_after c0 es ++ pre);
  sf_out fd : ~ sending (td_server s) fd -> out_of (sv_proc (td_server s)) fd = file_answers fd c0 es;
  sf_prefix fd : out_of (sv_proc (td_server s)) fd `prefix_of` file_answers fd c0 es;
  sf_thread tid t f : input_small (td_server s) -> sv_threads (td_server s) !! tid = Some t -> th_pc t <> T_Done ->
    run_thread tid (td_server s) = Fault f -> may_fault lm (td_server s) (th_connection t) (th_pc t) f;
  sf_callback n cb f : td_callbacks s !! n = Some cb -> run_callback n s = Fault f -> callback_fault lm s (cb_pc cb) f;
}.

Lemma thread_fault lm c0 es s h c A ps tid t f :
  timed_inv lm c0 es s h c A ps -> input_small (td_server s) -> sv_threads (td_server s) !! tid = Some t ->
  th_pc t <> T_Done -> run_thread tid (td_server s) = Fault f -> may_fault lm (td_server s) (th_connection t) (th_pc t) f.
Proof using StL LL.
  intros [_ _ _ Hflag Hinv Hmi _] Hsmall Ht Hal Hrun.
  destruct h as [n|]; [|exact (run_thread_safe lm _ _ _ _ _ _ Hinv Hmi Hsmall Ht Hal Hrun)].
  destruct (calm_free _ _ _ _ _ Hflag Hinv) as [(m & Hm & Hmut) Hnc]; [done|]. specialize (Hnc tid t Ht).
  assert (sv_threads (calm lm (Some n) (td_server s)) !! tid = Some t) as Ht' by done.
  destruct (si_alive _ _ _ _ Hinv tid t Ht' Hal) as (lx & lc & fd & Hco).
  assert ((exists f' q, th_pc t = T_Lock f' q) \/ unflagged (th_pc t)) as [(f' & q & Hpc)|Hun].
  { destruct (th_pc t); try done; first [left; by do 2 eexists|right; by intros]. }
  - apply (proj1 (calm_conn lm (Some n) _ _ _ _ _ _)) in Hco.
    rewrite (run_locked lm _ tid t lx lc fd f' q m) in Hrun by done. injection Hrun as <-. rewrite Hpc. split; [done|by exists m].
  - assert (run_thread tid (calm lm (Some n) (td_server s)) = Fault f) as Hrun'.
    { simpl. rewrite (run_thread_blind _ _ _ _ t) by done. by rewrite Hrun. }
    pose proof (run_thread_safe lm _ _ _ _ _ _ Hinv Hmi Hsmall Ht' Hal Hrun') as Hf.
    destruct (th_pc t) as [| | | |f' q| | | | | |] eqn:Hpc; try exact Hf. by destruct (Hun f' q).
Qed.

Lemma callback_faults lm c0 es s h c A ps n cb f :
  timed_inv lm c0 es s h c A ps -> td_callbacks s !! n = Some cb -> run_callback n s = Fault f ->
  callback_fault lm s (cb_pc cb) f.
Proof using Type.
  intros [Hcb _ Hfile Hflag Hinv Hmi _] Hn Hrun. destruct (Hcb n cb Hn) as [Hlm Hh].
  unfold run_callback, on_server, bind, mget, mopt, mmodify, ret in Hrun. rewrite Hn in Hrun. simpl in Hrun. rewrite Hlm in Hrun.
  assert (timer_step (PLoc lm) (cb_outstr cb) (cb_pc cb) (td_server s) = Fault f) as Hstep.
  { destruct (timer_step _ _ _ _) as [[pc' sv']|f']; [done|]. congruence. }
  clear Hrun. destruct (si_lock _ _ _ _ Hinv) as (m0 & Hm0 & _).
  assert (exists m, sv_managers (td_server s) !! lm = Some m) as [m Hm].
  { destruct h; [|by exists m0]. simpl in Hm0. rewrite lookup_alter_eq in Hm0. by destruct (sv_managers _ !! lm) as [m|]; [exists m|]. }
  assert (holds (cb_pc cb) = true -> cm_file_mutex m = true) as Hmut.
  { intros E%Hh. destruct (calm_free _ _ _ _ _ Hflag Hinv) as [(m1 & Hm1 & ?) _]; [by rewrite E|]. congruence. }
  destruct (cb_pc cb) eqn:Hpc; simpl in Hmut.
  - rewrite (timer_lock _ _ m) in Hstep by done. destruct (cm_file_mutex m) eqn:E; [|done]. split; [congruence|by exists m].
  - destruct (mi_name _ _ Hmi) as (m1 & ln & Hm1 & Hln & Hstr & _). unfold hp in Hstr. rewrite calm_proc in Hstr.
    destruct (calm_manager lm h _ _ Hm) as (m2 & Hm2 & En & _). assert (m2 = m1) as -> by congruence. rewrite Hln in En.
    destruct (str_at_read _ _ Hstr) as [name Hname]. rewrite En in Hname.
    rewrite (timer_open _ _ _ _ _ _ Hm Hname eq_refl) in Hstep. destruct (file_open_append _) as [[]|] eqn:E; [done|].
    by injection Hstep as <-.
  - assert (wp (timer_step (PLoc lm) (cb_outstr cb) (TM_Print fd)) (fun _ _ => True) (td_server s)) as Hwp; [|unfold wp in Hwp; by rewrite Hstep in Hwp].
    unfold timer_step, do_fprintf. wp_steps. apply wp_on_proc. destruct (stdio_chunks _) as [now later]. wp_steps.
    eapply wp_mono; [apply write_chunks_total|]. intros. by wp_steps.
  - assert (wp (timer_step (PLoc lm) (cb_outstr cb) (TM_Close fd buffered)) (fun _ _ => True) (td_server s)) as Hwp; [|unfold wp in Hwp; by rewrite Hstep in Hwp].
    unfold timer_step, do_fflush, do_fclose. wp_steps. apply wp_on_proc. wp_steps.
    eapply wp_mono; [apply write_chunks_total|]. intros. wp_steps. apply wp_on_proc. by wp_steps.
  - revert Hstep. unfold timer_step, pthread_mutex_unlock, get_manager, bind, mget, mopt, ret. rewrite Hm. simpl. by rewrite Hmut.
  - by injection Hstep as <-.
Qed.

Lemma inv_shows lm c0 es s h c A ps : timed_inv lm c0 es s h c A ps -> shows_file lm c0 es s.
Proof using StL LL.
  intros Hi. pose proof Hi as [Hcb _ Hfile Hflag Hinv Hmi Hx].
  pose proof (si_dev _ _ _ _ Hinv) as [Hc _ _ _]. rewrite calm_proc in Hc. simpl in Hc.
  assert (h <> None -> forall w, in_section s w = true <-> exists n, h = Some n /\ w = W_Callback n) as Hheld.
  { intros Hh w. destruct (calm_free _ _ _ _ _ Hflag Hinv Hh) as [_ Hnc]. destruct w as [tid|n]; simpl.
    - destruct (sv_threads _ !! tid) as [t|] eqn:Ht; [rewrite (Hnc _ _ Ht)|]; (split; [done|by intros (? & _ & ?)]).
    - split.
      + destruct (td_callbacks s !! n) as [cb|] eqn:Hn; [|done]. intros Ho%(proj2 (Hcb n cb Hn)). by exists n.
      + intros (n' & -> & [= ->]). destruct Hfile as (cb & Hn & _). rewrite Hn. by apply (Hcb n' cb Hn). }
  assert (h = None -> forall w, in_section s w = true <->
    exists tid t, w = W_Thread tid /\ sv_threads (td_server s) !! tid = Some t /\ critical (th_pc t) = true) as Hfree.
  { intros -> w. destruct w as [tid|n]; simpl.
    - split; [|by intros (? & t & [= <-] & -> & ?)]. destruct (sv_threads _ !! tid) as [t|] eqn:Ht; [|done]. intros. by exists tid, t.
    - split; [|by intros (? & ? & ? & _)]. destruct (td_callbacks s !! n) as [cb|] eqn:Hn; [|done].
      by intros ?%(proj2 (Hcb n cb Hn)). }
  split.
  - intros w1 w2 H1 H2. destruct h as [n|].
    + apply Hheld in H1 as (? & [= <-] & ->), H2 as (? & [= <-] & ->); done.
    + apply Hfree in H1 as (tid1 & t1 & -> & Ht1 & Hc1), H2 as (tid2 & t2 & -> & Ht2 & Hc2); [|done..].
      f_equal. by apply (si_excl _ _ _ _ Hinv _ t1 _ t2).
  - destruct h as [n|].
    + destruct (calm_free _ _ _ _ _ Hflag Hinv) as [(m & Hm & Hmut) _]; [done|]. exists m. split; [done|].
      split; [|done]. intros _. exists (W_Callback n). apply Hheld; [done|]. by exists n.
    + destruct (si_lock _ _ _ _ Hinv) as (m & Hm & Hl). exists m. split; [done|]. rewrite Hl. split.
      * intros (tid & t & Ht & Hcr). exists (W_Thread tid). apply Hfree; [done|]. by exists tid, t.
      * intros (w & (tid & t & _ & Ht & Hcr)%Hfree); [|done]. by exists tid, t.
  - intros Hno. rewrite Hc. destruct h as [n|]; [|apply Hfile]. destruct Hfile as (cb & Hn & Hf).
    specialize (Hno n cb). destruct (cb_pc cb); simpl in Hf; try (by apply Hf); [by destruct Hf as [-> _]|]. by destruct (Hno fd buffered Hn).
  - intros n cb fd buffered Hn Hpc. rewrite Hc. destruct (Hcb n cb Hn) as [_ Ho]. rewrite Hpc in Ho. rewrite (proj1 Ho) in Hfile by done.
    destruct Hfile as (cb' & Hn' & Hf). assert (cb' = cb) as -> by congruence. rewrite Hpc in Hf.
    destruct Hf as (p & pre & _ & Hpre & ->). by exists pre.
  - intros fd Hns. rewrite <- (calm_proc lm h).
    apply (sent_shown lm (calm lm h (td_server s)) _ ps (fun fd => file_answers fd c0 es) fd (si_alive _ _ _ _ Hinv) Hx). by destruct h.
  - intros fd. rewrite <- (calm_proc lm h).
    apply (sent_shown lm (calm lm h (td_server s)) _ ps (fun fd => file_answers fd c0 es) fd (si_alive _ _ _ _ Hinv) Hx).
  - intros tid t f Hsmall Ht Hal Hrun. by eapply thread_fault.
  - intros n cb f Hn Hrun. by eapply callback_faults.
Qed.

(** *** Runs *)

Context (Hroom : forall n, disk_room n = true) (Hnet : net_reliable N).

Lemma keep_step lm c0 es s es' s' h c A ps :
  timed_inv lm c0 es s h c A ps -> input_small (td_server s) -> timed_step lm s es' s' ->
  exists h' c' A' ps', timed_inv lm c0 (es ++ es') s' h' c' A' ps'.
Proof using Hroom Hnet StL LL PL.
  intros Hi Hsmall Hstep.
  assert (exists m, sv_managers (td_server s) !! lm = Some m) as [m Hm].
  { destruct (sf_mutex _ _ _ _ (inv_shows _ _ _ _ _ _ _ _ Hi)) as (m & Hm & _). by exists m. }
  destruct Hstep as [tid s sv' Hrun|fd evs s|fd addr b s sv' Hfd Hrun|m' s Hm'|id outstr n s s' Hrun|n s s' Hrun].
  - destruct (keep_thread Hroom Hnet _ _ _ _ _ _ _ _ _ _ Hi Hsmall Hrun) as (c' & ps' & Hi'). by exists h, c', A, ps'.
  - rewrite app_nil_r. exists h, c, A, ps. by apply (keep_same _ _ _ _ _ _ _ _ _ m m Hi); [apply same_live_eq|..].
  - rewrite app_nil_r. exists h, c, A, ps. by eapply keep_accept.
  - rewrite app_nil_r. exists h, c, A, ps. eapply (keep_same _ _ _ _ _ _ _ _ _ m'); [exact Hi|by apply same_live_eq|done|done|done|done|done| | |];
      [apply lookup_insert_eq|done..].
  - rewrite app_nil_r. exists h, c, A, ps. by eapply keep_expire.
  - destruct (keep_callback Hroom _ _ _ _ _ _ _ _ _ _ Hi Hrun) as (h' & c' & A' & Hi'). by exists h', c', A', ps.
Qed.

Lemma keep_run lm c0 s0 es s h c A ps :
  timed_inv lm c0 [] s0 h c A ps -> timed_run lm s0 es s -> exists h' c' A' ps', timed_inv lm c0 es s h' c' A' ps'.
Proof using Hroom Hnet StL LL PL.
  intros H0 Hr. induction Hr as [|es s es' s' _ (h1 & c1 & A1 & ps1 & Hi) Hsmall Hstep]; [by do 4 eexists|]. by eapply keep_step.
Qed.

Lemma timed_start lm m ln s0 c :
  sv_threads (td_server s0) = ∅ -> td_callbacks s0 = ∅ -> (forall id t, td_timers s0 !! id = Some t -> it_value t = PLoc lm) ->
  sv_managers (td_server s0) !! lm = Some m -> cm_file_mutex m = false -> cm_filename m = PLoc ln -> str_at (hp (td_server s0)) ln ->
  p_dev (sv_proc (td_server s0)) = PlainFile c ∅ -> p_out (sv_proc (td_server s0)) = ∅ ->
  timed_inv lm (default [] c) [] s0 None c ∅ ∅.
Proof using Type.
  intros Ht Hcb Htm Hm Hmut Hln Hstr Hd Ho. split; try done.
  - intros n cb Hn. by rewrite Hcb in Hn.
  - eapply inv_initial; [done|exact Hm|done| |apply positions_ok_empty]. simpl. rewrite Hd. split; simpl; try done.
  - by eapply mem_initial.
  - apply sent_none.
    + intros tid t lx lc fd [Hth _ _ _ _ _ _]. simpl in Hth. by rewrite Ht in Hth.
    + intros fd. unfold out_of. simpl. by rewrite Ho.
Qed.

Definition created (name : bytes) (l ln : loc) (s : @server file_dev) : @server file_dev :=
  set_managers (<[l := ConnectionManager (PLoc ln) false false PNull]> (sv_managers s))
    (set_proc (set_heap (<[ln := name ++ [NUL]]> (p_heap (sv_proc s))) (sv_proc s)) s).

(** The manager's creation arms the only timer, with the manager as its argument. *)
Lemma timed_created {TM : Timers} name s00 lm s0 c :
  malloc_succeeds L -> zlen name + 1 < 2 ^ 31 ->
  sv_threads (td_server s00) = ∅ -> td_callbacks s00 = ∅ -> td_timers s00 = ∅ ->
  p_dev (sv_proc (td_server s00)) = PlainFile c ∅ -> p_out (sv_proc (td_server s00)) = ∅ ->
  timed_manager_create name s00 = Done (PLoc lm, s0) -> timed_inv lm (default [] c) [] s0 None c ∅ ∅.
Proof using LL.
  intros Hmem Hname Ht Hcb Htm Hd Ho Hrun. unfold timed_manager_create, on_server, bind in Hrun.
  destruct (connection_manager_create name (td_server s00)) as [[q sv]|] eqn:Hcreate; [|done].
  destruct (wp_run _ (fun q sv => exists l ln, q = PLoc l /\ sv = created name l ln (td_server s00)) _ _ _ Hcreate)
    as (l & ln & -> & ->); [apply create_manager_wp; [done|done|]; intros l ln _ _; by exists l, ln|].
  unfold timer_create, put_timerid, timer_settime, bind, mget, mput, mopt, mmodify, ret, mfault in Hrun.
  simpl in Hrun. destruct (timer_new _) as [id|]; [|done]. simpl in Hrun. rewrite lookup_insert_eq in Hrun. simpl in Hrun.
  injection Hrun as -> <-. eapply (timed_start lm _ ln); simpl; try done.
  - intros id' t. rewrite Htm, insert_insert_eq, lookup_insert. case_decide; [by intros [= <-]|by rewrite lookup_empty].
  - apply lookup_insert_eq.
  - done.
  - done.
  - exists (name ++ [NUL]). split; [apply lookup_insert_eq|]. apply elem_of_app. right. left.
Qed.
End refines.

(** C7: in the plain-file build, from the creation of the manager on and whatever the interleaving
    of the threads, the clients, main's accepting and setting of the close flag, and the timer's callbacks, at most one
    thread or callback is in its critical section, and the mutex is locked exactly then; the file is what
    the lines and the timestamps make of it, served one after the other, but while a callback closes the file,
    which then ends in a part of its timestamp; every client has been sent the answers to its lines in this
    order, or a prefix while a thread is sending; a thread's step fails to return only as [may_fault] says, and
    a callback's only because it waits for the mutex, cannot open the file, or is done. (With enough memory,
    a network that takes what is sent, a disk with room, and no socket with a GiB waiting.) *)
Theorem timed_server_refines (D : Disk) (L : Libc) (N : Sockets) (St : Stdio) (P : Pthreads) (TM : Timers)
    (StL : StdioLaws St) (LL : LibcLaws L) (PL : PthreadsLaws P) name c s00 lm s0 es s :
  malloc_succeeds L -> net_reliable N -> (forall n, disk_room n = true) -> zlen name + 1 < 2 ^ 31 ->
  sv_threads (td_server s00) = ∅ -> td_callbacks s00 = ∅ -> td_timers s00 = ∅ ->
  p_dev (sv_proc (td_server s00)) = PlainFile c ∅ -> p_out (sv_proc (td_server s00)) = ∅ ->
  timed_manager_create name s00 = Done (PLoc lm, s0) -> timed_run lm s0 es s ->
  shows_file lm (default [] c) es s.
Proof.
  intros Hmem Hnet Hroom Hname Ht Hcb Htm Hd Ho Hcreate Hrun.
  destruct (keep_run Hroom Hnet _ _ _ _ _ _ _ _ _ (timed_created _ _ _ _ _ Hmem Hname Ht Hcb Htm Hd Ho Hcreate) Hrun)
    as (h & c' & A & ps & Hi). by eapply inv_shows.
Qed.

(** ** Witness *)

#[local] Existing Instance sample_disk.
#[local] Existing Instance sample_timers.

(** A schedule, and the run it makes. *)
Inductive action :=
  | A_Thread (tid : Z)
  | A_Arrive (fd : Z) (bs : bytes)
  | A_Accept (fd : Z) (addr : bytes)
  | A_Expire (id : Z) (outstr : bytes)
  | A_Callback (n : Z).

Definition perform (lm : loc) (x : action) (s : timed) : option (list file_event * timed) :=
  match x with
  | A_Thread tid =>
      match run_thread tid (td_server s) with
      | Done (_, sv) => Some (thread_events tid (td_server s), set_server sv s)
      | Fault _ => None
      end
  | A_Arrive fd bs => Some ([], set_server (arrive fd (RecvByte <$> bs) (td_server s)) s)
  | A_Accept fd addr =>
      if decide (fd ∈ p_fds (sv_proc (td_server s))) then None
      else match accept_and_register (P := single_pthread) lm fd addr (td_server s) with
           | Done (_, sv) => Some ([], set_server sv s)
           | Fault _ => None
           end
  | A_Expire id outstr => match expire id outstr s with Done (_, s') => Some ([], s') | Fault _ => None end
  | A_Callback n => match run_callback n s with Done (_, s') => Some (callback_events n s, s') | Fault _ => None end
  end.
Fixpoint perform_all (lm : loc) (xs : list action) (s : timed) : option (list file_event * timed) :=
  match xs with
  | [] => Some ([], s)
  | x :: xs =>
      if bool_decide (map_Forall (fun _ evs => (length evs < 100)%nat) (p_in (sv_proc (td_server s))))
      then match perform lm x s with
           | Some (es, s1) => match perform_all lm xs s1 with Some (es', s') => Some (es ++ es', s') | None => None end
           | None => None
           end
      else None
  end.

Lemma perform_sound lm x s es s' : perform lm x s = Some (es, s') -> timed_step (P := single_pthread) lm s es s'.
Proof.
  destruct x as [tid|fd bs|fd addr|id outstr|n]; simpl.
  - destruct (run_thread _ _) as [[[] sv]|] eqn:E; [|done]. intros [= <- <-]. by apply (timed_thread (P := single_pthread)).
  - intros [= <- <-]. apply timed_arrive.
  - case_decide; [done|]. destruct (accept_and_register _ _ _ _) as [[b sv]|] eqn:E; [|done]. intros [= <- <-]. by eapply timed_accept.
  - destruct (expire _ _ _) as [[n s1]|] eqn:E; [|done]. intros [= <- <-]. by eapply timed_expire.
  - destruct (run_callback _ _) as [[[] s1]|] eqn:E; [|done]. intros [= <- <-]. by apply timed_callback.
Qed.
Lemma perform_all_sound lm s0 xs : forall es0 s es s',
  timed_run (P := single_pthread) lm s0 es0 s -> perform_all lm xs s = Some (es, s') -> timed_run (P := single_pthread) lm s0 (es0 ++ es) s'.
Proof.
  induction xs as [|x xs IH]; intros es0 s es s' Hr; simpl; [intros [= <- <-]; by rewrite app_nil_r|].
  case_bool_decide as Hin; [|done]. destruct (perform lm x s) as [[es1 s1]|] eqn:E; [|done].
  destruct (perform_all lm xs s1) as [[es2 s2]|] eqn:E2; [|done]. intros [= <- <-]. rewrite app_assoc. eapply IH; [|exact E2].
  eapply timed_snoc; [exact Hr| |exact (perform_sound _ _ _ _ _ E)]. intros fd. unfold in_of.
  destruct (p_in (sv_proc (td_server s)) !! fd) as [evs|] eqn:Ei; simpl; [|vm_compute; done].
  specialize (Hin _ _ Ei). simpl in Hin. unfold zlen. lia.
Qed.

(** A timestamp makes the file; a line is received while the next callback has the mutex. *)
Definition sample_schedule : list action :=
  [A_Expire 7 (str "now"); A_Callback 3; A_Callback 3; A_Callback 3; A_Callback 3; A_Callback 3;
   A_Accept 4 (str "peer"); A_Thread 200; A_Thread 200; A_Arrive 4 (str "hi" ++ [NL]); A_Expire 7 (str "then"); A_Callback 4;
   A_Thread 200; A_Thread 200; A_Callback 4; A_Callback 4; A_Callback 4; A_Callback 4;
   A_Thread 200; A_Thread 200; A_Thread 200; A_Thread 200].
Definition sample_created : timed :=
  match timed_manager_create (str "log") started with Done (_, s) => s | Fault _ => started end.
Definition sample_events : list file_event := [FE_Stamp (str "now"); FE_Stamp (str "then"); FE_Line 4 (str "hi")].

Definition sample_end : timed :=
  match perform_all 2 sample_schedule sample_created with Some (_, s) => s | None => started end.
Lemma sample_performed : perform_all 2 sample_schedule sample_created = Some (sample_events, sample_end).
Proof. vm_compute. reflexivity. Qed.

(** The line is over the beginning of the first timestamp, and the client gets what is left behind it. *)
Lemma timed_server_refines_witness :
  let rest := str "estamp: now" ++ [NL] ++ str "timestamp: then" ++ [NL] in
  shows_file 2 [] sample_events sample_end /\
  file_after [] sample_events = str "hi" ++ [NL] ++ rest /\ file_answers 4 [] sample_events = rest.
Proof.
  split; [|split; vm_compute; reflexivity].
  apply (timed_server_refines sample_disk sample_libc sample_sockets buffered_stdio single_pthread sample_timers
           buffered_stdio_laws sample_libc_laws single_pthread_laws (str "log") None started 2 sample_created).
  - apply sample_malloc_succeeds.
  - apply sample_net_reliable.
  - reflexivity.
  - vm_compute. reflexivity.
  - reflexivity.
  - reflexivity.
  - reflexivity.
  - reflexivity.
  - reflexivity.
  - vm_compute. reflexivity.
  - exact (perform_all_sound 2 sample_created sample_schedule [] sample_created _ _ (timed_nil 2 sample_created) sample_performed).
Defined.
