(* ===== verification/TcpServer.v ===== *)
(** The listening socket ([server/src/tcp_server.c]).

    [NetSetup] is what the system decides: the addresses for a port, whether a socket
    can be made, configured and bound, and the clients that come. An accepted address
    is written to the 16 bytes of a [struct sockaddr] on the stack, cut off there. *)

From S2P Require Import Prelude CMonad KHeap Libc DeviceSpec FileDev Process TcpConnection TcpReceive TcpSend.
Local Open Scope Z_scope.
Local Open Scope cmonad_scope.

(** [struct addrinfo]: what [socket] and [bind] are given. *)
Record addrinfo := AddrInfo { ai_family : Z; ai_socktype : Z; ai_protocol : Z; ai_addr : bytes }.

Definition AF_UNSPEC : Z := 0.
Definition AF_INET : Z := 2.
Definition SOCK_STREAM : Z := 1.
Definition AI_PASSIVE : Z := 1.
Definition sizeof_sockaddr : nat := 16.

Class NetSetup := {
  (** [getaddrinfo(NULL, port, {family, socktype, flags})]: the list, or an error. *)
  net_getaddrinfo : bytes -> Z -> Z -> Z -> option (list addrinfo);
  (** [socket]: a descriptor that is not open, or -1. *)
  net_socket : gset Z -> addrinfo -> option Z;
  net_setsockopt : gset Z -> Z -> bool;
  net_bind : gset Z -> Z -> addrinfo -> bool;
  net_listen : gset Z -> Z -> Z -> bool;
  (** [accept]: a new descriptor and the client's address, as many bytes as it has. *)
  net_accept : gset Z -> Z -> option (Z * bytes);
  (** [inet_ntop(family, addr)]: the text for these address bytes. *)
  net_ntop : Z -> bytes -> bytes;
}.

Class NetSetupLaws (NS : NetSetup) : Prop := {
  net_socket_fresh fds ai fd : net_socket fds ai = Some fd -> 0 <= fd /\ fd ∉ fds;
  net_accept_fresh fds lfd fd addr : net_accept fds lfd = Some (fd, addr) -> 0 <= fd /\ fd ∉ fds;
}.

(** [struct tcp_server_t] *)
Record tcp_server_t := TcpServerT { ts_socketfd : Z; ts_port : bytes }.

(** The process, the server objects, and the number of address lists not freed. *)
Record listener `{FD : FileDev} := Listener {
  ls_proc : proc;
  ls_servers : gmap loc tcp_server_t;
  ls_addrinfos : nat;
}.

Section tcp_server.
Context `{FD : FileDev} {L : Libc} {NS : NetSetup}.

Definition set_ls_proc (p : proc) (s : listener) : listener := Listener _ p (ls_servers s) (ls_addrinfos s).
Definition set_ls_servers (m : gmap loc tcp_server_t) (s : listener) : listener :=
  Listener _ (ls_proc s) m (ls_addrinfos s).
Definition set_ls_addrinfos (n : nat) (s : listener) : listener := Listener _ (ls_proc s) (ls_servers s) n.

Definition in_proc {A} (m : M proc A) : M listener A := fun s =>
  match m (ls_proc s) with
  | Done (a, p) => Done (a, set_ls_proc p s)
  | Fault f => Fault f
  end.
Definition ls_fds (s : listener) : gset Z := p_fds (ls_proc s).

(** *** System calls: -1 on failure, and on a descriptor that is not open *)

Definition do_socket (ai : addrinfo) : M listener Z :=
  let! s := mget in
  match net_socket (ls_fds s) ai with
  | Some fd => in_proc (mmodify (fun p => set_fds ({[fd]} ∪ p_fds p) p));; ret fd
  | None => ret (-1)
  end.
Definition on_fd (fd : Z) (ok : gset Z -> bool) : M listener Z :=
  mgets (fun s => if bool_decide (fd ∈ ls_fds s) && ok (ls_fds s) then 0 else -1).
Definition do_setsockopt (fd : Z) : M listener Z := on_fd fd (fun fds => net_setsockopt fds fd).
Definition do_bind (fd : Z) (ai : addrinfo) : M listener Z := on_fd fd (fun fds => net_bind fds fd ai).
Definition do_listen (fd backlog : Z) : M listener Z := on_fd fd (fun fds => net_listen fds fd backlog).
Definition do_accept (fd : Z) : M listener (Z * bytes) :=
  let! s := mget in
  match (if bool_decide (fd ∈ ls_fds s) then net_accept (ls_fds s) fd else None) with
  | Some (fd', addr) => in_proc (mmodify (fun p => set_fds ({[fd']} ∪ p_fds p) p));; ret (fd', addr)
  | None => ret (-1, [])
  end.

(** *** The server's functions *)

Definition get_server (p : ptr) : M listener tcp_server_t :=
  match p with
  | PLoc l => let! s := mget in mopt BadAccess (ls_servers s !! l)
  | _ => mfault BadAccess
  end.
(** The allocation is not checked: a NULL is dereferenced. *)
Definition malloc_server (v : tcp_server_t) : M listener ptr :=
  let! s := mget in
  match malloc (ls_servers s) 16 with
  | Some l => mput (set_ls_servers (<[l := v]> (ls_servers s)) s);; ret (PLoc l)
  | None => mfault BadAccess
  end.

(** One round of the loop over the addresses: the server, or NULL for the next address. *)
Definition create_round (port : bytes) (it : addrinfo) : M listener ptr :=
  let! socketfd := do_socket it in
  let! r := do_setsockopt socketfd in
  if r =? -1 then in_proc (do_close socketfd);; ret PNull
  else if socketfd =? -1 then ret PNull
  else
    let! r := do_bind socketfd it in
    if r =? -1 then in_proc (do_close socketfd);; ret PNull
    else malloc_server (TcpServerT socketfd port).

Fixpoint create_loop (port : bytes) (its : list addrinfo) : M listener ptr :=
  match its with
  | [] => ret PNull
  | it :: its =>
      let! server := create_round port it in
      if is_null server then create_loop port its else ret server
  end.

Definition tcp_server_create (port : bytes) : M listener ptr :=
  match net_getaddrinfo port AF_UNSPEC SOCK_STREAM AI_PASSIVE with
  | Some res =>
      mmodify (fun s => set_ls_addrinfos (S (ls_addrinfos s)) s);;
      let! server := create_loop port res in
      mmodify (fun s => set_ls_addrinfos (pred (ls_addrinfos s)) s);;
      ret server
  | None => ret PNull
  end.

Definition tcp_server_destroy (server : ptr) : M listener unit :=
  match server with
  | PNull => ret tt
  | PZero => mfault BadFree
  | PLoc l =>
      let! v := get_server server in
      in_proc (do_close (ts_socketfd v));;
      mmodify (fun s => set_ls_servers (delete l (ls_servers s)) s)
  end.

Definition tcp_server_listen_for_connections (server : ptr) : M listener bool :=
  let! v := get_server server in
  let! r := do_listen (ts_socketfd v) 30 in
  ret (negb (r =? -1)).

(** The family in the first two bytes, and the [n] address bytes that [inet_ntop]
    reads through the pointer of [get_in_addr]: inside the structure, or a fault. *)
Definition sa_family (sa : bytes) : Z :=
  match sa with a :: b :: _ => char_code a + 256 * char_code b | _ => 0 end.
Definition get_in_addr (sa : bytes) : outcome bytes :=
  let '(off, n) := if sa_family sa =? AF_INET then (4, 4) else (8, 16) in
  if in_range off n sa then Done (take (Z.to_nat n) (drop (Z.to_nat off) sa)) else Fault BadAccess.

Definition tcp_server_accept_connection (server : ptr) : M listener ptr :=
  let! v := get_server server in
  let! r := do_accept (ts_socketfd v) in
  let '(socket, addr) := r in
  if socket =? -1 then ret PNull
  else
    let client_address := take sizeof_sockaddr addr in
    let! in_addr := mlift (get_in_addr client_address) in
    let s := net_ntop (sa_family client_address) in_addr in
    let! connection := in_proc (tcp_connection_create socket s) in
    if is_null connection then in_proc (do_close socket);; ret PNull
    else ret connection.
End tcp_server.

(** ** Lemmas *)

Section lemmas.
Context `{FD : FileDev} {L : Libc} {NS : NetSetup} {LL : LibcLaws L} {NSL : NetSetupLaws NS}.

Lemma wp_in_proc {A} (m : M proc A) Q s :
  wp m (fun a p => Q a (set_ls_proc p s)) (ls_proc s) -> wp (in_proc m) Q s.
Proof. unfold wp, in_proc. by destruct (m (ls_proc s)) as [[]|]. Qed.

(** The socket for this address can be made, configured and bound. *)
Definition usable (fds : gset Z) (it : addrinfo) : option Z :=
  match net_socket fds it with
  | Some fd => let fds := {[fd]} ∪ fds in
               if net_setsockopt fds fd && net_bind fds fd it then Some fd else None
  | None => None
  end.

Definition with_fd (fd : Z) (s : listener) : listener :=
  set_ls_proc (set_fds ({[fd]} ∪ ls_fds s) (ls_proc s)) s.

Lemma set_fds_back fd p : (fd ∉ p_fds p) -> set_fds (({[fd]} ∪ p_fds p) ∖ {[fd]}) p = p.
Proof.
  intros H. assert (({[fd]} ∪ p_fds p) ∖ {[fd]} = p_fds p) as E by set_solver.
  unfold set_fds. rewrite E. by destruct p.
Qed.

Lemma close_minus_1 s : (-1 ∉ ls_fds s) -> set_ls_proc (set_fds (ls_fds s ∖ {[-1]}) (ls_proc s)) s = s.
Proof.
  intros H. assert (ls_fds s ∖ {[-1]} = p_fds (ls_proc s)) as -> by (unfold ls_fds in *; set_solver).
  by destruct s as [[] ? ?].
Qed.

Lemma on_fd_wp fd ok (Q : Z -> listener -> Prop) s :
  Q (if bool_decide (fd ∈ ls_fds s) && ok (ls_fds s) then 0 else -1) s -> wp (on_fd fd ok) Q s.
Proof. done. Qed.

(** One address: the socket stays only if it could be bound. *)
Lemma create_round_wp port it s (Q : ptr -> listener -> Prop) :
  malloc_succeeds L -> (-1 ∉ ls_fds s) ->
  (usable (ls_fds s) it = None -> Q PNull s) ->
  (forall fd l, usable (ls_fds s) it = Some fd -> ls_servers s !! l = None ->
     Q (PLoc l) (set_ls_servers (<[l := TcpServerT fd port]> (ls_servers s)) (with_fd fd s))) ->
  wp (create_round port it) Q s.
Proof.
  intros Hmem Hneg Hnone Hsome. unfold create_round, do_socket. wp_steps. unfold usable in *.
  destruct (net_socket (ls_fds s) it) as [fd|] eqn:Es.
  - destruct (net_socket_fresh _ _ _ Es) as [Hfd Hfresh]. wp_steps. apply wp_in_proc. wp_steps.
    change (set_ls_proc _ s) with (with_fd fd s). unfold do_setsockopt. apply on_fd_wp.
    change (ls_fds (with_fd fd s)) with ({[fd]} ∪ ls_fds s). rewrite bool_decide_true by set_solver. simpl.
    assert (set_ls_proc (set_fds (p_fds (ls_proc (with_fd fd s)) ∖ {[fd]}) (ls_proc (with_fd fd s))) (with_fd fd s) = s) as Hback.
    { unfold with_fd. simpl. unfold set_fds at 1. simpl. pose proof (set_fds_back fd (ls_proc s) Hfresh) as E.
      unfold set_fds in E. unfold ls_fds. rewrite E. by destruct s. }
    destruct (net_setsockopt ({[fd]} ∪ ls_fds s) fd) eqn:E1; simpl in *.
    + rewrite (proj2 (Z.eqb_neq fd (-1))) by lia. wp_steps. unfold do_bind. apply on_fd_wp.
      change (ls_fds (with_fd fd s)) with ({[fd]} ∪ ls_fds s). rewrite bool_decide_true by set_solver. simpl.
      destruct (net_bind ({[fd]} ∪ ls_fds s) fd it) eqn:E2; simpl in *.
      * unfold malloc_server. wp_steps. destruct (Hmem _ (ls_servers s) 16 ltac:(lia)) as [l Hl]. simpl ls_servers.
        rewrite Hl. wp_steps. apply Hsome; [done|]. by eapply malloc_fresh.
      * wp_steps. apply wp_in_proc. unfold do_close. wp_steps.
        exact (eq_ind _ (Q PNull) (Hnone eq_refl) _ (eq_sym Hback)).
    + wp_steps. apply wp_in_proc. unfold do_close. wp_steps.
      exact (eq_ind _ (Q PNull) (Hnone eq_refl) _ (eq_sym Hback)).
  - wp_steps. unfold do_setsockopt. apply on_fd_wp. rewrite bool_decide_false by done. simpl. wp_steps.
    apply wp_in_proc. unfold do_close. wp_steps. change (p_fds (ls_proc s)) with (ls_fds s).
    rewrite close_minus_1 by done. by apply Hnone.
Qed.

(** The first usable address. *)
Fixpoint first_usable (fds : gset Z) (its : list addrinfo) : option Z :=
  match its with
  | [] => None
  | it :: its => match usable fds it with Some fd => Some fd | None => first_usable fds its end
  end.

Lemma create_loop_wp port its : forall s (Q : ptr -> listener -> Prop),
  malloc_succeeds L -> (-1 ∉ ls_fds s) ->
  (first_usable (ls_fds s) its = None -> Q PNull s) ->
  (forall fd l, first_usable (ls_fds s) its = Some fd -> ls_servers s !! l = None ->
     Q (PLoc l) (set_ls_servers (<[l := TcpServerT fd port]> (ls_servers s)) (with_fd fd s))) ->
  wp (create_loop port its) Q s.
Proof.
  induction its as [|it its IH]; intros s Q Hmem Hneg Hnone Hsome; simpl in *; [wp_steps; by apply Hnone|].
  wp_steps. eapply create_round_wp; [done|done| |].
  - intros E. change (is_null PNull) with true. cbn iota. rewrite E in *. by apply IH.
  - intros fd l E Hl. rewrite is_null_loc. wp_steps. rewrite E in *. by apply Hsome.
Qed.

Lemma first_usable_fresh fds its fd : first_usable fds its = Some fd -> fd ∉ fds.
Proof.
  induction its as [|it its IH]; simpl; [done|]. unfold usable. destruct (net_socket fds it) as [fd'|] eqn:E; [|done].
  destruct (_ && _); [|done]. intros [= <-]. apply (net_socket_fresh _ _ _ E).
Qed.

(** The whole of [tcp_server_create]. *)
Lemma tcp_server_create_wp port s (Q : ptr -> listener -> Prop) :
  malloc_succeeds L -> (-1 ∉ ls_fds s) -> Q PNull s ->
  (forall fd l, (fd ∉ ls_fds s) -> ls_servers s !! l = None ->
     Q (PLoc l) (set_ls_servers (<[l := TcpServerT fd port]> (ls_servers s)) (with_fd fd s))) ->
  wp (tcp_server_create port) Q s.
Proof.
  intros Hmem Hneg Hnone Hsome. unfold tcp_server_create.
  destruct (net_getaddrinfo port AF_UNSPEC SOCK_STREAM AI_PASSIVE) as [its|]; wp_steps; [|done].
  apply create_loop_wp; [done|done|intros _|intros fd l Hfd Hl]; wp_steps; [by destruct s|].
  specialize (Hsome fd l (first_usable_fresh _ _ _ Hfd) Hl). by destruct s.
Qed.
End lemmas.
