(* ===== verification/TcpServerProperties.v ===== *)
(** The listening socket's theorems. *)

From S2P Require Import Prelude CMonad KHeap Libc DeviceSpec FileDev Process TcpConnection TcpReceive TcpSend TcpProperties TcpServer.
Local Open Scope Z_scope.
Local Open Scope cmonad_scope.

(** C31: creating a server binds the first address, in the order of [getaddrinfo], whose
    socket can be made, configured and bound, and leaves exactly that socket open, every
    other one closed, and the address list freed; if there is none, or [getaddrinfo]
    fails, the result is NULL and nothing is open or allocated that was not before. *)
Theorem tcp_server_create_correct (FD : FileDev) (L : Libc) (NS : NetSetup) (LL : LibcLaws L)
    (NSL : NetSetupLaws NS) s port :
  malloc_succeeds L -> (-1 ∉ ls_fds s) ->
  match net_getaddrinfo port AF_UNSPEC SOCK_STREAM AI_PASSIVE with
  | None => tcp_server_create port s = Done (PNull, s)
  | Some its =>
      match first_usable (ls_fds s) its with
      | None => tcp_server_create port s = Done (PNull, s)
      | Some fd => exists l, ls_servers s !! l = None /\
          tcp_server_create port s =
          Done (PLoc l, set_ls_servers (<[l := TcpServerT fd port]> (ls_servers s)) (with_fd fd s))
      end
  end.
Proof.
  intros Hmem Hneg. unfold tcp_server_create.
  destruct (net_getaddrinfo port AF_UNSPEC SOCK_STREAM AI_PASSIVE) as [its|]; [|done].
  set (s1 := set_ls_addrinfos (S (ls_addrinfos s)) s).
  assert (wp (create_loop port its) (fun p s2 =>
            match first_usable (ls_fds s) its with
            | None => p = PNull /\ s2 = s1
            | Some fd => exists l, ls_servers s !! l = None /\ p = PLoc l /\
                s2 = set_ls_servers (<[l := TcpServerT fd port]> (ls_servers s)) (with_fd fd s1)
            end) s1) as Hwp.
  { apply create_loop_wp; [done|done|..]; change (ls_fds s1) with (ls_fds s).
    - by intros ->.
    - intros fd l -> Hl. by exists l. }
  destruct (first_usable (ls_fds s) its) as [fd|];
    [assert (exists l, ls_servers s !! l = None /\ wp (create_loop port its) (fun p s2 => p = PLoc l /\
       s2 = set_ls_servers (<[l := TcpServerT fd port]> (ls_servers s)) (with_fd fd s1)) s1) as (l & Hl & Hwp')|].
  - apply wp_Done in Hwp as (p & s2 & Hrun & l & Hl & -> & ->). exists l. split; [done|]. unfold wp. by rewrite Hrun.
  - exists l. split; [done|]. apply wp_eq. wp_steps. eapply wp_mono; [exact Hwp'|].
    intros p s2 [-> ->]. wp_steps. split; [done|]. by destruct s.
  - apply wp_eq. wp_steps. eapply wp_mono; [exact Hwp|]. intros p s2 [-> ->]. wp_steps. split; [done|]. by destruct s.
Qed.

(** An IPv4 client, or none: nothing has changed, or there is a connection on a new socket. *)
Lemma accept_ipv4_wp (FD : FileDev) (L : Libc) (NS : NetSetup) (LL : LibcLaws L) (NSL : NetSetupLaws NS)
    s l v (Q : ptr -> listener -> Prop) :
  ls_servers s !! l = Some v -> ts_socketfd v ∈ ls_fds s ->
  (forall fd addr, net_accept (ls_fds s) (ts_socketfd v) = Some (fd, addr) -> sa_family addr = AF_INET /\ zlen addr = 16) ->
  Q PNull s ->
  (forall fd addr lc la, net_accept (ls_fds s) (ts_socketfd v) = Some (fd, addr) -> (fd ∉ ls_fds s) ->
     p_conns (ls_proc s) !! lc = None -> p_heap (ls_proc s) !! la = None ->
     Q (PLoc lc) (set_ls_proc (set_conns (<[lc := TcpConnection fd (PLoc la) true]> (p_conns (ls_proc s)))
        (set_heap (<[la := net_ntop AF_INET (take 4 (drop 4 addr)) ++ [NUL]]> (p_heap (ls_proc s)))
           (set_fds ({[fd]} ∪ ls_fds s) (ls_proc s)))) s)) ->
  wp (tcp_server_accept_connection (PLoc l)) Q s.
Proof.
  intros Hl Hfd Hfam Hnull HQ. unfold tcp_server_accept_connection, get_server, do_accept. wp_steps.
  eapply wp_opt; [done|]. wp_steps. rewrite bool_decide_true by done.
  destruct (net_accept (ls_fds s) (ts_socketfd v)) as [[fd addr]|] eqn:Ea; [|by wp_steps].
  destruct (net_accept_fresh _ _ _ _ Ea) as [Hpos Hfresh]. destruct (Hfam _ _ eq_refl) as [Hf Hlen].
  wp_steps. apply wp_in_proc. wp_steps. rewrite (proj2 (Z.eqb_neq fd (-1))) by lia. wp_steps.
  assert (take sizeof_sockaddr addr = addr) as -> by (apply firstn_all2; unfold zlen, sizeof_sockaddr in *; lia).
  rewrite Hf. eapply wp_lift.
  { unfold get_in_addr. rewrite Hf. simpl. by rewrite (proj2 (in_range_true 4 4 addr)) by lia. }
  wp_steps. apply wp_in_proc. apply create_any_wp.
  - change (is_null PNull) with true. cbn iota. wp_steps. apply wp_in_proc. unfold do_close. wp_steps.
    unfold set_ls_proc. simpl. pose proof (set_fds_back fd (ls_proc s) Hfresh) as E.
    unfold set_fds in *. simpl in *. rewrite E. by destruct s.
  - intros lc la Hlc Hla. rewrite is_null_loc. wp_steps. by apply (HQ fd addr lc la).
Qed.

Lemma accept_ipv4_ok (FD : FileDev) (L : Libc) (NS : NetSetup) (LL : LibcLaws L) (NSL : NetSetupLaws NS)
    s l v :
  ls_servers s !! l = Some v -> ts_socketfd v ∈ ls_fds s ->
  match net_accept (ls_fds s) (ts_socketfd v) with
  | None => tcp_server_accept_connection (PLoc l) s = Done (PNull, s)
  | Some (fd, addr) =>
      sa_family addr = AF_INET -> zlen addr = 16 ->
      exists p s', tcp_server_accept_connection (PLoc l) s = Done (p, s') /\
        ((p = PNull /\ s' = s) \/
         exists lc la, p = PLoc lc /\ p_conns (ls_proc s) !! lc = None /\ p_heap (ls_proc s) !! la = None /\
           p_conns (ls_proc s') = <[lc := TcpConnection fd (PLoc la) true]> (p_conns (ls_proc s)) /\
           p_heap (ls_proc s') = <[la := net_ntop AF_INET (take 4 (drop 4 addr)) ++ [NUL]]> (p_heap (ls_proc s)) /\
           ls_fds s' = {[fd]} ∪ ls_fds s)
  end.
Proof.
  intros Hl Hfd. destruct (net_accept (ls_fds s) (ts_socketfd v)) as [[fd addr]|] eqn:Ea.
  - intros Hfam Hlen. apply (wp_Done _ (fun p s' => (p = PNull /\ s' = s) \/ _)).
    eapply (accept_ipv4_wp FD L NS LL NSL); [done|done|by intros ? ?; rewrite Ea; intros [= <- <-]|by left|].
    intros fd' addr' lc la E Hfresh Hlc Hla. rewrite Ea in E. injection E as <- <-. right. exists lc, la. by split_and!.
  - apply wp_eq. eapply (accept_ipv4_wp FD L NS LL NSL); [done|done|by intros ? ?; rewrite Ea|done|]. intros fd addr lc la E. by rewrite Ea in E.
Qed.

(** An IPv6 client. *)
Lemma accept_ipv6_fault (FD : FileDev) (L : Libc) (NS : NetSetup) s l v fd addr :
  ls_servers s !! l = Some v -> ts_socketfd v ∈ ls_fds s ->
  net_accept (ls_fds s) (ts_socketfd v) = Some (fd, addr) -> 0 <= fd ->
  sa_family addr <> AF_INET -> zlen addr = 28 ->
  tcp_server_accept_connection (PLoc l) s = Fault BadAccess.
Proof.
  intros Hl Hfd Ha Hpos Hfam Hlen.
  unfold tcp_server_accept_connection, get_server, do_accept, bind, mget, mopt, in_proc, mmodify, ret, mlift.
  rewrite Hl. simpl. rewrite bool_decide_true, Ha by done. simpl. rewrite (proj2 (Z.eqb_neq fd (-1))) by lia.
  assert (sa_family (take sizeof_sockaddr addr) = sa_family addr) as Hf.
  { unfold zlen in Hlen. destruct addr as [|a0 [|a1 addr]]; simpl in Hlen; [lia|lia|done]. }
  unfold get_in_addr. rewrite Hf, (proj2 (Z.eqb_neq _ _)) by done.
  assert (in_range 8 16 (take sizeof_sockaddr addr) = false) as ->; [|done].
  apply not_true_is_false. intros H%in_range_true. unfold zlen, sizeof_sockaddr in *. rewrite length_take in H. lia.
Qed.

(** C32: accepting an IPv4 client gives an open connection on the new socket with the
    client's address as text; when no client can be accepted, or memory for the
    connection is lacking, the result is NULL and every descriptor and object is as
    before: the accepted socket is closed again. But the address of an IPv6 client is read past
    the end of the [struct sockaddr] it was accepted into: sixteen bytes from offset 8
    of a sixteen-byte object. *)
Theorem accept_connection_correct (FD : FileDev) (L : Libc) (NS : NetSetup) (LL : LibcLaws L) (NSL : NetSetupLaws NS)
    s l v :
  ls_servers s !! l = Some v -> ts_socketfd v ∈ ls_fds s ->
  match net_accept (ls_fds s) (ts_socketfd v) with
  | None => tcp_server_accept_connection (PLoc l) s = Done (PNull, s)
  | Some (fd, addr) =>
      (sa_family addr = AF_INET -> zlen addr = 16 ->
       exists p s', tcp_server_accept_connection (PLoc l) s = Done (p, s') /\
        ((p = PNull /\ s' = s) \/
         exists lc la, p = PLoc lc /\ p_conns (ls_proc s) !! lc = None /\ p_heap (ls_proc s) !! la = None /\
           p_conns (ls_proc s') = <[lc := TcpConnection fd (PLoc la) true]> (p_conns (ls_proc s)) /\
           p_heap (ls_proc s') = <[la := net_ntop AF_INET (take 4 (drop 4 addr)) ++ [NUL]]> (p_heap (ls_proc s)) /\
           ls_fds s' = {[fd]} ∪ ls_fds s)) /\
      (sa_family addr <> AF_INET -> zlen addr = 28 -> tcp_server_accept_connection (PLoc l) s = Fault BadAccess)
  end.
Proof.
  intros Hl Hfd. pose proof (accept_ipv4_ok FD L NS LL NSL s l v Hl Hfd) as H4.
  destruct (net_accept (ls_fds s) (ts_socketfd v)) as [[fd addr]|] eqn:Ea; [|exact H4].
  split; [exact H4|]. destruct (net_accept_fresh _ _ _ _ Ea) as [Hpos _]. intros. by eapply accept_ipv6_fault.
Qed.

(** ** Witnesses: a host with an IPv6 address that is taken and an IPv4 address *)

Definition addr4 : bytes :=
  [ascii_of_nat 2; NUL; NUL; NUL; ascii_of_nat 127; NUL; NUL; ascii_of_nat 1] ++ replicate 8 NUL.
Definition addr6 : bytes := [ascii_of_nat 10; NUL] ++ replicate 26 NUL.

Definition sample_net (client : bytes) : NetSetup := {|
  net_getaddrinfo port fam ty fl := Some [AddrInfo 10 1 6 addr6; AddrInfo 2 1 6 addr4];
  net_socket fds ai := if decide (7 ∈ fds) then None else Some 7;
  net_setsockopt fds fd := true;
  net_bind fds fd ai := ai_family ai =? 2;
  net_listen fds fd n := true;
  net_accept fds fd := if decide (8 ∉ fds) then Some (8, client) else if decide (9 ∉ fds) then Some (9, client) else None;
  net_ntop fam bs := sample_addr;
|}.

Lemma sample_net_laws client : NetSetupLaws (sample_net client).
Proof.
  split; simpl.
  - intros fds ai fd. case_decide; [done|]. intros [= <-]. split; [lia|done].
  - intros fds lfd fd addr. case_decide; [|case_decide; [|done]]; intros [= <- _]; (split; [lia|done]).
Qed.

Definition sample_listener : listener :=
  Listener spec_dev (sample_proc []) {[1%positive := TcpServerT 4 (str "9000")]} 0.

Lemma tcp_server_create_correct_witness :
  exists l, ls_servers sample_listener !! l = None /\
    tcp_server_create (NS := sample_net addr4) (str "9000") sample_listener =
    Done (PLoc l, set_ls_servers (<[l := TcpServerT 7 (str "9000")]> (ls_servers sample_listener)) (with_fd 7 sample_listener)).
Proof.
  apply (tcp_server_create_correct spec_dev sample_libc (sample_net addr4) sample_libc_laws (sample_net_laws addr4)
           sample_listener (str "9000")); [apply sample_malloc_succeeds|].
  unfold ls_fds. simpl. set_solver.
Defined.

Lemma accept_connection_correct_witness :
  (exists p s', tcp_server_accept_connection (NS := sample_net addr4) (PLoc 1) sample_listener = Done (p, s') /\
    ((p = PNull /\ s' = sample_listener) \/
     exists lc la, p = PLoc lc /\ p_conns (sample_proc []) !! lc = None /\ p_heap (sample_proc []) !! la = None /\
       p_conns (ls_proc s') = <[lc := TcpConnection 8 (PLoc la) true]> (p_conns (sample_proc [])) /\
       p_heap (ls_proc s') = <[la := sample_addr ++ [NUL]]> (p_heap (sample_proc [])) /\
       ls_fds s' = {[8]} ∪ ls_fds sample_listener)) /\
  tcp_server_accept_connection (NS := sample_net addr6) (PLoc 1) sample_listener = Fault BadAccess.
Proof.
  assert (4 ∈ ls_fds sample_listener) as Hfd by (unfold ls_fds; simpl; set_solver).
  split.
  - exact (proj1 (accept_connection_correct spec_dev sample_libc (sample_net addr4) sample_libc_laws (sample_net_laws addr4)
           sample_listener 1 (TcpServerT 4 (str "9000")) eq_refl Hfd) eq_refl eq_refl).
  - refine (proj2 (accept_connection_correct spec_dev sample_libc (sample_net addr6) sample_libc_laws (sample_net_laws addr6)
           sample_listener 1 (TcpServerT 4 (str "9000")) eq_refl Hfd) _ eq_refl). vm_compute. congruence.
Defined.
