(* ===== verification/ServerMain.v ===== *)
(** The server's main program ([server/src/main.c]).

    [main_start] is what [main] does before its loop. The loop and the shutdown are the
    steps of a machine, [main_step], because signals arrive and threads run between them:
    [main_trans] is the whole process, with the signal handler, the steps of the threads,
    waiting clients and the bytes they send; its transitions carry the events of [ServerEvents]. A signal interrupts [accept] only while the
    process is inside the call. *)

From S2P Require Import Prelude CMonad KHeap Libc DeviceSpec FileDev Process TcpConnection SList ConnectionManager ServerEvents TcpServer.
Local Open Scope Z_scope.
Local Open Scope cmonad_scope.

Definition SIGINT : Z := 2.
Definition SIGTERM : Z := 15.
(** [TARGET_FILENAME], with [USE_AESD_CHAR_DEVICE]. *)
Definition TARGET_FILENAME : bytes := str "/dev/aesdchar".

(** What the system decides for the main program; [None] is an error of [fork]. *)
Class Host := {
  host_sigaction : Z -> bool;
  host_fork : option Z;
  host_setsid : bool;
  host_chdir : bool;
  (** There is room for another descriptor. *)
  host_opens : gset Z -> bool;
}.

(** The process with its global variables, installed handlers and waiting clients. *)
Record host `{FD : FileDev} := HostState {
  h_server : server;
  h_servers : gmap loc tcp_server_t;
  h_addrinfos : nat;
  exit_program : bool;
  g_connection_manager : ptr;
  h_handlers : gset Z;
  h_log : bool;
  h_clients : nat;
}.

Inductive main_pc :=
  | M_Check                   (** [while (!exit_program)] *)
  | M_CallAccept              (** about to call [accept] *)
  | M_InAccept                (** inside [accept] *)
  | M_Register (connection : ptr)
  | M_Shutdown
  | M_Destroy (pc : destroy_pc)   (** inside [connection_manager_destroy], and after it *)
  | M_Exited.

Section main.
Context `{FD : FileDev} {L : Libc} {N : Sockets} {St : Stdio} {P : Pthreads} {NS : NetSetup} {H : Host}.

Definition set_h_server (v : server) (s : host) : host :=
  HostState _ v (h_servers s) (h_addrinfos s) (exit_program s) (g_connection_manager s) (h_handlers s) (h_log s) (h_clients s).
Definition set_exit (b : bool) (s : host) : host :=
  HostState _ (h_server s) (h_servers s) (h_addrinfos s) b (g_connection_manager s) (h_handlers s) (h_log s) (h_clients s).
Definition set_manager_ptr (p : ptr) (s : host) : host :=
  HostState _ (h_server s) (h_servers s) (h_addrinfos s) (exit_program s) p (h_handlers s) (h_log s) (h_clients s).
Definition set_handlers (g : gset Z) (s : host) : host :=
  HostState _ (h_server s) (h_servers s) (h_addrinfos s) (exit_program s) (g_connection_manager s) g (h_log s) (h_clients s).
Definition set_log (b : bool) (s : host) : host :=
  HostState _ (h_server s) (h_servers s) (h_addrinfos s) (exit_program s) (g_connection_manager s) (h_handlers s) b (h_clients s).
Definition set_clients (n : nat) (s : host) : host :=
  HostState _ (h_server s) (h_servers s) (h_addrinfos s) (exit_program s) (g_connection_manager s) (h_handlers s) (h_log s) n.

Definition in_server {A} (m : M server A) : M host A := fun s =>
  match m (h_server s) with
  | Done (a, v) => Done (a, set_h_server v s)
  | Fault f => Fault f
  end.
Definition in_listener {A} (m : M listener A) : M host A := fun s =>
  match m (Listener _ (sv_proc (h_server s)) (h_servers s) (h_addrinfos s)) with
  | Done (a, v) =>
      Done (a, HostState _ (set_proc (ls_proc v) (h_server s)) (ls_servers v) (ls_addrinfos v) (exit_program s)
                 (g_connection_manager s) (h_handlers s) (h_log s) (h_clients s))
  | Fault f => Fault f
  end.

(** *** Before the loop *)

Definition exit_process {A} : M host A := mfault Exited.

Definition do_sigaction (sig : Z) : M host bool :=
  if host_sigaction sig then mmodify (fun s => set_handlers ({[sig]} ∪ h_handlers s) s);; ret true
  else ret false.

Definition setup : M host unit :=
  let! ok := do_sigaction SIGTERM in
  if negb ok then exit_process
  else
    let! ok := do_sigaction SIGINT in
    if negb ok then exit_process else mmodify (set_log true).

(** A new descriptor, the lowest that is free: [open("/dev/null", O_RDWR)] and [dup(oldfd)], or -1. *)
Definition open_fds (s : host) : gset Z := p_fds (sv_proc (h_server s)).
Definition do_open_null : M host Z :=
  let! s := mget in
  if host_opens (open_fds s) then
    in_server (on_proc (mmodify (fun p => set_fds ({[lowest_free (open_fds s)]} ∪ p_fds p) p)));; ret (lowest_free (open_fds s))
  else ret (-1).
Definition do_dup (oldfd : Z) : M host Z :=
  let! s := mget in
  if bool_decide (oldfd ∈ open_fds s) && host_opens (open_fds s) then
    in_server (on_proc (mmodify (fun p => set_fds ({[lowest_free (open_fds s)]} ∪ p_fds p) p)));; ret (lowest_free (open_fds s))
  else ret (-1).

(** The child goes on with the result; the parent exits. The results of the last three calls are not used. *)
Definition daemonize : M host bool :=
  match host_fork with
  | None => exit_process
  | Some pid =>
      if negb (pid =? 0) then exit_process
      else if negb host_setsid then ret false
      else if negb host_chdir then ret false
      else do_open_null;; do_dup 0;; do_dup 0;; ret true
  end.

(** [main] up to the loop: the listening server, or the process exits. *)
Definition main_start (argv : list bytes) : M host ptr :=
  setup;;
  (match argv with
   | [_; a] => if bool_decide (a = str "-d") then daemonize;; ret tt else ret tt
   | _ => ret tt
   end);;
  let! manager := in_server (connection_manager_create TARGET_FILENAME) in
  mmodify (set_manager_ptr manager);;
  if is_null manager then mfault Aborted
  else
    let! server := in_listener (tcp_server_create (str "9000")) in
    if is_null server then exit_process
    else
      let! ok := in_listener (tcp_server_listen_for_connections server) in
      if ok then ret server
      else in_listener (tcp_server_destroy server);; exit_process.

(** *** The loop and the shutdown *)

Definition teardown : M host unit := mmodify (set_log false).

Definition main_step (server : ptr) (pc : main_pc) : M host main_pc :=
  match pc with
  | M_Check => let! s := mget in ret (if exit_program s then M_Shutdown else M_CallAccept)
  | M_CallAccept => ret M_InAccept
  | M_InAccept =>
      let! s := mget in
      match h_clients s with
      | O => mfault Blocked
      | S n =>
          mput (set_clients n s);;
          let! connection := in_listener (tcp_server_accept_connection server) in
          ret (if is_null connection then M_Check else M_Register connection)
      end
  | M_Register connection =>
      let! c := in_server (on_proc (get_conn connection)) in
      let! _ := in_server (on_proc (do_string (c_client_address c))) in
      let! s := mget in
      let! _ := in_server (connection_manager_register_connection (g_connection_manager s) connection) in
      ret M_Check
  | M_Shutdown =>
      in_listener (tcp_server_destroy server);;
      let! s := mget in
      ret (M_Destroy (if is_null (g_connection_manager s) then D_Done else D_Start))
  | M_Destroy D_Done =>
      mmodify (set_manager_ptr PNull);;
      teardown;;
      ret M_Exited
  | M_Destroy pc =>
      let! s := mget in
      let! pc' := in_server (destroy_step (g_connection_manager s) pc) in
      ret (M_Destroy pc')
  | M_Exited => mfault Blocked
  end.

(** [signal_handler] sets the flag; without SA_RESTART it makes a pending [accept] fail, when it is
    the main thread that runs the handler. *)
Definition signal_handler (s : host) : host := set_exit true s.
Definition interrupted (pc : main_pc) : main_pc := match pc with M_InAccept => M_Check | _ => pc end.

Inductive main_trans (server : ptr) : host * main_pc -> trace -> host * main_pc -> Prop :=
  | main_own s pc s' pc' : main_step server pc s = Done (pc', s') -> main_trans server (s, pc) [] (s', pc')
  | main_signal sig s pc : sig ∈ h_handlers s -> main_trans server (s, pc) [] (signal_handler s, interrupted pc)
  | main_signal_elsewhere sig s pc : sig ∈ h_handlers s -> main_trans server (s, pc) [] (signal_handler s, pc)
  | main_client s pc : main_trans server (s, pc) [] (set_clients (S (h_clients s)) s, pc)
  | main_thread tid s s' pc :
      in_server (run_thread tid) s = Done (tt, s') -> main_trans server (s, pc) (line_events tid (h_server s)) (s', pc)
  | main_arrive fd evs s pc :
      main_trans server (s, pc) [SE_Arrive fd evs] (set_h_server (arrive fd evs (h_server s)) s, pc)
  | main_discard fd s pc :
      (fd ∉ open_fds s) -> main_trans server (s, pc) [SE_Discard fd] (set_h_server (discard fd (h_server s)) s, pc).
End main.
