(* ===== verification/ServerLife.v ===== *)
(** The whole process: main, its threads and its clients, from the start to the exit.

    [tight] says that everything the process has is in somebody's hands: every object,
    connection, socket and device descriptor is a live thread's or main's, every context has
    its thread. Together with the invariants of [ServerThreads], [ThreadSafety] and [Shutdown] it is kept
    by every transition of [main_trans] ([life]), so that nothing is left when the last thread is joined. *)

From S2P Require Import Prelude CMonad KHeap Libc DeviceSpec FileDev Process TcpConnection TcpReceive TcpSend ReceiveSafety SList ConnectionManager ServerSpec HandleMessage Session ManagerLife ThreadFrame ThreadMemory ServerThreads ThreadSafety ServerEvents Shutdown TcpServer TcpServerProperties ServerMain.
Local Open Scope Z_scope.
Local Open Scope cmonad_scope.

Section tight.
Context `{FD : FileDev} {L : Libc} {N : Sockets} {St : Stdio} {P : Pthreads}.
Context {FDL : FileDevLaws FD} {StL : StdioLaws St} {LL : LibcLaws L} {PL : PthreadsLaws P}.

(** Main has the file name [ln], the sockets [fds], the connection [pd] that it has accepted (its
    address and socket with it), and the context [gone] whose thread it has joined. *)
Record tight (lm ln : loc) (s : server) (ps : gmap Z Z) (fds : gset Z) (pd : option (loc * loc * Z)) (gone : option loc) : Prop := {
  ti_heap l : is_Some (hp s !! l) -> l = ln \/
    (exists tid t lx lc fd, conn_of lm s tid t lx lc fd /\ held s lc (th_pc t) l) \/ exists lc fd, pd = Some (lc, l, fd);
  ti_conns lc : is_Some (p_conns (sv_proc s) !! lc) ->
    (exists tid t lx fd, conn_of lm s tid t lx lc fd) \/ exists la fd, pd = Some (lc, la, fd);
  ti_fds fd : fd ∈ p_fds (sv_proc s) -> fd ∈ fds \/
    (exists tid t lx lc, conn_of lm s tid t lx lc fd) \/ exists lc la, pd = Some (lc, la, fd);
  ti_dev f : is_Some (ps !! f) -> exists tid t, sv_threads s !! tid = Some t /\ open_fd (th_pc t) = Some f;
  ti_ctxs l : is_Some (sv_ctxs s !! l) ->
    (exists tid t, sv_threads s !! tid = Some t /\ th_ctx t = PLoc l) \/ gone = Some l;
  ti_managers l : is_Some (sv_managers s !! l) -> l = lm;
}.

(** *** A step of a thread *)

Section one_step.
Context {lm ln : loc} {s s1 : server} {a a' : dstate} {ps ps' : gmap Z Z} (Hinv : sys_inv lm s a ps) (Hmi : mem_inv lm s).
Context {fds : gset Z} {pd : option (loc * loc * Z)} {gone : option loc} (Hti : tight lm ln s ps fds pd gone).
Context {tid : Z} {t : thread} {lx lc la : loc} {fd : Z} (Hco : conn_of lm s tid t lx lc fd).
Context {c : tcp_connection} (Hc : p_conns (sv_proc s) !! lc = Some c) (Ha : c_client_address c = PLoc la).
Context {pc' : thread_pc} (Hfp : footprint lm lx lc fd (th_pc t) pc' s s1).
Context (Hme : mem_effect lm lc la (th_pc t) pc' s s1) (He : dev_effect (th_pc t) pc' a a' ps ps').
Context (Hopen : forall q, th_pc t = T_Open q -> pc' <> T_While).

Local Abbreviation s' := (after (tid := tid) (lx := lx) (lc := lc) (pc' := pc') (s1 := s1)).

(** Another thread has after the step what it had. *)
Lemma tight_other tid2 t2 lx2 lc2 fd2 : tid2 <> tid -> conn_of lm s tid2 t2 lx2 lc2 fd2 ->
  conn_of lm s' tid2 t2 lx2 lc2 fd2 /\ forall l, held s' lc2 (th_pc t2) l <-> held s lc2 (th_pc t2) l.
Proof using Hinv Hco Hfp.
  intros Hne Hco2. split; [by apply (conn_of_other Hinv Hco Hfp)|]. intros l. unfold held. simpl.
  destruct (si_disjoint _ _ _ _ Hinv _ _ _ _ _ _ _ _ _ _ Hco2 Hco Hne) as (_ & Hlc & _).
  by rewrite (fp_conns _ _ _ _ _ _ _ _ Hfp).
Qed.

Lemma tight_heap l : is_Some (hp s' !! l) -> l = ln \/
  (exists tid t lx lc fd, conn_of lm s' tid t lx lc fd /\ held s' lc (th_pc t) l) \/ exists lc fd, pd = Some (lc, l, fd).
Proof using Hinv Hti Hco Hc Ha Hfp Hme Hopen.
  intros Hl. destruct (me_kept _ _ _ _ _ _ _ Hme l Hl) as [Hq|(Hl0 & Hla & Hq)].
  - right. left. eexists tid, _, lx, lc, fd. split; [apply (conn_of_self Hco Hfp)|by right]. intros E. by rewrite E in Hq.
  - destruct (ti_heap _ _ _ _ _ _ _ Hti l Hl0) as [?|[(tid2 & t2 & lx2 & lc2 & fd2 & Hco2 & Hh)|?]]; [by left| |by right; right].
    right. left. destruct (decide (tid2 = tid)) as [->|Hne].
    + destruct (conn_of_det _ _ _ _ _ _ _ _ _ _ _ Hco Hco2) as (<- & <- & <- & <-).
      destruct Hh as [(c' & Hc' & Ha')|Hh]; [|destruct (Hq Hh) as (q & E & E'); by destruct (Hopen q E)].
      assert (l = la) as -> by congruence. pose proof (Hla eq_refl) as Hpc.
      destruct (me_addr _ _ _ _ _ _ _ Hme Hpc) as (_ & c2 & Hc2 & Ha2).
      eexists tid, _, lx, lc, fd. split; [by apply (conn_of_self Hco Hfp)|left]. by exists c2.
    + destruct (tight_other _ _ _ _ _ Hne Hco2) as [Hco2' Hiff]. exists tid2, t2, lx2, lc2, fd2. split; [done|by apply Hiff].
Qed.

Lemma tight_conns lc2 : is_Some (p_conns (sv_proc s') !! lc2) ->
  (exists tid t lx fd, conn_of lm s' tid t lx lc2 fd) \/ exists la fd, pd = Some (lc2, la, fd).
Proof using Hinv Hti Hco Hfp.
  simpl. intros Hl. destruct (decide (lc2 = lc)) as [->|Hlc].
  - left. eexists tid, _, lx, fd. apply (conn_of_self Hco Hfp). intros Hpc.
    destruct (fp_ended _ _ _ _ _ _ _ _ Hfp Hpc) as [E _]. rewrite E in Hl. by destruct Hl.
  - rewrite (fp_conns _ _ _ _ _ _ _ _ Hfp) in Hl by done.
    destruct (ti_conns _ _ _ _ _ _ _ Hti lc2 Hl) as [(tid2 & t2 & lx2 & fd2 & Hco2)|?]; [left|by right].
    assert (tid2 <> tid) as Hne.
    { intros ->. by destruct (conn_of_det _ _ _ _ _ _ _ _ _ _ _ Hco Hco2) as (_ & _ & E & _). }
    exists tid2, t2, lx2, fd2. by apply tight_other.
Qed.

Lemma tight_fds fd2 : fd2 ∈ p_fds (sv_proc s') -> fd2 ∈ fds \/
  (exists tid t lx lc, conn_of lm s' tid t lx lc fd2) \/ exists lc la, pd = Some (lc, la, fd2).
Proof using Hinv Hti Hco Hfp.
  simpl. intros Hl. destruct (decide (fd2 = fd)) as [->|Hfd].
  - right. left. eexists tid, _, lx, lc. apply (conn_of_self Hco Hfp). intros Hpc.
    by destruct (fp_ended _ _ _ _ _ _ _ _ Hfp Hpc) as [_ E].
  - apply (fp_fds_less _ _ _ _ _ _ _ _ Hfp) in Hl.
    destruct (ti_fds _ _ _ _ _ _ _ Hti fd2 Hl) as [?|[(tid2 & t2 & lx2 & lc2 & Hco2)|?]]; [by left|right; left|by right; right].
    assert (tid2 <> tid) as Hne.
    { intros ->. by destruct (conn_of_det _ _ _ _ _ _ _ _ _ _ _ Hco Hco2) as (_ & _ & _ & E). }
    exists tid2, t2, lx2, lc2. by apply tight_other.
Qed.

Lemma tight_dev f : is_Some (ps' !! f) -> exists tid t, sv_threads s' !! tid = Some t /\ open_fd (th_pc t) = Some f.
Proof using Hti Hco Hfp He.
  intros Hf. destruct (de_closed _ _ _ _ _ _ He f Hf) as [Ho|[Ho Hf0]].
  - eexists tid, _. split; [apply after_self|done].
  - destruct (ti_dev _ _ _ _ _ _ _ Hti f Hf0) as (tid2 & t2 & Ht2 & Ho2). exists tid2, t2. split; [|done].
    rewrite (after_other Hfp); [done|]. intros ->. pose proof (co_thread _ _ _ _ _ _ _ Hco). congruence.
Qed.

Lemma tight_after : keeps s s' -> tight lm ln s' ps' fds pd gone.
Proof using Hinv Hti Hco Hc Ha Hfp Hme He Hopen.
  intros [K1 K2 K3]. split; [apply tight_heap|apply tight_conns|apply tight_fds|apply tight_dev| |].
  - intros l [x Hx]. destruct (fmap_Some_eq _ _ _ _ (eq_sym (K1 l)) Hx) as (x' & Hx' & _).
    destruct (ti_ctxs _ _ _ _ _ _ _ Hti l (mk_is_Some _ _ Hx')) as [(tid2 & t2 & Ht2 & E)|?]; [left|by right].
    destruct (fmap_Some_eq _ _ _ _ (K3 tid2) Ht2) as (t2' & Ht2' & E'). exists tid2, t2'. split; [done|congruence].
  - intros l [m Hm]. destruct (fmap_Some_eq _ _ _ _ (eq_sym (K2 l)) Hm) as (m' & Hm' & _).
    apply (ti_managers _ _ _ _ _ _ _ Hti). by eexists.
Qed.

(** What main has stays what it is. *)
Lemma unowned_after plc pfd : unowned lm s plc pfd -> unowned lm s' plc pfd.
Proof using Hinv Hco Hfp.
  intros Hun tid2 t2 lx2 lc2 fd2 Hco2. destruct (conn_of_after Hinv Hco Hfp _ _ _ _ _ Hco2) as [t0 Hco0]. by eapply Hun.
Qed.
Lemma pending_after plc pla pfd : unregistered lm s plc pla pfd -> unregistered lm s' plc pla pfd.
Proof using Hinv Hmi Hco Hc Ha Hfp Hme.
  intros [H1 H2 H3 H4 H5 H6]. destruct (H4 _ _ _ _ _ Hco) as [Hlc Hfd]. split.
  - simpl. by rewrite (fp_conns _ _ _ _ _ _ _ _ Hfp).
  - simpl. by apply (fp_fds _ _ _ _ _ _ _ _ Hfp).
  - apply (str_kept Hc Ha Hme); [by eapply H5|done].
  - by apply unowned_after.
  - intros tid2 t2 lx2 lc2 fd2 Hco2 Hh. destruct (decide (tid2 = tid)) as [->|Hne].
    + destruct (self_held Hco Hc Ha Hfp Hme _ _ _ _ _ Hco2 Hh) as (_ & _ & [Hh'|Hn]); [by eapply H5|].
      destruct H3 as (bs & E & _). congruence.
    + destruct (other_before Hinv Hco Hfp _ _ _ _ _ Hne Hco2) as (Hco2' & Hiff & _). apply Hiff in Hh. by eapply H5.
  - intros m' Hm'. destruct (si_lock _ _ _ _ Hinv) as (m & Hm & _).
    destruct (me_manager _ _ _ _ _ _ _ Hme m Hm) as (m2 & Hm2 & E). simpl in Hm'. assert (m' = m2) as -> by congruence.
    rewrite E. by apply H6.
Qed.
End one_step.

(** *** What else is kept

    The threads, what is theirs and what is on the sockets is the same. *)
Record alike (lm : loc) (s s' : server) : Prop := {
  al_conn tid t lx lc fd : conn_of lm s' tid t lx lc fd <-> conn_of lm s tid t lx lc fd;
  al_in : p_in (sv_proc s') = p_in (sv_proc s);
  al_out : p_out (sv_proc s') = p_out (sv_proc s);
  al_conns : p_conns (sv_proc s') = p_conns (sv_proc s);
  al_heap : hp s' = hp s;
}.
(** Nobody runs any more. *)
Record ended (s s' : server) : Prop := {
  en_before : sv_threads s = ∅;
  en_after : sv_threads s' = ∅;
  en_dev : p_dev (sv_proc s') = p_dev (sv_proc s);
  en_in : p_in (sv_proc s') = p_in (sv_proc s);
  en_out : p_out (sv_proc s') = p_out (sv_proc s);
}.

(** A further property of the trace, the state, the device and the descriptors, that every step of the
    process keeps, as long as what waits on the sockets is [sm]all. *)
Record kept (sm : server -> Prop) (I : trace -> loc -> dstate -> gmap Z Z -> server -> Prop) : Prop := {
  kt_small s : sm s -> input_small s;
  kt_thread tr lm s s1 a ps tid t lx lc la fd c pc' :
    sm s -> sys_inv lm s a ps -> mem_inv lm s -> I tr lm a ps s -> conn_of lm s tid t lx lc fd ->
    p_conns (sv_proc s) !! lc = Some c -> c_client_address c = PLoc la ->
    footprint lm lx lc fd (th_pc t) pc' s s1 -> mem_effect lm lc la (th_pc t) pc' s s1 ->
    thread_step (PLoc lx) (PLoc lc) (th_pc t) s = Done (pc', s1) ->
    let s' := after (tid := tid) (lx := lx) (lc := lc) (pc' := pc') (s1 := s1) in
    exists a' ps', sys_inv lm s' a' ps' /\ dev_effect (th_pc t) pc' a a' ps ps' /\ I (tr ++ line_events tid s) lm a' ps' s';
  kt_arrive tr lm a ps fd evs s : I tr lm a ps s -> I (tr ++ [SE_Arrive fd evs]) lm a ps (arrive fd evs s);
  kt_discard tr lm a ps fd s : I tr lm a ps s -> (fd ∉ p_fds (sv_proc s)) -> I (tr ++ [SE_Discard fd]) lm a ps (discard fd s);
  kt_connected tr lm s a ps fd lc la addr : sys_inv lm s a ps -> I tr lm a ps s ->
    p_conns (sv_proc s) !! lc = None -> hp s !! la = None -> I tr lm a ps (connected s fd lc la addr);
  kt_register tr lm s a ps lc c b s' : sys_inv lm s a ps -> I tr lm a ps s ->
    p_conns (sv_proc s) !! lc = Some c -> unowned lm s lc (c_socket c) ->
    connection_manager_register_connection (PLoc lm) (PLoc lc) s = Done (b, s') -> I tr lm a ps s';
  kt_same tr lm s s' a ps : I tr lm a ps s -> alike lm s s' -> I tr lm a ps s';
  kt_end tr lm s s' a ps : I tr lm a ps s -> ended s s' -> I tr lm a ps s';
}.

(** Nothing else. *)
Lemma kept_nothing : kept input_small (fun _ _ _ _ _ => True).
Proof.
  split; try done. intros tr lm s s1 a ps tid t lx lc la fd c pc' _ Hi _ _ Hco _ _ Hfp _ _ s'.
  destruct (inv_after Hi Hco Hfp) as (a' & ps' & Hi' & He). by exists a', ps'.
Qed.

Context {sm : server -> Prop} {I : trace -> loc -> dstate -> gmap Z Z -> server -> Prop} (HI : kept sm I).

(** *** The three invariants together *)

(** The descriptor [fd] is open and no thread's; so are all of [fds]. *)
Definition foreign (lm : loc) (s : server) (fd : Z) : Prop :=
  fd ∈ p_fds (sv_proc s) /\ forall tid t lx lc fd', conn_of lm s tid t lx lc fd' -> fd' <> fd.
Definition aside (lm : loc) (s : server) (fds : gset Z) : Prop := forall fd, fd ∈ fds -> foreign lm s fd.

(** A step of a thread or of the network leaves main's part alone. *)
Definition carries (tr tr' : trace) (lm ln : loc) (s s' : server) : Prop := forall a ps dpc fds pd gone,
  shutting lm ln a ps dpc s -> tight lm ln s ps fds pd gone -> I tr lm a ps s ->
  exists a' ps', shutting lm ln a' ps' dpc s' /\ tight lm ln s' ps' fds pd gone /\ I tr' lm a' ps' s' /\
    (forall fd, foreign lm s fd -> foreign lm s' fd) /\
    (forall lc la fd, unregistered lm s lc la fd -> unregistered lm s' lc la fd).

Lemma thread_life tr lm ln tid s s' :
  dev_reliable FD FDL -> sm s -> run_thread tid s = Done (tt, s') -> carries tr (tr ++ line_events tid s) lm ln s s'.
Proof using LL PL StL HI.
  intros Hrel Hsm Hrun a ps dpc fds pd gone Hs Hti Hx. pose proof (sd_sys _ _ _ _ _ _ Hs) as Hi. pose proof (sd_mem _ _ _ _ _ _ Hs) as Hmi.
  pose proof (kt_small _ _ HI _ Hsm) as Hsmall.
  pose proof (wlp_run _ _ _ _ _ Hrun (quiet_run_thread tid s)) as Hk.
  destruct (run_thread_inv _ _ _ _ _ _ Hi Hrun) as (t & lx & lc & fd & pc' & s1 & Hco & Hst & Hfp & ->).
  destruct (step_from_inv _ _ _ _ _ _ _ _ _ Hi Hmi Hsmall Hco) as (c & la & Hc & Ha & Hsafe).
  pose proof (wsp_run _ _ _ _ _ Hst Hsafe) as Hme.
  destruct (kt_thread _ _ HI _ _ _ _ _ _ _ _ _ _ _ _ _ _ Hsm Hi Hmi Hx Hco Hc Ha Hfp Hme Hst) as (a' & ps' & Hi' & He & Hx').
  exists a', ps'. split_and!; [|..|done| |].
  - eapply shut_other; [exact Hs|exact Hi'| |exact Hk]. exact (mem_after Hi Hmi Hco Hc Ha Hfp Hme).
  - eapply (tight_after Hi Hti Hco Hc Ha Hfp Hme He); [|exact Hk]. intros q Hq. rewrite Hq in Hst.
    refine (wlp_run _ _ _ _ _ Hst (open_goes_on _ _ _ _ Hrel _)). exists a, ps. apply (si_dev _ _ _ _ Hi).
  - intros fd2 [Hfd2 Hne]. split; [|intros tid2 t2 lx2 lc2 fd3 Hco2; destruct (conn_of_after Hi Hco Hfp _ _ _ _ _ Hco2); by eapply Hne].
    simpl. apply (fp_fds _ _ _ _ _ _ _ _ Hfp); [|done]. intros ->. by eapply Hne.
  - intros lc2 la2 fd2 Hpd. by apply (pending_after Hi Hmi Hco Hc Ha Hfp Hme).
Qed.

(** Only what is waiting to be read differs. *)
Lemma input_life tr tr' lm ln i s :
  (forall a ps, I tr lm a ps s -> I tr' lm a ps (set_proc (set_in i (sv_proc s)) s)) ->
  carries tr tr' lm ln s (set_proc (set_in i (sv_proc s)) s).
Proof using Type.
  intros HI' a ps dpc fds pd gone Hs Hti Hx. exists a, ps. set (s' := set_proc _ s).
  assert (forall tid t lx lc fd', conn_of lm s' tid t lx lc fd' <-> conn_of lm s tid t lx lc fd') as Hiff
    by (intros; symmetry; by apply conn_of_live, same_live_eq).
  split_and!.
  - eapply shut_other; [exact Hs| | |done].
    + eapply (inv_same_conns lm s); try done. apply (sd_sys _ _ _ _ _ _ Hs).
    + eapply (mem_same_conns lm s); try done. apply (sd_mem _ _ _ _ _ _ Hs).
  - destruct Hti as [H1 H2 H3 H4 H5 H6]. split; [| | |done|done|done].
    + intros l Hl. destruct (H1 l Hl) as [?|[(tid & t & lx & lc & fd' & Hco & Hh)|?]]; [by left| |by right; right].
      right. left. exists tid, t, lx, lc, fd'. by rewrite Hiff.
    + intros lc Hl. destruct (H2 lc Hl) as [(tid & t & lx & fd' & Hco)|?]; [left|by right]. exists tid, t, lx, fd'. by rewrite Hiff.
    + intros fd2 Hl. destruct (H3 fd2 Hl) as [?|[(tid & t & lx & lc & Hco)|?]]; [by left|right; left|by right; right].
      exists tid, t, lx, lc. by rewrite Hiff.
  - by apply HI'.
  - intros fd' [Hf Hne]. split; [done|]. intros tid t lx lc fd2 Hco%Hiff. by eapply Hne.
  - intros lc la fd' [H1 H2 H3 H4 H5 H6]. split; try done.
    + intros tid t lx lc' fd2 Hco%Hiff. by eapply H4.
    + intros tid t lx lc' fd2 Hco%Hiff. by eapply H5.
Qed.

(** *** The steps of main's shutdown *)

(** Everything is given back, but for the descriptors [fds]. *)
Record released (fds : gset Z) (s : server) : Prop := {
  re_heap : hp s = ∅;
  re_conns : p_conns (sv_proc s) = ∅;
  re_fds : p_fds (sv_proc s) = fds;
  re_dev : exists a, dev_is (p_dev (sv_proc s)) a ∅;
  re_ctxs : sv_ctxs s = ∅;
  re_managers : sv_managers s = ∅;
  re_threads : sv_threads s = ∅;
}.

Definition gone_of (pc : destroy_pc) : option loc := match pc with D_Remove (PLoc l) => Some l | _ => None end.
Definition closing (tr : trace) (lm ln : loc) (fds : gset Z) (pc : destroy_pc) (s : server) : Prop :=
  match pc with
  | D_Done => released fds s /\ exists a, dev_is (p_dev (sv_proc s)) a ∅ /\ I tr lm a ∅ s
  | _ => exists a ps, shutting lm ln a ps pc s /\ tight lm ln s ps fds None (gone_of pc) /\ aside lm s fds /\ I tr lm a ps s
  end.

(** Main's own steps change its list and the finished threads. *)
Lemma tight_main lm ln s s' ps fds pd gone gone' :
  tight lm ln s ps fds pd gone -> same_live s s' -> sv_proc s' = sv_proc s ->
  (forall l, is_Some (sv_ctxs s' !! l) ->
     (exists tid t, sv_threads s' !! tid = Some t /\ th_ctx t = PLoc l) \/ gone' = Some l) ->
  (forall l, is_Some (sv_managers s' !! l) -> l = lm) -> aside lm s fds ->
  tight lm ln s' ps fds pd gone' /\ aside lm s' fds /\ alike lm s s'.
Proof using Type.
  intros [H1 H2 H3 H4 _ _] Hs Ep Hc Hm Has.
  split_and!; [|intros fd Hfd; destruct (Has fd Hfd) as [Hf Hne]; split; [by rewrite Ep|intros ? ? ? ? ?; rewrite <- (conn_of_live lm s s') by done; apply Hne]
    |split; unfold hp; rewrite ?Ep; [|done..]; intros; by rewrite <- (conn_of_live lm s s')]. split; [| | | |done|done].
  - unfold hp. rewrite Ep. intros l Hl. destruct (H1 l Hl) as [?|[(tid & t & lx & lc & fd & Hco & Hh)|?]]; [by left| |by right; right].
    right. left. exists tid, t, lx, lc, fd. unfold held. rewrite <- (conn_of_live lm s s') by done. by rewrite Ep.
  - rewrite Ep. intros lc Hl. destruct (H2 lc Hl) as [(tid & t & lx & fd & Hco)|?]; [left|by right].
    exists tid, t, lx, fd. by apply (conn_of_live lm s s').
  - rewrite Ep. intros fd Hl. destruct (H3 fd Hl) as [?|[(tid & t & lx & lc & Hco)|?]]; [by left|right; left|by right; right].
    exists tid, t, lx, lc. by apply (conn_of_live lm s s').
  - intros f Hf. destruct (H4 f Hf) as (tid & t & Ht & Ho). exists tid, t. split; [|done].
    apply (sl_threads _ _ Hs); [|done]. intros E. by rewrite E in Ho.
Qed.

(** With no thread left there is nothing but the manager and its name. *)
Lemma tight_released lm ln s ps fds :
  tight lm ln s ps fds None None -> aside lm s fds -> sv_threads s = ∅ -> (exists a, dev_is (p_dev (sv_proc s)) a ps) ->
  let s' := set_managers (delete lm (sv_managers s)) (set_proc (set_heap (delete ln (hp s)) (sv_proc s)) s) in
  released fds s' /\ ps = ∅ /\ ended s s'.
Proof using Type.
  intros [H1 H2 H3 H4 H5 H6] Has Ht [a Hd].
  assert (forall tid t, sv_threads s !! tid <> Some t) as Hno by (intros tid t; by rewrite Ht).
  assert (forall tid t lx lc fd, ~ conn_of lm s tid t lx lc fd) as Hnc by (intros tid t lx lc fd []; by eapply Hno).
  assert (forall {A} (m : gmap loc A), (forall l, ~ is_Some (m !! l)) -> m = ∅) as Hemp.
  { intros A m Hm. apply map_empty. intros l. by apply eq_None_not_Some. }
  assert (ps = ∅) as ->.
  { apply map_empty. intros f. apply eq_None_not_Some. intros Hf. destruct (H4 f Hf) as (tid & t & Htt & _). by eapply Hno. }
  split; [|done]. split; unfold hp; simpl; [| | |by exists a| | |done].
  - apply Hemp. intros l Hl. rewrite lookup_delete in Hl. case_decide; [by destruct Hl|].
    destruct (H1 l Hl) as [?|[(tid & t & lx & lc & fd & Hco & _)|(? & ? & ?)]]; [done| |done]. by eapply Hnc.
  - apply Hemp. intros l Hl. destruct (H2 l Hl) as [(tid & t & lx & fd & Hco)|(? & ? & ?)]; [by eapply Hnc|done].
  - apply set_eq. intros fd. split; [|apply Has].
    intros Hl. destruct (H3 fd Hl) as [?|[(tid & t & lx & lc & Hco)|(? & ? & ?)]]; [done|by eapply Hnc in Hco|done].
  - apply Hemp. intros l Hl. destruct (H5 l Hl) as [(tid & t & Htt & _)|?]; [by eapply Hno|done].
  - apply Hemp. intros l Hl. rewrite lookup_delete in Hl. case_decide; [by destruct Hl|]. by apply H6 in Hl as ->.
Qed.

Lemma destroy_tight lm ln a ps fds pc s :
  shutting lm ln a ps pc s -> tight lm ln s ps fds None (gone_of pc) -> aside lm s fds ->
  wlp (destroy_step (PLoc lm) pc) (fun pc' s' => match pc' with
    | D_Done => released fds s' /\ ps = ∅ /\ ended s s'
    | _ => tight lm ln s' ps fds None (gone_of pc') /\ aside lm s' fds /\ alike lm s s'
    end) s.
Proof.
  intros Hs Hti Has. pose proof Hs as [Hi Hmi (gone & xs & Hr & Hlist) _]. pose proof Hti as [_ _ _ _ H5 H6].
  destruct (ro_list _ _ _ _ _ Hr) as (m & Hm & Hn & Hl).
  assert (forall m', forall l, is_Some (<[lm := m']> (sv_managers s) !! l) -> l = lm) as Hman.
  { intros m' l. rewrite lookup_insert. case_decide; [done|]. apply H6. }
  destruct pc as [| |p|p| |]; cbn [destroy_step]; wlp_steps.
  - eapply get_manager_wlp. intros m0 _. unfold set_manager. wlp_steps.
    eapply tight_main; [exact Hti|by apply same_live_eq|done|exact H5|apply Hman|exact Has].
  - eapply get_manager_wlp. intros m0 _. wlp_steps. by destruct (SLIST_EMPTY _).
  - unfold get_ctx. destruct p as [| |l]; wlp_steps. apply wlp_opt. intros x Hx. unfold pthread_join. wlp_steps.
    apply wlp_opt. intros t Ht. destruct (decide (th_pc t = T_Done)) as [Hd|Hd]; [rewrite Hd|destruct (th_pc t); by wlp_steps].
    wlp_steps. eapply tight_main; [exact Hti|by eapply same_live_join|done| |exact H6|exact Has]. simpl.
    destruct Hlist as (-> & l' & tid & xs' & -> & [= <-]).
    destruct (ro_ctx _ _ _ _ _ Hr l tid ltac:(left)) as (x' & Hx' & E). assert (x' = x) as -> by congruence.
    destruct (ro_thread _ _ _ _ _ Hr l tid ltac:(left)) as (t' & Ht' & Ec). rewrite <- E in Ht'. assert (t' = t) as -> by congruence.
    intros l2 Hl2. destruct (H5 l2 Hl2) as [(tid2 & t2 & Ht2 & Ec2)|?]; [|done].
    destruct (decide (tid2 = ctx_thread x)) as [->|Hne]; [right; congruence|]. left. exists tid2, t2. by rewrite lookup_delete_ne.
  - destruct Hlist as (l & -> & ->). eapply get_manager_wlp. intros m0 _. wlp_steps. apply wlp_lift. intros head _.
    unfold set_manager, free_ctx. wlp_steps. apply wlp_opt. intros x Hx. wlp_steps.
    eapply tight_main; [exact Hti|exact (same_live_remove _ _ _ _ _ _ Hr)|done| |apply Hman|exact Has]. simpl.
    intros l2 Hl2. rewrite lookup_delete in Hl2. case_decide; [by destruct Hl2|].
    destruct (H5 l2 Hl2) as [?|[= ->]]; [by left|done].
  - destruct Hlist as [-> ->].
    apply get_manager_wlp. intros m0 Hm0. assert (m0 = m) as -> by congruence. wlp_steps.
    destruct (cm_file_mutex m); wlp_steps. apply wlp_on_proc. rewrite Hn. unfold do_free. wlp_steps.
    apply wlp_opt. intros bs _. unfold set_manager, free_manager. wlp_steps. apply wlp_opt. intros m1 _. wlp_steps.
    cbn [sv_managers set_managers set_proc]. unfold set_managers at 1 2. cbn. rewrite delete_insert_eq.
    apply (tight_released lm ln s ps); [exact Hti|exact Has| |by exists a; apply (si_dev _ _ _ _ Hi)].
    apply map_empty. intros tid. apply eq_None_not_Some. intros Ht%(ro_all _ _ _ _ _ Hr). by apply elem_of_nil in Ht.
Qed.

Lemma closing_step tr lm ln fds pc pc' s s' :
  closing tr lm ln fds pc s -> destroy_step (PLoc lm) pc s = Done (pc', s') -> closing tr lm ln fds pc' s'.
Proof using LL PL StL HI.
  intros Hc Hrun.
  assert (pc = D_Done \/ exists a ps, shutting lm ln a ps pc s /\ tight lm ln s ps fds None (gone_of pc) /\ aside lm s fds /\ I tr lm a ps s)
    as [->|(a & ps & Hs & Hti & Has & Hx)] by (destruct pc; auto); [done|].
  pose proof (wsp_run _ _ _ _ _ Hrun (main_step_ok lm ln pc s a ps (shutting_inv _ _ _ _ _ _ Hs))) as Hs'.
  pose proof (wlp_run _ _ _ _ _ Hrun (destroy_tight _ _ _ _ _ _ _ Hs Hti Has)) as Hti'. simpl in Hs'.
  destruct pc'; [destruct Hti' as (Hti' & Has' & Hal); exists a, ps; split_and!; [exact Hs'|exact Hti'|exact Has'|by eapply (kt_same _ _ HI)]..|].
  destruct Hti' as (Hr & -> & Hen). split; [done|]. exists a. split; [|by eapply (kt_end _ _ HI)].
  rewrite (en_dev _ _ Hen). apply (si_dev _ _ _ _ (sd_sys _ _ _ _ _ _ Hs)).
Qed.

(** *** Main's other steps *)

(** A client is accepted: main has its connection. *)
Lemma connected_life tr lm ln a ps s fds lc la fd addr :
  shutting lm ln a ps D_Start s -> tight lm ln s ps fds None None -> I tr lm a ps s ->
  p_conns (sv_proc s) !! lc = None -> hp s !! la = None -> (fd ∉ p_fds (sv_proc s)) ->
  let s' := connected s fd lc la addr in
  shutting lm ln a ps D_Start s' /\ tight lm ln s' ps fds (Some (lc, la, fd)) None /\ I tr lm a ps s' /\ unregistered lm s' lc la fd /\
  forall lfd, foreign lm s lfd -> foreign lm s' lfd.
Proof using LL PL StL HI.
  intros Hs [H1 H2 H3 H4 H5 H6] Hx Hlc Hla Hfd s'. pose proof (sd_sys _ _ _ _ _ _ Hs) as Hi. pose proof (sd_mem _ _ _ _ _ _ Hs) as Hmi.
  assert (p_conns (sv_proc s) ⊆ p_conns (sv_proc s')) as Hcn by (simpl; by apply insert_subseteq).
  assert (forall tid t lx lc fd, conn_of lm s' tid t lx lc fd <-> conn_of lm s tid t lx lc fd) as Hiff.
  { intros. split; [eapply conn_of_weaken_inv|apply conn_of_weaken]; try done; simpl; apply union_subseteq_r. }
  destruct (connected_pending lm s a ps fd lc la addr Hi Hmi Hlc Hla Hfd) as [Hmi' Hpd]. split_and!; [| |by apply (kt_connected _ _ HI)|done|].
  - eapply shut_other; [exact Hs|by apply connected_inv|done|done].
  - split; [| | |exact H4| |exact H6].
    + unfold hp. simpl. intros l. rewrite lookup_insert. case_decide; [subst l; right; right; by exists lc, fd|].
      intros Hl. destruct (H1 l Hl) as [?|[(tid & t & lx & lc2 & fd2 & Hco & Hh)|(? & ? & ?)]]; [by left| |done].
      right. left. exists tid, t, lx, lc2, fd2. rewrite Hiff. split; [done|]. by apply (held_weaken lm s _ tid t lx lc2 fd2 l Hcn Hco).
    + simpl. intros l. rewrite lookup_insert. case_decide; [subst l; right; by exists la, fd|].
      intros Hl. destruct (H2 l Hl) as [(tid & t & lx & fd2 & Hco)|(? & ? & ?)]; [left|done]. exists tid, t, lx, fd2. by apply Hiff.
    + simpl. intros fd2 [->%elem_of_singleton|Hl]%elem_of_union; [right; right; by exists lc, la|].
      destruct (H3 fd2 Hl) as [?|[(tid & t & lx & lc2 & Hco)|(? & ? & ?)]]; [by left|right; left|done]. exists tid, t, lx, lc2. by apply Hiff.
    + intros l Hl. destruct (H5 l Hl) as [?|?]; [by left|done].
  - intros lfd [Hl Hne]. split; [simpl; set_solver|]. intros tid t lx lc2 fd2 Hco%Hiff. by eapply Hne.
Qed.

(** It gets its thread. *)
Lemma registered_life tr lm ln a ps s fds lc la fd own b s' :
  (forall ts, is_Some (pthread_new ts)) ->
  shutting lm ln a ps D_Start s -> tight lm ln s ps fds (Some (lc, la, fd)) None -> I tr lm a ps s -> unregistered lm s lc la fd ->
  aside lm s own -> (fd ∉ own) -> connection_manager_register_connection (PLoc lm) (PLoc lc) s = Done (b, s') ->
  shutting lm ln a ps D_Start s' /\ tight lm ln s' ps fds None None /\ I tr lm a ps s' /\ aside lm s' own.
Proof using LL PL StL HI.
  intros Hthr [Hi Hmi (gone & xs & Hr & ->) Hf] Hti Hx Hpd Has Hfd Hrun.
  assert (I tr lm a ps s') as Hx'.
  { pose proof Hpd as [Hc Hpf _ Hun _ _]. by eapply (kt_register _ _ HI tr lm s a ps lc). }
  split.
  { destruct (roster_registered _ _ _ _ _ _ _ Hr Hrun) as [xs' Hr']. pose proof Hpd as [Hc Hpf _ Hun _ _].
    split; [by eapply (inv_register lm s a ps lc)|by eapply mem_register|by exists None, xs'|done]. }
  enough (tight lm ln s' ps fds None None /\ aside lm s' own) as [? ?] by done.
  refine (wlp_run _ _ _ _ _ Hrun (register_wlp _ _ _ (fun _ s' => tight lm ln s' ps fds None None /\ aside lm s' own) _ _));
    [|intros l _ Hp; destruct (Hthr (dom (sv_threads s))); congruence].
  intros l m Hl Hm. destruct (pthread_new (dom (sv_threads s))) as [tid|] eqn:Ht; [|done].
  apply pthread_new_fresh, not_elem_of_dom in Ht. set (s1 := Server _ _ _ _ _).
  assert (sv_threads s ⊆ sv_threads s1) as Hsub by by apply insert_subseteq.
  assert (conn_of lm s1 tid (Thread (PLoc l) PNull T_Start) l lc fd) as Hnew.
  { split; simpl; try done; [apply lookup_insert_eq|eexists; by rewrite lookup_insert_eq| |apply (pd_fd _ _ _ _ _ Hpd)].
    eexists. split; [apply (pd_conn _ _ _ _ _ Hpd)|done]. }
  assert (forall tid t lx lc fd, conn_of lm s tid t lx lc fd -> conn_of lm s1 tid t lx lc fd) as Hgrow
    by (intros; by eapply (conn_of_grow Hl)).
  destruct Hti as [H1 H2 H3 H4 H5 H6]. split; [split|intros lfd Hlfd; destruct (Has lfd Hlfd) as [Hfl Hne]; split; [done|]].
  - intros k Hk. destruct (H1 k Hk) as [?|[(tid2 & t2 & lx2 & lc2 & fd2 & Hco & Hh)|(? & ? & [= <- <- <-])]]; [by left| |]; right; left.
    + exists tid2, t2, lx2, lc2, fd2. split; [by apply Hgrow|done].
    + eexists tid, _, l, lc, fd. split; [exact Hnew|]. left. eexists. split; [apply (pd_conn _ _ _ _ _ Hpd)|done].
  - intros k Hk. left. destruct (H2 k Hk) as [(tid2 & t2 & lx2 & fd2 & Hco)|(? & ? & [= <- <- <-])].
    + exists tid2, t2, lx2, fd2. by apply Hgrow.
    + by eexists tid, _, l, fd.
  - intros k Hk. destruct (H3 k Hk) as [?|[(tid2 & t2 & lx2 & lc2 & Hco)|(? & ? & [= <- <- <-])]]; [by left| |]; right; left.
    + exists tid2, t2, lx2, lc2. by apply Hgrow.
    + by eexists tid, _, l, lc.
  - intros f Hfo. destruct (H4 f Hfo) as (tid2 & t2 & Ht2 & Ho). exists tid2, t2. split; [by eapply lookup_weaken|done].
  - intros k. simpl. rewrite lookup_insert. case_decide as E; intros Hk; left.
    + subst k. eexists tid, _. by rewrite lookup_insert_eq.
    + destruct (H5 k Hk) as [(tid2 & t2 & Ht2 & Ec)|?]; [|done]. exists tid2, t2. split; [by eapply (lookup_weaken (sv_threads s))|done].
  - intros k. simpl. rewrite lookup_insert. case_decide; [done|]. apply H6.
  - intros tid2 t2 lx2 lc2 fd2 Hco. destruct (decide (tid2 = tid)) as [->|Hnt].
    + destruct (conn_of_det _ _ _ _ _ _ _ _ _ _ _ Hco Hnew) as (_ & _ & _ & ->). by intros ->.
    + assert (sv_threads s !! tid2 = Some t2) as Ht2.
      { pose proof (co_thread _ _ _ _ _ _ _ Hco) as H. simpl in H. by rewrite lookup_insert_ne in H. }
      destruct (si_alive _ _ _ _ Hi _ _ Ht2 (co_alive _ _ _ _ _ _ _ Hco)) as (lx3 & lc3 & fd3 & Hco3).
      destruct (conn_of_det _ _ _ _ _ _ _ _ _ _ _ Hco (Hgrow _ _ _ _ _ Hco3)) as (_ & _ & _ & ->). by eapply Hne.
Qed.

(** The listening socket is closed. *)
Lemma unlisten_life tr lm ln a ps s lfd fds :
  shutting lm ln a ps D_Start s -> tight lm ln s ps ({[lfd]} ∪ fds) None None -> I tr lm a ps s -> aside lm s ({[lfd]} ∪ fds) ->
  (lfd ∉ fds) ->
  let s' := set_proc (set_fds (p_fds (sv_proc s) ∖ {[lfd]}) (sv_proc s)) s in
  shutting lm ln a ps D_Start s' /\ tight lm ln s' ps fds None None /\ aside lm s' fds /\ I tr lm a ps s'.
Proof using HI.
  intros Hs Hti Hx Has Hlf s'. destruct (Has lfd) as [Hfl Hne]; [by apply elem_of_union_l, elem_of_singleton|].
  assert (forall tid t lx lc fd, conn_of lm s' tid t lx lc fd <-> conn_of lm s tid t lx lc fd) as Hiff.
  { intros tid t lx lc fd. split.
    - intros [C1 C2 C3 C4 C5 C6 C7]. split; try done. simpl in C7. clear -C7. set_solver.
    - intros Hco. pose proof (Hne _ _ _ _ _ Hco) as Hfd. destruct Hco as [C1 C2 C3 C4 C5 C6 C7]. split; try done.
      simpl. clear -C7 Hfd. set_solver. }
  split_and!; [| |intros fd Hfd; destruct (Has fd (elem_of_union_r _ _ _ Hfd)) as [Hfd1 Hfd2]; split; [simpl; apply elem_of_difference; split; [done|by intros ->%elem_of_singleton]|intros ? ? ? ? ? Hco%Hiff; by eapply Hfd2]|by apply (kt_same _ _ HI _ _ s)].
  - eapply shut_other; [exact Hs| | |done].
    + eapply (inv_same_conns lm s); try done. apply (sd_sys _ _ _ _ _ _ Hs).
    + eapply (mem_same_conns lm s); try done. apply (sd_mem _ _ _ _ _ _ Hs).
  - destruct Hti as [H1 H2 H3 H4 H5 H6]. split; try done.
    + intros l Hl. destruct (H1 l Hl) as [?|[(tid & t & lx & lc & fd & Hco & Hh)|?]]; [by left| |by right; right].
      right. left. exists tid, t, lx, lc, fd. by rewrite Hiff.
    + intros lc Hl. destruct (H2 lc Hl) as [(tid & t & lx & fd & Hco)|?]; [left|by right]. exists tid, t, lx, fd. by rewrite Hiff.
    + simpl. intros fd [Hl Hfd]%elem_of_difference.
      destruct (H3 fd Hl) as [[?|?]%elem_of_union|[(tid & t & lx & lc & Hco)|?]]; [done|by left|right; left|by right; right].
      exists tid, t, lx, lc. by rewrite Hiff.
Qed.
End tight.
