(* ===== verification/ServerMainProperties.v ===== *)
(** How a signal ends the server. *)

From S2P Require Import Prelude CMonad KHeap Libc DeviceSpec FileDev Process TcpConnection TcpReceive TcpSend TcpProperties SList ConnectionManager ServerProperties TcpServer TcpServerProperties ServerMain.
Local Open Scope Z_scope.
Local Open Scope cmonad_scope.

#[export] Instance destroy_pc_eq_dec : EqDecision destroy_pc.
Proof. solve_decision. Defined.
#[export] Instance main_pc_eq_dec : EqDecision main_pc.
Proof. solve_decision. Defined.

Section main_properties.
Context `{FD : FileDev} {L : Libc} {N : Sockets} {St : Stdio} {P : Pthreads} {NS : NetSetup} {H : Host}.

(** [accept] returned in this transition; a signal that makes it fail counts. *)
Definition accepted (pc pc' : main_pc) : nat :=
  match pc, pc' with M_InAccept, (M_Register _ | M_Check) => 1 | _, _ => 0 end.
(** Calls of [accept] that main is committed to. *)
Definition committed (pc : main_pc) : nat := match pc with M_CallAccept | M_InAccept => 1 | _ => 0 end.
(** Main's own steps to its shutdown, once the exit flag is set. *)
Definition to_shutdown (pc : main_pc) : nat :=
  match pc with M_CallAccept => 4 | M_InAccept => 3 | M_Register _ => 2 | M_Check => 1 | _ => 0 end.

(** A run of the machine, with the number of calls of [accept] that returned. *)
Inductive main_run (server : ptr) : nat -> host * main_pc -> host * main_pc -> Prop :=
  | run_refl x : main_run server 0 x x
  | run_step n x y es z : main_run server n x y -> main_trans server y es z ->
      main_run server (n + accepted y.2 z.2) x z.

Lemma wlp_in_server {A} (m : M server A) Q s :
  (forall a v, Q a (set_h_server v s)) -> wlp (in_server m) Q s.
Proof. intros HQ. unfold wlp, in_server. destruct (m (h_server s)) as [[]|]; [apply HQ|done]. Qed.
Lemma wlp_in_listener {A} (m : M listener A) Q s :
  (forall a p sv n, Q a (HostState _ (set_proc p (h_server s)) sv n (exit_program s) (g_connection_manager s)
                       (h_handlers s) (h_log s) (h_clients s))) -> wlp (in_listener m) Q s.
Proof. intros HQ. unfold wlp, in_listener. destruct (m _) as [[]|]; [apply HQ|done]. Qed.

(** The machine's own steps leave the exit flag and the handlers alone. *)
Lemma main_step_frame server pc s :
  wlp (main_step server pc)
      (fun _ s' => exit_program s' = exit_program s /\ h_handlers s' = h_handlers s) s.
Proof.
  destruct pc as [| | |connection| |dpc|]; simpl; wlp_steps; try done.
  - destruct (h_clients s); wlp_steps. apply wlp_in_listener. intros a p sv n'.
    cbn -[is_null]. wlp_steps. done.
  - apply wlp_in_server. intros c v. wlp_steps. apply wlp_in_server. intros a v'. wlp_steps.
    apply wlp_in_server. intros b v''. wlp_steps. done.
  - apply wlp_in_listener. intros a p sv n. wlp_steps. done.
  - destruct dpc; unfold teardown; wlp_steps; try done; apply wlp_in_server; intros b v; by wlp_steps.
Qed.

Lemma main_step_next server pc s :
  wlp (main_step server pc) (fun pc' _ =>
    match pc, pc' with
    | M_Check, M_Shutdown => exit_program s = true
    | M_Check, M_CallAccept => exit_program s = false
    | M_CallAccept, M_InAccept | M_InAccept, (M_Register _ | M_Check) | M_Register _, M_Check
    | M_Shutdown, M_Destroy _ | M_Destroy _, M_Destroy _ | M_Destroy D_Done, M_Exited => True
    | _, _ => False
    end) s.
Proof.
  destruct pc as [| | |connection| |dpc|]; simpl; wlp_steps; try done.
  - by destruct (exit_program s).
  - destruct (h_clients s); wlp_steps. apply wlp_in_listener. intros a p sv n'. wlp_steps.
    by destruct (is_null a).
  - apply wlp_in_server. intros c v. wlp_steps. apply wlp_in_server. intros a v'. wlp_steps.
    apply wlp_in_server. intros b v''. by wlp_steps.
  - apply wlp_in_listener. intros a p sv n. by wlp_steps.
  - destruct dpc; unfold teardown; wlp_steps; try done; apply wlp_in_server; intros b v; by wlp_steps.
Qed.

Lemma own_nearer server s pc s' pc' :
  exit_program s = true -> main_step server pc s = Done (pc', s') ->
  (to_shutdown pc' <= to_shutdown pc)%nat /\ (0 < to_shutdown pc -> to_shutdown pc' < to_shutdown pc)%nat.
Proof.
  intros He Hs. pose proof (wlp_run _ _ _ _ _ Hs (main_step_next server pc s)) as E.
  destruct pc as [| | | | |[]|], pc'; simpl in *; try done; lia || congruence.
Qed.

Lemma main_trans_committed server s pc es s' pc' :
  exit_program s = true -> main_trans server (s, pc) es (s', pc') ->
  exit_program s' = true /\ (accepted pc pc' + committed pc' <= committed pc)%nat /\ (to_shutdown pc' <= to_shutdown pc)%nat.
Proof.
  intros He Ht. inversion Ht as [?? ?? Hs|sig ?? Hsig|sig ?? Hsig| |tid ? ? ? Hs| |]; subst; clear Ht.
  - pose proof (wlp_run _ _ _ _ _ Hs (main_step_frame server pc s)) as [-> _]. split; [done|].
    split; [|by eapply own_nearer]. pose proof (wlp_run _ _ _ _ _ Hs (main_step_next server pc s)) as E.
    destruct pc as [| | | | |[]|], pc'; simpl in *; try done; lia || congruence.
  - split; [done|]. destruct pc; simpl; lia.
  - split; [done|]. destruct pc'; simpl; lia.
  - split; [done|]. destruct pc'; simpl; lia.
  - split; [|destruct pc'; simpl; lia]. rewrite <- He.
    refine (wlp_run _ _ _ _ _ Hs (wlp_in_server _ (fun _ s' => exit_program s' = exit_program s) _ _)). by intros [] v.
  - split; [done|]. destruct pc'; simpl; lia.
  - split; [done|]. destruct pc'; simpl; lia.
Qed.

Lemma main_run_committed server s pc n s' pc' :
  exit_program s = true -> main_run server n (s, pc) (s', pc') ->
  exit_program s' = true /\ (n + committed pc' <= committed pc)%nat /\ (to_shutdown pc' <= to_shutdown pc)%nat.
Proof.
  intros He Hr. remember (s, pc) as x eqn:Ex. remember (s', pc') as z eqn:Ez. revert s' pc' Ez.
  induction Hr as [|n x [s1 pc1] es z Hr IH Ht]; intros s' pc' ->.
  - injection Ex as -> ->. split; [done|lia].
  - specialize (IH Ex s1 pc1 eq_refl) as (H1 & H2 & H3). destruct (main_trans_committed _ _ _ _ _ _ H1 Ht) as (H4 & H5 & H6).
    split; [done|]. simpl. lia.
Qed.

(** A signal that comes while main tests the flag or waits in [accept] takes it to the shutdown by its
    own steps; one that comes between the test and the call is lost: main goes into
    [accept], and stays there until a client or another signal comes. *)
Lemma signal_between_test_and_accept server s :
  exit_program s = false -> h_clients s = 0%nat ->
  main_step server (interrupted M_InAccept) (signal_handler s) = Done (M_Shutdown, signal_handler s) /\
  main_step server M_Check s = Done (M_CallAccept, s) /\
  main_step server (interrupted M_CallAccept) (signal_handler s) = Done (M_InAccept, signal_handler s) /\
  main_step server M_InAccept (signal_handler s) = Fault Blocked.
Proof.
  intros He Hc. unfold main_step, bind, mget. cbn [interrupted exit_program signal_handler set_exit h_clients].
  by rewrite He, Hc.
Qed.
End main_properties.

(** C33: a handled signal ends the server's loop. Main is anywhere; its own thread runs the handler ([accept]
    then fails, if main was inside it), or another thread does (and a pending [accept] goes on). Whatever the
    clients, the threads and further signals do afterwards, the exit flag stays set, and [accept] returns at most once
    more, and only if main was between its test of the flag and the call, or was inside the call while
    another thread ran the handler. No transition takes main away from its shutdown, every own step of main
    in the loop takes it nearer, so that there are at most four, and its next test of the flag leaves the loop. *)
Theorem signal_then_at_most_one_accept (FD : FileDev) (L : Libc) (N : Sockets) (St : Stdio) (P : Pthreads)
    (NS : NetSetup) (H : Host) server s pc pc1 n s' pc' :
  pc1 = interrupted pc \/ pc1 = pc -> main_run server n (signal_handler s, pc1) (s', pc') ->
  exit_program s' = true /\
  (n <= match pc with M_CallAccept => 1 | M_InAccept => if decide (pc1 = M_InAccept) then 1 else 0 | _ => 0 end)%nat /\
  (to_shutdown pc' <= to_shutdown pc1 <= 4)%nat /\
  (forall pc2 s2, main_step server pc' s' = Done (pc2, s2) -> (0 < to_shutdown pc' -> to_shutdown pc2 < to_shutdown pc')%nat) /\
  (pc' = M_Check -> main_step server pc' s' = Done (M_Shutdown, s')).
Proof.
  intros Hpc Hr. destruct (main_run_committed server (signal_handler s) pc1 n _ _ eq_refl Hr) as (H1 & H2 & H3).
  split_and!; [done| |done|by destruct pc1; simpl; lia|intros pc2 s2 Hs; by eapply own_nearer|].
  - destruct Hpc as [-> | ->]; destruct pc; simpl in *; repeat case_decide; simpl in *; try done; lia.
  - intros ->. unfold main_step, bind, mget, ret. by rewrite H1.
Qed.

(** ** Witness: one client waits and its connection has been reset when it is accepted *)

#[export] Instance sample_host : Host := {|
  host_sigaction sig := true; host_fork := Some 0; host_setsid := true; host_chdir := true; host_opens fds := true;
|}.

Definition sample_host_state : host :=
  HostState spec_dev (Server _ (sample_proc []) ∅ ∅ ∅) {[1%positive := TcpServerT 5 (str "9000")]} 0 false
    (PLoc 9) {[SIGINT; SIGTERM]} true 1.

Lemma sample_main_run :
  main_run (NS := sample_net addr4) (PLoc 1) 1 (signal_handler sample_host_state, M_InAccept)
    (set_clients 0 (signal_handler sample_host_state), M_Check).
Proof.
  change 1%nat with (0 + accepted M_InAccept M_Check)%nat.
  eapply (run_step (PLoc 1) _ _ (_, M_InAccept) [] (_, M_Check)); [apply run_refl|].
  apply (main_own (NS := sample_net addr4) (PLoc 1) _ _ (set_clients 0 (signal_handler sample_host_state))). reflexivity.
Qed.

(** Another thread runs the handler while main is inside [accept]. *)
Lemma signal_then_at_most_one_accept_witness :
  (1 <= 1)%nat /\ main_step (NS := sample_net addr4) (PLoc 1) M_Check (set_clients 0 (signal_handler sample_host_state)) =
    Done (M_Shutdown, set_clients 0 (signal_handler sample_host_state)).
Proof.
  destruct (signal_then_at_most_one_accept spec_dev sample_libc sample_sockets buffered_stdio sample_pthreads (sample_net addr4) sample_host (PLoc 1)
           sample_host_state M_InAccept M_InAccept 1 _ _ (or_intror eq_refl) sample_main_run) as (_ & Hn & _ & _ & Hc).
  exact (conj Hn (Hc eq_refl)).
Defined.
