(* ===== verification/ServerRun.v ===== *)
(** The server from its start to its exit.

    [life] is the invariant of the process at each place of main: before the shutdown main has the
    listening socket and, while it registers a client, that client's connection; during it the
    invariants of [Shutdown] and [ServerLife] hold of [connection_manager_destroy]; after it nothing is left. *)

From S2P Require Import Prelude CMonad KHeap Libc DeviceSpec FileDev Process TcpConnection TcpReceive TcpSend TcpProperties ReceiveSafety SList ConnectionManager ServerSpec HandleMessage Session ManagerLife ServerProperties ThreadFrame ThreadMemory ServerThreads Answers ThreadSafety ServerEvents Shutdown TcpServer TcpServerProperties ServerMain ServerMainProperties ServerLife.
Local Open Scope Z_scope.
Local Open Scope cmonad_scope.

Section run.
Context `{FD : FileDev} {L : Libc} {N : Sockets} {St : Stdio} {P : Pthreads} {NS : NetSetup} {H : Host}.
Context {FDL : FileDevLaws FD} {StL : StdioLaws St} {LL : LibcLaws L} {PL : PthreadsLaws P} {NSL : NetSetupLaws NS}.
Context (sm : server -> Prop) (I : trace -> loc -> dstate -> gmap Z Z -> server -> Prop) (HI : kept sm I).

(** Main is in its loop, with the descriptors [own] and the connection [pd] to register. *)
Record lobby (tr : trace) (lm ln : loc) (own : gset Z) (pd : option (loc * loc * Z)) (a : dstate) (ps : gmap Z Z) (s : server) : Prop := {
  lo_shutting : shutting lm ln a ps D_Start s;
  lo_tight : tight lm ln s ps own pd None;
  lo_kept : I tr lm a ps s;
  lo_own : aside lm s own;
  lo_pending lc la fd : pd = Some (lc, la, fd) -> unregistered lm s lc la fd /\ (fd ∉ own);
}.

(** The listening socket is not one of the descriptors [B] that the process had before. *)
Definition listening (lm lsrv : loc) (v : tcp_server_t) (B : gset Z) (s : host) : Prop :=
  h_servers s = {[lsrv := v]} /\ h_addrinfos s = 0%nat /\ g_connection_manager s = PLoc lm /\ (ts_socketfd v ∉ B).
Definition unlistening (p : ptr) (s : host) : Prop :=
  h_servers s = ∅ /\ h_addrinfos s = 0%nat /\ g_connection_manager s = p.

Definition life (tr : trace) (lm ln lsrv : loc) (v : tcp_server_t) (B : gset Z) (pc : main_pc) (s : host) : Prop :=
  let own := {[ts_socketfd v]} ∪ B in
  match pc with
  | M_Register p => listening lm lsrv v B s /\ exists a ps lc la fd, p = PLoc lc /\
      lobby tr lm ln own (Some (lc, la, fd)) a ps (h_server s)
  | M_Destroy dpc => unlistening (PLoc lm) s /\ closing (I := I) tr lm ln B dpc (h_server s)
  | M_Exited => unlistening PNull s /\ closing (I := I) tr lm ln B D_Done (h_server s) /\ h_log s = false
  | _ => listening lm lsrv v B s /\ exists a ps, lobby tr lm ln own None a ps (h_server s)
  end.

(** Why main's step may not return. *)
Definition main_waits (pc : main_pc) (s : host) (f : fault) : Prop :=
  f = Blocked /\
  (pc = M_InAccept /\ h_clients s = 0%nat \/ (exists dpc, pc = M_Destroy dpc /\ waiting dpc (h_server s)) \/ pc = M_Exited).

Lemma wsp_in_server {A} F (m : M server A) Q s :
  wsp F m (fun a v => Q a (set_h_server v s)) (h_server s) -> wsp F (in_server m) Q s.
Proof. unfold wsp, in_server. by destruct (m (h_server s)) as [[]|]. Qed.
Lemma wsp_in_listener {A} F (m : M listener A) Q s :
  wsp F m (fun a v => Q a (HostState _ (set_proc (ls_proc v) (h_server s)) (ls_servers v) (ls_addrinfos v) (exit_program s)
                             (g_connection_manager s) (h_handlers s) (h_log s) (h_clients s)))
    (Listener _ (sv_proc (h_server s)) (h_servers s) (h_addrinfos s)) -> wsp F (in_listener m) Q s.
Proof. unfold wsp, in_listener. by destruct (m _) as [[]|]. Qed.

Context (Hmem : malloc_succeeds L) (Hrel : dev_reliable FD FDL) (Hthr : forall ts, is_Some (pthread_new ts)).
(** The clients use IPv4. *)
Definition clients_ipv4 : Prop := forall fds lfd fd addr,
  net_accept fds lfd = Some (fd, addr) -> sa_family addr = AF_INET /\ zlen addr = 16.
Context (Hv4 : clients_ipv4).

Definition main_life_ok (tr : trace) (lm ln lsrv : loc) (v : tcp_server_t) (B : gset Z) (pc : main_pc) (s : host) : Prop :=
  life tr lm ln lsrv v B pc s ->
  wsp (main_waits pc s) (main_step (PLoc lsrv) pc) (fun pc' s' => life tr lm ln lsrv v B pc' s') s.

Lemma life_accept tr lm ln lsrv v B s : main_life_ok tr lm ln lsrv v B M_InAccept s.
Proof.
  intros [(Hsrv & Hai & Hg & HB) (a & ps & [Hs Hti Hx Hl _])]. simpl. wsp_steps.
  destruct (h_clients s) as [|n] eqn:Ec; [apply wsp_fault; split; [done|by left]|]. wsp_steps.
  apply wsp_in_listener, wsp_wp. simpl. eapply (accept_ipv4_wp FD L NS LL NSL).
  - simpl. rewrite Hsrv. apply lookup_singleton_eq.
  - apply Hl. by apply elem_of_union_l, elem_of_singleton.
  - intros fd addr. apply Hv4.
  - change (is_null PNull) with true. cbn iota. apply wsp_ret. split; [done|]. exists a, ps. by destruct (h_server s).
  - intros fd addr lc la _ Hfresh Hlc Hla. rewrite is_null_loc. apply wsp_ret. split; [done|].
    destruct (connected_life HI tr lm ln a ps (h_server s) ({[ts_socketfd v]} ∪ B) lc la fd (net_ntop AF_INET (take 4 (drop 4 addr)))
      Hs Hti Hx Hlc Hla Hfresh) as (Hs' & Hti' & Hx' & Hpd & Hl'). exists a, ps, lc, la, fd. split; [done|].
    split; [exact Hs'|exact Hti'|exact Hx'|intros fd2 Hfd2; by apply Hl', Hl|]. intros ??? [= <- <- <-]. split; [exact Hpd|].
    intros Hfd. by apply Hfresh, Hl.
Qed.

Lemma life_register tr lm ln lsrv v B p s : main_life_ok tr lm ln lsrv v B (M_Register p) s.
Proof.
  intros [Hli (a & ps & lc & la & fd & -> & [Hs Hti Hx Hl Hpd])]. destruct (Hpd _ _ _ eq_refl) as [Hpend Hfd]. pose proof Hli as (_ & _ & Hg & _).
  simpl. wsp_steps. apply wsp_in_server, wsp_wp, wp_on_proc. unfold get_conn. wp_steps.
  eapply wp_opt; [apply (pd_conn _ _ _ _ _ Hpend)|].
  apply wsp_bind, wsp_in_server, wsp_wp, wp_on_proc. simpl.
  destruct (str_at_read _ _ (pd_str _ _ _ _ _ Hpend)) as [name Hname]. unfold do_string. wp_steps. eapply wp_lift; [exact Hname|].
  wsp_steps. apply wsp_in_server. simpl. rewrite Hg.
  pose proof Hs as [_ _ (gone & xs & Hr & ->) _]. destruct (ro_list _ _ _ _ _ Hr) as (m & Hm & _ & Hlist).
  assert (set_proc (sv_proc (h_server s)) (h_server s) = h_server s) as E by by destruct (h_server s).
  assert (forall x, set_h_server (h_server s) (set_h_server x s) = s) as E2 by by destruct s.
  destruct (connection_manager_register_connection (PLoc lm) (PLoc lc) (h_server s)) as [[b s']|f] eqn:Hrun.
  - rewrite !E. unfold wsp at 1. rewrite Hrun. apply wsp_ret. split; [done|]. exists a, ps.
    destruct (registered_life HI _ _ _ _ _ _ _ _ _ _ _ _ _ Hthr Hs Hti Hx Hpend Hl Hfd Hrun) as (Hs' & Hti' & Hx' & Hl'). by split.
  - exfalso. enough (wp (connection_manager_register_connection (PLoc lm) (PLoc lc)) (fun _ _ => True) (h_server s)) as Hwp
      by (unfold wp in Hwp; by rewrite Hrun in Hwp).
    eapply register_wp; [done|exact Hm|exact Hlist|]. intros l _. by destruct (pthread_new _).
Qed.

Lemma main_life tr lm ln lsrv v B pc s : main_life_ok tr lm ln lsrv v B pc s.
Proof.
  destruct pc as [| | |p| |dpc|]; [| |apply life_accept|apply life_register| | |].
  - intros Hl. simpl. wsp_steps. by destruct (exit_program s).
  - intros Hl. simpl. by wsp_steps.
  - intros [(Hsrv & Hai & Hg & HB) (a & ps & [Hs Hti Hx Hl _])]. simpl. wsp_steps. apply wsp_in_listener, wsp_wp. unfold get_server.
    wp_steps. eapply wp_opt; [simpl; rewrite Hsrv; apply lookup_singleton_eq|]. wp_steps. apply wp_in_proc. unfold do_close. wp_steps.
    apply wsp_bind, wsp_get, wsp_ret. simpl. rewrite Hg, is_null_loc. split.
    + split; [|done]. rewrite Hsrv. apply delete_singleton_eq.
    + exists a, ps. by eapply (unlisten_life HI).
  - intros [(Hsrv & Hai & Hg) Hc].
    assert (dpc = D_Done \/ dpc <> D_Done) as [->|Hne] by (destruct dpc; auto; by right).
    + simpl. unfold teardown. wsp_steps. simpl. by destruct Hc.
    + assert (main_step (PLoc lsrv) (M_Destroy dpc) =
        bind mget (fun s0 => bind (in_server (destroy_step (g_connection_manager s0) dpc)) (fun pc' => ret (M_Destroy pc')))) as -> by by destruct dpc.
      wsp_steps. apply wsp_in_server. rewrite Hg.
      assert (exists a ps, shutting lm ln a ps dpc (h_server s)) as (a & ps & Hs)
        by (destruct dpc; [destruct Hc as (a & ps & Hs & _); by exists a, ps..|done]).
      pose proof (main_step_ok lm ln dpc (h_server s) a ps (shutting_inv _ _ _ _ _ _ Hs)) as Hok. unfold wsp in Hok |- * at 1.
      destruct (destroy_step (PLoc lm) dpc (h_server s)) as [[dpc' s']|f] eqn:Hrun.
      * apply wsp_ret. split; [done|]. by eapply (closing_step HI).
      * destruct Hok as [-> [?|Hw]]; [done|]. split; [done|]. right. left. by exists dpc.
  - intros _. apply wsp_fault. split; [done|]. by right; right.
Qed.

(** The threads and the network leave main's part alone. *)
Lemma life_others tr tr' lm ln lsrv v B pc s sv :
  carries (I := I) tr tr' lm ln (h_server s) sv ->
  (closing (I := I) tr lm ln B D_Done (h_server s) -> closing (I := I) tr' lm ln B D_Done sv) ->
  life tr lm ln lsrv v B pc s -> life tr' lm ln lsrv v B pc (set_h_server sv s).
Proof using Type.
  intros Hstep Hrelease.
  assert (forall own pd a ps, lobby tr lm ln own pd a ps (h_server s) -> exists a' ps', lobby tr' lm ln own pd a' ps' sv) as Hlobby.
  { intros own pd a ps [Hs Hti Hx Hl Hpd]. destruct (Hstep _ _ _ _ _ _ Hs Hti Hx) as (a' & ps' & Hs' & Hti' & Hx' & Hl' & Hpd').
    exists a', ps'. split; [done|done|done|intros fd Hfd; by apply Hl', Hl|]. intros lc la fd Hp. destruct (Hpd lc la fd Hp). auto. }
  destruct pc as [| | |p| |dpc|]; simpl.
  1-3,5: intros [Hli (a & ps & Hlo)]; by apply Hlobby in Hlo.
  - intros [Hli (a & ps & lc & la & fd & -> & Hlo)]. split; [done|]. apply Hlobby in Hlo as (a' & ps' & Hlo).
    by exists a', ps', lc, la, fd.
  - intros [Hli Hc]. split; [done|].
    destruct dpc; [destruct Hc as (a & ps & Hs & Hti & Has & Hx);
      destruct (Hstep _ _ _ _ _ _ Hs Hti Hx) as (a' & ps' & Hs' & Hti' & Hx' & Hl' & _);
      exists a', ps'; split_and!; [done|done|intros fd Hfd; by apply Hl', Has|done]..|]. exact (Hrelease Hc).
  - intros (Hli & Hr & Hlog). split; [exact Hli|]. split; [exact (Hrelease Hr)|exact Hlog].
Qed.

(** A run with its events, through states in which little waits on the sockets. *)
Inductive small_run (server : ptr) (x0 : host * main_pc) : trace -> host * main_pc -> Prop :=
  | small_nil : small_run server x0 [] x0
  | small_snoc tr x es y :
      small_run server x0 tr x -> sm (h_server x.1) -> main_trans server x es y -> small_run server x0 (tr ++ es) y.

Lemma life_input tr tr' lm ln lsrv v B pc s i : 
  (forall lm a ps, I tr lm a ps (h_server s) -> I tr' lm a ps (set_proc (set_in i (sv_proc (h_server s))) (h_server s))) ->
  life tr lm ln lsrv v B pc s -> life tr' lm ln lsrv v B pc (set_h_server (set_proc (set_in i (sv_proc (h_server s))) (h_server s)) s).
Proof using StL LL PL.
  intros Hi. apply life_others; [by apply input_life; auto|]. intros [[] (a & Hd & Hx)]. split; [done|]. exists a. auto.
Qed.
Lemma life_trans tr lm ln lsrv v B x es y :
  life tr lm ln lsrv v B x.2 x.1 -> sm (h_server x.1) -> main_trans (PLoc lsrv) x es y -> life (tr ++ es) lm ln lsrv v B y.2 y.1.
Proof using HI Hmem Hrel Hthr Hv4 NSL StL LL PL.
  intros Hl Hsmall Ht. destruct Ht as [s pc s' pc' Hrun|sig s pc _|sig s pc _|s pc|tid s s' pc Hrun|fd evs s pc|fd s pc Hfd]; simpl in *;
    rewrite ?app_nil_r.
  - exact (wsp_run _ _ _ _ _ Hrun (main_life tr lm ln lsrv v B pc s Hl)).
  - by destruct pc.
  - by destruct pc.
  - by destruct pc.
  - unfold in_server in Hrun. destruct (run_thread tid (h_server s)) as [[[] sv]|] eqn:E; [|done]. injection Hrun as <-.
    apply (life_others tr); [by eapply (thread_life HI)|intros [Hr _]; by rewrite (no_thread_runs _ _ (re_threads _ _ Hr)) in E|done].
  - apply (life_input tr); [|done]. intros. by apply (kt_arrive _ _ HI).
  - apply (life_input tr); [|done]. intros. by apply (kt_discard _ _ HI).
Qed.
Lemma life_run lm ln lsrv v B x tr y :
  life [] lm ln lsrv v B x.2 x.1 -> small_run (PLoc lsrv) x tr y -> life tr lm ln lsrv v B y.2 y.1.
Proof using HI Hmem Hrel Hthr Hv4 NSL StL LL PL.
  intros Hl Hr. induction Hr as [|tr x1 es y _ IH Hsm Ht]; [done|]. by eapply life_trans.
Qed.

(** *** The start *)

(** A process that has nothing yet, but for the descriptors that it was given. *)
Definition fresh (s : host) : Prop :=
  released (open_fds s) (h_server s) /\ h_servers s = ∅ /\ h_addrinfos s = 0%nat /\ forall fd, fd ∈ open_fds s -> 0 <= fd.

(** What [daemonize] adds to the descriptors, and what the process then has besides what it opens for its clients. *)
Definition open_more (fds : gset Z) : gset Z := if host_opens fds then {[lowest_free fds]} ∪ fds else fds.
Definition null_fds (fds : gset Z) : gset Z :=
  let dup fds := if decide (0 ∈ fds) then open_more fds else fds in dup (dup (open_more fds)).
Definition base_fds (argv : list bytes) (fds : gset Z) : gset Z :=
  match argv with
  | [_; a] => if bool_decide (a = str "-d") && host_setsid && host_chdir then null_fds fds else fds
  | _ => fds
  end.
Definition with_fds (fds : gset Z) (s : host) : host :=
  set_h_server (set_proc (set_fds fds (sv_proc (h_server s))) (h_server s)) s.

Lemma base_nonneg argv fds : (forall fd, fd ∈ fds -> 0 <= fd) -> forall fd, fd ∈ base_fds argv fds -> 0 <= fd.
Proof.
  assert (forall fds, (forall fd, fd ∈ fds -> 0 <= fd) -> forall fd, fd ∈ open_more fds -> 0 <= fd) as Hmore.
  { clear fds. intros fds Hf fd. unfold open_more. destruct (host_opens fds); [|apply Hf].
    intros [->%elem_of_singleton|?]%elem_of_union; [apply lowest_free_spec|by apply Hf]. }
  intros Hf. unfold base_fds, null_fds. destruct argv as [|? [|? []]]; try done. destruct (_ && _); [|done].
  repeat case_decide; repeat apply Hmore; done.
Qed.

Lemma start_life lm ln sv lsrv lfd port B s a :
  released B sv -> (lfd ∉ B) -> dev_is (p_dev (sv_proc sv)) a ∅ ->
  h_servers s = {[lsrv := TcpServerT lfd port]} -> h_addrinfos s = 0%nat -> g_connection_manager s = PLoc lm ->
  h_server s = set_managers {[lm := ConnectionManager (PLoc ln) false false PNull]}
    (set_proc (set_fds ({[lfd]} ∪ B) (set_heap {[ln := TARGET_FILENAME ++ [NUL]]} (sv_proc sv))) sv) ->
  I [] lm a ∅ (h_server s) -> life [] lm ln lsrv (TcpServerT lfd port) B M_Check s.
Proof using Type.
  intros [R1 R2 R3 _ R5 R6 R7] HB Hd Hsrv Hai Hg E Hx. split; [done|]. exists a, ∅. rewrite E in Hx |- *.
  set (sv1 := set_managers _ _).
  assert (shutting lm ln a ∅ D_Start sv1) as Hs.
  { apply (shut_initial_at lm ln (ConnectionManager (PLoc ln) false false PNull)); try done.
    - apply lookup_insert_eq.
    - eexists. split; [apply lookup_insert_eq|]. apply elem_of_app. right. left. }
  assert (forall tid t lx lc fd, ~ conn_of lm sv1 tid t lx lc fd) as Hno.
  { intros tid t lx lc fd [C _ _ _ _ _ _]. simpl in C. by rewrite R7 in C. }
  split; [exact Hs| |exact Hx| |done].
  - split; simpl; rewrite ?R2, ?R5; try by intros ? [].
    + unfold hp. simpl. intros l. rewrite lookup_singleton. case_decide; [by left|by intros []].
    + intros fd Hfd. by left.
    + intros l. rewrite lookup_singleton. case_decide; [done|by intros []].
  - intros fd Hfd. split; [done|]. intros tid t lx lc fd' Hco. by destruct (Hno _ _ _ _ _ Hco).
Qed.

(** Before it creates anything the process may exit. *)
Lemma setup_wsp s (Q : unit -> host -> Prop) :
  (forall g b, Q tt (set_log b (set_handlers g s))) -> wsp (fun f => f = Exited) setup Q s.
Proof using Type.
  intros HQ. unfold setup, do_sigaction, exit_process. wsp_steps. destruct (host_sigaction SIGTERM); wsp_steps; [|by apply wsp_fault].
  simpl. wsp_steps. destruct (host_sigaction SIGINT); wsp_steps; [|by apply wsp_fault]. simpl. wsp_steps. exact (HQ _ _).
Qed.
Lemma with_fds_id s : with_fds (open_fds s) s = s.
Proof using Type. by destruct s as [[[] ? ? ?] ? ? ? ? ? ? ?]. Qed.
Lemma open_null_eq s : exists z, do_open_null s = Done (z, with_fds (open_more (open_fds s)) s).
Proof using Type.
  unfold do_open_null, open_more, bind, mget. destruct (host_opens (open_fds s)); [by eexists|]. eexists. by rewrite with_fds_id.
Qed.
Lemma dup_eq fd s : exists z, do_dup fd s = Done (z, with_fds (if decide (fd ∈ open_fds s) then open_more (open_fds s) else open_fds s) s).
Proof using Type.
  unfold do_dup, open_more, bind, mget. case_bool_decide; [rewrite decide_True by done|rewrite decide_False, with_fds_id by done; by eexists].
  simpl. destruct (host_opens (open_fds s)); [by eexists|]. eexists. by rewrite with_fds_id.
Qed.
Lemma daemonize_wsp s (Q : bool -> host -> Prop) :
  (forall b, Q b (with_fds (if host_setsid && host_chdir then null_fds (open_fds s) else open_fds s) s)) ->
  wsp (fun f => f = Exited) daemonize Q s.
Proof using Type.
  intros HQ. unfold daemonize, exit_process. destruct host_fork as [pid|]; [|by apply wsp_fault].
  destruct (negb (pid =? 0)); [by apply wsp_fault|].
  destruct host_setsid, host_chdir; cbn [andb negb] in *; try (apply wsp_ret; specialize (HQ false); by rewrite with_fds_id in HQ).
  destruct (open_null_eq s) as [z1 E1]. set (s1 := with_fds _ s) in E1.
  destruct (dup_eq 0 s1) as [z2 E2]. set (s2 := with_fds _ s1) in E2. destruct (dup_eq 0 s2) as [z3 E3].
  unfold wsp, bind. rewrite E1, E2, E3. exact (HQ true).
Qed.
Lemma option_wsp argv s (Q : unit -> host -> Prop) :
  Q tt (with_fds (base_fds argv (open_fds s)) s) -> wsp (fun f => f = Exited) (match argv with
    | [_; a] => if bool_decide (a = str "-d") then daemonize;; ret tt else ret tt
    | _ => ret tt
    end) Q s.
Proof using Type.
  intros HQ. destruct argv as [|? [|a []]]; cbn [base_fds] in HQ; try (rewrite with_fds_id in HQ; by apply wsp_ret).
  case_bool_decide; cbn [andb] in HQ; wsp_steps; [|by rewrite with_fds_id in HQ].
  apply daemonize_wsp. intros _. wsp_steps. exact HQ.
Qed.

(** What is created is what main has in its loop; if the server does not listen, the process exits. *)
Lemma main_start_life argv s a :
  fresh s -> dev_is (p_dev (sv_proc (h_server s))) a ∅ -> (forall lm sv, ended (h_server s) sv -> I [] lm a ∅ sv) -> wsp (fun f => f = Exited) (main_start argv)
    (fun server s' => exists lm ln lsrv v, server = PLoc lsrv /\ life [] lm ln lsrv v (base_fds argv (open_fds s)) M_Check s') s.
Proof using Hmem NSL LL StL PL.
  clear HI Hrel Hthr Hv4. intros (Hr & Hsrv & Hai & Hnn) Hd Hx. pose proof Hr as [R1 R2 _ _ R5 R6 R7]. unfold main_start, exit_process.
  pose proof (base_nonneg argv (open_fds s) Hnn) as HB. wsp_steps. apply setup_wsp. intros g b. wsp_steps. apply option_wsp. wsp_steps.
  set (B := base_fds argv (open_fds s)). change (base_fds argv _) with B. change (forall fd, fd ∈ B -> 0 <= fd) in HB. clearbody B.
  apply wsp_in_server, wsp_wp, create_manager_wp; [done|vm_compute; congruence|]. intros lm ln _ _.
  wsp_steps. change (is_null (PLoc lm)) with false. cbn iota. wsp_steps. apply wsp_in_listener, wsp_wp, tcp_server_create_wp; [done|..].
  - unfold ls_fds. simpl. intros Hin%HB. lia.
  - change (is_null PNull) with true. cbn iota. by apply wsp_fault.
  - intros lfd lsrv Hlfd _. change (is_null (PLoc lsrv)) with false. cbn iota. wsp_steps.
    apply wsp_in_listener, wsp_wp. unfold tcp_server_listen_for_connections, get_server, do_listen. wp_steps.
    eapply wp_opt; [apply lookup_insert_eq|]. wp_steps. apply on_fd_wp.
    destruct (_ =? -1); wp_steps; simpl.
    + apply wsp_bind, wsp_in_listener, wsp_wp. unfold get_server. wp_steps. eapply wp_opt; [apply lookup_insert_eq|].
      wp_steps. apply wp_in_proc. unfold do_close. wp_steps. by apply wsp_fault.
    + apply wsp_ret. exists lm, ln, lsrv, (TcpServerT lfd (str "9000")). split; [done|].
      eapply (start_life lm ln (set_proc (set_fds B (sv_proc (h_server s))) (h_server s)) _ _ _ B); [split; try done; by exists a| |exact Hd|simpl; by rewrite Hsrv|done|done| |by apply Hx].
      * exact Hlfd.
      * unfold set_managers, set_proc, set_fds, set_heap, ls_fds. simpl. unfold hp in R1. rewrite R1, R6.
        done.
Qed.

(** The threads have the invariants of [ServerThreads] and [ThreadSafety], or there are none. *)
Definition serving_or_done (tr : trace) (lm : loc) (s : server) : Prop :=
  (exists a ps, sys_inv lm s a ps /\ mem_inv lm s /\ I tr lm a ps s) \/
  sv_threads s = ∅ /\ exists a, dev_is (p_dev (sv_proc s)) a ∅ /\ I tr lm a ∅ s.

Lemma life_threads tr lm ln lsrv v B pc s :
  life tr lm ln lsrv v B pc s -> serving_or_done tr lm (h_server s) /\ (g_connection_manager s = PLoc lm \/ sv_threads (h_server s) = ∅).
Proof using Type.
  assert (forall dpc a ps, shutting lm ln a ps dpc (h_server s) -> I tr lm a ps (h_server s) -> serving_or_done tr lm (h_server s)) as Hsh.
  { intros dpc a ps [Hi Hm _ _] Hx. left. by exists a, ps. }
  assert (closing (I := I) tr lm ln B D_Done (h_server s) -> serving_or_done tr lm (h_server s) /\ sv_threads (h_server s) = ∅) as Hcl.
  { intros (Hr & a & Hd & Hx). split; [right; split; [apply Hr|by exists a]|apply Hr]. }
  destruct pc as [| | |p| |dpc|]; simpl.
  1-3,5: intros [(_ & _ & Hg & _) (a & ps & [Hs _ Hx _ _])]; split; [by eapply Hsh|by left].
  - intros [(_ & _ & Hg & _) (a & ps & ? & ? & ? & _ & [Hs _ Hx _ _])]. split; [by eapply Hsh|by left].
  - intros [(_ & _ & Hg) Hc]. destruct dpc; [destruct Hc as (a & ps & Hs & _ & _ & Hx); split; [by eapply Hsh|by left]..|].
    destruct (Hcl Hc). auto.
  - intros (_ & Hc & _). destruct (Hcl Hc). auto.
Qed.

(** The device has a state, the threads have what is theirs, and the other property holds. *)
Lemma serving_kept tr lm s : serving_or_done tr lm s ->
  exists a ps, dev_is (p_dev (sv_proc s)) a ps /\ I tr lm a ps s /\
    forall tid t, sv_threads s !! tid = Some t -> th_pc t <> T_Done -> exists lx lc fd, conn_of lm s tid t lx lc fd.
Proof using Type.
  intros [(a & ps & [Hd _ Ht _ _ _ _ _] & _ & Hx)|(E & a & Hd & Hx)]; [by exists a, ps|].
  exists a, ∅. split; [done|]. split; [done|]. intros tid t Ht. by rewrite E in Ht.
Qed.

(** From the start to any later state. *)
Lemma life_reached argv s0 server s1 a tr s pc :
  fresh s0 -> dev_is (p_dev (sv_proc (h_server s0))) a ∅ -> (forall lm sv, ended (h_server s0) sv -> I [] lm a ∅ sv) ->
  main_start argv s0 = Done (server, s1) -> small_run server (s1, M_Check) tr (s, pc) ->
  exists lm ln lsrv v, server = PLoc lsrv /\ life tr lm ln lsrv v (base_fds argv (open_fds s0)) pc s.
Proof using HI Hmem Hrel Hthr Hv4 NSL StL LL PL.
  intros Hf Hd Hx Hrun Hr. destruct (wsp_run _ _ _ _ _ Hrun (main_start_life argv s0 a Hf Hd Hx)) as (lm & ln & lsrv & v & -> & Hl).
  exists lm, ln, lsrv, v. split; [done|]. exact (life_run lm ln lsrv v _ (s1, M_Check) tr (s, pc) Hl Hr).
Qed.
End run.

(** C8: the server's life. From a process that has nothing but the descriptors it was given, main's
    start either exits or comes to the loop; then, whatever the clients send, whenever signals come, and however main
    and the threads are interleaved, main's next step returns, except that accept waits while no client does, pthread_join
    waits while its thread has not ended, and main has returned; no thread ever touches memory that is
    not live; and when main returns nothing is left over: every object, connection, context and the
    manager is freed, every socket and device descriptor is closed, every thread is joined, and the
    log is closed. The descriptors that are open then are [base_fds]: those that were given and, with "-d", the
    up to three that [daemonize] opens and nobody closes. (With enough memory and threads, a device that opens,
    IPv4 clients, and never a GiB waiting on a socket.) *)
Theorem server_lifetime (FD : FileDev) (L : Libc) (N : Sockets) (St : Stdio) (P : Pthreads) (NS : NetSetup) (H : Host)
    (FDL : FileDevLaws FD) (LL : LibcLaws L) (StL : StdioLaws St) (PL : PthreadsLaws P) (NSL : NetSetupLaws NS)
    argv s0 :
  malloc_succeeds L -> dev_reliable FD FDL -> (forall ts, is_Some (pthread_new ts)) -> clients_ipv4 -> fresh s0 ->
  (forall f, main_start argv s0 = Fault f -> f = Exited) /\
  forall server s1 tr s pc, main_start argv s0 = Done (server, s1) ->
    small_run input_small server (s1, M_Check) tr (s, pc) -> input_small (h_server s) ->
    (forall f, main_step server pc s = Fault f -> main_waits pc s f) /\
    (forall lm tid t f, g_connection_manager s = PLoc lm -> sv_threads (h_server s) !! tid = Some t -> th_pc t <> T_Done ->
       run_thread tid (h_server s) = Fault f -> may_fault lm (h_server s) (th_connection t) (th_pc t) f) /\
    (pc = M_Exited -> released (base_fds argv (open_fds s0)) (h_server s) /\ h_servers s = ∅ /\ h_addrinfos s = 0%nat /\
       g_connection_manager s = PNull /\ h_log s = false).
Proof.
  intros Hmem Hrel Hthr Hv4 Hfresh. pose proof kept_nothing as HI. destruct (re_dev _ _ (proj1 Hfresh)) as [a Hd].
  pose proof (main_start_life (fun _ _ _ _ _ => True) Hmem argv s0 a Hfresh Hd (fun _ _ _ => Logic.I)) as Hstart.
  split; [intros f Hf; exact (wsp_no_fault _ _ _ _ Hf Hstart)|]. intros server s1 tr s pc Hrun Hr Hsmall.
  destruct (life_reached _ _ HI Hmem Hrel Hthr Hv4 argv s0 server s1 a tr s pc Hfresh Hd (fun _ _ _ => Logic.I) Hrun Hr)
    as (lm & ln & lsrv & v & -> & Hlife). split_and!.
  - intros f Hf. exact (wsp_no_fault _ _ _ _ Hf (main_life _ _ HI Hmem Hthr Hv4 tr lm ln lsrv v _ pc s Hlife)).
  - intros lm' tid t f Hg Ht Hal Hf. destruct (life_threads _ tr lm ln lsrv v _ pc s Hlife) as [[(a' & ps & Hi & Hmi & _)|[E _]] [Hg'|E']];
      try (rewrite E in Ht || rewrite E' in Ht; done). assert (lm' = lm) as -> by congruence. by eapply run_thread_safe.
  - intros ->. destruct Hlife as ((? & ? & ?) & [? _] & ?). by split_and!.
Qed.

(** ** Witness: a daemon; one client comes and hangs up, and a signal ends the server *)

(** What may happen next. *)
Inductive move := Own | Signal (sig : Z) | Client | Run (tid : Z) | Arrive (fd : Z) (evs : list recv_event).

Section moves.
Context `{FD : FileDev} {L : Libc} {N : Sockets} {St : Stdio} {P : Pthreads} {NS : NetSetup}.

Definition make_move (server : ptr) (m : move) (x : host * main_pc) : option (trace * (host * main_pc)) :=
  match m with
  | Own => match main_step server x.2 x.1 with Done (pc, s) => Some ([], (s, pc)) | _ => None end
  | Signal sig => if bool_decide (sig ∈ h_handlers x.1) then Some ([], (signal_handler x.1, interrupted x.2)) else None
  | Client => Some ([], (set_clients (S (h_clients x.1)) x.1, x.2))
  | Run tid => match in_server (run_thread tid) x.1 with Done (_, s) => Some (line_events tid (h_server x.1), (s, x.2)) | _ => None end
  | Arrive fd evs => Some ([SE_Arrive fd evs], (set_h_server (arrive fd evs (h_server x.1)) x.1, x.2))
  end.
Definition small_b (n : Z) (s : server) : bool := bool_decide (map_Forall (fun _ evs => zlen evs < n) (p_in (sv_proc s))).
Fixpoint make_moves (n : Z) (server : ptr) (ms : list move) (x : host * main_pc) : option (trace * (host * main_pc)) :=
  match ms with
  | [] => Some ([], x)
  | m :: ms =>
      if small_b n (h_server x.1) then
        match make_move server m x with
        | Some (es, y) => match make_moves n server ms y with Some (tr, z) => Some (es ++ tr, z) | None => None end
        | None => None
        end
      else None
  end.

Lemma small_b_ok n s : 0 < n -> small_b n s = true -> forall fd, zlen (in_of (sv_proc s) fd) < n.
Proof.
  intros Hn Hb%bool_decide_eq_true fd. unfold in_of. destruct (p_in (sv_proc s) !! fd) as [evs|] eqn:E; [exact (Hb _ _ E)|done].
Qed.
Lemma make_move_ok server m x es y : make_move server m x = Some (es, y) -> main_trans server x es y.
Proof.
  destruct x as [s pc], m; simpl.
  - destruct (main_step server pc s) as [[pc' s']|] eqn:E; [|done]. intros [= <- <-]. by apply main_own.
  - case_bool_decide; [|done]. intros [= <- <-]. by eapply main_signal.
  - intros [= <- <-]. apply main_client.
  - destruct (in_server (run_thread tid) s) as [[[] s']|] eqn:E; [|done]. intros [= <- <-]. by eapply main_thread.
  - intros [= <- <-]. apply main_arrive.
Qed.
Lemma make_moves_from (sm : server -> Prop) n server ms x0 : (forall s, small_b n s = true -> sm s) ->
  forall tr0 x tr y, small_run sm server x0 tr0 x -> make_moves n server ms x = Some (tr, y) -> small_run sm server x0 (tr0 ++ tr) y.
Proof.
  intros Hsm. induction ms as [|m ms IH]; intros tr0 x tr y Hr; simpl; [intros [= <- <-]; by rewrite app_nil_r|].
  destruct (small_b n (h_server x.1)) eqn:Hb; [|done]. destruct (make_move server m x) as [[es z]|] eqn:Hm; [|done].
  destruct (make_moves n server ms z) as [[tr1 z1]|] eqn:E; [|done]. intros [= <- <-]. rewrite app_assoc.
  eapply IH; [|exact E]. eapply small_snoc; [exact Hr|by apply Hsm|by apply (make_move_ok _ m)].
Qed.
Lemma make_moves_ok (sm : server -> Prop) n server ms x tr y :
  (forall s, small_b n s = true -> sm s) -> make_moves n server ms x = Some (tr, y) -> small_run sm server x tr y.
Proof. intros Hsm. apply (make_moves_from sm n server ms x Hsm [] x tr y), small_nil. Qed.
End moves.

(** There is always a thread more. *)
#[export] Instance many_pthreads : Pthreads := fun ts => Some (1 + foldr Z.max 0 (elements ts)).
#[export] Instance many_pthreads_laws : PthreadsLaws many_pthreads.
Proof.
  assert (forall (l : list Z) t, t ∈ l -> t <= foldr Z.max 0 l) as Hmax.
  { intros l t. induction 1; simpl; lia. }
  split. intros ts t [= <-] Hin. apply elem_of_elements, Hmax in Hin. lia.
Qed.

(** A process with the three standard descriptors. *)
Definition first_state : host :=
  HostState spec_dev (Server _ (Proc spec_dev ∅ ∅ {[0; 1; 2]} ∅ ∅ (sample_dstate, ∅)) ∅ ∅ ∅) ∅ 0 false PNull ∅ false 0.
Definition start_with (argv : list bytes) : ptr * host :=
  match main_start (NS := sample_net addr4) (H := sample_host) argv first_state with
  | Done r => r
  | Fault _ => (PNull, first_state)
  end.
Definition daemon_argv : list bytes := [str "aesdsocket"; str "-d"].
(** The client sends a line and hangs up while main is being told to end. *)
Definition one_client : list move :=
  [Client; Own; Own; Own; Own] ++ replicate 2 (Run 1) ++ [Arrive 8 (RecvByte <$> str "hi" ++ [NL])] ++ replicate 7 (Run 1) ++
  [Signal SIGTERM; Own; Own; Own; Own] ++ replicate 4 (Run 1) ++ replicate 5 Own.
Definition last_state : option (trace * (host * main_pc)) :=
  make_moves (P := many_pthreads) (NS := sample_net addr4) (2 ^ 30) (start_with daemon_argv).1 one_client ((start_with daemon_argv).2, M_Check).

Lemma sample_net_ipv4 : clients_ipv4 (NS := sample_net addr4).
Proof. intros fds lfd fd addr. simpl. case_decide; [|case_decide; [|done]]; by intros [= _ <-]. Qed.
Lemma first_state_fresh : fresh first_state.
Proof.
  split_and!; try done.
  - split; try done. exists sample_dstate. split; [reflexivity|apply sample_dstate_ok].
  - intros fd Hfd. change (fd ∈ ({[0; 1; 2]} : gset Z)) in Hfd. rewrite !elem_of_union, !elem_of_singleton in Hfd. lia.
Qed.

Lemma sample_start argv :
  match main_start (NS := sample_net addr4) (H := sample_host) argv first_state with Done _ => true | Fault _ => false end = true ->
  main_start (NS := sample_net addr4) (H := sample_host) argv first_state = Done ((start_with argv).1, (start_with argv).2).
Proof. unfold start_with. by destruct (main_start _ _) as [[p s]|f]. Qed.

Lemma server_lifetime_witness : exists tr s,
  last_state = Some (tr, (s, M_Exited)) /\ history tr = [(8, str "hi")] /\ released {[0; 1; 2; 3; 4; 5]} (h_server s).
Proof.
  assert (match last_state with
    | Some (tr, (s, M_Exited)) => bool_decide (history tr = [(8, str "hi")]) && small_b (2 ^ 30) (h_server s)
    | _ => false
    end = true) as Hend by (vm_compute; reflexivity).
  assert (base_fds (H := sample_host) daemon_argv {[0; 1; 2]} = {[0; 1; 2; 3; 4; 5]}) as Hb
    by (apply (bool_decide_eq_true_1 (base_fds (H := sample_host) daemon_argv {[0; 1; 2]} = {[0; 1; 2; 3; 4; 5]})); vm_compute; reflexivity).
  pose proof (server_lifetime spec_dev sample_libc sample_sockets buffered_stdio many_pthreads (sample_net addr4) sample_host
    spec_dev_laws sample_libc_laws buffered_stdio_laws many_pthreads_laws (sample_net_laws addr4) daemon_argv first_state
    sample_malloc_succeeds spec_dev_reliable (fun ts => mk_is_Some _ _ eq_refl) sample_net_ipv4 first_state_fresh) as [_ Hlife].
  unfold last_state in *. destruct (make_moves _ _ _ _) as [[tr [s pc]]|] eqn:E; [|discriminate Hend]. destruct pc; try discriminate Hend.
  apply andb_true_iff in Hend as [Hh%bool_decide_eq_true Hsmall]. exists tr, s. split; [reflexivity|]. split; [exact Hh|].
  rewrite <- Hb. refine (proj1 (proj2 (proj2 (Hlife _ _ tr s M_Exited (sample_start daemon_argv _) _ _)) eq_refl)).
  - vm_compute. reflexivity.
  - exact (make_moves_ok input_small (2 ^ 30) _ _ _ _ _ (fun s => small_b_ok (2 ^ 30) s eq_refl) E).
  - exact (small_b_ok (2 ^ 30) _ eq_refl Hsmall).
Defined.
