(* ===== verification/ServerRefines.v ===== *)
(** The whole server refines the atomic server.

    [follows] is kept by every step of the process ([follows_kept]), so that [ServerRun.life] carries it from
    the start of [main] to its end: whatever the schedule of the threads, the signals and the clients
    is, there is a run of the atomic server with the same events that has the same device, the same unread
    input and the same output. *)

From S2P Require Import Prelude CMonad KHeap Libc DeviceSpec FileDev Process TcpConnection TcpReceive TcpSend TcpProperties ReceiveSafety SList ConnectionManager ServerSpec HandleMessage Session ManagerLife ServerProperties ThreadFrame ThreadMemory ServerThreads Answers ThreadSafety ServerEvents AtomicServer AtomicRefinement Shutdown TcpServer TcpServerProperties ServerMain ServerMainProperties ServerLife ServerRun.
Local Open Scope Z_scope.
Local Open Scope cmonad_scope.

Section refines.
Context `{FD : FileDev} {L : Libc} {N : Sockets} {St : Stdio} {P : Pthreads} {NS : NetSetup} {H : Host}.
Context {FDL : FileDevLaws FD} {StL : StdioLaws St} {LL : LibcLaws L} {PL : PthreadsLaws P} {NSL : NetSetupLaws NS}.

(** A run of the atomic server from [x0], with the events [tr], that the state matches. *)
Definition follows (x0 : atomic) (tr : trace) (lm : loc) (a : dstate) (ps : gmap Z Z) (s : server) : Prop :=
  exists x, atomic_run x0 tr x /\ serves lm s a ps x.

Lemma follows_kept x0 : good_system -> kept lines_small (follows x0).
Proof using LL StL PL.
  intros Hg. split.
  - apply lines_input.
  - intros tr lm s s1 a ps tid t lx lc la fd c pc' Hsm Hi Hmi (x & Hr & Hx) Hco Hc Ha Hfp Hme Hst s'.
    destruct (step_serves _ _ _ _ _ _ _ _ _ _ _ _ _ _ Hg Hsm Hi Hmi Hx Hco Hc Ha Hfp Hme Hst) as (a' & ps' & x' & Hs & Hi' & He & Hx').
    exists a', ps'. split; [done|]. split; [done|]. exists x'. split; [|done].
    destruct Hs as [[-> ->]|Hs]; [by rewrite app_nil_r|by eapply atomic_snoc].
  - intros tr lm a ps fd evs s (x & Hr & Hx). destruct (serves_arrive _ _ _ _ _ fd evs Hx) as (x' & Hs & Hx').
    exists x'. split; [by eapply atomic_snoc|done].
  - intros tr lm a ps fd s (x & Hr & Hx) Hfd. destruct (serves_discard _ _ _ _ _ fd Hx Hfd) as (x' & Hs & Hx').
    exists x'. split; [by eapply atomic_snoc|done].
  - intros tr lm s a ps fd lc la addr Hi (x & Hr & Hx) Hlc Hla. exists x. split; [done|]. by apply serves_connected.
  - intros tr lm s a ps lc c b s' Hi (x & Hr & Hx) Hc Hun Hrun. exists x. split; [done|]. by eapply serves_register.
  - intros tr lm s s' a ps (x & Hr & Hx) [Hco Ein Eout Ecn Ehp]. exists x. split; [done|].
    eapply serves_more; [exact Hx|done|done|by rewrite Ecn|by rewrite Ehp|intros; by apply Hco|intros; left; by apply Hco].
  - intros tr lm s s' a ps (x & Hr & [H1 H2 H3 H4 H5 H6 H7]) [E1 E2 E3 E4 E5]. exists x. split; [done|].
    assert (forall sv, sv_threads sv = ∅ -> forall tid t lx lc fd, ~ conn_of lm sv tid t lx lc fd) as Hno.
    { intros sv E tid t lx lc fd [Ht _ _ _ _ _ _]. by rewrite E in Ht. }
    split; [done|done|by rewrite E4|..]; try (intros; exfalso; by eapply (Hno s')).
    + intros fd (tid & t & lx & lc & Hco)%H5. by destruct (Hno s E1 _ _ _ _ _ Hco).
    + apply (sent_more lm s); [done|done| |]; intros tid t lx lc fd Hco; exfalso; [by eapply (Hno s)|by eapply (Hno s')].
Qed.

(** At the start the atomic server has what is on the sockets, and no messages. *)
Definition atomic_start (a : dstate) (s : server) : atomic := Atomic a (p_in (sv_proc s)) ∅ (p_out (sv_proc s)).
Lemma follows_start lm a s sv : pending a = [] -> ended s sv -> follows (atomic_start a s) [] lm a ∅ sv.
Proof using Type.
  intros Hp [_ E _ Ein Eout]. exists (atomic_start a s). split; [apply atomic_nil|].
  assert (forall tid t lx lc fd, ~ conn_of lm sv tid t lx lc fd) as Hno.
  { intros tid t lx lc fd [Ht _ _ _ _ _ _]. by rewrite E in Ht. }
  split; try done; try (intros; exfalso; by eapply Hno).
  - intros fd [? Hm]. simpl in Hm. by rewrite lookup_empty in Hm.
  - apply sent_none; [done|]. intros fd. unfold at_out_of, out_of. simpl. by rewrite Eout.
Qed.

(** What the state [s] shows of the atomic server's [x]: everything, but while an answer is being sent
    only a prefix of it. *)
Record shows (s : server) (x : atomic) : Prop := {
  sh_dev : exists ps, dev_is (p_dev (sv_proc s)) (at_dev x) ps;
  sh_in fd : in_of (sv_proc s) fd = at_in_of x fd;
  sh_msg fd m : at_msg x !! fd = Some m <-> holding s fd m;
  sh_out fd : ~ sending s fd -> out_of (sv_proc s) fd = at_out_of x fd;
  sh_prefix fd : out_of (sv_proc s) fd `prefix_of` at_out_of x fd;
}.

Lemma serves_shows lm s a ps x :
  dev_is (p_dev (sv_proc s)) a ps ->
  (forall tid t, sv_threads s !! tid = Some t -> th_pc t <> T_Done -> exists lx lc fd, conn_of lm s tid t lx lc fd) ->
  serves lm s a ps x -> shows s x.
Proof using Type.
  intros Hd Hal Hx. split; [exists ps; by rewrite (sr_dev _ _ _ _ _ Hx)|by intros; unfold in_of, at_in_of; rewrite (sr_in _ _ _ _ _ Hx)|intros; by eapply serves_holding| |];
    intros fd; apply (sent_shown (FT := laws_table) lm s a ps (at_out_of x) fd Hal (sr_sent _ _ _ _ _ Hx)).
Qed.
End refines.

(** C2: the whole server is linearizable. Whatever the schedule of main, the threads, the signals and
    the clients is, from the start of the process to its exit, the run has a trace [tr] of what arrived on the
    sockets and of the lines that threads handled, each at its step. The atomic server, which serves a message in one
    step, can make exactly these events, and the state shows its state: it has the
    same device, the same unread input, the same messages received and not handled, and has sent the same bytes on
    every socket, except that a thread which is sending an answer has sent a prefix of it. So the device and all answers are
    those of the messages handled, one after the other in the order of the trace; and on every socket the lines that
    arrived since its input was last discarded are those handled, in their order and each once, then the one
    that a thread holds, then those that wait to be read. (With enough memory and threads, a device that opens,
    a network that takes what is sent, IPv4 clients, a device without an incomplete command at the start, and
    never as much unread on a socket as the longest command.) *)
Theorem server_refines_atomic (FD : FileDev) (L : Libc) (N : Sockets) (St : Stdio) (P : Pthreads) (NS : NetSetup) (H : Host)
    (FDL : FileDevLaws FD) (LL : LibcLaws L) (StL : StdioLaws St) (PL : PthreadsLaws P) (NSL : NetSetupLaws NS)
    argv s0 a0 server s1 tr s pc :
  good_system -> (forall ts, is_Some (pthread_new ts)) -> clients_ipv4 ->
  fresh s0 -> dev_is (p_dev (sv_proc (h_server s0))) a0 ∅ -> pending a0 = [] ->
  main_start argv s0 = Done (server, s1) -> small_run lines_small server (s1, M_Check) tr (s, pc) ->
  exists x, atomic_run (atomic_start a0 (h_server s0)) tr x /\ shows (h_server s) x /\
    at_dev x = device_after a0 (history tr) /\
    (forall fd, at_out_of x fd = out_of (sv_proc (h_server s0)) fd ++ answers fd a0 (history tr)) /\
    (forall fd, lines_of [] (arrived fd (in_of (sv_proc (h_server s0)) fd) tr) =
       handled fd tr ++ at_held x fd ++ lines_of [] (in_of (sv_proc (h_server s)) fd)).
Proof.
  intros Hg Hthr Hv4 Hf Hd Hp Hrun Hr. pose proof Hg as (Hmem & Hrel & _).
  destruct (life_reached _ _ (follows_kept (atomic_start a0 (h_server s0)) Hg) Hmem Hrel Hthr Hv4 argv s0 server s1 a0 tr s pc
    Hf Hd (fun lm sv => follows_start lm a0 _ sv Hp) Hrun Hr) as (lm & ln & lsrv & v & -> & Hl).
  destruct (serving_kept _ _ _ _ (proj1 (life_threads _ _ _ _ _ _ _ _ _ Hl))) as (a & ps & Hd' & (x & Hx & Hsv) & Hal).
  destruct (atomic_replies _ _ _ Hx) as [Hh Ho]. pose proof (serves_shows _ _ _ _ _ Hd' Hal Hsv) as Hsh.
  exists x. split; [done|]. split; [done|]. split; [done|]. split; [done|]. intros fd. rewrite (sh_in _ _ Hsh).
  exact (atomic_accounts _ _ _ Hx eq_refl fd).
Qed.

(** ** Witness: two clients at the same time

    One client has its whole answer; the other's line is in the device, and a part of its answer is sent;
    a second line of the first client waits. *)

Definition started : ptr * host := start_with [str "aesdsocket"].
Definition two_clients : list move :=
  [Client; Client] ++ replicate 8 Own ++ [Run 1; Run 2; Run 1; Run 2;
   Arrive 8 (RecvByte <$> str "one" ++ [NL]); Arrive 9 (RecvByte <$> str "two" ++ NL :: str "next" ++ [NL])] ++
  [Run 2; Run 1; Run 2; Run 2; Run 1; Run 2] ++ replicate 4 (Run 2) ++ replicate 3 (Run 1).
Definition between : option (trace * (host * main_pc)) :=
  make_moves (P := many_pthreads) (NS := sample_net addr4) 4096 started.1 two_clients (started.2, M_Check).

(** The schedule can be carried out; where it leads. *)
Lemma between_reached : exists tr s, between = Some (tr, (s, M_Check)) /\
  small_run (NS := sample_net addr4) lines_small started.1 (started.2, M_Check) tr (s, M_Check) /\ lines_small (h_server s) /\
  history tr = [(9, str "two"); (8, str "one")] /\ handled 9 tr = [str "two"] /\
  sending (h_server s) 8 /\ out_of (sv_proc (h_server s)) 8 = str "abc" ++ [NL] /\
  lines_of [] (in_of (sv_proc (h_server s)) 9) = [str "next"].
Proof.
  assert (match between with
    | Some (tr, (s, M_Check)) => bool_decide (out_of (sv_proc (h_server s)) 8 = str "abc" ++ [NL]) &&
        bool_decide (history tr = [(9, str "two"); (8, str "one")] /\ handled 9 tr = [str "two"]) &&
        bool_decide (lines_of [] (in_of (sv_proc (h_server s)) 9) = [str "next"]) &&
        match sv_threads (h_server s) !! 1 with Some t => sends_on (h_server s) 8 t | None => false end &&
        small_b 4096 (h_server s)
    | _ => false
    end = true) as Hend by (vm_compute; reflexivity).
  unfold between in *. destruct (make_moves _ _ _ _) as [[tr [s pc]]|] eqn:E; [|discriminate Hend].
  destruct pc; try discriminate Hend. apply andb_true_iff in Hend as [Hend Hb]. apply andb_true_iff in Hend as [Hend Hs].
  apply andb_true_iff in Hend as [Hend Hnext%bool_decide_eq_true].
  apply andb_true_iff in Hend as [Hout8%bool_decide_eq_true Htr%bool_decide_eq_true].
  assert (forall s', small_b 4096 s' = true -> lines_small s') as Hsm.
  { intros s' Hb' fd. pose proof (small_b_ok 4096 s' eq_refl Hb' fd) as Hl. change (dev_max (FD := spec_dev)) with 4194304. lia. }
  exists tr, s. split; [reflexivity|]. split; [exact (make_moves_ok lines_small 4096 _ _ _ _ _ Hsm E)|]. split; [exact (Hsm _ Hb)|].
  split; [exact (proj1 Htr)|]. split; [exact (proj2 Htr)|]. split; [|split; [exact Hout8|exact Hnext]].
  destruct (sv_threads (h_server s) !! 1) as [t|] eqn:Ht; [|discriminate Hs]. exists 1, t. exact (conj Ht Hs).
Qed.

Lemma server_refines_atomic_witness :
  exists tr s x, between = Some (tr, (s, M_Check)) /\ history tr = [(9, str "two"); (8, str "one")] /\ sending (h_server s) 8 /\
    out_of (sv_proc (h_server s)) 8 = str "abc" ++ [NL] /\
    atomic_run (atomic_start sample_dstate (h_server first_state)) tr x /\ shows (h_server s) x /\
    at_out_of x 8 = answers 8 sample_dstate [(9, str "two"); (8, str "one")] /\
    lines_of [] (arrived 9 [] tr) = [str "two"] ++ at_held x 9 ++ [str "next"].
Proof.
  destruct between_reached as (tr & s & E & Hreach & _ & Hh & H9 & Hs & H8 & Hnext).
  destruct (server_refines_atomic spec_dev sample_libc sample_sockets buffered_stdio many_pthreads (sample_net addr4) sample_host
    spec_dev_laws sample_libc_laws buffered_stdio_laws many_pthreads_laws (sample_net_laws addr4) [str "aesdsocket"] first_state
    sample_dstate started.1 started.2 tr s M_Check (conj sample_malloc_succeeds (conj spec_dev_reliable sample_net_reliable))
    (fun ts => mk_is_Some _ _ eq_refl) sample_net_ipv4 first_state_fresh) as (x & Hr & Hsh & _ & Ho & Hin).
  - split; [reflexivity|apply sample_dstate_ok].
  - reflexivity.
  - exact (sample_start [str "aesdsocket"] ltac:(vm_compute; reflexivity)).
  - exact Hreach.
  - specialize (Ho 8). specialize (Hin 9). rewrite Hh in Ho. rewrite H9, Hnext in Hin.
    exists tr, s, x. exact (conj E (conj Hh (conj Hs (conj H8 (conj Hr (conj Hsh (conj Ho Hin))))))).
Defined.
