(* ===== verification/Progress.v ===== *)
(** Every line is answered.

    While nothing arrives, every step of a thread brings it nearer to the call of [recv] that waits:
    [drain_rank] counts, for each event that waits on the thread's socket, the steps of one
    message, and the steps of the message that it works on. So the threads come to rest after a
    number of steps that is known in advance; they rest in [recv], with every line served
    and answered. *)

From S2P Require Import Prelude CMonad KHeap Libc DeviceSpec FileDev Process TcpConnection TcpReceive TcpSend TcpProperties ReceiveSafety SList ConnectionManager ServerSpec HandleMessage Session ManagerLife ServerProperties ThreadFrame ThreadMemory ServerThreads Answers ThreadSafety ServerEvents AtomicServer AtomicRefinement Shutdown ShutdownEnds TcpServer TcpServerProperties ServerMain ServerMainProperties ServerLife ServerRun ServerRefines.
Local Open Scope Z_scope.
Local Open Scope cmonad_scope.

Section progress.
Context `{FD : FileDev} {L : Libc} {N : Sockets} {St : Stdio} {P : Pthreads}.
Context {FDL : FileDevLaws FD} {StL : StdioLaws St} {LL : LibcLaws L} {PL : PthreadsLaws P}.

(** The thread's connection, and how many events wait on its socket. *)
Definition own_conn (s : server) (t : thread) : option tcp_connection :=
  match th_ctx t with
  | PLoc lx =>
      match sv_ctxs s !! lx with
      | Some x => match ctx_connection x with PLoc lc => p_conns (sv_proc s) !! lc | _ => None end
      | None => None
      end
  | _ => None
  end.
Definition waiting_events (s : server) (t : thread) : nat :=
  match own_conn s t with Some c => length (in_of (sv_proc s) (c_socket c)) | None => 0 end.
Definition still_open (s : server) (t : thread) : bool :=
  match own_conn s t with Some c => c_is_open c | None => false end.

Lemma own_conn_of lm s tid t lx lc fd : conn_of lm s tid t lx lc fd ->
  exists c, own_conn s t = Some c /\ p_conns (sv_proc s) !! lc = Some c /\ c_socket c = fd.
Proof using Type.
  intros [_ _ Hctx (x & Hx & _ & Hxc) _ (c & Hc & Hs) _]. exists c. split; [|done]. unfold own_conn. by rewrite Hctx, Hx, Hxc.
Qed.

(** The steps until the thread is back at its loop's condition, counted from there; [open_] is whether
    the loop goes on. *)
Definition message_rank (a : dstate) (ps : gmap Z Z) (open_ : bool) (pc : thread_pc) : nat :=
  match pc with
  | T_Done => 0
  | T_Exit => 1
  | T_While => if open_ then 3 else 2
  | T_Receive => 2
  | T_Start | T_Close _ _ => 4
  | T_Unlock _ _ => 5
  | T_Send f _ => 6 + remaining a ps f
  | T_Handle _ _ => 7 + most_rounds
  | T_Lock _ _ => 8 + most_rounds
  | T_Open _ => 9 + most_rounds
  end.
(** A thread that ends reads no more. *)
Definition reads_on (open_ : bool) (pc : thread_pc) : bool :=
  match pc with T_Done | T_Exit => false | T_While => open_ | _ => true end.
Definition pc_rank (a : dstate) (ps : gmap Z Z) (n : nat) (open_ : bool) (pc : thread_pc) : nat :=
  (if reads_on open_ pc then (8 + most_rounds) * n else 0) + message_rank a ps open_ pc.
Definition drain_rank (a : dstate) (ps : gmap Z Z) (s : server) (t : thread) : nat :=
  pc_rank a ps (waiting_events s t) (still_open s t) (th_pc t).

(** *** What a step reads *)

(** From [n] events and [open_] to [n'] and [open_']: the loop goes on, or an event is read. *)
Definition advances (pc pc' : thread_pc) (n n' : nat) (open_ open_' : bool) : Prop :=
  match pc with
  | T_Receive => (n' < n)%nat /\ ((exists q, pc' = T_Open q) \/ pc' = T_While) \/
      (n' <= n)%nat /\ (0 < n)%nat /\ pc' = T_While /\ open_' = false
  | T_While => n' = n /\ (pc' = T_Receive /\ open_ = true \/ pc' = T_Exit)
  | T_Handle f q => n' = n /\ (pc' = T_Send f q \/ pc' = T_Unlock f q)
  | T_Send f q => n' = n /\ (pc' = T_Send f q \/ pc' = T_Unlock f q)
  | T_Exit => pc' = T_Done
  | _ => n' = n /\ silent_next pc pc'
  end.

Lemma advances_rank a a' ps ps' pc pc' n n' b b' :
  advances pc pc' n n' b b' -> (forall f q, pc = T_Send f q -> pc' = T_Send f q -> (remaining a' ps' f < remaining a ps f)%nat) ->
  (forall f, remaining a' ps' f <= most_rounds)%nat ->
  (pc_rank a' ps' n' b' pc' < pc_rank a ps n b pc)%nat.
Proof using Type.
  intros Hadv Hsend Hr. unfold pc_rank. destruct pc; simpl in Hadv.
  - destruct Hadv as [-> ->]. simpl. destruct b'; lia.
  - destruct Hadv as [-> [[-> ->]| ->]]; simpl; [lia|]. destruct b; lia.
  - destruct Hadv as [[Hn [[q ->]| ->]]|(Hn & Hpos & -> & ->)]; simpl; [nia| |nia]. destruct b'; nia.
  - destruct Hadv as [-> [->|[f ->]]]; simpl; [destruct b'|]; lia.
  - destruct Hadv as [-> ->]. simpl. lia.
  - destruct Hadv as [-> [-> | ->]]; simpl; [|lia]. specialize (Hr fd). lia.
  - destruct Hadv as [-> [-> | ->]]; simpl; [|lia]. specialize (Hsend fd message eq_refl eq_refl). lia.
  - destruct Hadv as [-> ->]. simpl. lia.
  - destruct Hadv as [-> ->]. simpl. destruct b'; lia.
  - subst pc'. simpl. lia.
  - destruct Hadv as [_ []].
Qed.

Section one_step.
Context {lm : loc} {s s1 : server} {tid : Z} {t : thread} {lx lc : loc} {fd : Z} (Hco : conn_of lm s tid t lx lc fd).
Context {c : tcp_connection} (Hc : p_conns (sv_proc s) !! lc = Some c).
Context {pc' : thread_pc} (Hfp : footprint lm lx lc fd (th_pc t) pc' s s1).
Context (Hst : thread_step (PLoc lx) (PLoc lc) (th_pc t) s = Done (pc', s1)).

Local Abbreviation s' := (after (tid := tid) (lx := lx) (lc := lc) (pc' := pc') (s1 := s1)).

(** What the step does to the streams, and where it leads. *)
Definition reads (pc pc' : thread_pc) (s1 : server) : Prop :=
  match pc with
  | T_Receive => (exists q, received_line (sv_proc s) fd (true, q) (sv_proc s1) /\ pc' = T_Open q) \/
      received_end (sv_proc s) lc fd (false, PNull) (sv_proc s1) /\ pc' = T_While
  | T_While => p_in (sv_proc s1) = p_in (sv_proc s) /\ (pc' = T_Receive /\ c_is_open c = true \/ pc' = T_Exit)
  | T_Handle f q | T_Send f q => p_in (sv_proc s1) = p_in (sv_proc s) /\ (pc' = T_Send f q \/ pc' = T_Unlock f q)
  | pc => p_in (sv_proc s1) = p_in (sv_proc s) /\ silent_next pc pc'
  end.

Lemma send_file_round_in q f p : wlp (send_file_round q f) (fun _ p' => p_in p' = p_in p) p.
Proof using Type.
  unfold send_file_round, do_read. wlp_steps. destruct (dev_read f 4096 (p_dev p)) as [[n bs] d]. wlp_steps.
  destruct (0 <? n); wlp_steps; [|done]. unfold tcp_connection_send_message, get_conn, do_send.
  destruct q; wlp_steps; try done. apply wlp_opt. intros c' _. wlp_steps. destruct (bool_decide _); [|by wlp_steps].
  destruct (sock_send _ _ _); by wlp_steps.
Qed.

Lemma step_reads :
  malloc_succeeds L -> (th_pc t = T_Receive -> c_is_open c = true) -> zlen (in_of (sv_proc s) fd) < 2 ^ 30 ->
  reads (th_pc t) pc' s1.
Proof using Hco Hc Hst LL.
  clear Hfp. intros Hmem Hop Hlen. destruct (co_conn _ _ _ _ _ _ _ Hco) as (c2 & Hc2 & Hs). assert (c2 = c) as -> by congruence.
  destruct (co_x _ _ _ _ _ _ _ Hco) as (x & Hx & _).
  pose proof (fun E => wlp_run _ _ _ _ _ Hst (silent_step (PLoc lx) lc (th_pc t) s E)) as Hsil.
  destruct (th_pc t) as [| | |q|f q|f q|f q|f q|f q| |] eqn:Hpc; simpl;
    try (destruct (Hsil eq_refl) as (? & _ & ? & _); by split).
  - pattern pc', s1. refine (wlp_run _ _ _ _ _ Hst _). unfold thread_step. wlp_steps. eapply get_ctx_wlp; [exact Hx|]. wlp_steps. apply wlp_on_proc.
    unfold tcp_connection_is_open, get_conn. wlp_steps. apply wlp_opt. intros c' Hc'. wlp_steps. rewrite set_proc_id.
    assert (c' = c) as -> by congruence. destruct (c_is_open c); wlp_steps; [|by auto].
    unfold get_manager. destruct (ctx_manager x); wlp_steps; try done. apply wlp_opt. intros m _. wlp_steps.
    destruct (cm_close_connections m); auto.
  - assert (conn_open (sv_proc s) lc fd (c_client_address c)) as Hopen.
    { split; [|apply Hco]. rewrite Hc. destruct c as [sock addr o]. simpl in *. subst. by rewrite (Hop eq_refl). }
    pattern pc', s1. refine (wlp_run _ _ _ _ _ Hst _). unfold thread_step. wlp_steps. eapply get_ctx_wlp; [exact Hx|]. wlp_steps. apply wlp_on_proc.
    eapply wlp_mono; [exact (receive_cases _ _ _ _ Hopen Hmem Hlen)|]. intros [ok q] p' [_ Hr]. wlp_steps.
    destruct Hr as [Hr|Hr]; [left|right].
    + pose proof Hr as (m & rest & l & junk & _ & _ & [= -> ->] & _). exists (PLoc l). by split.
    + pose proof Hr as (pre & ev & rest & _ & _ & _ & [= -> ->] & _). by split.
  - pattern pc', s1. refine (wlp_run _ _ _ _ _ Hst _). unfold thread_step. wlp_steps. eapply get_ctx_wlp; [exact Hx|]. wlp_steps. apply wlp_on_proc.
    eapply wlp_mono; [apply handle_message_device|]. intros r p' [d ->]. wlp_steps. split; [done|]. destruct (0 <=? r); auto.
  - pattern pc', s1. refine (wlp_run _ _ _ _ _ Hst _). unfold thread_step. wlp_steps. eapply get_ctx_wlp; [exact Hx|]. wlp_steps. apply wlp_on_proc.
    eapply wlp_mono; [apply send_file_round_in|]. intros r p' E. wlp_steps. split; [exact E|]. destruct r; auto.
  - pattern pc', s1. refine (wlp_run _ _ _ _ _ Hst _). unfold thread_step. wlp_steps. eapply get_ctx_wlp; [exact Hx|]. by wlp_steps.
Qed.

(** So the other sockets are as they were, no socket has more than before, and the thread gets on. *)
Lemma reads_in : reads (th_pc t) pc' s1 ->
  (forall fd2, fd2 <> fd -> in_of (sv_proc s1) fd2 = in_of (sv_proc s) fd2) /\
  (length (in_of (sv_proc s1) fd) <= length (in_of (sv_proc s) fd))%nat /\
  forall c', (pc' <> T_Done -> p_conns (sv_proc s1) !! lc = Some c') ->
    advances (th_pc t) pc' (length (in_of (sv_proc s) fd)) (length (in_of (sv_proc s1) fd)) (c_is_open c) (c_is_open c').
Proof using Type.
  clear Hco Hc Hfp Hst. intros Hr.
  assert (forall A B, p_in (sv_proc s1) = p_in (sv_proc s) /\ A -> (length (in_of (sv_proc s1) fd) = length (in_of (sv_proc s) fd) -> A -> B) ->
    (forall fd2, fd2 <> fd -> in_of (sv_proc s1) fd2 = in_of (sv_proc s) fd2) /\
    (length (in_of (sv_proc s1) fd) <= length (in_of (sv_proc s) fd))%nat /\ B) as Hsame.
  { intros A B [E HA] HB. unfold in_of in *. rewrite E in *. auto. }
  destruct (th_pc t) as [| | |q|f q|f q|f q|f q|f q| |] eqn:Hpc; simpl in Hr;
    try (eapply Hsame; [exact Hr|]; intros E HA c' _; simpl; done || by split).
  - assert (exists evs, p_in (sv_proc s1) = <[fd := evs]> (p_in (sv_proc s)) /\
      (length evs <= length (in_of (sv_proc s) fd))%nat /\
      forall c', (pc' <> T_Done -> p_conns (sv_proc s1) !! lc = Some c') ->
        advances T_Receive pc' (length (in_of (sv_proc s) fd)) (length evs) (c_is_open c) (c_is_open c')) as (evs & Ein & Hle & Hadv).
    { destruct Hr as [(q & (m & rest & l & junk & -> & _ & _ & _ & ->) & ->)|[(pre & ev & rest & -> & _ & He & _ & -> & Hclosed) ->]];
        eexists; (split; [reflexivity|]); rewrite length_app; simpl.
      - split; [lia|]. intros c' _. left. split; [lia|]. left. by exists q.
      - destruct He as [-> | ->]; simpl; (split; [lia|]); intros c' Hc'; [right|left; split; [lia|by right]].
        destruct (Hclosed eq_refl) as [q Hq]. rewrite Hc' in Hq by done. injection Hq as ->. split_and!; try done; lia. }
    assert (in_of (sv_proc s1) fd = evs) as -> by (unfold in_of; by rewrite Ein, lookup_insert_eq).
    split; [|by split]. intros fd2 Hne. unfold in_of. by rewrite Ein, lookup_insert_ne.
Qed.
End one_step.

(** *** The measure of all threads *)

Definition drain_measure (a : dstate) (ps : gmap Z Z) (s : server) : nat := map_total (drain_rank a ps s) (sv_threads s).

Lemma drain_rank_of lm s a ps tid t lx lc fd c :
  conn_of lm s tid t lx lc fd -> p_conns (sv_proc s) !! lc = Some c ->
  drain_rank a ps s t = pc_rank a ps (length (in_of (sv_proc s) fd)) (c_is_open c) (th_pc t).
Proof using Type.
  intros Hco Hc. destruct (own_conn_of _ _ _ _ _ _ _ Hco) as (c' & Hown & Hc' & <-). assert (c' = c) as -> by congruence.
  unfold drain_rank, waiting_events, still_open. by rewrite Hown.
Qed.

(** A thread's step leaves the others' ranks alone. *)
Lemma drain_other lm s a ps tid t lx lc fd pc' s1 a' ps' tid2 t2 :
  sys_inv lm s a ps -> conn_of lm s tid t lx lc fd -> footprint lm lx lc fd (th_pc t) pc' s s1 ->
  dev_effect (th_pc t) pc' a a' ps ps' -> tid2 <> tid -> sv_threads s !! tid2 = Some t2 ->
  (forall fd2, fd2 <> fd -> in_of (sv_proc s1) fd2 = in_of (sv_proc s) fd2) ->
  let s' := after (tid := tid) (lx := lx) (lc := lc) (pc' := pc') (s1 := s1) in
  (drain_rank a' ps' s' t2 <= drain_rank a ps s t2)%nat.
Proof using Type.
  intros Hi Hco Hfp He Hne Ht2 Hin s'. destruct (decide (th_pc t2 = T_Done)) as [Hd|Hd].
  { unfold drain_rank, pc_rank. rewrite Hd. simpl. lia. }
  destruct (si_alive _ _ _ _ Hi tid2 t2 Ht2 Hd) as (lx2 & lc2 & fd2 & Hco2).
  destruct (own_conn_of _ _ _ _ _ _ _ Hco2) as (c2 & _ & Hc2 & _).
  destruct (si_disjoint _ _ _ _ Hi _ _ _ _ _ _ _ _ _ _ Hco2 Hco Hne) as (_ & Hlc & Hfd).
  assert (p_conns (sv_proc s') !! lc2 = Some c2) as Hc2' by (simpl; by rewrite (fp_conns _ _ _ _ _ _ _ _ Hfp)).
  rewrite (drain_rank_of _ _ _ _ _ _ _ _ _ _ (conn_of_other Hi Hco Hfp _ _ _ _ _ Hne Hco2) Hc2').
  rewrite (drain_rank_of _ _ _ _ _ _ _ _ _ _ Hco2 Hc2). simpl. rewrite Hin by done.
  pose proof (rank_other _ _ _ _ _ _ _ _ _ _ _ _ _ _ _ Hi Hco Hfp He Hne Ht2) as Hr.
  unfold pc_rank. destruct (th_pc t2); simpl in *; lia.
Qed.

(** One step of a thread, with its events; several, with their number. *)
Definition thread_move (s : server) (es : trace) (s' : server) : Prop :=
  exists tid, run_thread tid s = Done (tt, s') /\ es = line_events tid s.
Inductive thread_moves (s0 : server) : nat -> trace -> server -> Prop :=
  | moves_nil : thread_moves s0 0 [] s0
  | moves_snoc n tr s es s' : thread_moves s0 n tr s -> thread_move s es s' -> thread_moves s0 (S n) (tr ++ es) s'.

Lemma moves_cons s0 es s1 n tr s : thread_move s0 es s1 -> thread_moves s1 n tr s -> thread_moves s0 (S n) (es ++ tr) s.
Proof using Type.
  intros Hm. induction 1 as [|n tr s es' s' _ IH Hm']; [rewrite app_nil_r; by apply (moves_snoc s0 0 [] s0 es), Hm; apply moves_nil|].
  rewrite app_assoc. by eapply moves_snoc.
Qed.

(** What the steps keep. *)
Record drains (x0 : atomic) (tr : trace) (lm : loc) (a : dstate) (ps : gmap Z Z) (s : server) : Prop := {
  dr_sys : sys_inv lm s a ps;
  dr_mem : mem_inv lm s;
  dr_follows : follows x0 tr lm a ps s;
  dr_small : lines_small s;
}.

Lemma drains_step x0 tr lm a ps s es s' :
  good_system -> drains x0 tr lm a ps s -> thread_move s es s' ->
  exists a' ps', drains x0 (tr ++ es) lm a' ps' s' /\ (drain_measure a' ps' s' < drain_measure a ps s)%nat.
Proof using LL StL PL.
  intros Hg [Hi Hmi Hx Hsm] (tid & Hrun & ->). pose proof (follows_kept x0 Hg) as HI. pose proof (kt_small _ _ HI _ Hsm) as Hsmall.
  destruct (run_thread_inv _ _ _ _ _ _ Hi Hrun) as (t & lx & lc & fd & pc' & s1 & Hco & Hst & Hfp & ->).
  destruct (step_from_inv _ _ _ _ _ _ _ _ _ Hi Hmi Hsmall Hco) as (c & la & Hc & Ha & Hsafe).
  pose proof (wsp_run _ _ _ _ _ Hst Hsafe) as Hme.
  destruct (kt_thread _ _ HI _ _ _ _ _ _ _ _ _ _ _ _ _ _ Hsm Hi Hmi Hx Hco Hc Ha Hfp Hme Hst) as (a' & ps' & Hi' & He & Hx').
  assert (reads (s := s) (lc := lc) (fd := fd) (c := c) (th_pc t) pc' s1) as Hr.
  { apply (step_reads Hco Hc Hst); [apply Hg| |by apply Hsmall]. intros Hpc. destruct Hx as (x & _ & Hx).
    destruct (sr_open _ _ _ _ _ Hx _ _ _ _ _ Hco Hpc) as (c' & Hc' & Ho). congruence. }
  destruct (reads_in Hr) as (Hin & Hle & Hadv). exists a', ps'. split; [split; [done| |done|]|].
  - exact (mem_after Hi Hmi Hco Hc Ha Hfp Hme).
  - intros fd2. simpl. destruct (decide (fd2 = fd)) as [->|Hne]; [|by rewrite Hin]. specialize (Hsm fd). unfold zlen in *. lia.
  - unfold drain_measure. simpl. rewrite (fp_threads _ _ _ _ _ _ _ _ Hfp).
    pose proof (co_thread _ _ _ _ _ _ _ Hco) as Ht. eapply map_total_less; [exact Ht| |].
    + rewrite (drain_rank_of _ _ a ps _ _ _ _ _ _ Hco Hc).
      assert (exists c', (pc' <> T_Done -> p_conns (sv_proc s1) !! lc = Some c') /\
        drain_rank a' ps' (after (tid := tid) (lx := lx) (lc := lc) (pc' := pc') (s1 := s1)) (Thread (PLoc lx) (PLoc lc) pc') =
        pc_rank a' ps' (length (in_of (sv_proc s1) fd)) (c_is_open c') pc') as (c' & Hc' & E).
      { destruct (decide (pc' = T_Done)) as [->|Hd]; [by exists c|].
        destruct (fp_conn_self _ _ _ _ _ _ _ _ Hfp c Hd Hc) as (c' & Hc' & _). exists c'. split; [done|].
        exact (drain_rank_of _ _ a' ps' _ _ _ _ _ _ (conn_of_self Hco Hfp Hd) Hc'). }
      eapply Nat.le_lt_trans; [exact (Nat.eq_le_incl _ _ E)|]. eapply advances_rank; [by apply Hadv| |].
      * intros f q E1 E2. eapply (de_rounds _ _ _ _ _ _ He); [exact E1|exact E2].
      * intros f. eapply remaining_bound. exact Hi'.
    + intros tid2 t2 Hne Ht2. by apply (drain_other _ _ _ _ _ _ _ _ _ _ _ _ _ _ _ Hi Hco Hfp He Hne Ht2 Hin).
Qed.

(** *** Until nobody can step *)

Definition resting (s : server) : Prop := forall es s', ~ thread_move s es s'.

(** For each thread the events that wait on its socket, and one more. *)
Definition work_left (s : server) : nat := map_total (fun t => S (waiting_events s t)) (sv_threads s).

Lemma drain_bound lm s a ps : sys_inv lm s a ps ->
  Z.of_nat (drain_measure a ps s) <= (10 * dev_max + 9) * Z.of_nat (work_left s).
Proof using Type.
  intros Hi. pose proof dev_max_small as Hmx.
  assert (drain_measure a ps s <= map_total (fun t => (most_rounds + 9) * S (waiting_events s t)) (sv_threads s))%nat as Hle.
  { apply map_total_mono. intros tid t _. pose proof (fun f => remaining_bound _ _ _ _ f Hi) as Hr.
    unfold drain_rank, pc_rank. set (n := waiting_events s t).
    assert ((most_rounds + 9) * S n = (8 + most_rounds) * n + n + most_rounds + 9)%nat as -> by lia.
    destruct (th_pc t) as [| | | | | |f q| | | |]; simpl reads_on; cbn iota; try (destruct (still_open s t)); simpl message_rank; try lia;
      specialize (Hr f); lia. }
  assert (map_total (fun t => (most_rounds + 9) * S (waiting_events s t)) (sv_threads s) = (most_rounds + 9) * work_left s)%nat as E.
  { unfold work_left. generalize (sv_threads s). intros m. induction m as [|i y m Hi' IH] using map_ind; [unfold map_total; rewrite !map_fold_empty; lia|].
    rewrite !map_total_insert by done. rewrite IH. lia. }
  rewrite E in Hle. unfold most_rounds in Hle. nia.
Qed.

Lemma drains_run x0 tr lm a ps s n tr' s' : good_system -> drains x0 tr lm a ps s -> thread_moves s n tr' s' ->
  exists a' ps', drains x0 (tr ++ tr') lm a' ps' s' /\ (n + drain_measure a' ps' s' <= drain_measure a ps s)%nat.
Proof using LL StL PL.
  intros Hg Hd. induction 1 as [|n tr' s1 es s' _ (a1 & ps1 & Hd1 & Hle) Hm]; [exists a, ps; rewrite app_nil_r; by split|].
  destruct (drains_step _ _ _ _ _ _ _ _ Hg Hd1 Hm) as (a2 & ps2 & Hd2 & Hlt). exists a2, ps2. rewrite app_assoc. split; [done|lia].
Qed.

(** Whether somebody can step is decided by trying. *)
Lemma move_or_rest s : (exists es s', thread_move s es s') \/ resting s.
Proof using Type.
  destruct (decide (map_Exists (fun tid _ => match run_thread tid s with Done _ => true | Fault _ => false end = true) (sv_threads s)))
    as [(tid & t & _ & Hr)|Hno].
  - left. destruct (run_thread tid s) as [[[] s']|] eqn:E; [|done]. by exists (line_events tid s), s', tid.
  - right. intros es s' (tid & Hr & _). apply Hno. pose proof Hr as Hr'. unfold run_thread, bind, mget, mopt in Hr. simpl in Hr.
    destruct (sv_threads s !! tid) as [t|] eqn:Ht; [|done]. exists tid, t. split; [done|]. by rewrite Hr'.
Qed.
Lemma drains_rest x0 tr lm a ps s : good_system -> drains x0 tr lm a ps s ->
  exists n tr' s', thread_moves s n tr' s' /\ resting s'.
Proof using LL StL PL.
  intros Hg. remember (drain_measure a ps s) as k eqn:Hk. revert tr a ps s Hk.
  induction (lt_wf k) as [k _ IH]; intros tr a ps s -> Hd.
  destruct (move_or_rest s) as [(es & s2 & Hm)|Hrest]; [|exists 0%nat, [], s; split; [apply moves_nil|done]].
  destruct (drains_step _ _ _ _ _ _ _ _ Hg Hd Hm) as (a2 & ps2 & Hd2 & Hlt).
  destruct (IH _ Hlt _ _ _ _ eq_refl Hd2) as (n & tr' & s' & Hr & Hrest). exists (S n), (es ++ tr'), s'. split; [by eapply moves_cons|done].
Qed.

(** At rest the threads wait for their clients, and no message is held. *)
Lemma resting_waits x0 tr lm a ps s : good_system -> drains x0 tr lm a ps s -> resting s ->
  (forall tid t, sv_threads s !! tid = Some t -> th_pc t <> T_Done -> awaits_client s t) /\
  exists x, atomic_run x0 tr x /\ at_dev x = a /\ at_msg x = ∅ /\
    forall fd, in_of (sv_proc s) fd = at_in_of x fd /\ out_of (sv_proc s) fd = at_out_of x fd.
Proof using LL.
  intros (Hmem & _ & Hnet) [Hi Hmi (x & Hr & Hx) Hsm] Hrest.
  assert (forall tid t, sv_threads s !! tid = Some t -> th_pc t <> T_Done -> awaits_client s t) as Haw.
  { intros tid t Ht Hal. eapply (stuck_threads lm a ps s tid); try done; [|by apply lines_input|].
    - intros fd out bs. rewrite Hnet. done.
    - intros tid2 s' Hrun. apply (Hrest (line_events tid2 s) s'). by exists tid2. }
  split; [done|]. exists x. split; [done|]. split; [apply Hx|]. split.
  - apply map_empty. intros fd. apply eq_None_not_Some. intros Hs. destruct (sr_owner _ _ _ _ _ Hx _ Hs) as (tid & t & lx & lc & Hco).
    pose proof (sr_msg _ _ _ _ _ Hx _ _ _ _ _ Hco) as Hm. destruct (Haw tid t (co_thread _ _ _ _ _ _ _ Hco) (co_alive _ _ _ _ _ _ _ Hco)) as [Hpc _].
    rewrite Hpc in Hm. simpl in Hm. rewrite Hm in Hs. by destruct Hs.
  - intros fd. split; [unfold in_of, at_in_of; by rewrite (sr_in _ _ _ _ _ Hx)|]. symmetry. apply (sr_out _ _ _ _ _ _ Hx).
    intros tid t lx lc Hco (f & q & Hpc). destruct (Haw tid t (co_thread _ _ _ _ _ _ _ Hco) (co_alive _ _ _ _ _ _ _ Hco)) as [Hpc' _]. congruence.
Qed.

(** The server has answered the lines of [tr]: the device and what every client has been sent are what they
    make, and every line that has arrived on a socket has been handled or waits there to be read. *)
Record answered_all (a0 : dstate) (s0 : server) (tr : trace) (s : server) : Prop := {
  an_dev : exists ps, dev_is (p_dev (sv_proc s)) (device_after a0 (history tr)) ps;
  an_out fd : out_of (sv_proc s) fd = out_of (sv_proc s0) fd ++ answers fd a0 (history tr);
  an_lines fd : lines_of [] (arrived fd (in_of (sv_proc s0) fd) tr) = handled fd tr ++ lines_of [] (in_of (sv_proc s) fd);
}.
Lemma atomic_answered a0 s0 tr x s ps : atomic_run (atomic_start a0 s0) tr x -> dev_is (p_dev (sv_proc s)) (at_dev x) ps ->
  at_msg x = ∅ -> (forall fd, in_of (sv_proc s) fd = at_in_of x fd /\ out_of (sv_proc s) fd = at_out_of x fd) ->
  answered_all a0 s0 tr s.
Proof using Type.
  intros Hx Hd Hm Hio. destruct (atomic_replies _ _ _ Hx) as [Hh Ho]. split.
  - exists ps. simpl in Hh. by rewrite <- Hh.
  - intros fd. rewrite (proj2 (Hio fd)). apply Ho.
  - intros fd. rewrite (proj1 (Hio fd)). pose proof (atomic_accounts _ _ _ Hx eq_refl fd) as H. unfold at_held in H.
    by rewrite Hm, lookup_empty in H.
Qed.
End progress.

(** C3: every line is answered. From every state that the process can reach, while nothing more arrives:
    however the threads are scheduled, they take no more steps than ten times the longest command, and nine,
    for each event that waits on a socket and for each thread; so they come to rest. When they
    rest, every thread that has not ended waits in [recv] for a client that has sent neither the
    rest of a line nor the end of the stream nor an error; all the lines that have arrived on its socket (since its
    input was last discarded) are handled, in their order and each once. The device, and what every
    client has been sent, to the last byte, are what the lines handled make, in the order of the trace; on a socket without
    a thread the lines that were not handled still wait unread. (With enough memory and threads, a device that opens,
    a network that takes what is sent, IPv4 clients, a device without an incomplete command at the start, and
    never as much unread on a socket as the longest command.) *)
Theorem lines_are_answered (FD : FileDev) (L : Libc) (N : Sockets) (St : Stdio) (P : Pthreads) (NS : NetSetup) (H : Host)
    (FDL : FileDevLaws FD) (LL : LibcLaws L) (StL : StdioLaws St) (PL : PthreadsLaws P) (NSL : NetSetupLaws NS)
    argv s0 a0 server s1 tr s pc :
  good_system -> (forall ts, is_Some (pthread_new ts)) -> clients_ipv4 ->
  fresh s0 -> dev_is (p_dev (sv_proc (h_server s0))) a0 ∅ -> pending a0 = [] ->
  main_start argv s0 = Done (server, s1) -> small_run lines_small server (s1, M_Check) tr (s, pc) ->
  lines_small (h_server s) ->
  (forall n tr' s', thread_moves (h_server s) n tr' s' -> Z.of_nat n <= (10 * dev_max + 9) * Z.of_nat (work_left (h_server s))) /\
  (exists n tr' s', thread_moves (h_server s) n tr' s' /\ resting s') /\
  forall n tr' s', thread_moves (h_server s) n tr' s' -> resting s' ->
    answered_all a0 (h_server s0) (tr ++ tr') s' /\
    forall tid t, sv_threads s' !! tid = Some t -> th_pc t <> T_Done -> awaits_client s' t /\
      forall lc c, th_connection t = PLoc lc -> p_conns (sv_proc s') !! lc = Some c ->
        lines_of [] (arrived (c_socket c) (in_of (sv_proc (h_server s0)) (c_socket c)) (tr ++ tr')) = handled (c_socket c) (tr ++ tr').
Proof.
  intros Hg Hthr Hv4 Hf Hd Hp Hrun Hr Hsm. pose proof Hg as (Hmem & Hrel & _). set (x0 := atomic_start a0 (h_server s0)).
  destruct (life_reached _ _ (follows_kept x0 Hg) Hmem Hrel Hthr Hv4 argv s0 server s1 a0 tr s pc
    Hf Hd (fun lm sv => follows_start lm a0 _ sv Hp) Hrun Hr) as (lm & ln & lsrv & v & -> & Hl).
  destruct (proj1 (life_threads _ _ _ _ _ _ _ _ _ Hl)) as [(a & ps & Hi & Hmi & Hx)|(Hno & a & Hda & x & Hx & Hsv)].
  - assert (drains x0 tr lm a ps (h_server s)) as Hdr by by split. split; [|split].
    + intros n tr' s' Hn. destruct (drains_run _ _ _ _ _ _ _ _ _ Hg Hdr Hn) as (a' & ps' & _ & Hle).
      pose proof (drain_bound _ _ _ _ Hi). lia.
    + by eapply drains_rest.
    + intros n tr' s' Hn Hrest. destruct (drains_run _ _ _ _ _ _ _ _ _ Hg Hdr Hn) as (a' & ps' & Hdr' & _).
      destruct (resting_waits _ _ _ _ _ _ Hg Hdr' Hrest) as (Haw & x & Hx' & Ea & Em & Hio).
      assert (answered_all a0 (h_server s0) (tr ++ tr') s') as Han.
      { eapply (atomic_answered _ _ _ x _ ps'); [done| |done|done]. rewrite Ea. apply (si_dev _ _ _ _ (dr_sys _ _ _ _ _ _ Hdr')). }
      split; [done|]. intros tid t Ht Hal. pose proof (Haw tid t Ht Hal) as Hw. split; [done|]. intros lc c Hlc Hc.
      destruct Hw as (_ & lc' & c' & Hlc' & Hc' & Hev). assert (lc' = lc) as -> by congruence. assert (c' = c) as -> by congruence.
      rewrite (an_lines _ _ _ _ Han), (lines_of_none _ _ Hev). apply app_nil_r.
  - assert (resting (h_server s)) as Hrest.
    { intros es s' (tid & Hm & _). by rewrite (no_thread_runs _ _ Hno) in Hm. }
    assert (forall n tr' s', thread_moves (h_server s) n tr' s' -> n = 0%nat /\ tr' = [] /\ s' = h_server s) as Hn.
    { intros n tr' s'. induction 1 as [|n tr' s1' es s' _ (_ & _ & ->) Hm]; [done|by destruct (Hrest es s')]. }
    split; [intros n tr' s' (-> & _)%Hn; pose proof dev_max_small; lia|]. split; [exists 0%nat, [], (h_server s); split; [apply moves_nil|done]|].
    intros n tr' s' (_ & -> & ->)%Hn _. rewrite app_nil_r. split; [|intros tid t Ht; by rewrite Hno in Ht].
    assert (forall tid t lx lc fd, ~ conn_of lm (h_server s) tid t lx lc fd) as Hnc.
    { intros tid t lx lc fd [Ht _ _ _ _ _ _]. by rewrite Hno in Ht. }
    eapply (atomic_answered _ _ _ x _ ∅); [done|by rewrite (sr_dev _ _ _ _ _ Hsv)| |].
    + apply map_empty. intros fd. apply eq_None_not_Some. intros (tid & t & lx & lc & Hco)%(sr_owner _ _ _ _ _ Hsv). by eapply Hnc.
    + intros fd. split; [unfold in_of, at_in_of; by rewrite (sr_in _ _ _ _ _ Hsv)|].
      symmetry. apply (sr_out _ _ _ _ _ _ Hsv). intros tid t lx lc Hco. by destruct (Hnc _ _ _ _ _ Hco).
Qed.

(** ** Witness: the two clients of [ServerRefines], left alone in the middle of an answer *)
Lemma lines_are_answered_witness :
  exists tr s n tr' s', between = Some (tr, (s, M_Check)) /\ thread_moves (h_server s) n tr' s' /\ resting s' /\
    answered_all sample_dstate (h_server first_state) (tr ++ tr') s'.
Proof.
  destruct between_reached as (tr & s & E & Hreach & Hsm & _).
  destruct (lines_are_answered spec_dev sample_libc sample_sockets buffered_stdio many_pthreads (sample_net addr4) sample_host
    spec_dev_laws sample_libc_laws buffered_stdio_laws many_pthreads_laws (sample_net_laws addr4) [str "aesdsocket"] first_state
    sample_dstate started.1 started.2 tr s M_Check (conj sample_malloc_succeeds (conj spec_dev_reliable sample_net_reliable))
    (fun ts => mk_is_Some _ _ eq_refl) sample_net_ipv4 first_state_fresh (conj eq_refl sample_dstate_ok) eq_refl
    (sample_start [str "aesdsocket"] ltac:(vm_compute; reflexivity)) Hreach Hsm) as (_ & (n & tr' & s' & Hr & Hrest) & Hall).
  destruct (Hall n tr' s' Hr Hrest) as [Han _].
  exists tr, s, n, tr', s'. exact (conj E (conj Hr (conj Hrest Han))).
Defined.
