(* ===== verification/WholeSystem.v ===== *)
(** The server and the driver together, from loading the module to unloading it.

    [ServerRefines] holds for every device that keeps the laws of [FileDev]; here the device is the
    driver ([DriverDevice]), as [aesd_init_module] leaves it, and the process starts
    with nothing but the three standard descriptors. *)

From S2P Require Import Prelude CMonad KHeap CircularBuffer KernelApi DeviceSpec CharDriver DriverRep DriverRefinement DriverProperties Libc FileDev DriverDevice Process TcpConnection TcpReceive TcpSend TcpProperties ReceiveSafety SList ConnectionManager ServerSpec HandleMessage Session ManagerLife ServerProperties ThreadFrame ThreadMemory ServerThreads Answers ThreadSafety ServerEvents AtomicServer AtomicRefinement Shutdown TcpServer TcpServerProperties ServerMain ServerMainProperties ServerLife ServerRun ServerRefines.
Local Open Scope Z_scope.
Local Open Scope cmonad_scope.

(** A process of the server that starts, when the kernel is [w]. *)
Definition boot `{K : Kernel} (w : world) : @host driver_dev :=
  HostState driver_dev (Server driver_dev (Proc driver_dev ∅ ∅ {[0; 1; 2]} ∅ ∅ w) ∅ ∅ ∅) ∅ 0 false PNull ∅ false 0.

Section system.
Context {K : Kernel} {KL : KernelLaws K}.

(** The loaded module is the device of the specification, with no file open. *)
Lemma init_driver w w0 : w_files w = ∅ -> aesd_init_module w = Done (0, w0) -> driver_is (w_heap w) w0 d_init ∅.
Proof using KL.
  intros Hf Hrun.
  assert (wp aesd_init_module (fun r w' => r < 0 \/ dev_rep d_init (w_heap w) w' /\ w_files w' = w_files w) w) as Hwp.
  { apply init_module_wp; [|by left]. intros dev _ _. right. split; [apply init_rep|done]. }
  unfold wp in Hwp. rewrite Hrun in Hwp. destruct Hwp as [?|[Hrep Hf']]; [lia|]. split; [done| |done].
  intros filp. by rewrite Hf', Hf, !lookup_empty.
Qed.

(** Unloading the module when no incomplete command is staged frees all it has. *)
Lemma cleanup_idle a F w : dev_rep a F w -> pending a = [] ->
  exists w', aesd_cleanup_module w = Done (tt, w') /\ w_heap w' = F.
Proof using KL.
  intros [Hrep _] Hp. rewrite Hp in Hrep.
  assert (wp aesd_cleanup_module (fun _ w' => owns (entry_obj (staging_entry (aesd_device w)) []) F (w_heap w')) w) as Hwp
    by (eapply cleanup_wp; [done|]; by intros w' Hown _).
  apply wp_Done in Hwp as ([] & w' & Hrun & Hown). exists w'. split; [done|].
  destruct (rep_staging _ _ _ _ _ Hrep) as [_ [[Hnull _]|[_ Hn]]]; [|done].
  unfold entry_obj in Hown. rewrite Hnull in Hown. by apply owns_nil_inv in Hown.
Qed.
End system.

Lemma boot_fresh (K : Kernel) (KL : KernelLaws K) F w : driver_is F w d_init ∅ -> fresh (FDL := driver_dev_laws F) (boot w).
Proof.
  intros Hd. split_and!; try done; [split; try done; by exists d_init|].
  intros fd Hfd. change (fd ∈ ({[0; 1; 2]} : gset Z)) in Hfd. rewrite !elem_of_union, !elem_of_singleton in Hfd. lia.
Qed.

(** C1: the whole system, from loading the module to unloading it. The module is loaded, the server
    starts, and main, the threads, the signals and the clients run in any order: the run has a trace [tr] of what
    arrived on the sockets and of the lines that threads handled, each at its step, and the atomic server, which begins
    with the empty device and serves a message in one step, can make exactly these events. The driver's memory
    represents the commands that the lines handled, in the order of the trace, leave in the device; what has been sent to
    each client is what they answer (or a prefix, while a thread is sending); and on every socket the lines that have
    arrived since its input was last discarded are those handled, in their order and each once, then the one that a
    thread holds, then those that wait to be read. When the server has exited no file is open, and unloading the module
    then leaves the kernel's memory as it was before it was loaded. (With enough memory for the server and in
    the kernel, threads that can be created, a network that takes what is sent, IPv4 clients, and never as much unread on
    a socket as the longest command.) *)
Theorem system_refines_atomic (K : Kernel) (KL : KernelLaws K) (L : Libc) (N : Sockets) (St : Stdio) (P : Pthreads)
    (NS : NetSetup) (H : Host) (LL : LibcLaws L) (StL : StdioLaws St) (PL : PthreadsLaws P) (NSL : NetSetupLaws NS)
    w w0 argv server s1 tr s pc :
  malloc_succeeds L -> kmalloc_succeeds -> net_reliable N -> (forall ts, is_Some (pthread_new ts)) -> clients_ipv4 ->
  w_files w = ∅ -> aesd_init_module w = Done (0, w0) -> main_start argv (boot w0) = Done (server, s1) ->
  small_run (lines_small (FDL := driver_dev_laws (w_heap w))) server (s1, M_Check) tr (s, pc) ->
  let p := sv_proc (h_server s) in
  exists x, atomic_run (Atomic d_init ∅ ∅ ∅) tr x /\
    dev_rep (device_after d_init (history tr)) (w_heap w) (p_dev p) /\
    (forall fd, out_of p fd `prefix_of` answers fd d_init (history tr)) /\
    (forall fd, ~ sending (h_server s) fd -> out_of p fd = answers fd d_init (history tr)) /\
    (forall fd, lines_of [] (arrived fd [] tr) = handled fd tr ++ at_held x fd ++ lines_of [] (in_of p fd)) /\
    (forall fd m, at_msg x !! fd = Some m <-> holding (h_server s) fd m) /\
    (pc = M_Exited -> w_files (p_dev p) = ∅ /\
       exists w', aesd_cleanup_module (p_dev p) = Done (tt, w') /\ w_heap w' = w_heap w).
Proof.
  intros Hmem Hk Hnet Hthr Hv4 Hfiles Hinit Hrun Hr p. set (F := w_heap w) in *.
  pose proof (init_driver w w0 Hfiles Hinit) as Hd. fold F in Hd. pose proof (driver_dev_reliable F Hk) as Hrel.
  assert (@good_system _ _ _ (driver_dev_laws F)) as Hg by by split. pose proof (boot_fresh K KL F w0 Hd) as Hf.
  set (x0 := Atomic d_init ∅ ∅ ∅).
  destruct (life_reached _ _ (follows_kept x0 Hg) Hmem Hrel Hthr Hv4 argv (boot w0) server s1 d_init tr s pc
    Hf Hd (fun lm sv => follows_start lm d_init _ sv eq_refl) Hrun Hr) as (lm & ln & lsrv & v & -> & Hl).
  destruct (serving_kept _ _ _ _ (proj1 (life_threads _ _ _ _ _ _ _ _ _ Hl))) as (a & ps & Hd' & (x & Hx & Hsv) & Hal).
  pose proof (serves_shows _ _ _ _ _ Hd' Hal Hsv) as Hsh. destruct (atomic_replies _ _ _ Hx) as [Hh Ho]. simpl in Hh, Ho.
  assert (dev_rep (device_after d_init (history tr)) F (p_dev p)) as Hrep.
  { rewrite <- Hh, (sr_dev _ _ _ _ _ Hsv). apply Hd'. }
  exists x. split_and!; [exact Hx|exact Hrep|..].
  - intros fd. pose proof (sh_prefix _ _ Hsh fd) as Hp. by rewrite Ho in Hp.
  - intros fd Hs. etransitivity; [exact (sh_out _ _ Hsh fd Hs)|apply Ho].
  - intros fd. unfold p. rewrite (sh_in _ _ Hsh). exact (atomic_accounts _ _ _ Hx eq_refl fd).
  - apply Hsh.
  - intros ->. destruct Hl as (_ & (_ & a' & [_ Hf' _] & _) & _). split.
    + apply map_eq. intros filp. by rewrite Hf', !lookup_empty.
    + eapply cleanup_idle; [exact Hrep|]. rewrite <- Hh, (sr_dev _ _ _ _ _ Hsv). apply (sr_pending _ _ _ _ _ Hsv).
Qed.

(** ** Witness: two clients' sessions, the exit and the module's removal *)

Definition empty_world : world := World ∅ ∅ ∅ (Chrdevs ∅ ∅) 0 (AesdDev aesd_circular_buffer_init zero_entry false).
Definition loaded : world := match aesd_init_module empty_world with Done (_, w) => w | Fault _ => empty_world end.
Definition system_started : ptr * @host driver_dev :=
  match main_start (NS := sample_net addr4) (H := sample_host) [str "aesdsocket"] (boot loaded) with
  | Done r => r
  | Fault _ => (PNull, boot loaded)
  end.
Definition two_sessions : list move :=
  [Client; Client] ++ replicate 8 Own ++ [Run 1; Run 2; Run 1; Run 2;
   Arrive 8 (RecvByte <$> str "one" ++ [NL]); Arrive 9 (RecvByte <$> str "two" ++ [NL])] ++
  [Run 2; Run 1; Run 2; Run 1] ++ replicate 5 (Run 2) ++ [Run 1; Run 2; Run 1; Run 2; Run 1] ++
  [Arrive 8 [RecvEof]; Signal SIGTERM; Arrive 9 [RecvEof]] ++ replicate 4 Own ++
  [Run 2; Run 1; Run 2; Run 1; Run 2; Run 1; Own; Run 1; Own; Run 1; Own; Run 1] ++ replicate 5 Own.
Definition system_end : option (trace * (@host driver_dev * main_pc)) :=
  make_moves (P := many_pthreads) (NS := sample_net addr4) 4096 system_started.1 two_sessions (system_started.2, M_Check).

Lemma loaded_ok : aesd_init_module empty_world = Done (0, loaded).
Proof.
  assert (match aesd_init_module empty_world with Done (r, _) => r =? 0 | Fault _ => false end = true) as Hok by (vm_compute; reflexivity).
  unfold loaded. destruct (aesd_init_module empty_world) as [[r w]|]; [|discriminate Hok]. by apply Z.eqb_eq in Hok as ->.
Qed.
Lemma system_started_ok :
  main_start (NS := sample_net addr4) (H := sample_host) [str "aesdsocket"] (boot loaded) = Done (system_started.1, system_started.2).
Proof.
  assert (match main_start (NS := sample_net addr4) (H := sample_host) [str "aesdsocket"] (boot loaded) with
          | Done _ => true | Fault _ => false end = true) as Hdone by (vm_compute; reflexivity).
  unfold system_started. by destruct (main_start _ _) as [[p s]|f].
Qed.

Lemma system_refines_atomic_witness :
  exists tr s x, system_end = Some (tr, (s, M_Exited)) /\ history tr = [(9, str "two"); (8, str "one")] /\
    atomic_run (Atomic d_init ∅ ∅ ∅) tr x /\
    dev_rep (device_after d_init [(9, str "two"); (8, str "one")]) ∅ (p_dev (sv_proc (h_server s))) /\
    out_of (sv_proc (h_server s)) 8 = str "two" ++ NL :: str "one" ++ [NL] /\
    out_of (sv_proc (h_server s)) 8 `prefix_of` answers 8 d_init [(9, str "two"); (8, str "one")] /\
    exists w', aesd_cleanup_module (p_dev (sv_proc (h_server s))) = Done (tt, w') /\ w_heap w' = ∅.
Proof.
  assert (match system_end with
    | Some (tr, (s, M_Exited)) => bool_decide (out_of (sv_proc (h_server s)) 8 = str "two" ++ NL :: str "one" ++ [NL]) &&
        bool_decide (history tr = [(9, str "two"); (8, str "one")])
    | _ => false
    end = true) as Hend by (vm_compute; reflexivity).
  unfold system_end in *. destruct (make_moves _ _ _ _) as [[tr [s pc]]|] eqn:E; [|discriminate Hend].
  destruct pc; try discriminate Hend. apply andb_true_iff in Hend as [Hend%bool_decide_eq_true Hh%bool_decide_eq_true].
  destruct (system_refines_atomic sample_kernel sample_kernel_laws sample_libc sample_sockets buffered_stdio many_pthreads
    (sample_net addr4) sample_host sample_libc_laws buffered_stdio_laws many_pthreads_laws (sample_net_laws addr4)
    empty_world loaded [str "aesdsocket"] system_started.1 system_started.2 tr s M_Exited
    sample_malloc_succeeds sample_kmalloc_succeeds sample_net_reliable (fun ts => mk_is_Some _ _ eq_refl) sample_net_ipv4)
    as (x & Hx & Hrep & Hpre & _ & _ & _ & Hexit).
  - reflexivity.
  - exact loaded_ok.
  - exact system_started_ok.
  - refine (make_moves_ok _ 4096 _ _ _ _ _ _ E). intros s' Hb fd. pose proof (small_b_ok 4096 s' eq_refl Hb fd) as Hl.
    change (dev_max (FileDevLaws := driver_dev_laws (w_heap empty_world))) with 4194304. lia.
  - rewrite Hh in Hrep. specialize (Hpre 8). rewrite Hh in Hpre. exists tr, s, x. split; [reflexivity|]. split; [exact Hh|].
    split; [exact Hx|]. split; [exact Hrep|]. split; [exact Hend|]. split; [exact Hpre|]. apply Hexit. reflexivity.
Defined.
