(* ===== verification/SystemCalls.v ===== *)
(** Running other programs ([examples/systemcalls/systemcalls.c]).

    [fork] runs the child's branch on a copy of the process that shares the files.
    Each branch ends in one of the ways of [ending]: the process becomes another
    program, aborts, or returns into the caller of the function, which is how a child
    must not end. [ProcSys] holds what the system, the programs and the caller do. *)

From S2P Require Import Prelude CMonad.
Local Open Scope Z_scope.
Local Open Scope cmonad_scope.

(** *** Wait statuses *)

Definition WIFEXITED (status : Z) : bool := Z.land status 127 =? 0.
Definition WEXITSTATUS (status : Z) : Z := Z.shiftr (Z.land status 65280) 8.
(** Killed by SIGABRT, with a core dump. *)
Definition aborted_status : Z := 134.

Class ProcSys := {
  (** [system(NULL)]: whether there is a shell. *)
  sys_shell : Z;
  (** [system(cmd)]: -1 or a wait status. *)
  sys_system : bytes -> Z;
  sys_fork : option Z;
  (** [execv] can start this program. *)
  sys_executable : bytes -> bool;
  (** The wait status of the program with these arguments, and what it prints. *)
  sys_program : list bytes -> Z * bytes;
  sys_waitpid : bool;
  (** Whether [open] for writing succeeds, with these descriptors in use. *)
  sys_opens : bytes -> gset Z -> bool;
  (** Whether [dup2] of an open descriptor onto another one succeeds. *)
  sys_dup2 : bool;
  (** The rest of the calling program, run with this result: its wait status and what it prints. *)
  sys_caller : bool -> Z * bytes;
}.

Class ProcSysLaws (S : ProcSys) : Prop := {
  sys_fork_pos pid : sys_fork = Some pid -> 0 < pid;
}.

(** A process: the file each descriptor writes to, and the text buffered for [stdout]. *)
Record task := Task { t_fds : gmap Z bytes; t_stdout : bytes }.

Inductive ending :=
  | Returns (b : bool) (t : task)
  | Becomes (argv : list bytes) (t : task)
  | Aborts.

(** The process that runs the function, the files, and how its child ended. *)
Record sys := Sys { x_task : task; x_files : gmap bytes bytes; x_child : option ending }.

Section systemcalls.
Context {PS : ProcSys}.

Definition set_fds (f : gmap Z bytes) (s : sys) : sys := Sys (Task f (t_stdout (x_task s))) (x_files s) (x_child s).

(** Text written to descriptor 1 of a process: descriptors here are only written forward. *)
Definition write_stdout (t : task) (bs : bytes) (files : gmap bytes bytes) : gmap bytes bytes :=
  match t_fds t !! 1 with
  | Some path => <[path := default [] (files !! path) ++ bs]> files
  | None => files
  end.

(** What becomes of a child: its wait status and the files it leaves. [exit] flushes [stdout]. *)
Definition run_ending (e : ending) (files : gmap bytes bytes) : Z * gmap bytes bytes :=
  match e with
  | Returns b t => let '(st, out) := sys_caller b in (st, write_stdout t (t_stdout t ++ out) files)
  | Becomes argv t => let '(st, out) := sys_program argv in (st, write_stdout t out files)
  | Aborts => (aborted_status, files)
  end.

(** [fork]: -1, or the child's process id with the child run to its end. *)
Definition do_fork (child : M sys ending) : M sys Z :=
  match sys_fork with
  | None => ret (-1)
  | Some pid => fun s =>
      match child s with
      | Done (e, s') => Done (pid, Sys (x_task s) (snd (run_ending e (x_files s'))) (Some e))
      | Fault f => Fault f
      end
  end.
(** [waitpid] for the child: an error, or its wait status. *)
Definition do_waitpid : M sys (option Z) :=
  let! s := mget in
  ret (match x_child s with
       | Some e => if sys_waitpid then Some (fst (run_ending e (x_files s))) else None
       | None => None
       end).
Definition do_fflush_stdout : M sys unit :=
  mmodify (fun s => Sys (Task (t_fds (x_task s)) []) (write_stdout (x_task s) (t_stdout (x_task s)) (x_files s)) (x_child s)).
(** [open(path, O_WRONLY|O_TRUNC|O_CREAT, 0644)]: the lowest descriptor that is not in use. *)
Definition do_open_trunc (path : bytes) : M sys Z :=
  let! s := mget in
  if sys_opens path (dom (t_fds (x_task s))) then
    let fd := lowest_free (dom (t_fds (x_task s))) in
    mput (Sys (Task (<[fd := path]> (t_fds (x_task s))) (t_stdout (x_task s)))
              (<[path := []]> (x_files s)) (x_child s));;
    ret fd
  else ret (-1).
(** [dup2] of an open descriptor onto itself does nothing. *)
Definition do_dup2 (fd fd2 : Z) : M sys Z :=
  let! s := mget in
  match t_fds (x_task s) !! fd with
  | Some path =>
      if fd =? fd2 then ret fd2
      else if sys_dup2 then mput (set_fds (<[fd2 := path]> (t_fds (x_task s))) s);; ret fd2
      else ret (-1)
  | None => ret (-1)
  end.
Definition do_close (fd : Z) : M sys unit := mmodify (fun s => set_fds (delete fd (t_fds (x_task s))) s).
(** [execv(command[0], command)]: how the process ends, or [None] when it returns.
    With no argument [command[0]] is NULL, which is no program. *)
Definition do_execv (command : list bytes) : M sys (option ending) :=
  let! s := mget in
  ret (match command with
       | path :: _ => if sys_executable path then Some (Becomes command (x_task s)) else None
       | [] => None
       end).

(** *** The functions; [cmd] is NULL as [None] *)

Definition do_system (cmd : option bytes) : bool :=
  match cmd with
  | Some cmd => let r := sys_system cmd in negb (r =? -1) && WIFEXITED r && (WEXITSTATUS r =? 0)
  | None => negb (sys_shell =? 0)
  end.

Definition wait_result : M sys bool :=
  let! status := do_waitpid in
  match status with
  | None => ret false
  | Some status => ret (WIFEXITED status && (WEXITSTATUS status =? 0))
  end.

Definition do_exec_child (command : list bytes) : M sys ending :=
  let! e := do_execv command in
  match e with
  | Some e => ret e
  | None => ret Aborts
  end.
Definition do_exec (command : list bytes) : M sys bool :=
  do_fflush_stdout;;
  let! pid := do_fork (do_exec_child command) in
  if pid =? -1 then ret false else wait_result.

Definition do_exec_redirect_child (fd : Z) (command : list bytes) : M sys ending :=
  let! r := do_dup2 fd 1 in
  let! e := (if r <? 0 then do_close fd;; ret None else do_close fd;; do_execv command) in
  match e with
  | Some e => ret e
  | None => let! s := mget in ret (Returns false (x_task s))
  end.
Definition do_exec_redirect (outputfile : bytes) (command : list bytes) : M sys bool :=
  let! fd := do_open_trunc outputfile in
  if fd <? 0 then ret false
  else
    let! pid := do_fork (do_exec_redirect_child fd command) in
    if pid =? -1 then ret false else wait_result.
End systemcalls.

(** ** Properties *)

(** The status of a process that ended by itself with exit status 0. *)
Definition exited_0 (status : Z) : bool := WIFEXITED status && (WEXITSTATUS status =? 0).

Section facts.
Context {PS : ProcSys} {PL : ProcSysLaws PS}.

Definition starts (command : list bytes) : bool :=
  match command with path :: _ => sys_executable path | [] => false end.

(** What the parent learns from a child that ended. *)
Lemma wait_result_eq s e :
  x_child s = Some e -> wait_result s = Done (sys_waitpid && exited_0 (fst (run_ending e (x_files s))), s).
Proof.
  intros He. unfold wait_result, do_waitpid, bind, mget, ret. rewrite He. by destruct sys_waitpid.
Qed.

Lemma run_ending_status e f f' : fst (run_ending e f) = fst (run_ending e f').
Proof.
  destruct e as [b t|argv t|]; simpl; [by destruct (sys_caller b)|by destruct (sys_program argv)|done].
Qed.

Lemma fork_wait_eq (child : M sys ending) s e s' :
  child s = Done (e, s') ->
  bind (do_fork child) (fun pid => if pid =? -1 then ret false else wait_result) s =
  match sys_fork with
  | None => Done (false, s)
  | Some _ => let '(st, files) := run_ending e (x_files s') in
              Done (sys_waitpid && exited_0 st, Sys (x_task s) files (Some e))
  end.
Proof.
  intros Hc. unfold bind at 1, do_fork. destruct sys_fork as [pid|] eqn:Ef; [|done].
  rewrite Hc. pose proof (sys_fork_pos _ Ef). rewrite (proj2 (Z.eqb_neq pid (-1))) by lia.
  rewrite (wait_result_eq _ e) by done. simpl.
  rewrite (run_ending_status e _ (x_files s')). by destruct (run_ending e (x_files s')).
Qed.
End facts.

(** C37: [do_exec] never lets its child return into the caller, writes out the text buffered
    before the fork exactly once, and returns true exactly when the child could be made and
    waited for, the program could be started, and it ended by itself with status 0. *)
Theorem do_exec_correct (PS : ProcSys) (PL : ProcSysLaws PS) command s :
  let t := Task (t_fds (x_task s)) [] in
  let files := write_stdout (x_task s) (t_stdout (x_task s)) (x_files s) in
  do_exec command s =
  match sys_fork with
  | None => Done (false, Sys t files (x_child s))
  | Some _ =>
      if starts command then
        Done (sys_waitpid && exited_0 (fst (sys_program command)),
              Sys t (write_stdout t (snd (sys_program command)) files) (Some (Becomes command t)))
      else Done (false, Sys t files (Some Aborts))
  end.
Proof.
  intros t files. unfold do_exec, do_fflush_stdout. unfold bind at 1. unfold mmodify. fold t files.
  set (s1 := Sys t files (x_child s)).
  assert (do_exec_child command s1 = Done (if starts command then Becomes command t else Aborts, s1)) as Hc.
  { unfold do_exec_child, do_execv, bind, mget, ret, starts. destruct command as [|p c]; [done|].
    by destruct (sys_executable p). }
  rewrite (fork_wait_eq _ _ _ _ Hc). destruct sys_fork as [pid|]; [|done]. destruct (starts command); simpl.
  - by destruct (sys_program command).
  - by rewrite andb_false_r.
Qed.

(** What [do_exec_redirect] leaves to the child as its descriptors, when [open] gave it [fd]. *)
Definition redirected {PS : ProcSys} (fd : Z) (outputfile : bytes) (fds : gmap Z bytes) : gmap Z bytes :=
  if (fd =? 1) || negb sys_dup2 then fds else <[1 := outputfile]> fds.

Lemma do_exec_redirect_child_eq (PS : ProcSys) outputfile command fds out files ch :
  let fd := lowest_free (dom fds) in
  let t' := Task (redirected fd outputfile fds) out in
  exists s', do_exec_redirect_child fd command (Sys (Task (<[fd := outputfile]> fds) out) files ch) =
             Done (if ((fd =? 1) || sys_dup2) && starts command then Becomes command t' else Returns false t', s') /\
             x_files s' = files.
Proof.
  intros fd t'. destruct (lowest_free_spec (dom fds)) as (Hp & Hf%not_elem_of_dom & _). fold fd in Hp, Hf.
  unfold t', do_exec_redirect_child, redirected, do_dup2, do_close, do_execv, bind, mget, mput, mmodify, ret.
  simpl. rewrite lookup_insert_eq. destruct (Z.eqb_spec fd 1) as [H1|H1]; simpl.
  - rewrite delete_insert_id by done. destruct command as [|p c]; simpl; [by eexists|].
    destruct (sys_executable p); by eexists.
  - destruct sys_dup2; simpl.
    + rewrite delete_insert_ne by done. rewrite delete_insert_id by done.
      destruct command as [|p c]; simpl; [by eexists|]. destruct (sys_executable p); by eexists.
    + rewrite delete_insert_id by done. by eexists.
Qed.

(** C38: [do_exec_redirect] in every case. The output file is opened as the lowest free descriptor
    and emptied. If a program can be started in the child it is run with its output in that
    file, and the result says whether it ended by itself with status 0; but if the caller has
    descriptor 1 closed, the file can be opened as descriptor 1 itself, which the child closes
    again, and the program runs with no output file: the file stays empty. If the program cannot
    be started, or [dup2] fails, the child returns false into the caller as well, with
    the parent's buffered text in a second copy, and the result says how the rest of the caller
    ended there. In every case the parent keeps the descriptor open. *)
Theorem do_exec_redirect_correct (PS : ProcSys) (PL : ProcSysLaws PS) outputfile command s :
  let fds := t_fds (x_task s) in
  let fd := lowest_free (dom fds) in
  do_exec_redirect outputfile command s =
  if negb (sys_opens outputfile (dom fds)) then Done (false, s)
  else
    let t := Task (<[fd := outputfile]> fds) (t_stdout (x_task s)) in
    let t' := Task (redirected fd outputfile fds) (t_stdout (x_task s)) in
    let files := <[outputfile := []]> (x_files s) in
    match sys_fork with
    | None => Done (false, Sys t files (x_child s))
    | Some _ =>
        if ((fd =? 1) || sys_dup2) && starts command then
          let '(st, out) := sys_program command in
          Done (sys_waitpid && exited_0 st,
                Sys t (<[outputfile := if fd =? 1 then [] else out]> (x_files s)) (Some (Becomes command t')))
        else
          let '(st, out) := sys_caller false in
          Done (sys_waitpid && exited_0 st,
                Sys t (write_stdout t' (t_stdout (x_task s) ++ out) files) (Some (Returns false t')))
    end.
Proof.
  intros fds fd. unfold do_exec_redirect, do_open_trunc. unfold bind at 1, bind at 1, mget. fold fds.
  destruct (sys_opens outputfile (dom fds)); [|done]. fold fd. simpl negb. cbv iota.
  destruct (lowest_free_spec (dom fds)) as (Hp & Hf & _). fold fd in Hp, Hf.
  set (t := Task (<[fd := outputfile]> fds) _). set (files := <[outputfile := []]> _).
  unfold bind at 1, mput, ret at 1. rewrite (proj2 (Z.ltb_ge fd 0)) by lia.
  destruct (do_exec_redirect_child_eq PS outputfile command fds (t_stdout (x_task s)) files (x_child s)) as (s' & Hc & Hfiles).
  rewrite (fork_wait_eq _ _ _ _ Hc), Hfiles. destruct sys_fork; [|done]. fold fd.
  destruct (((fd =? 1) || sys_dup2) && starts command) eqn:Es; simpl; [|by destruct (sys_caller false)].
  destruct (sys_program command) as [st out]. unfold write_stdout, redirected. simpl.
  apply andb_true_iff in Es as [Es _]. destruct (Z.eqb_spec fd 1) as [E|E]; simpl in *.
  - apply not_elem_of_dom in Hf. rewrite E in Hf. by rewrite Hf.
  - rewrite Es. simpl. rewrite lookup_insert_eq. unfold files. by rewrite lookup_insert_eq, insert_insert_eq.
Qed.

(** ** Witnesses: a system with one program, which prints its argument and succeeds *)

Definition echo : bytes := str "/bin/echo".

#[export] Instance sample_procsys : ProcSys := {|
  sys_shell := 1;
  sys_system cmd := 0;
  sys_fork := Some 300;
  sys_executable path := bool_decide (path = echo);
  sys_program argv := (0, concat (tail argv));
  sys_waitpid := true;
  sys_opens path fds := true;
  sys_dup2 := true;
  sys_caller b := (0, str "failed");
|}.

Lemma sample_procsys_laws : ProcSysLaws sample_procsys.
Proof.
  split; simpl. by intros pid [= <-].
Qed.

Definition tty : bytes := str "/dev/tty".
Definition sample_sys : sys := Sys (Task {[0 := tty; 1 := tty; 2 := tty]} (str "text")) ∅ None.

Lemma do_exec_correct_witness :
  do_exec [echo; str "hi"] sample_sys =
  Done (true, Sys (Task {[0 := tty; 1 := tty; 2 := tty]} []) {[tty := str "texthi"]}
                  (Some (Becomes [echo; str "hi"] (Task {[0 := tty; 1 := tty; 2 := tty]} [])))).
Proof. rewrite (do_exec_correct sample_procsys sample_procsys_laws). vm_compute. reflexivity. Defined.

(** A program that cannot be started: the child returns too, and the result is true. Then a
    caller with descriptor 1 closed, whose output file stays empty. *)
Lemma do_exec_redirect_correct_witness :
  do_exec_redirect (str "out") [str "nowhere"] sample_sys =
  Done (true, Sys (Task {[0 := tty; 1 := tty; 2 := tty; 3 := str "out"]} (str "text")) {[str "out" := str "textfailed"]}
                  (Some (Returns false (Task {[0 := tty; 1 := str "out"; 2 := tty]} (str "text"))))) /\
  do_exec_redirect (str "out") [echo; str "hi"] (Sys (Task {[0 := tty; 2 := tty]} []) ∅ None) =
  Done (true, Sys (Task {[0 := tty; 1 := str "out"; 2 := tty]} []) {[str "out" := []]}
                  (Some (Becomes [echo; str "hi"] (Task {[0 := tty; 2 := tty]} [])))).
Proof. split; rewrite (do_exec_redirect_correct sample_procsys sample_procsys_laws); vm_compute; reflexivity. Defined.

Example do_system_null : do_system None = true.
Proof. reflexivity. Qed.
