(* ===== verification/Threading.v ===== *)
(** A thread that holds a mutex for a while ([examples/threading/threading.c]).

    The state has the [thread_data] objects, which mutexes are held, and the time slept
    in nanoseconds. A wait is given in milliseconds in an [unsigned int], and the
    conversion to nanoseconds is an [unsigned int] multiplication, so it wraps. *)

From S2P Require Import Prelude CMonad KHeap Libc.
Local Open Scope Z_scope.
Local Open Scope cmonad_scope.

Record thread_data := ThreadData {
  p_mutex : Z;
  ms_to_wait_before_lock : Z;
  ms_to_wait_before_unlock : Z;
  thread_complete_success : bool;
}.

(** [nanosleep_error t ns]: the error of a sleep of [ns] begun at time [t], or 0;
    [mutex_error], [unlock_error]: those of the mutex calls; [create_error]: that of [pthread_create]. *)
Class ThreadSys := {
  nanosleep_error : Z -> Z -> Z;
  mutex_error : Z -> Z;
  unlock_error : Z -> Z;
  create_error : Z;
}.

Definition EINVAL_nsec : Z := 10 ^ 9.
(** A sleep whose nanoseconds are not below a second is refused. *)
Class ThreadSysLaws (T : ThreadSys) : Prop := {
  nanosleep_einval t ns : EINVAL_nsec <= ns -> nanosleep_error t ns <> 0;
}.

Record tstate := TState {
  t_data : gmap loc thread_data;
  t_held : gset Z;
  t_slept : Z;
  t_started : list ptr;   (** the arguments of the threads started, newest first *)
}.

Section threading.
Context {T : ThreadSys} {L : Libc}.

Definition set_data (d : gmap loc thread_data) (s : tstate) : tstate := TState d (t_held s) (t_slept s) (t_started s).
Definition set_held (h : gset Z) (s : tstate) : tstate := TState (t_data s) h (t_slept s) (t_started s).
Definition set_slept (n : Z) (s : tstate) : tstate := TState (t_data s) (t_held s) n (t_started s).
Definition set_started (l : list ptr) (s : tstate) : tstate := TState (t_data s) (t_held s) (t_slept s) l.

Definition do_clock_nanosleep (ns : Z) : M tstate Z :=
  let! s := mget in
  let e := nanosleep_error (t_slept s) ns in
  if e =? 0 then mput (set_slept (t_slept s + ns) s);; ret 0 else ret e.
Definition do_mutex_lock (m : Z) : M tstate Z :=
  if negb (mutex_error m =? 0) then ret (mutex_error m)
  else
    let! s := mget in
    if bool_decide (m ∈ t_held s) then mfault Blocked
    else mput (set_held ({[m]} ∪ t_held s) s);; ret 0.
Definition do_mutex_unlock (m : Z) : M tstate Z :=
  if negb (unlock_error m =? 0) then ret (unlock_error m)
  else mmodify (fun s => set_held (t_held s ∖ {[m]}) s);; ret 0.

Definition get_data (p : ptr) : M tstate thread_data :=
  match p with
  | PLoc l => let! s := mget in mopt BadAccess (t_data s !! l)
  | _ => mfault BadAccess
  end.
Definition set_success (p : ptr) (b : bool) : M tstate unit :=
  match p with
  | PLoc l =>
      let! d := get_data p in
      mmodify (fun s => set_data (<[l := ThreadData (p_mutex d) (ms_to_wait_before_lock d) (ms_to_wait_before_unlock d) b]>
                                    (t_data s)) s)
  | _ => mfault BadAccess
  end.

(** *** The functions *)

Definition wait_ms (ms : Z) : M tstate bool :=
  let! r := do_clock_nanosleep (u32 (ms * 1000000)) in
  ret (r =? 0).

Definition threadfunc (my_args : ptr) : M tstate ptr :=
  set_success my_args false;;
  let! d := get_data my_args in
  let! ok := wait_ms (ms_to_wait_before_lock d) in
  if negb ok then ret my_args
  else
    let! d := get_data my_args in
    let! r := do_mutex_lock (p_mutex d) in
    if negb (r =? 0) then ret my_args
    else
      let! d := get_data my_args in
      let! ok := wait_ms (ms_to_wait_before_unlock d) in
      if negb ok then ret my_args
      else
        let! d := get_data my_args in
        let! r := do_mutex_unlock (p_mutex d) in
        if negb (r =? 0) then ret my_args
        else set_success my_args true;; ret my_args.

(** The thread's argument is recorded as started; the thread runs [threadfunc] on it. *)
Definition start_thread_obtaining_mutex (mutex wait_to_obtain_ms wait_to_release_ms : Z) : M tstate bool :=
  let! s := mget in
  match malloc (t_data s) 24 with
  | None => ret false
  | Some l =>
      mput (set_data (<[l := ThreadData mutex (u32 wait_to_obtain_ms) (u32 wait_to_release_ms) false]> (t_data s)) s);;
      if negb (create_error =? 0) then ret false
      else mmodify (fun s => set_started (PLoc l :: t_started s) s);; ret true
  end.
End threading.

(** ** Properties *)

Section facts.
Context {T : ThreadSys} {TL : ThreadSysLaws T}.

(** The nanoseconds a wait of [ms] milliseconds asks for. *)
Definition wait_ns (ms : Z) : Z := u32 (ms * 1000000).
Definition sleeps (t ms : Z) : bool := nanosleep_error t (wait_ns ms) =? 0.

Lemma wait_ms_eq ms s :
  wait_ms ms s = if sleeps (t_slept s) ms then Done (true, set_slept (t_slept s + wait_ns ms) s) else Done (false, s).
Proof.
  unfold wait_ms, do_clock_nanosleep, bind, mget, mput, ret, sleeps, wait_ns.
  destruct (_ =? 0) eqn:E; [done|]. by rewrite E.
Qed.

(** Below a second the wait is as long as asked for; from one second to 4294 milliseconds it fails. *)
Lemma wait_ns_small ms : 0 <= ms < 1000 -> wait_ns ms = ms * 1000000.
Proof. intros. unfold wait_ns. apply u32_small. lia. Qed.
Lemma wait_ns_large t ms : 1000 <= ms <= 4294 -> sleeps t ms = false.
Proof.
  intros. apply Z.eqb_neq, nanosleep_einval. unfold wait_ns, EINVAL_nsec.
  rewrite u32_small by lia. lia.
Qed.
(** From 4295 on the multiplication wraps: that wait is of 32704 nanoseconds. *)
Example wait_ns_wraps : wait_ns 4295 = 32704.
Proof. reflexivity. Qed.

Definition finish (d : thread_data) (b : bool) : thread_data :=
  ThreadData (p_mutex d) (ms_to_wait_before_lock d) (ms_to_wait_before_unlock d) b.

(** The whole thread, as a function of what the system does. *)
Definition thread_result (l : loc) (d : thread_data) (s : tstate) : tstate :=
  let m := p_mutex d in
  let s0 := set_data (<[l := finish d false]> (t_data s)) s in
  if sleeps (t_slept s) (ms_to_wait_before_lock d) then
    let t1 := t_slept s + wait_ns (ms_to_wait_before_lock d) in
    if mutex_error m =? 0 then
      let s1 := set_held ({[m]} ∪ t_held s) (set_slept t1 s0) in
      if sleeps t1 (ms_to_wait_before_unlock d) then
        let s2 := set_slept (t1 + wait_ns (ms_to_wait_before_unlock d)) s1 in
        if unlock_error m =? 0 then set_data (<[l := finish d true]> (t_data s)) (set_held (t_held s) s2) else s2
      else s1
    else set_slept t1 s0
  else s0.

Lemma threadfunc_eq l d s :
  t_data s !! l = Some d -> (p_mutex d ∉ t_held s) ->
  threadfunc (PLoc l) s = Done (PLoc l, thread_result l d s).
Proof.
  intros Hl Hm. set (s0 := set_data (<[l := finish d false]> (t_data s)) s).
  assert (forall v, t_data v = t_data s0 -> get_data (PLoc l) v = Done (finish d false, v)) as Hget.
  { intros v Hv. unfold get_data, bind, mget, mopt. by rewrite Hv; unfold s0; simpl; rewrite lookup_insert_eq. }
  assert (set_success (PLoc l) false s = Done (tt, s0)) as E0.
  { unfold set_success, get_data, bind, mget, mopt. by rewrite Hl. }
  unfold threadfunc, thread_result. fold s0. unfold bind at 1. rewrite E0.
  unfold bind at 1. rewrite (Hget s0) by done. unfold bind at 1. rewrite wait_ms_eq.
  change (t_slept s0) with (t_slept s). cbn [ms_to_wait_before_lock finish].
  destruct (sleeps (t_slept s) (ms_to_wait_before_lock d)); [|done]. cbn [negb].
  set (t1 := t_slept s + _). unfold bind at 1. rewrite (Hget (set_slept t1 s0)) by done. unfold bind at 1, do_mutex_lock.
  cbn [p_mutex finish]. destruct (mutex_error (p_mutex d) =? 0) eqn:Em; cbn [negb]; [|by unfold ret; rewrite Em].
  unfold bind at 1, mget. rewrite bool_decide_false by done. unfold bind at 1, mput, ret at 1.
  set (s1 := set_held ({[p_mutex d]} ∪ t_held s) (set_slept t1 s0)).
  change (set_held _ (set_slept t1 s0)) with s1. cbn [negb Z.eqb].
  unfold bind at 1. rewrite (Hget s1) by done. unfold bind at 1. rewrite wait_ms_eq.
  change (t_slept s1) with t1. cbn [ms_to_wait_before_unlock finish].
  destruct (sleeps t1 (ms_to_wait_before_unlock d)); [|done]. cbn [negb].
  set (s2 := set_slept _ s1). unfold bind at 1. rewrite (Hget s2) by done. unfold bind at 1, do_mutex_unlock.
  cbn [p_mutex finish]. destruct (unlock_error (p_mutex d) =? 0) eqn:Eu; cbn [negb]; [|by unfold ret; rewrite Eu].
  unfold bind at 1, mmodify, ret at 1. cbn [negb Z.eqb].
  assert (t_held s2 ∖ {[p_mutex d]} = t_held s) as -> by (unfold s2, s1; simpl; clear -Hm; set_solver).
  unfold bind, set_success. unfold bind. rewrite Hget by done. unfold mmodify, ret. do 2 f_equal.
  unfold set_data, set_held, s2, s1, s0. simpl. by rewrite insert_insert_eq.
Qed.
End facts.

(** C39: a thread started on a free mutex with waits below one second, in a system whose calls
    succeed, sleeps as long as asked for, leaves the mutex free and reports success; with a
    wait of one to 4.294 seconds before the unlock it ends without success and the mutex
    stays held for ever. *)
Theorem threadfunc_correct (T : ThreadSys) (TL : ThreadSysLaws T) l d s :
  t_data s !! l = Some d -> (p_mutex d ∉ t_held s) ->
  (forall t ns, 0 <= ns < 10 ^ 9 -> nanosleep_error t ns = 0) ->
  mutex_error (p_mutex d) = 0 -> unlock_error (p_mutex d) = 0 ->
  0 <= ms_to_wait_before_lock d < 1000 ->
  (0 <= ms_to_wait_before_unlock d < 1000 ->
   threadfunc (PLoc l) s =
   Done (PLoc l, TState (<[l := finish d true]> (t_data s)) (t_held s)
                   (t_slept s + (ms_to_wait_before_lock d + ms_to_wait_before_unlock d) * 1000000) (t_started s))) /\
  (1000 <= ms_to_wait_before_unlock d <= 4294 ->
   threadfunc (PLoc l) s =
   Done (PLoc l, TState (<[l := finish d false]> (t_data s)) ({[p_mutex d]} ∪ t_held s)
                   (t_slept s + ms_to_wait_before_lock d * 1000000) (t_started s))).
Proof.
  intros Hl Hm Hsl He1 He2 H1. rewrite (threadfunc_eq l d s Hl Hm). unfold thread_result.
  assert (forall t ms, 0 <= ms < 1000 -> sleeps t ms = true) as Hok.
  { intros t ms ?. unfold sleeps. rewrite wait_ns_small, Hsl by lia. done. }
  rewrite Hok, He1, He2, (wait_ns_small (ms_to_wait_before_lock d)) by lia. cbn [Z.eqb].
  split; intros H2.
  - rewrite Hok, wait_ns_small by lia. unfold set_data, set_held, set_slept. simpl. do 3 f_equal. lia.
  - by rewrite wait_ns_large.
Qed.

(** When the thread cannot be created its [thread_data] stays allocated, unknown to anyone. *)
Lemma start_thread_failure_leaks (T : ThreadSys) (L : Libc) (LL : LibcLaws L) mutex a b s l :
  malloc (t_data s) 24 = Some l -> create_error <> 0 ->
  t_data s !! l = None /\
  start_thread_obtaining_mutex mutex a b s =
  Done (false, set_data (<[l := ThreadData mutex (u32 a) (u32 b) false]> (t_data s)) s).
Proof.
  intros Hm Hc. split; [by eapply malloc_fresh|].
  unfold start_thread_obtaining_mutex, bind, mget, mput. rewrite Hm. by rewrite (proj2 (Z.eqb_neq _ _) Hc).
Qed.

(** ** Witness *)

#[export] Instance sample_threadsys : ThreadSys := {|
  nanosleep_error t ns := if ns <? 10 ^ 9 then 0 else 22;
  mutex_error m := 0; unlock_error m := 0; create_error := 0;
|}.
Lemma sample_threadsys_laws : ThreadSysLaws sample_threadsys.
Proof. split. intros t ns H. simpl. unfold EINVAL_nsec in H. by rewrite (proj2 (Z.ltb_ge _ _)). Qed.

Definition sample_tstate (ms : Z) : tstate := TState {[1%positive := ThreadData 5 10 ms false]} ∅ 0 [PLoc 1].

Lemma threadfunc_correct_witness :
  threadfunc (PLoc 1) (sample_tstate 20) =
    Done (PLoc 1, TState {[1%positive := ThreadData 5 10 20 true]} ∅ 30000000 [PLoc 1]) /\
  threadfunc (PLoc 1) (sample_tstate 2000) =
    Done (PLoc 1, TState {[1%positive := ThreadData 5 10 2000 false]} {[5]} 10000000 [PLoc 1]).
Proof.
  assert (forall t ns, 0 <= ns < 10 ^ 9 -> nanosleep_error t ns = 0) as Hsl.
  { intros t ns ?. simpl. by rewrite (proj2 (Z.ltb_lt _ _)) by lia. }
  split.
  - refine (proj1 (threadfunc_correct sample_threadsys sample_threadsys_laws 1 (ThreadData 5 10 20 false)
                     (sample_tstate 20) eq_refl _ Hsl eq_refl eq_refl _) _); [set_solver|simpl; lia|simpl; lia].
  - etransitivity.
    + refine (proj2 (threadfunc_correct sample_threadsys sample_threadsys_laws 1 (ThreadData 5 10 2000 false)
                     (sample_tstate 2000) eq_refl _ Hsl eq_refl eq_refl _) _); [set_solver|simpl; lia|simpl; lia].
    + vm_compute. reflexivity.
Defined.
