(* ===== verification/Writer.v ===== *)
(** The [writer] utility ([finder-app/writer.c]).

    [WriterSys] is what the system decides: whether a file can be opened for writing, and
    how much of a text a file takes. The state is the files' contents and the lines logged. *)

From S2P Require Import Prelude CMonad.
Local Open Scope Z_scope.
Local Open Scope cmonad_scope.

Class WriterSys := {
  fs_openable : bytes -> bool;
  fs_room : bytes -> nat;
}.

Inductive priority := LOG_ERR | LOG_DEBUG.
Record wstate := WState { w_files : gmap bytes bytes; w_open : gset bytes; w_log : list (priority * list bytes) }.

Section writer.
Context {W : WriterSys}.

Definition syslog (p : priority) (args : list bytes) : M wstate unit :=
  mmodify (fun s => WState (w_files s) (w_open s) ((p, args) :: w_log s)).
(** [fopen(path, "w")] creates the file or empties it. *)
Definition fopen_w (path : bytes) : M wstate bool :=
  if fs_openable path then
    mmodify (fun s => WState (<[path := []]> (w_files s)) ({[path]} ∪ w_open s) (w_log s));; ret true
  else ret false.
(** [fprintf(fd, "%s", bs)] and the flush of [fclose]: the file takes what it has room for. *)
Definition fprintf_s (path bs : bytes) : M wstate Z :=
  mmodify (fun s => WState (<[path := default [] (w_files s !! path) ++ take (fs_room path) bs]> (w_files s))
                      (w_open s) (w_log s));;
  ret (if bool_decide (length bs <= fs_room path)%nat then zlen bs else -1).
Definition fclose_w (path : bytes) : M wstate unit :=
  mmodify (fun s => WState (w_files s) (w_open s ∖ {[path]}) (w_log s)).

(** [main]: the exit status. *)
Definition writer_main (argv : list bytes) : M wstate Z :=
  match argv with
  | [_; filestr; writestr] =>
      syslog LOG_DEBUG [writestr; filestr];;
      let! fd := fopen_w filestr in
      if negb fd then syslog LOG_ERR [filestr];; ret 1
      else
        let! written_bytes := fprintf_s filestr writestr in
        fclose_w filestr;;
        ret 0
  | _ => syslog LOG_ERR [];; ret 1
  end.
End writer.

(** C40: with two arguments and a file that can be opened the file holds what it had room for of the
    text, no other file changes, nothing stays open and the status is 0 even when the
    text did not fit; otherwise no file changes and the status is 1. *)
Theorem writer_main_correct (W : WriterSys) argv s :
  w_open s = ∅ ->
  exists r s', writer_main argv s = Done (r, s') /\ w_open s' = ∅ /\
    match argv with
    | [_; filestr; writestr] =>
        if fs_openable filestr then
          r = 0 /\ w_files s' = <[filestr := take (fs_room filestr) writestr]> (w_files s)
        else r = 1 /\ w_files s' = w_files s
    | _ => r = 1 /\ w_files s' = w_files s
    end.
Proof.
  intros Ho. destruct argv as [|a [|filestr [|writestr [|e argv]]]]; try by (do 2 eexists; split_and!).
  unfold writer_main, fopen_w. destruct (fs_openable filestr) eqn:Ef; [|by do 2 eexists; split_and!].
  do 2 eexists. split; [reflexivity|]. simpl. rewrite Ho, lookup_insert_eq, insert_insert_eq. simpl.
  split_and!; [set_solver|done|done].
Qed.

(** ** Witness: a disk with room for three characters *)

#[export] Instance sample_writersys : WriterSys := {| fs_openable path := true; fs_room path := 3%nat |}.

Lemma writer_main_correct_witness :
  exists r s', writer_main [str "writer"; str "f"; str "hello"] (WState ∅ ∅ []) = Done (r, s') /\ w_open s' = ∅ /\
    r = 0 /\ w_files s' = {[str "f" := str "hel"]}.
Proof.
  exact (writer_main_correct sample_writersys [str "writer"; str "f"; str "hello"] (WState ∅ ∅ []) eq_refl).
Defined.
