(* ===== verification/Autotest.v ===== *)
(** The program and the test that check the course's test setup
    ([examples/autotest-validate] and [student-test/assignment1]). *)

From S2P Require Import Prelude Libc.

Definition git_username : bytes := str "akshita-bhasin".
Definition this_function_returns_true : bool := true.
Definition this_function_returns_false : bool := false.
Definition my_username : bytes := str "CiroDonnarumma89".

(** What [main] writes to its standard output. *)
Definition autotest_main : bytes :=
  str "this_function_returns_true returned " ++ (if this_function_returns_true then str "true" else str "false") ++ [NL] ++
  str "this_function_returns_false returned " ++ (if this_function_returns_false then str "true" else str "false") ++ [NL].

(** [malloc_username_from_conf_file] belongs to the test framework; the test passes if its
    string is the same as the program's. *)
Definition test_validate_my_username (malloc_username_from_conf_file : bytes) : bool :=
  bool_decide (my_username = malloc_username_from_conf_file).

(** The test does not look at [git_username], which is another name. *)
Lemma test_validate_other name : test_validate_my_username name = true -> name <> git_username.
Proof. unfold test_validate_my_username. intros <-%bool_decide_eq_true_1. by vm_compute. Qed.
